(* ===== verification/_CoqProject ===== *)
-Q . S2P
Prelude.v
Json.v
Text.v
Crates.v
Types.v
ConversationProtocol.v
StrictJson.v
ConversationTables.v
Protocol.v
Mentions.v
Facilitator.v
ActionItems.v
MemoryEngine.v
World.v
Store.v
StoreInvariant.v
Concurrency.v
ConversationContext.v
Catalog.v
Rooms.v
ConversationStore.v
ConversationTurns.v
ConversationUpdates.v
ConversationInvariant.v
ConversationSteps.v
ConversationClaims.v
ConversationReports.v
ConversationReserve.v
CatalogBridge.v
RoomsInvariant.v
RoomTheorems.v
Chat.v
Presence.v
Decisions.v
Tasks.v
System.v
ConversationTheorems.v
AgentService.v
AgentTheorems.v
Auth.v
WebSocket.v
Delivery.v
Sessions.v
Noninterference.v
ConversationService.v
ServiceTheorems.v
Config.v
Http.v
HttpFrame.v
Deployment.v
Scenario.v
ConversationScenario.v
