(* ===== verification/Prelude.v ===== *)
(** * ThoughtKhoral room gateway: a verified model

    The gateway (src/src/) is a Rust service in front of a PostgreSQL database. People talk in
    rooms over WebSockets; what they do is validated, committed to the room's log and broadcast;
    agents take tasks out of the rooms over HTTP; and one agent holds conversations, a turn at a
    time, whose context is frozen and disclosed to a worker. This library models all of it, from
    the environment variables [main] reads to the frames a socket is sent, and proves what its
    users rely on.

    ** The parts and how they interact

    A text arrives on a socket (ws.rs), is parsed and checked (protocol.rs) and, if it is for the
    room the session joined, given to [process] (rooms.rs), which runs one transaction on the
    store (store.rs) under the room's advisory lock: an earlier request with the same identifier
    is answered from its record; otherwise the handler of the method appends events, and the
    request is recorded with them. What was committed is offered to the memory engine's queue
    (memory_engine_client.rs) and sent on the room's broadcast channel, from which each session
    forwards what its actor may see. Requests over HTTP (ws.rs [app]) are the status page, the
    upgrade to a socket, the agent gateway's task routes (agent_service.rs) and the conversation
    service (conversation_service.rs), whose turns live in tables of their own
    (conversation_store.rs, conversation_context.rs) and whose model catalogue is read through a
    bridge (catalog_bridge.rs). All callers are authenticated by auth.rs; main.rs builds the state
    from config.rs.

    ** Files

    Foundations:
    - Prelude: [result], the state-and-error monad [M], weakest preconditions [wp] with the tactics
      [wp_step] and [wp_use], the preservation predicate [Pres] with [solve_pres], hint
      databases, and lemmas on lists and options.
    - Json, Text: [serde_json::Value] and Rust strings as bytes, with the operations the code uses.
    - Crates: the third-party interfaces (see below) and [Reference] instances of them.
    - Types: the structures of the sources with their serde forms.
    - World: the database [Db], the state of the process [Gateway], the [World] of both, and the
      primitives of sqlx: a transaction, a statement in it or on the pool, commit, rollback, lock.

    Rooms and tasks:
    - Protocol (protocol.rs), Mentions (the mention and visibility part of rooms.rs), ActionItems
      (action_items.rs), Facilitator (facilitator.rs), MemoryEngine (memory_engine_client.rs).
    - Store (store.rs), Rooms (rooms.rs), AgentService (agent_service.rs), Auth (auth.rs),
      WebSocket (ws.rs).
    - StoreInvariant, RoomsInvariant: the invariant of the tables, the specification of each
      statement and handler. RoomTheorems, Chat, Presence, Decisions, Tasks, AgentTheorems,
      Delivery, Sessions: what follows for clients, agents and connections.

    Conversations:
    - ConversationProtocol (conversation_protocol.rs and the policy of conversation_store.rs),
      ConversationTables (migrations 0006 and 0007), StrictJson and Catalog (parts of
      conversation_service.rs), ConversationContext (conversation_context.rs), ConversationStore,
      ConversationTurns, ConversationUpdates (conversation_store.rs), CatalogBridge
      (catalog_bridge.rs), ConversationService (conversation_service.rs).
    - ConversationInvariant, ConversationSteps, ConversationClaims, ConversationReports,
      ConversationReserve: invariant and specification of each operation; ConversationTheorems,
      ServiceTheorems: what follows.

    The whole:
    - Concurrency: the writers of rooms statement by statement, [step] as a relation and [act] as a
      function.
    - Noninterference: two gateways that agree on one room, related through every statement and
      handler of a session ([Sim], the relational counterpart of [wp]).
    - System: all operations that write, in any order. Config (config.rs, main.rs): start-up.
      Http (the routers of ws.rs and agent_service.rs), HttpFrame: all requests over HTTP.
      Deployment: everything together, from start-up on.
    - Scenario, ConversationScenario: concrete runs, to which the theorems are applied.

    ** How state and effects are modelled

    A handler is a function of type [M World E A]: it takes the world and returns a result or an
    error and the new world, so early returns, [?] and retained effects read as in the source.
    [committed] is what other requests see, [working] the open transaction's view. Every call to
    the outside advances [tick], and an [Oracle] gives for each tick the random identifier, the
    clocks and the outage: a database call is answered, fails without effect, or takes effect and
    loses its answer. A theorem for all oracles thus covers every pattern of failures, the loss of
    the connection during commit included. The statements are functions of [Db] with the keys,
    checks and foreign keys of the migrations; breaking one is an error of the statement. Integers
    are [Z] with the bounds of their Rust type where one is reached (sequence numbers, ordinals,
    [afterSequence], queue capacity); time is in nanoseconds, or PostgreSQL's microseconds where
    stored.

    In these definitions a transaction runs from begin to commit without another one in between;
    sessions, requests and background jobs interleave between operations in any order ([happens],
    [Operation]). For the transactions that append to rooms, Concurrency takes this apart: their
    statements on [room_events] and [room_requests] interleave as READ COMMITTED and the room's
    advisory lock allow, and the result is that of the same transactions one after the other.

    ** What is a parameter

    Code outside the repository is a class of operations, with a second class of laws where a
    theorem relies on documented behaviour: [UuidCrate] and [UuidLaws] (parse inverts format),
    [Chrono] and [ChronoLaws], [SerdeJson] and [JsonText] (the text syntax of JSON), [Schemas]
    (the JSON Schema validator and the pinned schemas), [Unicode] (NFKD), [Sha2], [UrlCrate],
    [UriCrate], [UrlDecoding], [Postgres] and [PostgresLaws] (conversion to timestamptz), [Jwt]
    and [JwtLaws] (signature and claim checks), [HttpClient] and [HttpClientLaws], [Timer],
    [HashOrder] (iteration order of a HashMap), [Socket], [BroadcastChannel] and [BroadcastLaws]
    (tokio's broadcast channel), [Tcp], [Extractors] (axum's rejections), [NetAddr], [Host]. The
    two scenario files and [Crates.Reference] give instances that satisfy the laws.

    ** What the theorems show

    - Requests: applied whole or not at all, safely repeated, refused under a used identifier,
      confined to their room and blind to others ([process_all_or_nothing], [process_retry],
      [process_conflict], [process_isolation], [room_noninterference], [chat_send_total]).
    - Logs: gapless, append-only, in every reachable state, and serialised between concurrent
      writers ([room_logs_gapless], [room_logs_append_only], [writers_serialised]).
    - Delivery: a joined session gets exactly the events it may see, once and in order
      ([join_catches_up], [live_delivery_exact]).
    - Decisions refine an abstract machine ([process_refines_decision_machine]).
    - Tasks: leases exclude each other, queues are served in order, updates may be repeated, a
      finished task is final, a context shows the requester's view ([lease_exclusive],
      [claim_first_come], [task_update_outcome], [task_update_retry], [finished_task_final],
      [context_shows_requester_view]).
    - Conversations: at most one turn in flight, each operation's exact effect, repetition,
      history kept, disclosure of public messages only ([one_turn_in_flight], [reserve_outcome],
      [turn_claim_outcome], [turn_update_outcome], [reserve_retry], [turn_update_retry],
      [turn_history_kept], [context_discloses_public]).
    - The pure parts: round trip of the protocol, injective fingerprints, mention resolution,
      visibility, strict JSON, policies, the search for a model ([validate_encode_roundtrip],
      [fingerprint_injective], [resolve_chat_audience_exact], [chat_visible_iff_addressed],
      [strict_json_exact], [validate_policy_iff], [selection_exact]).
    - The catalogue: pages are sound and walking them ends with all models ([bridge_page_sound],
      [bridge_walk_complete], [models_restricted]).
    - The service: nothing without authentication, every request answered within the invariants,
      and all invariants kept from start-up on ([app_gate], [app_advances], [main_fit_to_serve],
      [deployment_safe]).

    ** Bounds and fuel

    Loops over lists recurse on the list. The claim of a turn tries at most a hundred candidates
    and the search for a model at most a hundred pages, the source's own limits, so the fuel is
    exact. Following the bridge's cursors is given one step more than there are models, and
    [bridge_walk_complete] shows that this reaches the end. A mention
    suffix grows up to the length of an identifier; its numbering tries one token more than are
    occupied, one of which is free by the pigeonhole principle. Limits on bodies, catalogue documents, cursors and
    contexts are the source's constants.

    ** Not modelled

    The contents of the JSON Schemas and the building of their validators; the HTTP server, TLS
    and axum's own headers; logging; the Display and Debug texts of errors; src/src/lib.rs (module
    list) and src/src/error.rs (an error type nothing uses); and the interleaving of statements
    on tables other than [room_events] and [room_requests] (decisions, tasks, conversations), whose
    rows are locked by FOR UPDATE. *)

From stdpp Require Export base tactics option sorting gmap strings numbers.
From stdpp Require Export list.
#[export] Set Warnings "-level-tolerance".

(** ** Results *)

(** Rust's [Result<A, E>], error type first so that [result E] is a monad. *)
Inductive result (E A : Type) : Type :=
| Ok (a : A)
| Err (e : E).
Arguments Ok {E A} _.
Arguments Err {E A} _.

Global Instance result_eq_dec {E A} `{EqDecision E, EqDecision A} :
  EqDecision (result E A).
Proof. solve_decision. Defined.

Global Instance result_ret {E} : MRet (result E) := λ A a, Ok a.
Global Instance result_bind {E} : MBind (result E) := λ A B f r,
  match r with Ok a => f a | Err e => Err e end.

(** [Option::ok_or]. *)
Definition ok_or {E A} (e : E) (o : option A) : result E A :=
  match o with Some a => Ok a | None => Err e end.

(** [Result::ok]. *)
Definition ok {E A} (r : result E A) : option A :=
  match r with Ok a => Some a | Err _ => None end.

(** [Result::map_err]. *)
Definition rmap_err {E F A} (f : E → F) (r : result E A) : result F A :=
  match r with Ok a => Ok a | Err e => Err (f e) end.

(** A guard clause [if bad { return Err(e) }]. *)
Definition reject_if {E} (bad : bool) (e : E) : result E () :=
  if bad then Err e else Ok ().

(** [iter().map(f).collect::<Result<Vec<_>, _>>()], the first error wins. *)
Fixpoint collect {E A B} (f : A → result E B) (l : list A) : result E (list B) :=
  match l with
  | [] => Ok []
  | a :: l' => b ← f a; bs ← collect f l'; Ok (b :: bs)
  end.

Lemma ok_or_Ok {E A} (e : E) (o : option A) a : ok_or e o = Ok a ↔ o = Some a.
Proof. destruct o; split; intros; simplify_eq/=; done. Qed.

Lemma rbind_Ok {E A B} (r : result E A) (k : A → result E B) b :
  r ≫= k = Ok b ↔ ∃ a, r = Ok a ∧ k a = Ok b.
Proof. destruct r; simpl; naive_solver. Qed.

Lemma reject_if_Ok {E} b (e : E) u : reject_if b e = Ok u ↔ b = false.
Proof. destruct b, u; simpl; naive_solver. Qed.

Lemma collect_Forall2 {E A B} (f : A → result E B) l bs :
  collect f l = Ok bs ↔ Forall2 (λ a b, f a = Ok b) l bs.
Proof.
  revert bs. induction l as [|a l IH]; intros bs; simpl.
  - split; [by intros [= <-] | by intros ->%Forall2_nil_inv_l].
  - split.
    + destruct (f a) eqn:?, (collect f l) eqn:?; intros; simplify_eq/=.
      constructor; [done|]. by apply IH.
    + intros (b & bs' & Hb & Hbs & ->)%Forall2_cons_inv_l.
      apply IH in Hbs. by rewrite Hb, Hbs.
Qed.

(** ** The effect monad

    A handler is a function of the whole state that returns a result and the
    next state. Errors do not undo the state: what a failing request leaves
    behind is exactly what the code did before it failed. *)
Definition M (S E A : Type) : Type := S → result E A * S.

Global Instance M_ret {S E} : MRet (M S E) := λ A a s, (Ok a, s).
Global Instance M_bind {S E} : MBind (M S E) := λ A B k m s,
  match m s with
  | (Ok a, s') => k a s'
  | (Err e, s') => (Err e, s')
  end.

Definition throw {S E A} (e : E) : M S E A := λ s, (Err e, s).

Definition lift {S E A} (r : result E A) : M S E A := λ s, (r, s).

Definition map_err {S E F A} (f : E → F) (m : M S E A) : M S F A := λ s,
  match m s with
  | (Ok a, s') => (Ok a, s')
  | (Err e, s') => (Err (f e), s')
  end.

(** Run a computation and hand its result, error or not, to the caller
    ([match f().await { Ok(x) => .., Err(e) => .. }]). *)
Definition attempt {S E F A} (m : M S E A) : M S F (result E A) := λ s,
  match m s with (r, s') => (Ok r, s') end.

Definition gets {S E A} (f : S → A) : M S E A := λ s, (Ok (f s), s).
Definition modify {S E} (f : S → S) : M S E () := λ s, (Ok (), f s).

(** [for x in l { body(x)? }] collecting what each turn pushes. *)
Fixpoint for_each {S E A B} (body : A → M S E B) (l : list A) : M S E (list B) :=
  match l with
  | [] => mret []
  | a :: l' => b ← body a; bs ← for_each body l'; mret (b :: bs)
  end.

Section monad_laws.
Context {S E : Type}.

Lemma ret_Ok_inv {A} (a b : A) (s s' : S) :
  (mret a : M S E A) s = (Ok b, s') → a = b ∧ s = s'.
Proof. unfold mret, M_ret. intros; by simplify_eq. Qed.

Lemma bind_ok {A B} (m : M S E A) (k : A → M S E B) s a s' :
  m s = (Ok a, s') → (m ≫= k) s = k a s'.
Proof. intros H. unfold mbind, M_bind. by rewrite H. Qed.

Lemma bind_err {A B} (m : M S E A) (k : A → M S E B) s e s' :
  m s = (Err e, s') → (m ≫= k) s = (Err e, s').
Proof. intros H. unfold mbind, M_bind. by rewrite H. Qed.

(** Inversion of a successful sequence: both halves succeeded. *)
Lemma bind_Ok_inv {A B} (m : M S E A) (k : A → M S E B) s b s'' :
  (m ≫= k) s = (Ok b, s'') → ∃ a s', m s = (Ok a, s') ∧ k a s' = (Ok b, s'').
Proof.
  unfold mbind, M_bind. destruct (m s) as [[a|e] s'] eqn:Hm; intros; simplify_eq. eauto.
Qed.

Lemma map_err_Ok_inv {F A} (f : E → F) (m : M S E A) s a s' :
  map_err f m s = (Ok a, s') → m s = (Ok a, s').
Proof. unfold map_err. destruct (m s) as [[?|?] ?]; intros; by simplify_eq. Qed.

Lemma map_err_Err_inv {F A} (f : E → F) (m : M S E A) s e s' :
  map_err f m s = (Err e, s') → ∃ e', m s = (Err e', s') ∧ f e' = e.
Proof. unfold map_err. destruct (m s) as [[?|?] ?]; intros; simplify_eq; eauto. Qed.

Lemma lift_Ok_inv {A} (r : result E A) (s : S) a s' :
  lift r s = (Ok a, s') → r = Ok a ∧ s' = s.
Proof. unfold lift. intros; by simplify_eq. Qed.
End monad_laws.

(** ** Specifications

    [wp m Q F s]: run from [s], a success of [m] satisfies [Q] and a failure satisfies [F].
    Both outcomes are specified together, because what an error leaves behind matters. *)
Definition wp {S E A} (m : M S E A) (Q : A → S → Prop) (F : E → S → Prop) (s : S) : Prop :=
  match m s with (Ok a, s') => Q a s' | (Err e, s') => F e s' end.

Section wp.
Context {S E : Type}.

Lemma wp_ret {A} (a : A) (Q : A → S → Prop) (F : E → S → Prop) s :
  Q a s → wp (mret a) Q F s.
Proof. done. Qed.

Lemma wp_throw {A} (e : E) (Q : A → S → Prop) F s : F e s → wp (throw e) Q F s.
Proof. done. Qed.

Lemma wp_lift {A} (r : result E A) (Q : A → S → Prop) F s :
  (∀ a, r = Ok a → Q a s) → (∀ e, r = Err e → F e s) → wp (lift r) Q F s.
Proof. unfold wp, lift. destruct r; eauto. Qed.

Lemma wp_bind {A B} (m : M S E A) (k : A → M S E B) Q F s :
  wp m (λ a s', wp (k a) Q F s') F s → wp (m ≫= k) Q F s.
Proof. unfold wp, mbind, M_bind. by destruct (m s) as [[a|e] s']. Qed.

Lemma wp_bind_inv {A B} (m : M S E A) (k : A → M S E B) Q F s :
  wp (m ≫= k) Q F s → wp m (λ a s', wp (k a) Q F s') F s.
Proof. unfold wp, mbind, M_bind. by destruct (m s) as [[a|e] s']. Qed.

Lemma wp_map_err {E' A} (f : E → E') (m : M S E A) Q F s :
  wp m Q (λ e, F (f e)) s → wp (map_err f m) Q F s.
Proof. unfold wp, map_err. by destruct (m s) as [[a|e] s']. Qed.

Lemma wp_attempt {E' A} (m : M S E A) (Q : result E A → S → Prop) (F : E' → S → Prop) s :
  wp m (λ a, Q (Ok a)) (λ e, Q (Err e)) s → wp (attempt m) Q F s.
Proof. unfold wp, attempt. by destruct (m s) as [[a|e] s']. Qed.

Lemma wp_mono {A} (m : M S E A) (Q Q' : A → S → Prop) (F F' : E → S → Prop) s :
  wp m Q F s → (∀ a s', Q a s' → Q' a s') → (∀ e s', F e s' → F' e s') → wp m Q' F' s.
Proof. unfold wp. destruct (m s) as [[a|e] s']; eauto. Qed.

Lemma wp_conj {A} (m : M S E A) (Q Q' : A → S → Prop) (F F' : E → S → Prop) s :
  wp m Q F s → wp m Q' F' s → wp m (λ a s', Q a s' ∧ Q' a s') (λ e s', F e s' ∧ F' e s') s.
Proof. unfold wp. by destruct (m s) as [[a|e] s']. Qed.

Lemma wp_Ok {A} (m : M S E A) Q F s a s' : wp m Q F s → m s = (Ok a, s') → Q a s'.
Proof. unfold wp. intros H Hm. by rewrite Hm in H. Qed.

Lemma wp_Err {A} (m : M S E A) Q F s e s' : wp m Q F s → m s = (Err e, s') → F e s'.
Proof. unfold wp. intros H Hm. by rewrite Hm in H. Qed.

(** A computation that cannot fail returns; one that cannot return fails. *)
Lemma wp_total {A} (m : M S E A) Q s :
  wp m Q (λ _ _, False) s → ∃ a s', m s = (Ok a, s') ∧ Q a s'.
Proof. unfold wp. destruct (m s) as [[a|e] s']; [by eauto|done]. Qed.

Lemma wp_fails {A} (m : M S E A) F s :
  wp m (λ _ _, False) F s → ∃ e s', m s = (Err e, s') ∧ F e s'.
Proof. unfold wp. destruct (m s) as [[a|e] s']; [done|by eauto]. Qed.

(** A loop whose body keeps an invariant keeps it. *)
Lemma wp_for_each {A B} (body : A → M S E B) (I : S → Prop) F l s :
  (∀ a s, I s → wp (body a) (λ _, I) F s) → I s → wp (for_each body l) (λ _, I) F s.
Proof.
  intros Hb. revert s. induction l as [|a l IH]; intros s Hs; simpl; [by apply wp_ret|].
  apply wp_bind. eapply wp_mono; [by apply Hb| |done]. intros b s1 Hs1. apply wp_bind.
  eapply wp_mono; [by apply IH| |done]. intros bs s2 Hs2. by apply wp_ret.
Qed.

Lemma wp_intro {A} (m : M S E A) Q F s :
  (∀ a s', m s = (Ok a, s') → Q a s') → (∀ e s', m s = (Err e, s') → F e s') → wp m Q F s.
Proof. unfold wp. destruct (m s) as [[a|e] s']; eauto. Qed.
End wp.

(** One structural step of a specification proof. *)
Ltac wp_step :=
  match goal with
  | |- wp (mret _) _ _ _ => apply wp_ret
  | |- wp (throw _) _ _ _ => apply wp_throw
  | |- wp (_ ≫= _) _ _ _ => apply wp_bind
  | |- wp (map_err _ _) _ _ _ => apply wp_map_err
  | |- wp (attempt _) _ _ _ => apply wp_attempt
  | |- wp (lift _) _ _ _ => apply wp_lift; intros ? ?
  | |- wp (if ?b then _ else _) _ _ _ => destruct b eqn:?
  | |- wp (match ?x with _ => _ end) _ _ _ => destruct x eqn:?
  end.
(** Use the specification [H] of the next call. *)
Tactic Notation "wp_use" uconstr(H) := eapply wp_mono; [eapply H|cbv beta|cbv beta].

(** ** Relational frames

    [Pres R m]: whatever [m] returns, the state it leaves is related to the
    state it started from by [R]. For a preorder [R] the property is closed
    under sequencing, so a handler has it as soon as its statements do. *)
Definition Pres {S E A} (R : S → S → Prop) (m : M S E A) : Prop :=
  ∀ s, R s (m s).2.

Create HintDb pres.

Section pres.
Context {S E : Type} (R : S → S → Prop) `{!PreOrder R}.

Lemma pres_ret {A} (a : A) : Pres (E := E) R (mret a).
Proof. intros s. simpl. reflexivity. Qed.

Lemma pres_throw {A} (e : E) : Pres (A := A) R (throw e).
Proof. intros s. simpl. reflexivity. Qed.

Lemma pres_lift {A} (r : result E A) : Pres R (lift r).
Proof. intros s. simpl. reflexivity. Qed.

Lemma pres_gets {A} (f : S → A) : Pres (E := E) R (gets f).
Proof. intros s. simpl. reflexivity. Qed.

Lemma pres_bind {A B} (m : M S E A) (k : A → M S E B) :
  Pres R m → (∀ a, Pres R (k a)) → Pres R (m ≫= k).
Proof.
  intros Hm Hk s. specialize (Hm s). unfold mbind, M_bind.
  destruct (m s) as [[a|e] s']; simpl in *; [|done]. etrans; [done|]. apply Hk.
Qed.

Lemma pres_lift_bind {A B} (r : result E A) (k : A → M S E B) :
  (∀ a, r = Ok a → Pres R (k a)) → Pres R (lift r ≫= k).
Proof.
  intros Hk s. unfold mbind, M_bind, lift. destruct r; simpl; [by apply Hk|reflexivity].
Qed.

Lemma pres_map_err {F A} (f : E → F) (m : M S E A) : Pres R m → Pres R (map_err f m).
Proof. intros Hm s. specialize (Hm s). unfold map_err. by destruct (m s) as [[]]. Qed.

Lemma pres_attempt {F A} (m : M S E A) : Pres R m → Pres (E := F) R (attempt m).
Proof. intros Hm s. specialize (Hm s). unfold attempt. by destruct (m s). Qed.

Lemma pres_for_each {A B} (body : A → M S E B) l :
  (∀ a, Pres R (body a)) → Pres R (for_each body l).
Proof.
  intros Hb. induction l as [|a l IH]; simpl; [apply pres_ret|].
  apply pres_bind; [done|]. intros b. apply pres_bind; [done|]. intros bs. apply pres_ret.
Qed.
End pres.

(** Walk a handler's body: sequencing, branches and loops are structural, the
    statements are looked up in the [pres] database. *)
Ltac pres_step :=
  match goal with
  | |- Pres _ (mret _) => refine (pres_ret _ _)
  | |- Pres _ (throw _) => refine (pres_throw _ _)
  | |- Pres _ (lift _) => refine (pres_lift _ _)
  | |- Pres _ (gets _) => refine (pres_gets _ _)
  | |- Pres _ (lift _ ≫= _) => refine (pres_lift_bind _ _ _ _); intros ? ?
  | |- Pres _ (_ ≫= _) => refine (pres_bind _ _ _ _ _); [|intros ?]
  | |- Pres _ (map_err _ _) => refine (pres_map_err _ _ _ _)
  | |- Pres _ (attempt _) => refine (pres_attempt _ _ _)
  | |- Pres _ (for_each _ _) => refine (pres_for_each _ _ _ _); intros ?
  | |- Pres _ (match ?x with _ => _ end) => destruct x eqn:?
  | |- Pres _ (let '(_, _) := ?x in _) => destruct x eqn:?
  | |- PreOrder _ => apply _
  end.
Ltac solve_pres := repeat first [ solve [eauto 3 with pres] | pres_step ].

(** ** Lists *)

Section lists.
Context {A : Type}.

Lemma list_find_exists (P : A → bool) l :
  existsb P l = true ↔ ∃ x, x ∈ l ∧ P x = true.
Proof. setoid_rewrite list_elem_of_In. apply existsb_exists. Qed.

Lemma forallb_elem_of (P : A → bool) l :
  forallb P l = true ↔ ∀ x, x ∈ l → P x = true.
Proof. setoid_rewrite list_elem_of_In. apply forallb_forall. Qed.
End lists.

(** ** Maps *)

(** [iter().collect::<HashMap<_, _>>()]: a later entry replaces an earlier one. *)
Definition collect_map `{Countable K} {A} (l : list (K * A)) : gmap K A :=
  foldl (λ m kv, <[kv.1 := kv.2]> m) ∅ l.

Lemma collect_map_alt `{Countable K} {A} (l : list (K * A)) :
  collect_map l = list_to_map (reverse l).
Proof.
  unfold collect_map. induction l as [|kv l IH] using rev_ind; [done|].
  rewrite foldl_snoc, reverse_snoc, IH. done.
Qed.

Lemma collect_map_lookup `{Countable K} {A} (l : list (K * A)) k a :
  NoDup l.*1 → collect_map l !! k = Some a ↔ (k, a) ∈ l.
Proof.
  intros Hnd. rewrite collect_map_alt, <-elem_of_list_to_map, elem_of_reverse; [done|].
  by rewrite fmap_reverse, reverse_Permutation.
Qed.

(** An UPDATE of a row that exists. *)
Lemma alter_insert_Some `{Countable K} {A} (f : A → A) (m : gmap K A) k a :
  m !! k = Some a → alter f k m = <[k := f a]> m.
Proof.
  intros Hk. apply map_eq. intros k'. destruct (decide (k = k')) as [<-|Hne].
  - by rewrite lookup_alter_eq, lookup_insert_eq, Hk.
  - by rewrite lookup_alter_ne, lookup_insert_ne.
Qed.
