(* ===== verification/Json.v ===== *)
(** * JSON values

    The part of [serde_json::Value] the gateway uses. Objects are the
    [BTreeMap<String, Value>] of serde_json's default configuration: an
    association list kept in ascending byte order of its keys, which is the order
    in which the crate iterates and serialises them, so structural equality of
    two objects built by [obj_insert] is equality of maps. Integers cover the
    crate's [PosInt(u64)] and [NegInt(i64)]; a float is kept as its bit pattern,
    because the gateway never computes with one. *)

From S2P Require Import Prelude.

Set Warnings "-register-all".

Inductive number :=
| Int (z : Z)
| Float (bits : Z).

Inductive Value :=
| Null
| Bool (b : bool)
| Number (n : number)
| Str (s : string)
| Array (l : list Value)
| Object (fields : list (string * Value)).

Global Instance number_eq_dec : EqDecision number.
Proof. solve_decision. Defined.

(** ** Induction and decidable equality through the nested lists *)

Section value_ind.
Context (P : Value → Prop)
  (Hnull : P Null) (Hbool : ∀ b, P (Bool b)) (Hnum : ∀ n, P (Number n))
  (Hstr : ∀ s, P (Str s)) (Harr : ∀ l, Forall P l → P (Array l))
  (Hobj : ∀ fs, Forall (λ kv, P kv.2) fs → P (Object fs)).

Fixpoint Value_rect_nested (v : Value) : P v :=
  match v with
  | Null => Hnull
  | Bool b => Hbool b
  | Number n => Hnum n
  | Str s => Hstr s
  | Array l => Harr l ((fix go l : Forall P l :=
      match l with
      | [] => List.Forall_nil _
      | x :: l' => List.Forall_cons _ _ _ (Value_rect_nested x) (go l')
      end) l)
  | Object fs => Hobj fs ((fix go fs : Forall (λ kv, P kv.2) fs :=
      match fs with
      | [] => List.Forall_nil _
      | kv :: fs' => List.Forall_cons _ _ _ (Value_rect_nested kv.2) (go fs')
      end) fs)
  end.
End value_ind.

Fixpoint list_eqb {A} (eqb : A → A → bool) (l1 l2 : list A) : bool :=
  match l1, l2 with
  | [], [] => true
  | x :: l1', y :: l2' => eqb x y && list_eqb eqb l1' l2'
  | _, _ => false
  end.

Fixpoint value_eqb (v w : Value) : bool :=
  match v, w with
  | Null, Null => true
  | Bool a, Bool b => Bool.eqb a b
  | Number a, Number b => bool_decide (a = b)
  | Str a, Str b => String.eqb a b
  | Array l, Array l' => list_eqb value_eqb l l'
  | Object fs, Object fs' =>
      (fix go fs fs' :=
         match fs, fs' with
         | [], [] => true
         | (k, x) :: r, (k', x') :: r' => String.eqb k k' && value_eqb x x' && go r r'
         | _, _ => false
         end) fs fs'
  | _, _ => false
  end.

Lemma value_eqb_eq v w : value_eqb v w = true ↔ v = w.
Proof.
  revert w. induction v as [|b|n|s|l IH|fs IH] using Value_rect_nested;
    intros []; simpl; try (split; [done|congruence]).
  - rewrite eqb_true_iff. naive_solver.
  - rewrite bool_decide_eq_true. naive_solver.
  - rewrite String.eqb_eq. naive_solver.
  - rename l0 into l'. trans (l = l'); [|naive_solver].
    revert l'. induction IH as [|x l Hx _ IHl]; intros [|y l']; simpl;
      try (split; [done|congruence]).
    rewrite andb_true_iff, Hx, IHl. clear; naive_solver.
  - rename fields into fs'. trans (fs = fs'); [|naive_solver].
    revert fs'. induction IH as [|[k x] fs Hx _ IHl]; intros [|[k' y] fs']; simpl in *;
      try (split; [done|congruence]).
    rewrite !andb_true_iff, String.eqb_eq, Hx, IHl. clear; naive_solver.
Qed.

Global Instance Value_eq_dec : EqDecision Value.
Proof.
  intros v w. destruct (value_eqb v w) eqn:H.
  - left. by apply value_eqb_eq.
  - right. intros ->. apply not_true_iff_false in H. by apply H, value_eqb_eq.
Defined.

(** ** Objects *)

(** [Map::get]. *)
Fixpoint obj_get (k : string) (fs : list (string * Value)) : option Value :=
  match fs with
  | [] => None
  | (k', v) :: fs' => if String.eqb k k' then Some v else obj_get k fs'
  end.

(** [Map::insert] into a map ordered by key. *)
Fixpoint obj_insert (k : string) (v : Value) (fs : list (string * Value)) :
    list (string * Value) :=
  match fs with
  | [] => [(k, v)]
  | (k', v') :: fs' =>
      match String.compare k k' with
      | Eq => (k, v) :: fs'
      | Lt => (k, v) :: fs
      | Gt => (k', v') :: obj_insert k v fs'
      end
  end.

(** The [json!({ .. })] macro: the fields are inserted in the order written. *)
Definition obj_of_list (l : list (string * Value)) : list (string * Value) :=
  foldl (λ fs kv, obj_insert kv.1 kv.2 fs) [] l.
Arguments obj_of_list : simpl never.
Definition json_object (l : list (string * Value)) : Value := Object (obj_of_list l).

Definition json_string_array (l : list string) : Value := Array (Str <$> l).

(** [json!(option)]. *)
Definition json_option {A} (f : A → Value) (o : option A) : Value :=
  match o with Some a => f a | None => Null end.

(** ** Accessors *)

Definition get (k : string) (v : Value) : option Value :=
  match v with Object fs => obj_get k fs | _ => None end.

(** [value[key]] on an rvalue: a missing member reads as null. *)
Definition index (v : Value) (k : string) : Value := default Null (get k v).

Definition as_str (v : Value) : option string :=
  match v with Str s => Some s | _ => None end.
Definition as_array (v : Value) : option (list Value) :=
  match v with Array l => Some l | _ => None end.
Definition as_object (v : Value) : option (list (string * Value)) :=
  match v with Object fs => Some fs | _ => None end.
Definition as_bool (v : Value) : option bool :=
  match v with Bool b => Some b | _ => None end.
Definition as_u64 (v : Value) : option Z :=
  match v with
  | Number (Int z) => if (0 <=? z)%Z && (z <? 2 ^ 64)%Z then Some z else None
  | _ => None
  end.
Definition as_i64 (v : Value) : option Z :=
  match v with
  | Number (Int z) => if (- 2 ^ 63 <=? z)%Z && (z <? 2 ^ 63)%Z then Some z else None
  | _ => None
  end.
Definition is_null (v : Value) : bool := match v with Null => true | _ => false end.
Definition is_string (v : Value) : bool := match v with Str _ => true | _ => false end.

(** [value["k"] == "s"] and the like compare a member with a constant. *)
Definition is_str (v : Value) (s : string) : bool :=
  match v with Str t => String.eqb t s | _ => false end.
Definition is_int (v : Value) (z : Z) : bool :=
  match v with Number (Int n) => Z.eqb n z | _ => false end.

(** [Value::pointer] for a path of object members. *)
Fixpoint pointer (path : list string) (v : Value) : option Value :=
  match path with
  | [] => Some v
  | k :: path' => get k v ≫= pointer path'
  end.

(** [value[key] = w] on an object. *)
Definition set_member (v : Value) (k : string) (w : Value) : Value :=
  match v with
  | Object fs => Object (obj_insert k w fs)
  | Null => Object [(k, w)]
  | _ => v
  end.

(** ** Values without floats

    JSONB stores a number as a decimal, so only float-free values are certain to
    be read back unchanged. *)
Fixpoint float_free (v : Value) : bool :=
  match v with
  | Number (Float _) => false
  | Array l => forallb float_free l
  | Object fs => forallb (λ kv, float_free kv.2) fs
  | _ => true
  end.

(** ** Lookup after insertion *)

Lemma string_compare_refl k : String.compare k k = Eq.
Proof. pose proof (String.compare_antisym k k). by destruct (String.compare k k). Qed.

Lemma obj_get_insert_eq k v fs : obj_get k (obj_insert k v fs) = Some v.
Proof.
  induction fs as [|[k' v'] fs IH]; simpl; [by rewrite String.eqb_refl|].
  destruct (String.compare k k') eqn:Hc; simpl; rewrite ?String.eqb_refl; try done.
  destruct (String.eqb_spec k k') as [->|]; [|done].
  by rewrite string_compare_refl in Hc.
Qed.

Lemma obj_get_insert_ne k k' v fs :
  k ≠ k' → obj_get k (obj_insert k' v fs) = obj_get k fs.
Proof.
  intros Hne. induction fs as [|[j w] fs IH]; simpl.
  - destruct (String.eqb_spec k k'); done.
  - destruct (String.compare k' j) eqn:Hc; simpl.
    + apply String.compare_eq_iff in Hc as ->.
      by destruct (String.eqb_spec k j).
    + by destruct (String.eqb_spec k k').
    + by rewrite IH.
Qed.

Lemma obj_get_insert k k' v fs :
  obj_get k (obj_insert k' v fs) = if String.eqb k k' then Some v else obj_get k fs.
Proof.
  destruct (String.eqb_spec k k') as [->|].
  - apply obj_get_insert_eq.
  - by apply obj_get_insert_ne.
Qed.

(** Reading a literal: the last binding of the key wins. *)
Lemma obj_get_of_list k l :
  obj_get k (obj_of_list l) = obj_get k (reverse l).
Proof.
  unfold obj_of_list. induction l as [|[k' v] l IH] using rev_ind; [done|].
  rewrite foldl_snoc, reverse_snoc. simpl. by rewrite obj_get_insert, IH.
Qed.

Lemma float_free_insert k v fs :
  float_free v = true → float_free (Object fs) = true →
  float_free (Object (obj_insert k v fs)) = true.
Proof.
  simpl. intros Hv. induction fs as [|[k' v'] fs IH]; simpl.
  - by rewrite Hv.
  - rewrite andb_true_iff. intros [Hv' Hfs].
    destruct (String.compare k k'); simpl; rewrite ?Hv, ?Hv', ?Hfs, ?IH; done.
Qed.

Lemma float_free_json_object l :
  forallb (λ kv, float_free kv.2) l = true → float_free (json_object l) = true.
Proof.
  unfold json_object, obj_of_list. induction l as [|[k v] l IH] using rev_ind; [done|].
  rewrite forallb_app, andb_true_iff, foldl_snoc. simpl. intros [Hl [Hv _]%andb_true_iff].
  apply (float_free_insert k v); [done|]. by apply IH.
Qed.

Lemma float_free_array_map {A} (f : A → Value) l :
  (∀ a, float_free (f a) = true) → float_free (Array (f <$> l)) = true.
Proof. intros H. simpl. induction l as [|a l IH]; simpl; [done|]. by rewrite H. Qed.

(** Reads of a [json!] literal reduce by comparing constant keys. *)
Ltac json_get :=
  repeat first
    [ progress unfold index, json_object
    | progress cbn [get as_object]
    | rewrite obj_get_of_list
    | rewrite obj_get_insert
    | progress cbn [obj_get reverse rev_append default from_option String.eqb
        Ascii.eqb Bool.eqb andb as_str as_array] ].
