(* ===== verification/Text.v ===== *)
(** * Rust strings

    A [str] is its UTF-8 encoding: a [string] of bytes. The operations of the
    standard library the gateway calls are written on bytes; for a valid encoding
    they agree with the character-level definitions, because a delimiter of the
    code is ASCII and a whitespace character is recognised by its whole byte
    sequence, which starts with a lead byte. *)

From S2P Require Import Prelude.
From Stdlib Require Import Ascii.
Local Open Scope string_scope.
Local Open Scope list_scope.
Local Open Scope nat_scope.

Definition byte (n : nat) : ascii := ascii_of_nat n.
Definition bytes (l : list nat) : string := String.string_of_list_ascii (byte <$> l).

Definition is_empty (s : string) : bool :=
  match s with EmptyString => true | _ => false end.

Lemma is_empty_false s : is_empty s = false ↔ s ≠ EmptyString.
Proof. by destruct s. Qed.

(** [str::strip_prefix]. *)
Fixpoint strip_prefix (p s : string) : option string :=
  match p, s with
  | EmptyString, _ => Some s
  | String a p', String b s' => if Ascii.eqb a b then strip_prefix p' s' else None
  | _, _ => None
  end.

Definition starts_with (p s : string) : bool :=
  match strip_prefix p s with Some _ => true | None => false end.

(** [&s[..n]] and [&s[n..]] at a character boundary. *)
Fixpoint take_bytes (n : nat) (s : string) : string :=
  match n, s with
  | S n', String c s' => String c (take_bytes n' s')
  | _, _ => EmptyString
  end.

(** ** White space *)

(** The UTF-8 encodings of the characters with the Unicode property White_Space:
    U+0009..U+000D, U+0020, U+0085, U+00A0, U+1680, U+2000..U+200A, U+2028, U+2029,
    U+202F, U+205F, U+3000. *)
Definition white_space : list string :=
  ((λ n, bytes [n]) <$> [9; 10; 11; 12; 13; 32]) ++
  [bytes [194; 133]; bytes [194; 160]; bytes [225; 154; 128]] ++
  ((λ n, bytes [226; 128; n]) <$> seq 128 11) ++
  [bytes [226; 128; 168]; bytes [226; 128; 169]; bytes [226; 128; 175];
   bytes [226; 129; 159]; bytes [227; 128; 128]].

(** Bytes taken by a white-space character at the head of [s], 0 if there is none. *)
Definition ws_len (s : string) : nat :=
  match list_find (λ w, starts_with w s = true) white_space with
  | Some (_, w) => String.length w
  | None => 0
  end.

Fixpoint trim_start_from (skip : nat) (s : string) : string :=
  match s with
  | EmptyString => EmptyString
  | String _ s' =>
      match skip with
      | S k => trim_start_from k s'
      | 0 => match ws_len s with 0 => s | S k => trim_start_from k s' end
      end
  end.
Definition trim_start (s : string) : string := trim_start_from 0 s.

Fixpoint trim_end (s : string) : string :=
  match s with
  | EmptyString => EmptyString
  | String c s' => if is_empty (trim_start s) then EmptyString else String c (trim_end s')
  end.

Definition trim (s : string) : string := trim_end (trim_start s).

(** [s.contains(char::is_whitespace)]. *)
Fixpoint contains_whitespace (s : string) : bool :=
  match s with
  | EmptyString => false
  | String _ s' => (0 <? ws_len s) || contains_whitespace s'
  end.

(** ** Characters *)

(** A byte that starts a character: not of the form 10xxxxxx. *)
Definition is_lead (c : ascii) : bool :=
  let n := nat_of_ascii c in (n <? 128) || (192 <=? n).

(** [s.chars().count()]. *)
Fixpoint chars_count (s : string) : nat :=
  match s with
  | EmptyString => 0
  | String c s' => (if is_lead c then 1 else 0) + chars_count s'
  end.

(** [s.chars().take(n).collect()]. *)
Fixpoint take_chars (n : nat) (s : string) : string :=
  match s with
  | EmptyString => EmptyString
  | String c s' =>
      if is_lead c
      then match n with 0 => EmptyString | S n' => String c (take_chars n' s') end
      else String c (take_chars n s')
  end.

Definition is_ascii_alphanumeric (c : ascii) : bool :=
  let n := nat_of_ascii c in
  (48 <=? n) && (n <=? 57) || (65 <=? n) && (n <=? 90) || (97 <=? n) && (n <=? 122).

Definition ascii_lower (c : ascii) : ascii :=
  let n := nat_of_ascii c in
  if (65 <=? n) && (n <=? 90) then ascii_of_nat (n + 32) else c.

Fixpoint to_ascii_lowercase (s : string) : string :=
  match s with
  | EmptyString => EmptyString
  | String c s' => String (ascii_lower c) (to_ascii_lowercase s')
  end.

Definition eq_ignore_ascii_case (s t : string) : bool :=
  String.eqb (to_ascii_lowercase s) (to_ascii_lowercase t).

Fixpoint forall_bytes (f : ascii → bool) (s : string) : bool :=
  match s with EmptyString => true | String c s' => f c && forall_bytes f s' end.

Fixpoint filter_bytes (f : ascii → bool) (s : string) : string :=
  match s with
  | EmptyString => EmptyString
  | String c s' => if f c then String c (filter_bytes f s') else filter_bytes f s'
  end.

(** ** Splitting *)

(** [s.split(c)] for an ASCII delimiter: one piece more than delimiters. *)
Fixpoint split_on (c : ascii) (s : string) : list string :=
  match s with
  | EmptyString => [EmptyString]
  | String a s' =>
      if Ascii.eqb a c then EmptyString :: split_on c s'
      else match split_on c s' with
           | [] => [String a EmptyString]
           | p :: ps => String a p :: ps
           end
  end.

(** [s.split_once(c)]. *)
Fixpoint split_once (c : ascii) (s : string) : option (string * string) :=
  match s with
  | EmptyString => None
  | String a s' =>
      if Ascii.eqb a c then Some (EmptyString, s')
      else '(x, y) ← split_once c s'; Some (String a x, y)
  end.

Definition LF : ascii := byte 10.
Definition CR : ascii := byte 13.

Fixpoint strip_cr (s : string) : string :=
  match s with
  | EmptyString => EmptyString
  | String c EmptyString => if Ascii.eqb c CR then EmptyString else s
  | String c s' => String c (strip_cr s')
  end.

(** [s.lines()]: a line ended by a line feed loses it and one carriage return
    before it; what follows the last line feed is a line when it is not empty. *)
Fixpoint lines_of (pieces : list string) : list string :=
  match pieces with
  | [] => []
  | [rest] => if is_empty rest then [] else [rest]
  | p :: ps => strip_cr p :: lines_of ps
  end.
Definition lines (s : string) : list string := lines_of (split_on LF s).

(** [s.replacen(p, "", 1)]. *)
Fixpoint remove_first (p s : string) : string :=
  match strip_prefix p s with
  | Some rest => rest
  | None => match s with
            | EmptyString => EmptyString
            | String c s' => String c (remove_first p s')
            end
  end.

(** ** The order of strings: byte-wise lexicographic *)

Definition string_le (s t : string) : Prop := String.leb s t = true.

Global Instance string_le_dec s t : Decision (string_le s t).
Proof. unfold string_le. apply _. Defined.

Lemma ascii_compare_N a b : Ascii.compare a b = N.compare (N_of_ascii a) (N_of_ascii b).
Proof. done. Qed.

Lemma string_compare_Lt_trans s t u :
  String.compare s t = Lt → String.compare t u = Lt → String.compare s u = Lt.
Proof.
  revert t u. induction s as [|a s IH]; intros [|b t] [|c u]; simpl; try done.
  rewrite !ascii_compare_N.
  destruct (N.compare_spec (N_of_ascii a) (N_of_ascii b)) as [Hab|Hab|Hab]; [| |done];
  destruct (N.compare_spec (N_of_ascii b) (N_of_ascii c)) as [Hbc|Hbc|Hbc]; try done;
  destruct (N.compare_spec (N_of_ascii a) (N_of_ascii c)); try lia; eauto.
Qed.

Lemma string_leb_alt s t : string_le s t ↔ s = t ∨ String.compare s t = Lt.
Proof.
  unfold string_le, String.leb. split.
  - destruct (String.compare s t) eqn:H; [left|by right|done].
    by apply String.compare_eq_iff.
  - intros [->| ->]; [|done]. pose proof (String.compare_antisym t t).
    by destruct (String.compare t t).
Qed.

Global Instance string_le_trans : Transitive string_le.
Proof.
  intros s t u. rewrite !string_leb_alt. intros [->|] [->|]; eauto.
  right. by eapply string_compare_Lt_trans.
Qed.
Global Instance string_le_total : Total string_le.
Proof. intros s t. apply String.leb_total. Qed.
Global Instance string_le_antisymm : AntiSymm (=) string_le.
Proof. intros s t. apply String.leb_antisym. Qed.
Global Instance string_le_refl : Reflexive string_le.
Proof. intros s. rewrite string_leb_alt. by left. Qed.

(** ** Numbers *)

Fixpoint decimal (acc : Z) (s : string) : option Z :=
  match s with
  | EmptyString => Some acc
  | String c s' =>
      let n := nat_of_ascii c in
      if (48 <=? n) && (n <=? 57) then decimal (acc * 10 + Z.of_nat (n - 48))%Z s' else None
  end.

(** [str::parse::<u64>], and [usize] on a 64-bit machine: an optional plus sign and digits whose
    value fits. *)
Definition parse_u64 (s : string) : option Z :=
  let digits := match s with String "+"%char s' => s' | _ => s end in
  if is_empty digits then None
  else n ← decimal 0%Z digits; if (n <? 2 ^ 64)%Z then Some n else None.
