(* ===== verification/Crates.v ===== *)
(** * Third-party interfaces

    The gateway calls libraries whose code is not part of the repository: uuid,
    chrono, serde_json's text syntax, jsonschema, unicode-normalization, url,
    sha2, jsonwebtoken and PostgreSQL's type conversions. Each is a type class of
    operations; what the gateway relies on is a class of laws beside it. Module
    [Reference] gives small concrete instances, used to show that the laws can
    hold and to run the model on examples. *)

From S2P Require Import Prelude Json Text.
From Stdlib Require Import Ascii.
From Stdlib Require Eqdep_dec HexString.
Local Open Scope string_scope.
Local Open Scope list_scope.
Local Open Scope N_scope.

(** ** Identifiers *)

(** [uuid::Uuid]: 128 bits, compared and ordered as a big-endian integer. *)
Record Uuid := mk_uuid { u128 : N; u128_ok : (u128 <? 2 ^ 128) = true }.

Lemma from_u128_ok n : (n mod 2 ^ 128 <? 2 ^ 128) = true.
Proof. apply N.ltb_lt. by apply N.mod_lt. Qed.

(** [Uuid::from_u128]. *)
Definition from_u128 (n : N) : Uuid := mk_uuid (n mod 2 ^ 128) (from_u128_ok n).
Definition nil_uuid : Uuid := from_u128 0.
Definition is_nil (u : Uuid) : bool := u128 u =? 0.

Lemma Uuid_eq u v : u128 u = u128 v → u = v.
Proof.
  destruct u as [n Hn], v as [m Hm]; simpl. intros <-. f_equal. apply Eqdep_dec.UIP_dec. apply bool_eq_dec.
Qed.

Lemma from_u128_u128 u : from_u128 (u128 u) = u.
Proof.
  apply Uuid_eq; simpl. apply N.mod_small. apply N.ltb_lt. by destruct u.
Qed.

Global Instance Uuid_eq_dec : EqDecision Uuid.
Proof.
  intros u v. destruct (decide (u128 u = u128 v)) as [H|H].
  - left. by apply Uuid_eq.
  - right. congruence.
Defined.

Global Instance Uuid_countable : Countable Uuid.
Proof.
  apply (inj_countable u128 (λ n, Some (from_u128 n))).
  intros u. by rewrite from_u128_u128.
Defined.

Definition uuid_le (u v : Uuid) : Prop := (u128 u ≤ u128 v).
Global Instance uuid_le_dec u v : Decision (uuid_le u v).
Proof. unfold uuid_le. apply _. Defined.
Global Instance uuid_le_total : Total uuid_le.
Proof. intros u v. unfold uuid_le. lia. Qed.
Global Instance uuid_le_trans : Transitive uuid_le.
Proof. intros u v w. unfold uuid_le. lia. Qed.
Global Instance uuid_le_antisymm : AntiSymm (=) uuid_le.
Proof. intros u v H1 H2. apply Uuid_eq. unfold uuid_le in *. lia. Qed.

(** Text form of an identifier: [Display] and [Uuid::parse_str]. *)
Class UuidCrate := {
  uuid_to_string : Uuid → string;
  uuid_parse : string → option Uuid;
}.

Definition is_lower_hex (c : ascii) : bool :=
  let n := nat_of_ascii c in
  ((48 <=? n)%nat && (n <=? 57)%nat) || ((97 <=? n)%nat && (n <=? 102)%nat).

(** The hyphenated form: 36 bytes, lower-case hexadecimal digits and hyphens, 32
    of them digits; the parser reads it back. *)
Class UuidLaws `{UuidCrate} : Prop := {
  uuid_parse_to_string u : uuid_parse (uuid_to_string u) = Some u;
  uuid_to_string_bytes u :
    forall_bytes (λ c, is_lower_hex c || Ascii.eqb c "-") (uuid_to_string u) = true;
  uuid_to_string_length u : String.length (uuid_to_string u) = 36%nat;
  uuid_to_string_digits u :
    String.length (filter_bytes is_ascii_alphanumeric (uuid_to_string u)) = 32%nat;
}.

Lemma uuid_to_string_inj `{UuidLaws} u v : uuid_to_string u = uuid_to_string v → u = v.
Proof.
  intros Huv. apply (f_equal uuid_parse) in Huv.
  rewrite !uuid_parse_to_string in Huv. congruence.
Qed.

(** ** Time *)

(** [chrono::DateTime<Utc>]: nanoseconds since the Unix epoch. *)
Definition DateTime : Type := Z.

Class Chrono := {
  datetime_to_string : DateTime → string;
  datetime_parse : string → option DateTime;
  datetime_parse_rfc3339 : string → option DateTime;
  from_timestamp : Z → option DateTime;
}.

(** Serialising an instant loses nothing. *)
Class ChronoLaws `{Chrono} : Prop := {
  datetime_parse_to_string t : datetime_parse (datetime_to_string t) = Some t;
}.

Lemma datetime_to_string_inj `{ChronoLaws} t t' :
  datetime_to_string t = datetime_to_string t' → t = t'.
Proof.
  intros Htt. apply (f_equal datetime_parse) in Htt.
  rewrite !datetime_parse_to_string in Htt. congruence.
Qed.

(** [DateTime::timestamp_micros]. *)
Definition timestamp_micros (t : DateTime) : Z := (t / 1000)%Z.

(** ** Schemas, text syntax, normalisation, hashing, links *)

(** The pinned JSON Schemas, compiled by jsonschema; [profile_schema_valid] is [None]
    for a name that has no validator. *)
Class Schemas := {
  rpc_schema_valid : Value → bool;
  room_event_schema_valid : Value → bool;
  profile_schema_valid : string → option (Value → bool);
}.

Class SerdeJson := {
  json_from_str : string → option Value;
  json_to_string : Value → string;
}.

(** [UnicodeNormalization::nfkd]: the decomposed characters, as code points. *)
Class Unicode := { nfkd : string → list N }.

(** [format!("{:x}", Sha256::digest(bytes))]. *)
Class Sha2 := { sha256_hex : string → string }.

Record Url := {
  url_scheme : string;
  url_username : string;
  url_password : option string;
  url_fragment : option string;
  url_host_str : option string;
  url_port_or_known_default : option Z;
}.
Class UrlCrate := { url_parse : string → option Url }.

(** ** PostgreSQL conversions

    A TIMESTAMPTZ column keeps microseconds and a JSONB column keeps numbers as
    decimals; what is read back may differ from what was bound. [pg_json_text] is the text
    that the operator [->>] gives for a member that is neither a string nor null. *)
Class Postgres := {
  pg_time : DateTime → DateTime;
  pg_json : Value → Value;
  pg_json_text : Value → string;
}.

(** 2000-01-01T00:00:00Z, from which PostgreSQL counts. *)
Definition PG_EPOCH : DateTime := 946684800000000000%Z.

Class PostgresLaws `{Postgres} : Prop := {
  pg_json_float_free v : float_free v = true → pg_json v = v;
  pg_time_micros t : (PG_EPOCH ≤ t)%Z → timestamp_micros (pg_time t) = timestamp_micros t;
  pg_time_idemp t : pg_time (pg_time t) = pg_time t;
}.

(** ** Concrete instances *)

Module Reference.

Definition hex_digit (d : N) : ascii :=
  ascii_of_N (if d <? 10 then 48 + d else 87 + d).
Definition hex_value (c : ascii) : option N :=
  let n := N_of_ascii c in
  if (48 <=? n) && (n <=? 57) then Some (n - 48)
  else if (97 <=? n) && (n <=? 102) then Some (n - 87)
  else None.

(** The [n] low hexadecimal digits of [x], most significant first. *)
Fixpoint nibbles (n : nat) (x : N) : list N :=
  match n with O => [] | S n' => nibbles n' (x / 16) ++ [x mod 16] end.
Definition from_nibbles (l : list N) : N := foldl (λ acc d, acc * 16 + d) 0 l.

Definition hyphenated (l : list ascii) : list ascii :=
  take 8 l ++ "-"%char :: take 4 (drop 8 l) ++ "-"%char :: take 4 (drop 12 l) ++
  "-"%char :: take 4 (drop 16 l) ++ "-"%char :: drop 20 l.
Definition unhyphenated (l : list ascii) : list ascii :=
  take 8 l ++ take 4 (drop 9 l) ++ take 4 (drop 14 l) ++ take 4 (drop 19 l) ++ drop 24 l.

Definition to_string (u : Uuid) : string :=
  String.string_of_list_ascii (hyphenated (hex_digit <$> nibbles 32 (u128 u))).
Definition parse (s : string) : option Uuid :=
  let l := String.list_ascii_of_string s in
  ds ← mapM hex_value (unhyphenated l);
  if bool_decide (hyphenated (unhyphenated l) = l ∧ length ds = 32%nat)
  then Some (from_u128 (from_nibbles ds)) else None.

Lemma nibbles_length n x : length (nibbles n x) = n.
Proof. revert x. induction n; intros; simpl; [done|]. rewrite length_app, IHn. simpl. lia. Qed.

Lemma nibbles_bound n x : Forall (λ d, d < 16) (nibbles n x).
Proof.
  revert x. induction n; intros; simpl; [constructor|].
  apply Forall_app; split; [done|]. constructor; [|constructor]. by apply N.mod_lt.
Qed.

Lemma from_nibbles_nibbles n x : from_nibbles (nibbles n x) = x mod 16 ^ N.of_nat n.
Proof.
  revert x. unfold from_nibbles. induction n as [|n IH]; intros x; simpl nibbles.
  - simpl. by rewrite N.mod_1_r.
  - rewrite foldl_snoc, IH, Nat2N.inj_succ, N.pow_succ_r'.
    rewrite N.Div0.mod_mul_r. lia.
Qed.

Definition digit_ok (d : N) : bool :=
  let c := hex_digit d in
  bool_decide (hex_value c = Some d) && is_lower_hex c && is_ascii_alphanumeric c
  && negb (Ascii.eqb c "-").

Lemma digit_ok_true d : d < 16 → digit_ok d = true.
Proof.
  intros Hd. assert (forallb digit_ok (N.of_nat <$> seq 0 16) = true) as H by done.
  rewrite forallb_elem_of in H. apply H, list_elem_of_fmap.
  exists (N.to_nat d). split; [lia|]. apply elem_of_seq. lia.
Qed.

Lemma hex_digit_spec d : d < 16 →
  hex_value (hex_digit d) = Some d ∧ is_lower_hex (hex_digit d) = true ∧
  is_ascii_alphanumeric (hex_digit d) = true.
Proof.
  intros Hd%digit_ok_true. unfold digit_ok in Hd.
  rewrite !andb_true_iff, bool_decide_eq_true in Hd. tauto.
Qed.

(** The digits of an identifier, one by one. *)
Lemma digits_split (u : Uuid) :
  ∃ ds, nibbles 32 (u128 u) = ds ∧ length ds = 32%nat ∧ Forall (λ d, d < 16) ds ∧
        from_nibbles ds = u128 u.
Proof.
  exists (nibbles 32 (u128 u)). split_and!; [done|apply nibbles_length|apply nibbles_bound|].
  rewrite from_nibbles_nibbles. apply N.mod_small. change (16 ^ N.of_nat 32) with (2 ^ 128).
  apply N.ltb_lt. by destruct u.
Qed.

Ltac split_digits ds :=
  do 33 (destruct ds as [|? ds]; try done); simpl in *; simplify_eq;
  repeat match goal with
         | H : Forall _ (_ :: _) |- _ => apply Forall_cons in H as [? H]
         end.

Lemma mapM_hex ds : Forall (λ d, d < 16) ds → mapM hex_value (hex_digit <$> ds) = Some ds.
Proof.
  intros H. apply mapM_Some_2. apply Forall2_fmap_l.
  induction H as [|d ds Hd _ IH]; constructor; [|done].
  by destruct (hex_digit_spec d Hd) as [? _].
Qed.

Lemma unhyphenated_hyphenated l : length l = 32%nat → unhyphenated (hyphenated l) = l.
Proof.
  intros Hl. do 33 (destruct l as [|? l]; try done).
Qed.

Lemma forall_bytes_list f l :
  forall_bytes f (String.string_of_list_ascii l) = forallb f l.
Proof. induction l; simpl; congruence. Qed.

Lemma length_string_of_list l : String.length (String.string_of_list_ascii l) = length l.
Proof. induction l; simpl; congruence. Qed.

Lemma filter_bytes_list f l :
  filter_bytes f (String.string_of_list_ascii l) = String.string_of_list_ascii (List.filter f l).
Proof. induction l as [|a l IH]; simpl; [done|]. destruct (f a); simpl; congruence. Qed.

#[export] Instance uuid_crate : UuidCrate :=
  {| uuid_to_string := to_string; uuid_parse := parse |}.

Lemma hex_list_all (P : ascii → bool) ds :
  (∀ d, d < 16 → P (hex_digit d) = true) → Forall (λ d, d < 16) ds →
  Forall (λ c, P c = true) (hex_digit <$> ds).
Proof. intros HP. induction 1; constructor; eauto. Qed.

Lemma hyphenated_split l : length l = 32%nat →
  ∃ a b c d e, l = a ++ b ++ c ++ d ++ e ∧
    hyphenated l = a ++ "-"%char :: b ++ "-"%char :: c ++ "-"%char :: d ++ "-"%char :: e ∧
    (length a + length b + length c + length d + length e = 32)%nat.
Proof.
  intros Hl. do 33 (destruct l as [|? l]; try done).
  eexists [_;_;_;_;_;_;_;_], [_;_;_;_], [_;_;_;_], [_;_;_;_], [_;_;_;_;_;_;_;_;_;_;_;_].
  done.
Qed.

#[export] Instance uuid_laws : UuidLaws.
Proof.
  assert (∀ u, ∃ l, to_string u = String.string_of_list_ascii (hyphenated l) ∧ length l = 32%nat ∧
      Forall (λ c, is_lower_hex c = true) l ∧ Forall (λ c, is_ascii_alphanumeric c = true) l ∧
      mapM hex_value l = Some (nibbles 32 (u128 u))) as Hl.
  { intros u. destruct (digits_split u) as (ds & Hds & Hlen & Hb & Hv).
    exists (hex_digit <$> nibbles 32 (u128 u)). rewrite Hds. split_and!.
    - unfold to_string. by rewrite Hds.
    - by rewrite length_fmap.
    - apply hex_list_all; [|done]. intros; by apply hex_digit_spec.
    - apply hex_list_all; [|done]. intros; by apply hex_digit_spec.
    - by apply mapM_hex. }
  split; intros u; unfold uuid_to_string, uuid_parse, uuid_crate;
    destruct (Hl u) as (l & -> & Hlen & Hlow & Han & Hm).
  - unfold parse. rewrite String.list_ascii_of_string_of_list_ascii.
    rewrite unhyphenated_hyphenated by done. rewrite Hm. unfold mbind, option_bind.
    rewrite bool_decide_true by (split; [done|apply nibbles_length]).
    destruct (digits_split u) as (ds & -> & _ & _ & ->). by rewrite from_u128_u128.
  - rewrite forall_bytes_list. destruct (hyphenated_split l Hlen) as (a & b & c & d & e & -> & -> & _).
    rewrite !Forall_app in Hlow. apply forallb_elem_of. intros x Hx.
    rewrite orb_true_iff. repeat rewrite ?elem_of_app, ?elem_of_cons in Hx.
    rewrite !Forall_forall in Hlow. destruct Hlow as (Ha & Hb & Hc & Hd & He).
    destruct Hx as [Hx|[Hx|[Hx|[Hx|[Hx|[Hx|[Hx|[Hx|Hx]]]]]]]];
      [left|right|left|right|left|right|left|right|left];
      first [by subst x | auto].
  - rewrite length_string_of_list. destruct (hyphenated_split l Hlen) as (a & b & c & d & e & _ & -> & Hn).
    repeat (rewrite length_app; simpl). lia.
  - rewrite filter_bytes_list, length_string_of_list.
    destruct (hyphenated_split l Hlen) as (a & b & c & d & e & -> & -> & Hn).
    assert (∀ k, Forall (λ c, is_ascii_alphanumeric c = true) k →
      List.filter is_ascii_alphanumeric k = k) as Hid.
    { induction 1 as [|x k Hx _ IH]; simpl; [done|]. by rewrite Hx, IH. }
    rewrite !Forall_app in Han. destruct Han as (Ha & Hb & Hc & Hd & He).
    rewrite !List.filter_app. simpl. rewrite !List.filter_app. simpl.
    rewrite !List.filter_app. simpl. rewrite !List.filter_app. simpl.
    rewrite !Hid by done. repeat (rewrite length_app; simpl). lia.
Qed.

#[export] Instance chrono : Chrono := {|
  datetime_to_string := HexString.of_Z;
  datetime_parse s := Some (HexString.to_Z s);
  datetime_parse_rfc3339 s := Some (HexString.to_Z s);
  from_timestamp secs := Some (secs * 1000000000)%Z;
|}.

#[export] Instance chrono_laws : ChronoLaws.
Proof. split. intros t. simpl. by rewrite HexString.to_Z_of_Z. Qed.

#[export] Instance postgres : Postgres := {|
  pg_time t := (t / 1000 * 1000)%Z;
  pg_json v := v;
  pg_json_text _ := "?";
|}.

#[export] Instance postgres_laws : PostgresLaws.
Proof.
  split; [done| |]; intros; unfold pg_time, postgres, timestamp_micros;
    rewrite ?Z.div_mul by done; done.
Qed.

(** Every value conforms, and no text is JSON: enough for the examples, which build
    their values directly. *)
#[export] Instance schemas : Schemas := {|
  rpc_schema_valid _ := true;
  room_event_schema_valid _ := true;
  profile_schema_valid _ := Some (λ _, true);
|}.

#[export] Instance unicode : Unicode := {| nfkd s := N_of_ascii <$> String.list_ascii_of_string s |}.

End Reference.
