(* ===== verification/Types.v ===== *)
(** * The gateway's data

    The structures and enumerations of src/src/store.rs, src/src/protocol.rs,
    src/src/auth.rs, src/src/rooms.rs and src/src/agent_service.rs, with their
    serde representations as JSON. A field [x] of the Rust structure [Foo] is
    written with a short prefix ([ev_x] for [RoomEvent]), because Rocq record
    fields share one name space. *)

From S2P Require Import Prelude Json Text Crates.
From Stdlib Require Import Ascii.
Local Open Scope string_scope.
Local Open Scope list_scope.
Local Open Scope Z_scope.

(** ** Constants *)

Definition FACILITATOR_ACTOR_ID : Uuid := from_u128 0x6e326e00000000000000000000000001.
Definition FACILITATOR_DISPLAY_NAME : string := "ThoughtKhoral Facilitator".
Definition ACTION_ITEMS_AGENT_ID : Uuid := from_u128 0x74686f756768746b686f72616c000002.
Definition ACTION_ITEMS_AGENT_DISPLAY_NAME : string := "Action Items".
Definition REFERENCE_AGENT_ID : Uuid := from_u128 0x74686f756768746b686f72616c000003.
Definition CODEX_AGENT_ID : Uuid := from_u128 0x74686f756768746b686f72616c000004.
Definition MAX_SAFE_INTEGER : Z := 9007199254740991.
Definition MENTION_ALIASES : list string := ["allhumans"; "allagents"].

Definition i64_max : Z := 2 ^ 63 - 1.
Definition i64_min : Z := - 2 ^ 63.

(** Durations are nanoseconds, as instants are. *)
Definition seconds (n : Z) : Z := n * 1000000000.
Definition AGENT_TASK_LEASE_DURATION : Z := seconds 300.

(** ** Actors *)

Inductive ActorRole := Human | Agent.

Definition role_str (r : ActorRole) : string :=
  match r with Human => "human" | Agent => "agent" end.

Record Actor := {
  actor_id : Uuid;
  actor_role : ActorRole;
  actor_display_name : string;
  actor_expires_at : Z;
}.

(** ** Room events *)

Record NewEvent := {
  ne_room_id : Uuid;
  ne_request_id : Uuid;
  ne_event_type : string;
  ne_actor_id : Uuid;
  ne_actor_role : string;
  ne_actor_display_name : option string;
  ne_payload : Value;
  ne_occurred_at : DateTime;
}.

Record RoomEvent := {
  ev_event_id : Uuid;
  ev_room_id : Uuid;
  ev_sequence : Z;
  ev_request_id : Uuid;
  ev_event_type : string;
  ev_actor_id : Uuid;
  ev_actor_role : string;
  ev_actor_display_name : option string;
  ev_payload : Value;
  ev_occurred_at : DateTime;
}.

(** ** Agent tasks *)

Inductive AgentSkillId := SummarizeContext | ExtractActionItems.

Definition skill_str (s : AgentSkillId) : string :=
  match s with
  | SummarizeContext => "summarize-context"
  | ExtractActionItems => "extract-action-items"
  end.

Inductive AgentTaskState := Queued | Running | AwaitingExternalInput | Succeeded | Failed.

Definition task_state_str (s : AgentTaskState) : string :=
  match s with
  | Queued => "queued"
  | Running => "running"
  | AwaitingExternalInput => "awaiting_external_input"
  | Succeeded => "succeeded"
  | Failed => "failed"
  end.

Record AgentTaskStart := {
  ts_id : string;
  ts_contract_version : string;
  ts_request_id : Uuid;
  ts_room_id : Uuid;
  ts_occurred_at : DateTime;
  ts_agent_id : Uuid;
  ts_skill_id : AgentSkillId;
  ts_input : string;
}.

Record AgentTaskRecord := {
  tk_task_id : Uuid;
  tk_room_id : Uuid;
  tk_request_id : Uuid;
  tk_requester_id : Uuid;
  tk_agent_id : Uuid;
  tk_skill_id : AgentSkillId;
  tk_input : string;
  tk_context_revision : Z;
  tk_state : AgentTaskState;
  tk_lease_owner : option Uuid;
  tk_lease_expires_at : option DateTime;
  tk_created_at : DateTime;
  tk_updated_at : DateTime;
}.

Record AgentTaskLease := {
  ls_task_id : Uuid;
  ls_owner_id : Uuid;
  ls_expires_at : DateTime;
}.

Record AgentTaskContext := { cx_task : AgentTaskRecord; cx_events : list RoomEvent }.

Record AgentTaskUpdate := {
  up_update_id : Uuid;
  up_event_type : string;
  up_payload : Value;
  up_occurred_at : DateTime;
}.

Record AgentTaskStartResult := { sr_task_id : Uuid; sr_events : list RoomEvent }.

Record AgentTaskUpdateResult := {
  ur_task_id : Uuid;
  ur_events : list RoomEvent;
  ur_duplicate : bool;
}.

(** ** Requests *)

Record SessionAuthenticate := { sa_id : string; sa_access_token : string }.

Record Join := {
  jn_id : string;
  jn_contract_version : string;
  jn_request_id : Uuid;
  jn_room_id : Uuid;
  jn_occurred_at : DateTime;
  jn_after_sequence : option Z;
}.

Inductive ChatMentionAlias := AllHumans | AllAgents.

Inductive ChatMention :=
| MentionParticipant (id : Uuid) (token : string)
| MentionAlias (alias : ChatMentionAlias).

Inductive ChatDelivery := DeliverRoom | DeliverMentioned.

Record ChatSend := {
  cs_id : string;
  cs_contract_version : string;
  cs_request_id : Uuid;
  cs_room_id : Uuid;
  cs_occurred_at : DateTime;
  cs_text : string;
  cs_mentions : list ChatMention;
  cs_delivery : ChatDelivery;
}.

Record DecisionPropose := {
  dp_id : string;
  dp_contract_version : string;
  dp_request_id : Uuid;
  dp_room_id : Uuid;
  dp_occurred_at : DateTime;
  dp_title : string;
  dp_summary : string;
  dp_source_event_ids : list Uuid;
}.

Inductive DecisionAction := Confirm | Edit | Dismiss.

Record DecisionTransition := {
  dt_id : string;
  dt_contract_version : string;
  dt_request_id : Uuid;
  dt_room_id : Uuid;
  dt_occurred_at : DateTime;
  dt_decision_id : Uuid;
  dt_action : DecisionAction;
  dt_edited_title : option string;
  dt_edited_summary : option string;
}.

Record DecisionDelete := {
  dd_id : string;
  dd_contract_version : string;
  dd_request_id : Uuid;
  dd_room_id : Uuid;
  dd_occurred_at : DateTime;
  dd_decision_id : Uuid;
}.

Inductive ValidatedRequest :=
| RSessionAuthenticate (r : SessionAuthenticate)
| RJoin (r : Join)
| RChatSend (r : ChatSend)
| RDecisionPropose (r : DecisionPropose)
| RDecisionTransition (r : DecisionTransition)
| RDecisionDelete (r : DecisionDelete)
| RAgentTaskStart (r : AgentTaskStart).

(** ** Roster *)

Record RoomParticipant := {
  rp_id : Uuid;
  rp_role : string;
  rp_display_name : string;
  rp_online : bool;
}.

Record ParticipantPresence := {
  pp_role : string;
  pp_display_name : string;
  pp_connections : nat;
}.

Inductive RoomBroadcast :=
| BEvent (event : RoomEvent)
| BParticipants (participants : list RoomParticipant) (exclude_actor_id : option Uuid).

(** ** Decidable equality *)

Global Instance ActorRole_eq_dec : EqDecision ActorRole.
Proof. solve_decision. Defined.
Global Instance Actor_eq_dec : EqDecision Actor.
Proof. solve_decision. Defined.
Global Instance RoomEvent_eq_dec : EqDecision RoomEvent.
Proof. solve_decision. Defined.
Global Instance AgentSkillId_eq_dec : EqDecision AgentSkillId.
Proof. solve_decision. Defined.
Global Instance AgentTaskState_eq_dec : EqDecision AgentTaskState.
Proof. solve_decision. Defined.
Global Instance AgentTaskStart_eq_dec : EqDecision AgentTaskStart.
Proof. solve_decision. Defined.
Global Instance AgentTaskRecord_eq_dec : EqDecision AgentTaskRecord.
Proof. solve_decision. Defined.
Global Instance AgentTaskLease_eq_dec : EqDecision AgentTaskLease.
Proof. solve_decision. Defined.
Global Instance ChatMentionAlias_eq_dec : EqDecision ChatMentionAlias.
Proof. solve_decision. Defined.
Global Instance ChatMention_eq_dec : EqDecision ChatMention.
Proof. solve_decision. Defined.
Global Instance ChatDelivery_eq_dec : EqDecision ChatDelivery.
Proof. solve_decision. Defined.
Global Instance DecisionAction_eq_dec : EqDecision DecisionAction.
Proof. solve_decision. Defined.
Global Instance RoomParticipant_eq_dec : EqDecision RoomParticipant.
Proof. solve_decision. Defined.
Global Instance ParticipantPresence_eq_dec : EqDecision ParticipantPresence.
Proof. solve_decision. Defined.

(** ** Serde representations *)

Definition alias_str (a : ChatMentionAlias) : string :=
  match a with AllHumans => "allhumans" | AllAgents => "allagents" end.
Definition delivery_str (d : ChatDelivery) : string :=
  match d with DeliverRoom => "room" | DeliverMentioned => "mentioned" end.
Definition action_str (a : DecisionAction) : string :=
  match a with Confirm => "confirm" | Edit => "edit" | Dismiss => "dismiss" end.

Section wire.
Context `{UuidCrate, Chrono}.

Definition json_uuid (u : Uuid) : Value := Str (uuid_to_string u).
Definition json_uuids (l : list Uuid) : Value := Array (json_uuid <$> l).
Definition json_time (t : DateTime) : Value := Str (datetime_to_string t).
Definition json_int (z : Z) : Value := Number (Int z).

Definition json_mention (m : ChatMention) : Value :=
  match m with
  | MentionParticipant id token =>
      json_object [("type", Str "participant"); ("id", json_uuid id); ("token", Str token)]
  | MentionAlias alias =>
      json_object [("type", Str "alias"); ("alias", Str (alias_str alias))]
  end.
Definition json_mentions (l : list ChatMention) : Value := Array (json_mention <$> l).

(** [RoomEvent::to_wire_value]. *)
Definition event_to_wire_value (e : RoomEvent) : Value :=
  let actor := json_object [("id", json_uuid (ev_actor_id e)); ("role", Str (ev_actor_role e))] in
  let actor := match ev_actor_display_name e with
               | Some name => set_member actor "displayName" (Str name)
               | None => actor
               end in
  json_object
    [("contractVersion", Str "n2n.room.v1"); ("requestId", json_uuid (ev_request_id e));
     ("roomId", json_uuid (ev_room_id e)); ("occurredAt", json_time (ev_occurred_at e));
     ("sequence", json_int (ev_sequence e)); ("eventId", json_uuid (ev_event_id e));
     ("eventType", Str (ev_event_type e)); ("actor", actor); ("payload", ev_payload e)].

(** [RoomParticipant::to_wire_value]. *)
Definition participant_to_wire_value (p : RoomParticipant) : Value :=
  json_object
    [("id", json_uuid (rp_id p)); ("role", Str (rp_role p));
     ("displayName", Str (rp_display_name p)); ("online", Bool (rp_online p))].
End wire.

Arguments json_uuid : simpl never.
Arguments json_uuids : simpl never.
Arguments json_time : simpl never.
Arguments json_mentions : simpl never.
Arguments json_mention : simpl never.

Lemma float_free_json_mentions `{UuidCrate} l : float_free (json_mentions l) = true.
Proof.
  apply float_free_array_map. intros []; unfold json_mention; apply float_free_json_object; done.
Qed.

Lemma float_free_json_uuids `{UuidCrate} l : float_free (json_uuids l) = true.
Proof. by apply float_free_array_map. Qed.
