(* ===== verification/ConversationProtocol.v ===== *)
(** * Conversation protocol and policy

    src/src/conversation_protocol.rs: the error codes, the check of a value against a pinned
    profile schema and the check of a turn request; and the parts of
    src/src/conversation_store.rs that are pure: the policy, the settings it allows, failure
    codes and the checks of reported metadata. *)

From S2P Require Import Prelude Json Text Crates Types.
Local Open Scope string_scope.
Local Open Scope list_scope.
Local Open Scope Z_scope.

Definition PROFILE_VERSION : string := "thought-khoral.agent-conversation.v1".

Inductive ConversationError :=
| InvalidTaskInput
| Forbidden
| ConversationBusy
| ConversationStale
| ContextMismatch
| ContextTooLarge
| RuntimeUnavailable
| AuthenticationRequired
| SessionUnavailable
| Timeout
| ConversationInterrupted
| ExecutionFailed
| DuplicateConflict.
Global Instance ConversationError_eq_dec : EqDecision ConversationError.
Proof. solve_decision. Defined.

(** [ConversationError::code]. *)
Definition error_code (e : ConversationError) : string :=
  match e with
  | InvalidTaskInput => "invalid_task_input"
  | Forbidden => "forbidden"
  | ConversationBusy => "conversation_busy"
  | ConversationStale => "conversation_stale"
  | ContextMismatch => "context_mismatch"
  | ContextTooLarge => "context_too_large"
  | RuntimeUnavailable => "runtime_unavailable"
  | AuthenticationRequired => "authentication_required"
  | SessionUnavailable => "session_unavailable"
  | Timeout => "timeout"
  | ConversationInterrupted => "conversation_interrupted"
  | ExecutionFailed => "execution_failed"
  | DuplicateConflict => "duplicate_conflict"
  end.

(** The codes a worker may report, in the order they are tried. *)
Definition FAILURES : list ConversationError :=
  [InvalidTaskInput; Forbidden; ConversationBusy; ConversationStale; ContextMismatch;
   ContextTooLarge; RuntimeUnavailable; AuthenticationRequired; SessionUnavailable; Timeout;
   ConversationInterrupted; ExecutionFailed; DuplicateConflict].

Definition failure_code (code : string) : result ConversationError ConversationError :=
  ok_or InvalidTaskInput
    (snd <$> list_find (λ e, String.eqb (error_code e) code = true) FAILURES).

(** ** Values of the profile *)

Definition safe_integer (n : number) : bool :=
  match n with
  | Int z => (0 <=? z) && (z <=? MAX_SAFE_INTEGER)
  | Float _ => false
  end.

Fixpoint safe_numbers (v : Value) : bool :=
  match v with
  | Number n => safe_integer n
  | Array l => forallb safe_numbers l
  | Object fs => forallb (λ kv, safe_numbers kv.2) fs
  | _ => true
  end.

Definition validate_profile_value `{Schemas} (name : string) (value : Value) :
    result ConversationError () :=
  if safe_numbers value &&
     match profile_schema_valid name with Some is_valid => is_valid value | None => false end
  then Ok () else Err InvalidTaskInput.

(** ** Turn requests *)

Section turn.
Context `{UuidCrate}.

(** One pass over the mentions: participants and aliases are named once, and the agent by its
    own token; the result says whether the agent was named. *)
Fixpoint turn_mentions (agent : Value) (participants : list string)
    (aliases : list (option string)) (direct_codex : bool) (mentions : list Value) :
    result ConversationError bool :=
  match mentions with
  | [] => Ok direct_codex
  | mention :: rest =>
      if is_str (index mention "type") "participant" then
        id ← ok_or InvalidTaskInput (as_str (index mention "id"));
        _ ← reject_if (bool_decide (id ∈ participants)) InvalidTaskInput;
        if bool_decide (index mention "id" = agent) then
          _ ← reject_if (negb (is_str (index mention "token") "codex-agent")) InvalidTaskInput;
          turn_mentions agent (id :: participants) aliases true rest
        else turn_mentions agent (id :: participants) aliases direct_codex rest
      else
        let alias := as_str (index mention "alias") in
        _ ← reject_if (bool_decide (alias ∈ aliases)) InvalidTaskInput;
        turn_mentions agent participants (alias :: aliases) direct_codex rest
  end.

Definition validate_turn_request `{Schemas} (request : Value) : result ConversationError Value :=
  _ ← validate_profile_value "turn" request;
  _ ← reject_if (negb (is_str (index request "agentId") (uuid_to_string CODEX_AGENT_ID)))
        InvalidTaskInput;
  mentions ← ok_or InvalidTaskInput (as_array (index request "mentions"));
  direct_codex ← turn_mentions (index request "agentId") [] [] false mentions;
  _ ← reject_if (negb direct_codex) InvalidTaskInput;
  Ok request.

Definition uuid_field (value : Value) (key : string) : result ConversationError Uuid :=
  ok_or InvalidTaskInput (as_str (index value key) ≫= uuid_parse).
End turn.

(** ** Policy *)

Record ConversationModel := { md_id : string; md_reasoning_efforts : list string }.

Record ConversationPolicy := {
  cp_enabled : bool;
  cp_policy_revision : string;
  cp_guidance_revision : string;
  cp_catalog_revision : string;
  cp_model : string;
  cp_reasoning_effort : string;
  cp_models : list ConversationModel;
  cp_max_context_bytes : Z;
  cp_max_records : Z;
  cp_turn_deadline_seconds : Z;
  cp_interrupt_grace_seconds : Z;
}.
Global Instance ConversationModel_eq_dec : EqDecision ConversationModel.
Proof. solve_decision. Defined.
Global Instance ConversationPolicy_eq_dec : EqDecision ConversationPolicy.
Proof. solve_decision. Defined.

(** [ConversationPolicy::default]. *)
Definition default_policy : ConversationPolicy :=
  {| cp_enabled := false; cp_policy_revision := ""; cp_guidance_revision := "";
     cp_catalog_revision := ""; cp_model := ""; cp_reasoning_effort := ""; cp_models := [];
     cp_max_context_bytes := 1048576; cp_max_records := 2000; cp_turn_deadline_seconds := 180;
     cp_interrupt_grace_seconds := 5 |}.

Definition valid_id (id : string) : bool := negb (is_empty id) && (chars_count id <=? 128)%nat.

(** [efforts.iter().all(|id| valid_id(id) && seen.insert(id))]. *)
Fixpoint check_efforts (seen efforts : list string) : bool :=
  match efforts with
  | [] => true
  | id :: rest => valid_id id && negb (bool_decide (id ∈ seen)) && check_efforts (id :: seen) rest
  end.

Fixpoint check_models (ids : list string) (models : list ConversationModel) :
    result ConversationError () :=
  match models with
  | [] => Ok ()
  | model :: rest =>
      _ ← reject_if
        (negb (valid_id (md_id model)) || bool_decide (md_id model ∈ ids)
         || bool_decide (md_reasoning_efforts model = [])
         || (100 <? length (md_reasoning_efforts model))%nat
         || negb (check_efforts [] (md_reasoning_efforts model))) InvalidTaskInput;
      check_models (md_id model :: ids) rest
  end.

(** The policy offers a model with an effort, both read from a JSON value. *)
Definition offers (policy : ConversationPolicy) (model effort : Value) : bool :=
  existsb (λ m, is_str model (md_id m) && existsb (is_str effort) (md_reasoning_efforts m))
    (cp_models policy).

Definition default_settings (policy : ConversationPolicy) : Value :=
  json_object
    [("model", Str (cp_model policy)); ("reasoningEffort", Str (cp_reasoning_effort policy));
     ("catalogRevision", Str (cp_catalog_revision policy))].

Definition resolve_settings (policy : ConversationPolicy) (settings : option Value) :
    result ConversationError Value :=
  let selected := default (default_settings policy) settings in
  _ ← reject_if
    (negb (is_str (index selected "catalogRevision") (cp_catalog_revision policy))
     || negb (offers policy (index selected "model") (index selected "reasoningEffort")))
    InvalidTaskInput;
  Ok selected.

(** [ConversationPolicy::validate]. *)
Definition validate_policy (policy : ConversationPolicy) : result ConversationError () :=
  _ ← reject_if
    ((cp_max_context_bytes policy =? 0) || (1048576 <? cp_max_context_bytes policy)
     || (cp_max_records policy =? 0) || (2000 <? cp_max_records policy)
     || negb ((1 <=? cp_turn_deadline_seconds policy) && (cp_turn_deadline_seconds policy <=? 180))
     || negb ((1 <=? cp_interrupt_grace_seconds policy) && (cp_interrupt_grace_seconds policy <=? 5)))
    InvalidTaskInput;
  if negb (cp_enabled policy) then Ok () else
  _ ← reject_if
    (negb (forallb valid_id
       [cp_policy_revision policy; cp_guidance_revision policy; cp_catalog_revision policy;
        cp_model policy; cp_reasoning_effort policy])
     || bool_decide (cp_models policy = []) || (100 <? length (cp_models policy))%nat)
    InvalidTaskInput;
  _ ← check_models [] (cp_models policy);
  _ ← resolve_settings policy None;
  Ok ().

(** ** Reported metadata *)

Definition optional_json (value : Value) : option Value :=
  if is_null value then None else Some value.

Definition validate_metadata (settings usage : option Value) : result ConversationError () :=
  reject_if
    (match settings with
     | Some s => is_str (index s "confirmation") "confirmed"
                 && (is_null (index s "model") || is_null (index s "reasoningEffort"))
     | None => false
     end
     || match usage with
        | Some u => is_null (index u "modelContextWindow")
                    && negb (is_str (index u "freshness") "unavailable")
        | None => false
        end)
    InvalidTaskInput.

(** ** Authority of a turn (src/src/rooms.rs) *)

Definition authorize_conversation_turn `{Chrono} (actor : Actor)
    (requested_expiry now minimum_remaining : Z) : result ConversationError DateTime :=
  _ ← reject_if (negb (bool_decide (actor_role actor = Human))) Forbidden;
  token_expiry ← ok_or AuthenticationRequired (from_timestamp (actor_expires_at actor));
  let expiry := Z.min requested_expiry token_expiry in
  _ ← reject_if (expiry <? now + minimum_remaining) AuthenticationRequired;
  Ok expiry.
