(* ===== verification/StrictJson.v ===== *)
(** * Strict JSON documents

    [parse_strict_json] and its visitor [StrictValue] (src/src/conversation_service.rs): a request
    body or a catalogue document must be one JSON text without fractional numbers and without
    repeated members. The tokens are read by serde_json's deserializer, which drives the visitor
    over the document as it is written; that document is a [Document]. *)

From S2P Require Import Prelude Json Text Crates ConversationProtocol.
Local Open Scope string_scope.
Local Open Scope list_scope.
Local Open Scope Z_scope.

(** What the deserializer announces to a visitor, in the order of the text: an integer in the
    range of u64 or i64, any other number as f64, and the members of an object as they come. *)
Inductive Document :=
| DUnit
| DBool (b : bool)
| DU64 (n : Z)
| DI64 (n : Z)
| DF64 (bits : Z)
| DStr (s : string)
| DSeq (items : list Document)
| DMap (members : list (string * Document)).

(** [serde_json::Deserializer::from_slice] with [end]: the document that is the whole text. *)
Class JsonText := { read_document : string → option Document }.

Section document_ind.
Context (P : Document → Prop)
  (Hunit : P DUnit) (Hbool : ∀ b, P (DBool b)) (Hu : ∀ n, P (DU64 n)) (Hi : ∀ n, P (DI64 n))
  (Hf : ∀ n, P (DF64 n)) (Hstr : ∀ s, P (DStr s)) (Hseq : ∀ l, Forall P l → P (DSeq l))
  (Hmap : ∀ ms, Forall (λ kv, P kv.2) ms → P (DMap ms)).

Fixpoint Document_nested_ind (d : Document) : P d :=
  match d with
  | DUnit => Hunit
  | DBool b => Hbool b
  | DU64 n => Hu n
  | DI64 n => Hi n
  | DF64 n => Hf n
  | DStr s => Hstr s
  | DSeq l => Hseq l ((fix go l : Forall P l :=
      match l with
      | [] => List.Forall_nil _
      | x :: l' => List.Forall_cons _ _ _ (Document_nested_ind x) (go l')
      end) l)
  | DMap ms => Hmap ms ((fix go ms : Forall (λ kv, P kv.2) ms :=
      match ms with
      | [] => List.Forall_nil _
      | kv :: ms' => List.Forall_cons _ _ _ (Document_nested_ind kv.2) (go ms')
      end) ms)
  end.
End document_ind.

(** ** The visitor *)

(** [visit_seq] and [visit_map], over the visitor for the elements. *)
Definition visit_seq (visit : Document → option Value) : list Document → option (list Value) :=
  fix go items :=
    match items with
    | [] => Some []
    | item :: rest => v ← visit item; vs ← go rest; Some (v :: vs)
    end.

Definition visit_map (visit : Document → option Value) :
    list (string * Value) → list (string * Document) → option (list (string * Value)) :=
  fix go values members :=
    match members with
    | [] => Some values
    | (key, member) :: rest =>
        match obj_get key values with
        | Some _ => None
        | None => v ← visit member; go (obj_insert key v values) rest
        end
    end.

Fixpoint strict_value (d : Document) : option Value :=
  match d with
  | DUnit => Some Null
  | DBool b => Some (Bool b)
  | DU64 n | DI64 n => Some (Number (Int n))
  | DF64 _ => None
  | DStr s => Some (Str s)
  | DSeq items => Array <$> visit_seq strict_value items
  | DMap members => Object <$> visit_map strict_value [] members
  end.

Definition parse_strict_json `{JsonText} (bytes : string) : result ConversationError Value :=
  document ← ok_or InvalidTaskInput (read_document bytes);
  ok_or InvalidTaskInput (strict_value document).

(** ** What it accepts

    The reference: a document is strict when no number in it is fractional and no object names a
    member twice, at any depth, and its value is then the one serde_json gives it. *)

Fixpoint strict (d : Document) : Prop :=
  match d with
  | DF64 _ => False
  | DSeq items => (fix all l := match l with [] => True | x :: l' => strict x ∧ all l' end) items
  | DMap members =>
      NoDup members.*1 ∧
      (fix all l := match l with [] => True | kv :: l' => strict kv.2 ∧ all l' end) members
  | _ => True
  end.

(** serde_json's own reading of a document. *)
Fixpoint plain_value (d : Document) : Value :=
  match d with
  | DUnit => Null
  | DBool b => Bool b
  | DU64 n | DI64 n => Number (Int n)
  | DF64 bits => Number (Float bits)
  | DStr s => Str s
  | DSeq items => Array (plain_value <$> items)
  | DMap members => json_object ((λ kv, (kv.1, plain_value kv.2)) <$> members)
  end.

Definition reads_as (d : Document) : Prop :=
  ∀ v, strict_value d = Some v ↔ strict d ∧ v = plain_value d.

Lemma visit_seq_iff items vs :
  Forall reads_as items →
  visit_seq strict_value items = Some vs ↔ strict (DSeq items) ∧ vs = plain_value <$> items.
Proof.
  intros Hall. revert vs. induction Hall as [|d ds Hd _ IH]; intros vs; simpl.
  { naive_solver. }
  rewrite bind_Some. setoid_rewrite bind_Some. unfold reads_as in Hd. setoid_rewrite Hd.
  setoid_rewrite IH. simpl.
  split.
  - intros (v & [Hs ->] & vs' & [Hss ->] & [= <-]). done.
  - intros ([Hs Hss] & ->). exists (plain_value d). split; [done|]. by exists (plain_value <$> ds).
Qed.

(** The members accepted so far are those inserted so far. *)
Lemma visit_map_iff values members vs :
  Forall (λ kv, reads_as kv.2) members →
  visit_map strict_value values members = Some vs ↔
  (NoDup members.*1 ∧ Forall (λ k, obj_get k values = None) members.*1 ∧
   Forall (λ kv, strict kv.2) members) ∧
  vs = foldl (λ fs kv, obj_insert kv.1 kv.2 fs) values ((λ kv, (kv.1, plain_value kv.2)) <$> members).
Proof.
  intros Hall. revert values vs. induction Hall as [|[k d] ms Hd _ IH]; intros values vs; simpl.
  { rewrite Forall_nil. split; [|naive_solver]. intros [= <-]. split_and!; by constructor. }
  unfold reads_as in Hd. simpl in Hd. rewrite NoDup_cons, !Forall_cons. simpl.
  destruct (obj_get k values) as [x|] eqn:Hk; [naive_solver|].
  assert (Forall (λ k', obj_get k' (obj_insert k (plain_value d) values) = None) ms.*1 ↔
          k ∉ ms.*1 ∧ Forall (λ k', obj_get k' values = None) ms.*1) as Hfresh.
  { rewrite !Forall_forall. split.
    - intros Hf. split; [intros Hin; specialize (Hf _ Hin); by rewrite obj_get_insert_eq in Hf|].
      intros k' Hk'. specialize (Hf _ Hk'). rewrite obj_get_insert in Hf. by case_match.
    - intros [Hnin Hf] k' Hk'. rewrite obj_get_insert_ne by (by intros ->). by apply Hf. }
  rewrite bind_Some. setoid_rewrite Hd. setoid_rewrite IH. split.
  - intros (v & [Hs ->] & (Hnd & Hf & Hss) & ->). apply Hfresh in Hf as [??]. done.
  - intros (([Hnin Hnd] & [_ Hf] & Hs & Hss) & ->). exists (plain_value d). split; [done|].
    split_and!; try done. by apply Hfresh.
Qed.

Lemma strict_members members :
  strict (DMap members) ↔ NoDup members.*1 ∧ Forall (λ kv, strict kv.2) members.
Proof.
  simpl. assert (∀ l : list (string * Document), (fix all l := match l with [] => True | kv :: l' => strict kv.2 ∧ all l' end) l
    ↔ Forall (λ kv, strict kv.2) l) as Hall; [|by rewrite Hall].
  induction l as [|kv l IH]; [by rewrite Forall_nil|]. by rewrite Forall_cons, <-IH.
Qed.

Lemma strict_value_iff d : reads_as d.
Proof.
  induction d as [| | | | | |l IH|ms IH] using Document_nested_ind; intros v;
    [simpl; naive_solver..| |].
  - simpl. rewrite fmap_Some. setoid_rewrite (visit_seq_iff _ _ IH). naive_solver.
  - rewrite strict_members. simpl. rewrite fmap_Some. setoid_rewrite (visit_map_iff [] _ _ IH). split.
    + intros (vs & [(Hnd & _ & Hs) ->] & ->). done.
    + intros ((Hnd & Hs) & ->). eexists. split; [|done]. split; [|done].
      split_and!; [done|by apply Forall_true|done].
Qed.

(** C39: a body is accepted exactly when it is one JSON text with no fractional number and no
    member named twice at any depth, and what is accepted is serde_json's own value of it; a
    document that is refused is refused with [InvalidTaskInput]. *)
Theorem strict_json_exact `{JsonText} bytes :
  (∀ v, parse_strict_json bytes = Ok v ↔
    ∃ d, read_document bytes = Some d ∧ strict d ∧ v = plain_value d) ∧
  (∀ e, parse_strict_json bytes = Err e → e = InvalidTaskInput).
Proof.
  unfold parse_strict_json. destruct (read_document bytes) as [d|]; simpl; [|naive_solver].
  pose proof (strict_value_iff d) as Hd. unfold reads_as in Hd. split.
  - intros v. rewrite ok_or_Ok, Hd. naive_solver.
  - destruct (strict_value d); simpl; congruence.
Qed.
