(* ===== verification/ConversationTables.v ===== *)
(** * Conversation tables

    The tables of src/migrations/0006_agent_conversations.sql and
    0007_conversation_lifecycle.sql, keyed by their primary keys, with the CHECK constraints
    as predicates of a row. A text column restricted to a list of words is an enumeration. *)

From S2P Require Import Prelude Json Text Crates Types.
Local Open Scope string_scope.
Local Open Scope list_scope.
Local Open Scope Z_scope.

Inductive ConversationState := CvReserved | CvRunning | CvReady | CvUnusable | CvSuperseded.
Global Instance ConversationState_eq_dec : EqDecision ConversationState.
Proof. solve_decision. Defined.

Definition conversation_state_str (s : ConversationState) : string :=
  match s with
  | CvReserved => "reserved"
  | CvRunning => "running"
  | CvReady => "ready"
  | CvUnusable => "unusable"
  | CvSuperseded => "superseded"
  end.

Inductive TurnState := TnReserved | TnRunning | TnCompleted | TnFailed.
Global Instance TurnState_eq_dec : EqDecision TurnState.
Proof. solve_decision. Defined.

Definition turn_state_str (s : TurnState) : string :=
  match s with
  | TnReserved => "reserved"
  | TnRunning => "running"
  | TnCompleted => "completed"
  | TnFailed => "failed"
  end.

(** [matches!(state, "reserved" | "running")], for a conversation and for a turn. *)
Definition busy (s : ConversationState) : bool :=
  match s with CvReserved | CvRunning => true | _ => false end.
Definition in_flight (s : TurnState) : bool :=
  match s with TnReserved | TnRunning => true | _ => false end.

(** [agent_conversations]. *)
Record ConversationRow := {
  cv_room_id : Uuid;
  cv_agent_id : Uuid;
  cv_generation : Z;
  cv_state : ConversationState;
  cv_consumed_revision : Z;
  cv_policy_revision : string;
  cv_guidance_revision : string;
  cv_selected_settings : Value;
  cv_active_task_id : option Uuid;
  cv_created_at : DateTime;
  cv_updated_at : DateTime;
}.

(** [conversation_tasks]: the columns written once, when the turn is reserved .. *)
Record Turn := {
  tn_room_id : Uuid;
  tn_request_id : Uuid;
  tn_requester_id : Uuid;
  tn_agent_id : Uuid;
  tn_conversation_id : Uuid;
  tn_generation : Z;
  tn_trigger_event_id : Uuid;
  tn_context_revision : Z;
  tn_frozen_input : Value;
  tn_selected_settings : Value;
  tn_source_manifest : Value;
  tn_policy_revision : string;
  tn_authorization_expires_at : DateTime;
  tn_issued_at : DateTime;
  tn_expires_at : DateTime;
  tn_created_at : DateTime;
  tn_accepted_turn : Value;
}.

(** .. and the columns that later statements update. *)
Record TurnRow := {
  tn_turn : Turn;
  tn_state : TurnState;
  tn_lease_owner : option string;
  tn_lease_expires_at : option DateTime;
  tn_lease_token : option Uuid;
  tn_receipt_acknowledgement : option Value;
  tn_reply_event_id : option Uuid;
  tn_updated_at : DateTime;
  tn_result : option Value;
  tn_failure : option Value;
  tn_effective_settings : option Value;
  tn_usage : option Value;
  tn_last_update_ordinal : Z;
  tn_last_progress_at : option DateTime;
}.

(** [conversation_updates] and [conversation_update_requests]; their columns
    [conversation_id], [room_id], [agent_id] and [generation] repeat those of the task, to
    which a composite foreign key ties them, and are left out. *)
Record UpdateRow := {
  cu_ordinal : Z;
  cu_kind : string;
  cu_occurred_at : DateTime;
  cu_data : Value;
}.

Record UpdateRequestRow := {
  uq_ordinal : Z;
  uq_request : Value;
  uq_response : Value;
  uq_received_at : DateTime;
}.

(** [conversation_disclosures], keyed by conversation and source. *)
Record DisclosureRow := {
  ds_source_kind : string;
  ds_first_task_id : Uuid;
  ds_policy_revision : string;
  ds_disclosed_revision : Z;
}.

Record ConversationTables := {
  agent_conversations : gmap Uuid ConversationRow;
  conversation_tasks : gmap Uuid TurnRow;
  conversation_updates : gmap (Uuid * Uuid) UpdateRow;
  conversation_update_requests : gmap (Uuid * Uuid) UpdateRequestRow;
  conversation_disclosures : gmap (Uuid * Uuid) DisclosureRow;
}.

Definition empty_tables : ConversationTables :=
  {| agent_conversations := ∅; conversation_tasks := ∅; conversation_updates := ∅;
     conversation_update_requests := ∅; conversation_disclosures := ∅ |}.

Definition with_agent_conversations (f : gmap Uuid ConversationRow → gmap Uuid ConversationRow)
    (t : ConversationTables) : ConversationTables :=
  {| agent_conversations := f (agent_conversations t); conversation_tasks := conversation_tasks t;
     conversation_updates := conversation_updates t;
     conversation_update_requests := conversation_update_requests t;
     conversation_disclosures := conversation_disclosures t |}.
Definition with_turns (f : gmap Uuid TurnRow → gmap Uuid TurnRow) (t : ConversationTables) :
    ConversationTables :=
  {| agent_conversations := agent_conversations t; conversation_tasks := f (conversation_tasks t);
     conversation_updates := conversation_updates t;
     conversation_update_requests := conversation_update_requests t;
     conversation_disclosures := conversation_disclosures t |}.
Definition with_updates (f : gmap (Uuid * Uuid) UpdateRow → gmap (Uuid * Uuid) UpdateRow)
    (t : ConversationTables) : ConversationTables :=
  {| agent_conversations := agent_conversations t; conversation_tasks := conversation_tasks t;
     conversation_updates := f (conversation_updates t);
     conversation_update_requests := conversation_update_requests t;
     conversation_disclosures := conversation_disclosures t |}.
Definition with_update_requests
    (f : gmap (Uuid * Uuid) UpdateRequestRow → gmap (Uuid * Uuid) UpdateRequestRow)
    (t : ConversationTables) : ConversationTables :=
  {| agent_conversations := agent_conversations t; conversation_tasks := conversation_tasks t;
     conversation_updates := conversation_updates t;
     conversation_update_requests := f (conversation_update_requests t);
     conversation_disclosures := conversation_disclosures t |}.
Definition with_disclosures (f : gmap (Uuid * Uuid) DisclosureRow → gmap (Uuid * Uuid) DisclosureRow)
    (t : ConversationTables) : ConversationTables :=
  {| agent_conversations := agent_conversations t; conversation_tasks := conversation_tasks t;
     conversation_updates := conversation_updates t;
     conversation_update_requests := conversation_update_requests t;
     conversation_disclosures := f (conversation_disclosures t) |}.

(** ** Constraints *)

Definition between (lo z hi : Z) : bool := (lo <=? z) && (z <=? hi).

(** [char_length(column) BETWEEN 1 AND 128]. *)
Definition short_text (s : string) : bool := between 1 (Z.of_nat (chars_count s)) 128.

Definition conversation_check (row : ConversationRow) : bool :=
  bool_decide (cv_agent_id row = CODEX_AGENT_ID)
  && between 1 (cv_generation row) MAX_SAFE_INTEGER
  && between 0 (cv_consumed_revision row) MAX_SAFE_INTEGER
  && short_text (cv_policy_revision row) && short_text (cv_guidance_revision row)
  && Bool.eqb (busy (cv_state row)) (bool_decide (is_Some (cv_active_task_id row)))
  && (negb (bool_decide (cv_state row = CvReady)) || (0 <? cv_consumed_revision row)).

Definition turn_check (row : TurnRow) : bool :=
  let turn := tn_turn row in
  between 1 (tn_generation turn) MAX_SAFE_INTEGER
  && between 1 (tn_context_revision turn) MAX_SAFE_INTEGER
  && short_text (tn_policy_revision turn)
  && match tn_lease_owner row with Some owner => short_text owner | None => true end
  && (tn_issued_at turn <? tn_expires_at turn)
  && (tn_expires_at turn <=? tn_authorization_expires_at turn)
  && (tn_expires_at turn <=? tn_issued_at turn + seconds 180)
  && match tn_lease_owner row, tn_lease_expires_at row, tn_lease_token row with
     | None, None, None | Some _, Some _, Some _ => true
     | _, _, _ => false
     end
  && match tn_frozen_input turn with Object _ => true | _ => false end
  && match tn_source_manifest turn with Array _ => true | _ => false end
  && between 0 (tn_last_update_ordinal row) MAX_SAFE_INTEGER.

Definition update_check (row : UpdateRow) : bool :=
  between 1 (cu_ordinal row) MAX_SAFE_INTEGER
  && bool_decide (cu_kind row ∈ ["progress"; "settings"; "usage"; "completed"; "failed"]).

Definition update_request_check (row : UpdateRequestRow) : bool :=
  between 1 (uq_ordinal row) MAX_SAFE_INTEGER.

Definition disclosure_check (row : DisclosureRow) : bool :=
  bool_decide (ds_source_kind row ∈ ["event"; "decision"])
  && short_text (ds_policy_revision row)
  && between 1 (ds_disclosed_revision row) MAX_SAFE_INTEGER.
