(* ===== verification/Protocol.v ===== *)
(** * The room protocol (src/src/protocol.rs)

    Error values, the parser of untrusted JSON-RPC text into typed requests, the
    fingerprint that identifies a retried request, and the validity check every
    event passes before it is stored. *)

From S2P Require Import Prelude Json Text Crates Types.
From Stdlib Require Import Ascii.
Local Open Scope string_scope.
Local Open Scope list_scope.
Local Open Scope Z_scope.

(** ** Errors *)

Record RpcError := { rpc_code : Z; rpc_message : string }.

Global Instance RpcError_eq_dec : EqDecision RpcError.
Proof. solve_decision. Defined.

Definition invalid_request : RpcError := {| rpc_code := -32600; rpc_message := "Invalid request" |}.
Definition unknown_method : RpcError := {| rpc_code := -32601; rpc_message := "Method not found" |}.
Definition unsupported_contract_version : RpcError :=
  {| rpc_code := -32009; rpc_message := "Unsupported contract version" |}.
Definition unauthenticated : RpcError := {| rpc_code := -32001; rpc_message := "Unauthenticated" |}.
Definition forbidden : RpcError := {| rpc_code := -32003; rpc_message := "Forbidden" |}.
Definition not_found : RpcError :=
  {| rpc_code := -32004; rpc_message := "Room or decision not found" |}.
Definition invalid_transition : RpcError :=
  {| rpc_code := -32010; rpc_message := "Invalid state transition" |}.
Definition conflicting_duplicate : RpcError :=
  {| rpc_code := -32012; rpc_message := "Duplicate request with a different payload" |}.
Definition unknown_mention_target : RpcError :=
  {| rpc_code := -32013; rpc_message := "Unknown message mention target" |}.
Definition internal_error : RpcError := {| rpc_code := -32603; rpc_message := "Internal error" |}.

(** ** Views of a request *)

Definition request_id_str (r : ValidatedRequest) : string :=
  match r with
  | RSessionAuthenticate r => sa_id r
  | RJoin r => jn_id r
  | RChatSend r => cs_id r
  | RDecisionPropose r => dp_id r
  | RDecisionTransition r => dt_id r
  | RDecisionDelete r => dd_id r
  | RAgentTaskStart r => ts_id r
  end.

Definition room_id (r : ValidatedRequest) : option Uuid :=
  match r with
  | RSessionAuthenticate _ => None
  | RJoin r => Some (jn_room_id r)
  | RChatSend r => Some (cs_room_id r)
  | RDecisionPropose r => Some (dp_room_id r)
  | RDecisionTransition r => Some (dt_room_id r)
  | RDecisionDelete r => Some (dd_room_id r)
  | RAgentTaskStart r => Some (ts_room_id r)
  end.

Definition request_id (r : ValidatedRequest) : option Uuid :=
  match r with
  | RSessionAuthenticate _ => None
  | RJoin r => Some (jn_request_id r)
  | RChatSend r => Some (cs_request_id r)
  | RDecisionPropose r => Some (dp_request_id r)
  | RDecisionTransition r => Some (dt_request_id r)
  | RDecisionDelete r => Some (dd_request_id r)
  | RAgentTaskStart r => Some (ts_request_id r)
  end.

Section protocol.
Context `{UuidCrate, Chrono}.

(** The fields every fingerprint carries, in the order of the source. *)
Definition fingerprint_head (method version : string) (request room : Uuid) (at_ : DateTime) :
    list (string * Value) :=
  [("method", Str method); ("contractVersion", Str version); ("requestId", json_uuid request);
   ("roomId", json_uuid room); ("occurredAt", json_time at_)].

(** [agent_task_fingerprint] of store.rs, the same object as the request's. *)
Definition agent_task_fingerprint (r : AgentTaskStart) : Value :=
  json_object (fingerprint_head "agent.task.start" (ts_contract_version r) (ts_request_id r)
                 (ts_room_id r) (ts_occurred_at r) ++
    [("agentId", json_uuid (ts_agent_id r)); ("skillId", Str (skill_str (ts_skill_id r)));
     ("input", Str (ts_input r))]).

(** [ValidatedRequest::fingerprint]; session authentication is unreachable there. *)
Definition fingerprint (r : ValidatedRequest) : option Value :=
  match r with
  | RSessionAuthenticate _ => None
  | RChatSend r => Some (json_object
      (fingerprint_head "chat.send" (cs_contract_version r) (cs_request_id r) (cs_room_id r)
         (cs_occurred_at r) ++
       [("text", Str (cs_text r)); ("mentions", json_mentions (cs_mentions r));
        ("delivery", Str (delivery_str (cs_delivery r)))]))
  | RDecisionPropose r => Some (json_object
      (fingerprint_head "decision.propose" (dp_contract_version r) (dp_request_id r)
         (dp_room_id r) (dp_occurred_at r) ++
       [("title", Str (dp_title r)); ("summary", Str (dp_summary r));
        ("sourceEventIds", json_uuids (dp_source_event_ids r))]))
  | RDecisionTransition r => Some (json_object
      (fingerprint_head "decision.transition" (dt_contract_version r) (dt_request_id r)
         (dt_room_id r) (dt_occurred_at r) ++
       [("decisionId", json_uuid (dt_decision_id r)); ("action", Str (action_str (dt_action r)));
        ("editedTitle", json_option Str (dt_edited_title r));
        ("editedSummary", json_option Str (dt_edited_summary r))]))
  | RDecisionDelete r => Some (json_object
      (fingerprint_head "decision.delete" (dd_contract_version r) (dd_request_id r)
         (dd_room_id r) (dd_occurred_at r) ++
       [("decisionId", json_uuid (dd_decision_id r))]))
  | RAgentTaskStart r => Some (agent_task_fingerprint r)
  | RJoin r => Some (json_object
      (fingerprint_head "room.join" (jn_contract_version r) (jn_request_id r) (jn_room_id r)
         (jn_occurred_at r) ++
       [("afterSequence", json_option json_int (jn_after_sequence r))]))
  end.

(** ** Events accepted for storage *)

(** [HashSet::insert] over the identifiers seen so far: [None] on a repeat. *)
Definition insert_new (s : string) (seen : list string) : option (list string) :=
  if bool_decide (s ∈ seen) then None else Some (s :: seen).

(** The closure of [message_mentions_are_unique], over both sets of identifiers. *)
Fixpoint mentions_unique_from (participants aliases : list string) (mentions : list Value) : bool :=
  match mentions with
  | [] => true
  | m :: ms =>
      match get "type" m ≫= as_str with
      | Some t =>
          if String.eqb t "participant" then
            match (get "id" m ≫= as_str) ≫= λ id, insert_new id participants with
            | Some participants' => mentions_unique_from participants' aliases ms
            | None => false
            end
          else if String.eqb t "alias" then
            match (get "alias" m ≫= as_str) ≫= λ a, insert_new a aliases with
            | Some aliases' => mentions_unique_from participants aliases' ms
            | None => false
            end
          else false
      | None => false
      end
  end.

Definition message_mentions_are_unique (event : Value) : bool :=
  if negb (bool_decide ((get "eventType" event ≫= as_str) = Some "message.created")) then true
  else match pointer ["payload"; "mentions"] event ≫= as_array with
       | None => true
       | Some mentions => mentions_unique_from [] [] mentions
       end.

Definition event_envelope (event_id : Uuid) (e : NewEvent) : Value :=
  json_object
    [("contractVersion", Str "n2n.room.v1"); ("requestId", json_uuid (ne_request_id e));
     ("roomId", json_uuid (ne_room_id e)); ("occurredAt", json_time (ne_occurred_at e));
     ("sequence", json_int 1); ("eventId", json_uuid event_id);
     ("eventType", Str (ne_event_type e));
     ("actor", json_object [("id", json_uuid (ne_actor_id e)); ("role", Str (ne_actor_role e))]);
     ("payload", ne_payload e)].

Definition is_valid_room_event `{Schemas} (event_id : Uuid) (e : NewEvent) : bool :=
  let event := event_envelope event_id e in
  room_event_schema_valid event && message_mentions_are_unique event.

(** ** Typed parameters

    What serde's derived decoders accept of an object: every required member
    present with its type, no member outside the list ([deny_unknown_fields]), an
    [Option] member absent or null, a [#[serde(default)]] member absent. Serde also
    takes a sequence for a tagged structure and a one-member map for a unit variant;
    the schema check that comes first admits neither, so they are left out. *)

Definition known_fields (ks : list string) (fs : list (string * Value)) : bool :=
  forallb (λ kv, bool_decide (kv.1 ∈ ks)) fs.

Definition field {A} (k : string) (decode : Value → option A) (fs : list (string * Value)) :
    option A :=
  obj_get k fs ≫= decode.

Definition decode_option {A} (decode : Value → option A) (v : Value) : option (option A) :=
  if is_null v then Some None else Some <$> decode v.

Definition optional_field {A} (k : string) (decode : Value → option A)
    (fs : list (string * Value)) : option (option A) :=
  match obj_get k fs with None => Some None | Some v => decode_option decode v end.

Definition default_field {A} (k : string) (decode : Value → option A) (d : A)
    (fs : list (string * Value)) : option A :=
  match obj_get k fs with None => Some d | Some v => decode v end.

Definition decode_uuid (v : Value) : option Uuid := as_str v ≫= uuid_parse.
Definition decode_time (v : Value) : option DateTime := as_str v ≫= datetime_parse.
Arguments decode_uuid : simpl never.
Arguments decode_time : simpl never.
Definition decode_array {A} (decode : Value → option A) (v : Value) : option (list A) :=
  as_array v ≫= mapM decode.

Arguments decode_array : simpl never.

Definition decode_skill (v : Value) : option AgentSkillId :=
  if is_str v "summarize-context" then Some SummarizeContext
  else if is_str v "extract-action-items" then Some ExtractActionItems else None.
Definition decode_action (v : Value) : option DecisionAction :=
  if is_str v "confirm" then Some Confirm
  else if is_str v "edit" then Some Edit
  else if is_str v "dismiss" then Some Dismiss else None.
Definition decode_alias (v : Value) : option ChatMentionAlias :=
  if is_str v "allhumans" then Some AllHumans
  else if is_str v "allagents" then Some AllAgents else None.
Definition decode_delivery (v : Value) : option ChatDelivery :=
  if is_str v "room" then Some DeliverRoom
  else if is_str v "mentioned" then Some DeliverMentioned else None.

Definition decode_mention (v : Value) : option ChatMention :=
  fs ← as_object v;
  match obj_get "type" fs with
  | Some t =>
      if is_str t "participant" then
        if known_fields ["type"; "id"; "token"] fs then
          id ← field "id" decode_uuid fs; token ← field "token" as_str fs;
          Some (MentionParticipant id token)
        else None
      else if is_str t "alias" then
        if known_fields ["type"; "alias"] fs then
          a ← field "alias" decode_alias fs; Some (MentionAlias a)
        else None
      else None
  | None => None
  end.

Definition envelope_fields : list string :=
  ["id"; "contractVersion"; "requestId"; "roomId"; "occurredAt"].

Definition decode_session (fs : list (string * Value)) : option ValidatedRequest :=
  if known_fields ["id"; "accessToken"] fs then
    id ← field "id" as_str fs; token ← field "accessToken" as_str fs;
    Some (RSessionAuthenticate {| sa_id := id; sa_access_token := token |})
  else None.

Definition decode_join (fs : list (string * Value)) : option ValidatedRequest :=
  if known_fields (envelope_fields ++ ["afterSequence"]) fs then
    id ← field "id" as_str fs; version ← field "contractVersion" as_str fs;
    request ← field "requestId" decode_uuid fs; room ← field "roomId" decode_uuid fs;
    at_ ← field "occurredAt" decode_time fs;
    after ← optional_field "afterSequence" as_i64 fs;
    Some (RJoin {| jn_id := id; jn_contract_version := version; jn_request_id := request;
                   jn_room_id := room; jn_occurred_at := at_; jn_after_sequence := after |})
  else None.

Definition decode_chat (fs : list (string * Value)) : option ValidatedRequest :=
  if known_fields (envelope_fields ++ ["text"; "mentions"; "delivery"]) fs then
    id ← field "id" as_str fs; version ← field "contractVersion" as_str fs;
    request ← field "requestId" decode_uuid fs; room ← field "roomId" decode_uuid fs;
    at_ ← field "occurredAt" decode_time fs; text ← field "text" as_str fs;
    mentions ← default_field "mentions" (decode_array decode_mention) [] fs;
    delivery ← default_field "delivery" decode_delivery DeliverRoom fs;
    Some (RChatSend {| cs_id := id; cs_contract_version := version; cs_request_id := request;
                       cs_room_id := room; cs_occurred_at := at_; cs_text := text;
                       cs_mentions := mentions; cs_delivery := delivery |})
  else None.

Definition decode_propose (fs : list (string * Value)) : option ValidatedRequest :=
  if known_fields (envelope_fields ++ ["title"; "summary"; "sourceEventIds"]) fs then
    id ← field "id" as_str fs; version ← field "contractVersion" as_str fs;
    request ← field "requestId" decode_uuid fs; room ← field "roomId" decode_uuid fs;
    at_ ← field "occurredAt" decode_time fs; title ← field "title" as_str fs;
    summary ← field "summary" as_str fs;
    sources ← field "sourceEventIds" (decode_array decode_uuid) fs;
    Some (RDecisionPropose {| dp_id := id; dp_contract_version := version;
       dp_request_id := request; dp_room_id := room; dp_occurred_at := at_; dp_title := title;
       dp_summary := summary; dp_source_event_ids := sources |})
  else None.

Definition decode_transition (fs : list (string * Value)) : option ValidatedRequest :=
  if known_fields (envelope_fields ++ ["decisionId"; "action"; "editedTitle"; "editedSummary"]) fs
  then
    id ← field "id" as_str fs; version ← field "contractVersion" as_str fs;
    request ← field "requestId" decode_uuid fs; room ← field "roomId" decode_uuid fs;
    at_ ← field "occurredAt" decode_time fs; decision ← field "decisionId" decode_uuid fs;
    action ← field "action" decode_action fs;
    title ← optional_field "editedTitle" as_str fs;
    summary ← optional_field "editedSummary" as_str fs;
    Some (RDecisionTransition {| dt_id := id; dt_contract_version := version;
       dt_request_id := request; dt_room_id := room; dt_occurred_at := at_;
       dt_decision_id := decision; dt_action := action; dt_edited_title := title;
       dt_edited_summary := summary |})
  else None.

Definition decode_delete (fs : list (string * Value)) : option ValidatedRequest :=
  if known_fields (envelope_fields ++ ["decisionId"]) fs then
    id ← field "id" as_str fs; version ← field "contractVersion" as_str fs;
    request ← field "requestId" decode_uuid fs; room ← field "roomId" decode_uuid fs;
    at_ ← field "occurredAt" decode_time fs; decision ← field "decisionId" decode_uuid fs;
    Some (RDecisionDelete {| dd_id := id; dd_contract_version := version;
       dd_request_id := request; dd_room_id := room; dd_occurred_at := at_;
       dd_decision_id := decision |})
  else None.

Definition decode_task_start (fs : list (string * Value)) : option ValidatedRequest :=
  if known_fields (envelope_fields ++ ["agentId"; "skillId"; "input"]) fs then
    id ← field "id" as_str fs; version ← field "contractVersion" as_str fs;
    request ← field "requestId" decode_uuid fs; room ← field "roomId" decode_uuid fs;
    at_ ← field "occurredAt" decode_time fs; agent ← field "agentId" decode_uuid fs;
    skill ← field "skillId" decode_skill fs; input ← field "input" as_str fs;
    Some (RAgentTaskStart {| ts_id := id; ts_contract_version := version;
       ts_request_id := request; ts_room_id := room; ts_occurred_at := at_;
       ts_agent_id := agent; ts_skill_id := skill; ts_input := input |})
  else None.

(** [deserialize_request]: the JSON-RPC id joins the parameters, then serde decodes. *)
Definition deserialize_request (decode : list (string * Value) → option ValidatedRequest)
    (params : list (string * Value)) (id : string) : result RpcError ValidatedRequest :=
  ok_or invalid_request (decode (obj_insert "id" (Str id) params)).

Definition METHODS : list string :=
  ["session.authenticate"; "room.join"; "chat.send"; "decision.propose"; "decision.transition";
   "decision.delete"; "agent.task.start"].

Definition decoder (method : string) : option (list (string * Value) → option ValidatedRequest) :=
  if String.eqb method "session.authenticate" then Some decode_session
  else if String.eqb method "room.join" then Some decode_join
  else if String.eqb method "chat.send" then Some decode_chat
  else if String.eqb method "decision.propose" then Some decode_propose
  else if String.eqb method "decision.transition" then Some decode_transition
  else if String.eqb method "decision.delete" then Some decode_delete
  else if String.eqb method "agent.task.start" then Some decode_task_start
  else None.

(** The contract-version check of every method but session authentication. *)
Definition check_version (method : string) (params : list (string * Value)) :
    result RpcError () :=
  if String.eqb method "session.authenticate" then Ok ()
  else match obj_get "contractVersion" params with
       | Some (Str version) =>
           if String.eqb version "n2n.room.v1" then Ok () else Err unsupported_contract_version
       | _ => Err invalid_request
       end.

(** [validate_request] after the text is parsed. *)
Definition validate_value `{Schemas} (value : Value) : result RpcError ValidatedRequest :=
  object ← ok_or invalid_request (as_object value);
  _ ← reject_if (negb (bool_decide ((obj_get "jsonrpc" object ≫= as_str) = Some "2.0"))
        || match obj_get "id" object ≫= as_str with Some s => is_empty s | None => true end
        || match obj_get "params" object ≫= as_object with Some _ => false | None => true end)
      invalid_request;
  id ← ok_or invalid_request (obj_get "id" object ≫= as_str);
  method ← ok_or invalid_request (obj_get "method" object ≫= as_str);
  _ ← reject_if (negb (bool_decide (method ∈ METHODS))) unknown_method;
  params ← ok_or invalid_request (obj_get "params" object ≫= as_object);
  _ ← check_version method params;
  _ ← reject_if (negb (rpc_schema_valid value)) invalid_request;
  match decoder method with
  | Some decode => deserialize_request decode params id
  | None => Err unknown_method
  end.

Definition validate_request `{Schemas, SerdeJson} (request : string) :
    result RpcError ValidatedRequest :=
  value ← ok_or invalid_request (json_from_str request); validate_value value.
End protocol.

(** ** Fingerprints identify requests *)

(** The JSON-RPC id is a transport correlation, not part of the request. *)
Definition erase_id (r : ValidatedRequest) : ValidatedRequest :=
  match r with
  | RSessionAuthenticate r => RSessionAuthenticate
      {| sa_id := ""; sa_access_token := sa_access_token r |}
  | RJoin r => RJoin
      {| jn_id := ""; jn_contract_version := jn_contract_version r;
         jn_request_id := jn_request_id r; jn_room_id := jn_room_id r;
         jn_occurred_at := jn_occurred_at r; jn_after_sequence := jn_after_sequence r |}
  | RChatSend r => RChatSend
      {| cs_id := ""; cs_contract_version := cs_contract_version r;
         cs_request_id := cs_request_id r; cs_room_id := cs_room_id r;
         cs_occurred_at := cs_occurred_at r; cs_text := cs_text r;
         cs_mentions := cs_mentions r; cs_delivery := cs_delivery r |}
  | RDecisionPropose r => RDecisionPropose
      {| dp_id := ""; dp_contract_version := dp_contract_version r;
         dp_request_id := dp_request_id r; dp_room_id := dp_room_id r;
         dp_occurred_at := dp_occurred_at r; dp_title := dp_title r;
         dp_summary := dp_summary r; dp_source_event_ids := dp_source_event_ids r |}
  | RDecisionTransition r => RDecisionTransition
      {| dt_id := ""; dt_contract_version := dt_contract_version r;
         dt_request_id := dt_request_id r; dt_room_id := dt_room_id r;
         dt_occurred_at := dt_occurred_at r; dt_decision_id := dt_decision_id r;
         dt_action := dt_action r; dt_edited_title := dt_edited_title r;
         dt_edited_summary := dt_edited_summary r |}
  | RDecisionDelete r => RDecisionDelete
      {| dd_id := ""; dd_contract_version := dd_contract_version r;
         dd_request_id := dd_request_id r; dd_room_id := dd_room_id r;
         dd_occurred_at := dd_occurred_at r; dd_decision_id := dd_decision_id r |}
  | RAgentTaskStart r => RAgentTaskStart
      {| ts_id := ""; ts_contract_version := ts_contract_version r;
         ts_request_id := ts_request_id r; ts_room_id := ts_room_id r;
         ts_occurred_at := ts_occurred_at r; ts_agent_id := ts_agent_id r;
         ts_skill_id := ts_skill_id r; ts_input := ts_input r |}
  end.

Section fingerprints.
Context `{UuidLaws, ChronoLaws}.

(** Equality of two [json!] objects, member by member. *)
Lemma json_object_get k l l' :
  json_object l = json_object l' → obj_get k (reverse l) = obj_get k (reverse l').
Proof. intros Heq. rewrite <-!obj_get_of_list. unfold json_object in Heq. congruence. Qed.

Lemma json_uuid_inj u v : json_uuid u = json_uuid v → u = v.
Proof. intros [= Huv]. by apply uuid_to_string_inj. Qed.
Lemma json_time_inj t t' : json_time t = json_time t' → t = t'.
Proof. intros [= Htt]. by apply datetime_to_string_inj. Qed.

Lemma json_uuids_inj l l' : json_uuids l = json_uuids l' → l = l'.
Proof.
  unfold json_uuids. intros [= Hl]. revert l' Hl.
  induction l as [|u l IH]; intros [|v l']; intros; simplify_eq/=; [done|].
  f_equal; [by apply uuid_to_string_inj|]. by apply IH.
Qed.

Lemma json_mention_inj m m' : json_mention m = json_mention m' → m = m'.
Proof.
  destruct m as [i t|a], m' as [i' t'|a']; unfold json_mention; intros Heq.
  - pose proof (json_object_get "id" _ _ Heq) as Hid.
    pose proof (json_object_get "token" _ _ Heq) as Ht. vm_compute in Ht.
    cbv in Hid. simplify_eq. apply uuid_to_string_inj in Hid. congruence.
  - by pose proof (json_object_get "type" _ _ Heq).
  - by pose proof (json_object_get "type" _ _ Heq).
  - pose proof (json_object_get "alias" _ _ Heq) as Ha. by destruct a, a'.
Qed.

Lemma json_mentions_inj l l' : json_mentions l = json_mentions l' → l = l'.
Proof.
  unfold json_mentions. intros [= Hl]. revert l' Hl.
  induction l as [|m l IH]; intros [|m' l']; intros; try done.
  rewrite !fmap_cons in Hl. injection Hl as Hm Hl. f_equal; [by apply json_mention_inj|eauto].
Qed.

Lemma json_option_Str_inj (o o' : option string) :
  json_option Str o = json_option Str o' → o = o'.
Proof. destruct o, o'; simpl; congruence. Qed.

Lemma json_option_int_inj (o o' : option Z) :
  json_option json_int o = json_option json_int o' → o = o'.
Proof. destruct o, o'; unfold json_int; simpl; congruence. Qed.

Definition method_of (r : ValidatedRequest) : string :=
  match r with
  | RSessionAuthenticate _ => "session.authenticate"
  | RJoin _ => "room.join"
  | RChatSend _ => "chat.send"
  | RDecisionPropose _ => "decision.propose"
  | RDecisionTransition _ => "decision.transition"
  | RDecisionDelete _ => "decision.delete"
  | RAgentTaskStart _ => "agent.task.start"
  end.

Lemma fingerprint_method r v :
  fingerprint r = Some v → get "method" v = Some (Str (method_of r)).
Proof.
  destruct r; simpl; intros [= <-]; unfold agent_task_fingerprint; json_get; done.
Qed.

(** Read member [k] of two equal fingerprints and strip the encoding. *)
Ltac same_member k H :=
  let Hk := fresh "Hk" in
  pose proof (json_object_get k _ _ H) as Hk;
  cbn [reverse rev_append app obj_get String.eqb Ascii.eqb Bool.eqb] in Hk;
  apply (inj Some) in Hk;
  first [ apply json_uuid_inj in Hk | apply json_time_inj in Hk
        | apply json_uuids_inj in Hk | apply json_mentions_inj in Hk
        | apply json_option_Str_inj in Hk | apply json_option_int_inj in Hk
        | injection Hk as Hk ].

Lemma fingerprint_inj r r' :
  is_Some (fingerprint r) → fingerprint r = fingerprint r' → erase_id r = erase_id r'.
Proof.
  intros [v Hv] Heq. assert (method_of r = method_of r') as Hm.
  { pose proof (fingerprint_method _ _ Hv) as Hr. rewrite Heq in Hv.
    rewrite (fingerprint_method _ _ Hv) in Hr. congruence. }
  destruct r as [|r|r|r|r|r|r], r' as [|r'|r'|r'|r'|r'|r'];
    try discriminate Hm; try discriminate Hv; clear Hm Hv; apply (inj Some) in Heq as Hf; clear Heq; unfold fingerprint_head, agent_task_fingerprint in Hf; simpl app in Hf;
    same_member "contractVersion" Hf; same_member "requestId" Hf; same_member "roomId" Hf;
    same_member "occurredAt" Hf.
  - same_member "afterSequence" Hf. simpl; congruence.
  - same_member "text" Hf. same_member "mentions" Hf. same_member "delivery" Hf.
    assert (cs_delivery r = cs_delivery r') by (by destruct (cs_delivery r), (cs_delivery r')).
    simpl; congruence.
  - same_member "title" Hf. same_member "summary" Hf. same_member "sourceEventIds" Hf. simpl; congruence.
  - same_member "decisionId" Hf. same_member "action" Hf. same_member "editedTitle" Hf.
    same_member "editedSummary" Hf.
    assert (dt_action r = dt_action r') by (by destruct (dt_action r), (dt_action r')).
    simpl; congruence.
  - same_member "decisionId" Hf. simpl; congruence.
  - same_member "agentId" Hf. same_member "skillId" Hf. same_member "input" Hf.
    assert (ts_skill_id r = ts_skill_id r') by (by destruct (ts_skill_id r), (ts_skill_id r')).
    simpl; congruence.
Qed.
(** C30: Two requests with the same fingerprint are the same request up to the JSON-RPC
    correlation id: no member of the request (texts, identifiers, mentions in order,
    delivery, edited title or summary, absent or present) is lost by the fingerprint that
    decides whether a repeated request id is a retry or a conflict. *)
Theorem fingerprint_injective r r' :
  is_Some (fingerprint r) → fingerprint r = fingerprint r' → erase_id r = erase_id r'.
Proof. apply fingerprint_inj. Qed.

Lemma fingerprint_erase r : fingerprint (erase_id r) = fingerprint r.
Proof. by destruct r. Qed.

Lemma fingerprint_float_free r v : fingerprint r = Some v → float_free v = true.
Proof.
  destruct r as [r|r|r|r|r|r|r]; intros [= <-]; unfold agent_task_fingerprint;
    apply float_free_json_object; cbn [app forallb snd fingerprint_head];
    rewrite ?float_free_json_mentions, ?float_free_json_uuids; try done.
  - by destruct (jn_after_sequence r).
  - by destruct (dt_edited_title r), (dt_edited_summary r).
Qed.
End fingerprints.

(** ** Round trip of a request through its JSON form *)

Section roundtrip.
Context `{UuidLaws, ChronoLaws, Schemas}.

(** The parameters a client sends: the [Serialize] view of the request without its id. *)
Definition request_params (r : ValidatedRequest) : list (string * Value) :=
  match r with
  | RSessionAuthenticate r => [("accessToken", Str (sa_access_token r))]
  | RJoin r =>
      [("contractVersion", Str (jn_contract_version r)); ("requestId", json_uuid (jn_request_id r));
       ("roomId", json_uuid (jn_room_id r)); ("occurredAt", json_time (jn_occurred_at r));
       ("afterSequence", json_option json_int (jn_after_sequence r))]
  | RChatSend r =>
      [("contractVersion", Str (cs_contract_version r)); ("requestId", json_uuid (cs_request_id r));
       ("roomId", json_uuid (cs_room_id r)); ("occurredAt", json_time (cs_occurred_at r));
       ("text", Str (cs_text r)); ("mentions", json_mentions (cs_mentions r));
       ("delivery", Str (delivery_str (cs_delivery r)))]
  | RDecisionPropose r =>
      [("contractVersion", Str (dp_contract_version r)); ("requestId", json_uuid (dp_request_id r));
       ("roomId", json_uuid (dp_room_id r)); ("occurredAt", json_time (dp_occurred_at r));
       ("title", Str (dp_title r)); ("summary", Str (dp_summary r));
       ("sourceEventIds", json_uuids (dp_source_event_ids r))]
  | RDecisionTransition r =>
      [("contractVersion", Str (dt_contract_version r)); ("requestId", json_uuid (dt_request_id r));
       ("roomId", json_uuid (dt_room_id r)); ("occurredAt", json_time (dt_occurred_at r));
       ("decisionId", json_uuid (dt_decision_id r)); ("action", Str (action_str (dt_action r)));
       ("editedTitle", json_option Str (dt_edited_title r));
       ("editedSummary", json_option Str (dt_edited_summary r))]
  | RDecisionDelete r =>
      [("contractVersion", Str (dd_contract_version r)); ("requestId", json_uuid (dd_request_id r));
       ("roomId", json_uuid (dd_room_id r)); ("occurredAt", json_time (dd_occurred_at r));
       ("decisionId", json_uuid (dd_decision_id r))]
  | RAgentTaskStart r =>
      [("contractVersion", Str (ts_contract_version r)); ("requestId", json_uuid (ts_request_id r));
       ("roomId", json_uuid (ts_room_id r)); ("occurredAt", json_time (ts_occurred_at r));
       ("agentId", json_uuid (ts_agent_id r)); ("skillId", Str (skill_str (ts_skill_id r)));
       ("input", Str (ts_input r))]
  end.

Definition encode_request (r : ValidatedRequest) : Value :=
  json_object [("jsonrpc", Str "2.0"); ("id", Str (request_id_str r));
               ("method", Str (method_of r)); ("params", json_object (request_params r))].

(** What a client must respect for its request to be accepted. *)
Definition well_formed (r : ValidatedRequest) : Prop :=
  request_id_str r ≠ "" ∧
  match r with
  | RSessionAuthenticate _ => True
  | RJoin r => jn_contract_version r = "n2n.room.v1" ∧
               ∀ n, jn_after_sequence r = Some n → i64_min ≤ n ≤ i64_max
  | RChatSend r => cs_contract_version r = "n2n.room.v1"
  | RDecisionPropose r => dp_contract_version r = "n2n.room.v1"
  | RDecisionTransition r => dt_contract_version r = "n2n.room.v1"
  | RDecisionDelete r => dd_contract_version r = "n2n.room.v1"
  | RAgentTaskStart r => ts_contract_version r = "n2n.room.v1"
  end.

Lemma known_fields_insert ks k v fs :
  k ∈ ks → known_fields ks fs = true → known_fields ks (obj_insert k v fs) = true.
Proof.
  unfold known_fields. intros Hk. induction fs as [|[k' v'] fs IH]; simpl.
  - intros _. by rewrite bool_decide_true.
  - rewrite andb_true_iff, bool_decide_eq_true. intros [Hk' Hfs].
    destruct (String.compare k k'); simpl;
      rewrite ?IH, ?Hfs, ?andb_true_iff, ?bool_decide_eq_true; done.
Qed.

Lemma known_fields_of_list ks l :
  known_fields ks l = true → known_fields ks (obj_of_list l) = true.
Proof.
  unfold obj_of_list. induction l as [|[k v] l IH] using rev_ind; [done|].
  unfold known_fields. rewrite forallb_app, andb_true_iff, foldl_snoc. simpl.
  rewrite andb_true_r, bool_decide_eq_true. intros [Hl Hk]. apply known_fields_insert; auto.
Qed.

Lemma decode_uuid_json u : decode_uuid (json_uuid u) = Some u.
Proof. unfold decode_uuid. simpl. apply uuid_parse_to_string. Qed.
Lemma decode_time_json t : decode_time (json_time t) = Some t.
Proof. unfold decode_time. simpl. apply datetime_parse_to_string. Qed.

Lemma mapM_fmap_id {A} (f : A → Value) (d : Value → option A) l :
  (∀ a, d (f a) = Some a) → mapM d (f <$> l) = Some l.
Proof. intros Hd. apply mapM_Some_2, Forall2_fmap_l. induction l; constructor; auto. Qed.

Lemma decode_uuids_json l : decode_array decode_uuid (json_uuids l) = Some l.
Proof. unfold decode_array, json_uuids, json_mentions. simpl. apply mapM_fmap_id, decode_uuid_json. Qed.

Lemma decode_mention_json m : decode_mention (json_mention m) = Some m.
Proof.
  destruct m as [i t|a]; unfold json_mention.
  - unfold decode_mention, json_object, field. cbn [as_object mbind option_bind].
    rewrite !obj_get_of_list, known_fields_of_list by done. cbn.
    by rewrite decode_uuid_json.
  - by destruct a.
Qed.

Lemma decode_mentions_json l : decode_array decode_mention (json_mentions l) = Some l.
Proof. unfold decode_array, json_uuids, json_mentions. simpl. apply mapM_fmap_id, decode_mention_json. Qed.

Lemma decode_option_str o :
  decode_option as_str (json_option Str o) = Some o.
Proof. by destruct o. Qed.

Lemma decode_option_i64 o :
  (∀ n, o = Some n → i64_min ≤ n ≤ i64_max) →
  decode_option as_i64 (json_option json_int o) = Some o.
Proof.
  destruct o as [n|]; [|done]. intros Hn. unfold decode_option. simpl. specialize (Hn n eq_refl).
  unfold i64_min, i64_max in Hn.
  destruct (Z.leb_spec (- 2 ^ 63) n); [|lia]. by destruct (Z.ltb_spec n (2 ^ 63)); [|lia].
Qed.

Definition decoder_of (r : ValidatedRequest) : list (string * Value) → option ValidatedRequest :=
  match r with
  | RSessionAuthenticate _ => decode_session
  | RJoin _ => decode_join
  | RChatSend _ => decode_chat
  | RDecisionPropose _ => decode_propose
  | RDecisionTransition _ => decode_transition
  | RDecisionDelete _ => decode_delete
  | RAgentTaskStart _ => decode_task_start
  end.

(** The envelope of an encoded request passes every check before the typed decoding. *)
Lemma validate_encoded r :
  well_formed r → rpc_schema_valid (encode_request r) = true →
  validate_value (encode_request r) =
  deserialize_request (decoder_of r) (obj_of_list (request_params r)) (request_id_str r).
Proof.
  intros [Hid Hr] Hschema. unfold validate_value, encode_request, json_object in *.
  cbn [as_object ok_or mbind result_bind].
  rewrite !obj_get_of_list. cbn. rewrite Hschema.
  assert (is_empty (request_id_str r) = false) as -> by (by destruct (request_id_str r)).
  cbn. destruct r; cbn; try done; unfold check_version; cbn;
    rewrite obj_get_of_list; cbn; by rewrite ?(proj1 Hr), ?Hr.
Qed.

Lemma deserialize_obj decode l id :
  deserialize_request decode (obj_of_list l) id =
  ok_or invalid_request (decode (obj_of_list (l ++ [("id", Str id)]))).
Proof. unfold deserialize_request, obj_of_list. by rewrite foldl_snoc. Qed.

End roundtrip.

(** ** What acceptance guarantees *)

Section acceptance.
Context `{UuidCrate, Chrono, Schemas}.

Lemma get_as_str k fs s : (obj_get k fs ≫= as_str) = Some s ↔ obj_get k fs = Some (Str s).
Proof.
  destruct (obj_get k fs) as [[]|]; simpl; split; intros Heq; try discriminate Heq;
    by injection Heq as ->.
Qed.

Lemma get_as_object k fs o :
  (obj_get k fs ≫= as_object) = Some o ↔ obj_get k fs = Some (Object o).
Proof.
  destruct (obj_get k fs) as [[]|]; simpl; split; intros Heq; try discriminate Heq;
    by injection Heq as ->.
Qed.

(** A decoder keeps the id it was given and builds its own kind of request. *)
Definition decodes (method : string) (decode : list (string * Value) → option ValidatedRequest) :=
  ∀ fs r, decode fs = Some r →
    obj_get "id" fs = Some (Str (request_id_str r)) ∧ method_of r = method.

Ltac decoder_ok :=
  intros fs r Hd; case_match; [|done];
  unfold field in Hd; repeat (apply bind_Some in Hd as (? & ? & Hd)); simplify_eq; simpl;
  split; [|done];
  match goal with
  | Hid : (obj_get "id" fs ≫= as_str) = Some _ |- _ =>
      by apply get_as_str in Hid
  end.

Lemma decoder_decodes method decode : decoder method = Some decode → decodes method decode.
Proof.
  unfold decoder. repeat case_match; intros; simplify_eq;
  repeat match goal with Hm : String.eqb _ _ = true |- _ => apply String.eqb_eq in Hm as -> end;
  unfold decodes, decode_session, decode_join, decode_chat, decode_propose,
    decode_transition, decode_delete, decode_task_start; decoder_ok.
Qed.

(** Whatever value the parser accepts, it is a JSON-RPC 2.0 object whose id is the
    non-empty id of the decoded request, whose method is the method of that request, whose
    parameters carry the supported contract version unless it authenticates the session, and
    which conforms to the pinned schema. *)
Theorem validate_value_sound v r :
  validate_value v = Ok r →
  get "jsonrpc" v = Some (Str "2.0") ∧
  get "id" v = Some (Str (request_id_str r)) ∧ request_id_str r ≠ "" ∧
  get "method" v = Some (Str (method_of r)) ∧
  (method_of r = "session.authenticate" ∨
   pointer ["params"; "contractVersion"] v = Some (Str "n2n.room.v1")) ∧
  rpc_schema_valid v = true.
Proof.
  unfold validate_value. intros Hv.
  apply rbind_Ok in Hv as (object & Ho & Hv). apply ok_or_Ok in Ho.
  destruct v as [| | | | |fs]; simplify_eq/=.
  apply rbind_Ok in Hv as ([] & Hg & Hv). apply reject_if_Ok in Hg.
  apply orb_false_iff in Hg as [[Hrpc Hid]%orb_false_iff Hps].
  apply negb_false_iff, bool_decide_eq_true in Hrpc.
  apply rbind_Ok in Hv as (id & Hi & Hv). apply ok_or_Ok in Hi. rewrite Hi in Hid.
  apply rbind_Ok in Hv as (method & Hm & Hv). apply ok_or_Ok in Hm.
  apply rbind_Ok in Hv as ([] & _ & Hv).
  apply rbind_Ok in Hv as (params & Hp & Hv). apply ok_or_Ok in Hp.
  apply rbind_Ok in Hv as ([] & Hver & Hv).
  apply rbind_Ok in Hv as ([] & Hs & Hv). apply reject_if_Ok, negb_false_iff in Hs.
  destruct (decoder method) as [decode|] eqn:Hdec; [|done].
  apply ok_or_Ok, (decoder_decodes _ _ Hdec) in Hv as [Hrid Hmeth].
  rewrite obj_get_insert_eq in Hrid. injection Hrid as ->.
  apply get_as_str in Hrpc, Hi, Hm. apply get_as_object in Hp. simpl. subst method.
  split_and!; [done|done|by intros Heq; rewrite Heq in Hid|done| |done].
  unfold check_version in Hver.
  destruct (String.eqb_spec (method_of r) "session.authenticate") as [|]; [by left|right].
  rewrite Hp. simpl. repeat case_match; simplify_eq/=.
  match goal with Hb : String.eqb _ _ = true |- _ => by apply String.eqb_eq in Hb as -> end.
Qed.
End acceptance.

(** ** Examples *)

Module ProtocolExamples.
Import Reference.

Definition sample_chat (id text : string) : ValidatedRequest := RChatSend
  {| cs_id := id; cs_contract_version := "n2n.room.v1"; cs_request_id := from_u128 7;
     cs_room_id := from_u128 1; cs_occurred_at := 5000; cs_text := text;
     cs_mentions := [MentionParticipant (from_u128 9) "ada"; MentionAlias AllAgents];
     cs_delivery := DeliverMentioned |}.

Lemma fingerprint_injective_witness :
  is_Some (fingerprint (sample_chat "a" "hello")) ∧
  erase_id (sample_chat "a" "hello") = erase_id (sample_chat "b" "hello").
Proof.
  split; [by eexists|].
  apply (fingerprint_injective (sample_chat "a" "hello") (sample_chat "b" "hello"));
    [by eexists|reflexivity].
Defined.


Lemma validate_value_sound_witness :
  get "method" (encode_request (sample_chat "a" "hello")) = Some (Str "chat.send").
Proof.
  apply (validate_value_sound (encode_request (sample_chat "a" "hello")) (sample_chat "a" "hello")).
  vm_compute. reflexivity.
Defined.

(** A fingerprint distinguishes two texts under one request id. *)
Example fingerprint_differs :
  fingerprint (sample_chat "a" "hello") ≠ fingerprint (sample_chat "a" "hullo").
Proof. vm_compute. congruence. Qed.
End ProtocolExamples.
