(* ===== verification/Mentions.v ===== *)
(** * Mentions, audiences and visibility (src/src/rooms.rs)

    How the participants of a room get the tokens they are mentioned by, which mentions a
    message may carry, who receives a message with restricted delivery, and which stored
    events an actor may see. *)

From S2P Require Import Prelude Json Text Crates Types Protocol.
From stdpp Require Import pretty.
From Stdlib Require Import Ascii.
Local Open Scope string_scope.
Local Open Scope list_scope.
Local Open Scope nat_scope.

(** ** Names *)

(** [char::to_lowercase] on code points, up to what [normalized_participant_name] observes:
    the ASCII letters of the result. Of the letters outside ASCII only U+0130 and U+212A
    lower to something with an ASCII letter in it. *)
Definition char_to_lowercase (c : N) : list N :=
  (if (65 <=? c) && (c <=? 90) then [c + 32]
   else if c =? 304 then [105; 775]
   else if c =? 8490 then [107]
   else [c])%N.

Definition combining_mark (c : N) : bool := ((0x300 <=? c) && (c <=? 0x36f))%N.

Definition char_is_ascii_alphanumeric (c : N) : bool :=
  ((c <? 128)%N && is_ascii_alphanumeric (ascii_of_N c)).

(** One turn of the fold: letters and digits are kept, any run of others is one hyphen. *)
Definition push_slug (slug : list ascii) (c : N) : list ascii :=
  if char_is_ascii_alphanumeric c then slug ++ [ascii_of_N c]
  else if bool_decide (last slug = Some "-"%char) then slug
  else slug ++ ["-"%char].

Fixpoint drop_hyphens (l : list ascii) : list ascii :=
  match l with
  | c :: l' => if Ascii.eqb c "-" then drop_hyphens l' else l
  | [] => []
  end.

(** [trim_matches('-')]. *)
Definition trim_hyphens (l : list ascii) : list ascii :=
  reverse (drop_hyphens (reverse (drop_hyphens l))).

Definition normalized_participant_name `{Unicode} (display_name : string) : string :=
  let characters :=
    List.filter (λ c, negb (combining_mark c)) (nfkd display_name) ≫= char_to_lowercase in
  let slug := trim_hyphens (foldl push_slug [] characters) in
  match slug with
  | [] => "participant"
  | _ => String.string_of_list_ascii slug
  end.

Definition participant_id_token `{UuidCrate} (id : Uuid) : string :=
  let token := to_ascii_lowercase (filter_bytes is_ascii_alphanumeric (uuid_to_string id)) in
  if is_empty token then "participant" else token.

(** ** Mention tokens *)

(** An entry of [disambiguated]: position, name and identifier token. *)
Record Entry := { en_index : nat; en_name : string; en_id : string }.

(** The comparison of [disambiguated.sort_by]. *)
Definition entry_le (a b : Entry) : Prop :=
  match String.compare (en_name a) (en_name b) with
  | Lt => True
  | Gt => False
  | Eq => match String.compare (en_id a) (en_id b) with
          | Lt => True
          | Gt => False
          | Eq => en_index a ≤ en_index b
          end
  end.
Global Instance entry_le_dec a b : Decision (entry_le a b).
Proof. unfold entry_le. repeat case_match; apply _. Defined.

(** [format!("{name}-{}", &id[..n])]. *)
Definition suffixed (name id : string) (n : nat) : string :=
  String.append name (String.append "-" (take_bytes n id)).

(** [format!("{name}-{id}-{duplicate}")]. *)
Definition numbered (name id : string) (duplicate : nat) : string :=
  String.append name (String.append "-" (String.append id (String.append "-" (pretty duplicate)))).

(** The condition under which a group needs longer suffixes. *)
Definition suffix_clash (occupied : gset string) (name : string) (group : list Entry) (n : nat) :
    bool :=
  negb (size (list_to_set (C := gset string) ((λ e, take_bytes n (en_id e)) <$> group))
        =? length group)
  || existsb (λ e, bool_decide (suffixed name (en_id e) n ∈ occupied)) group.

(** [while id_length < max_id_length && clash { id_length += 1 }]; the first argument is
    [max_id_length - id_length]. *)
Fixpoint grow_group (room : nat) (occupied : gset string) (name : string) (group : list Entry)
    (id_length : nat) : nat :=
  match room with
  | 0 => id_length
  | S room' =>
      if suffix_clash occupied name group id_length
      then grow_group room' occupied name group (S id_length)
      else id_length
  end.

Definition group_of (disambiguated : list Entry) (name : string) : list Entry :=
  List.filter (λ e, String.eqb (en_name e) name) disambiguated.

Definition group_length (occupied : gset string) (disambiguated : list Entry) (name : string) :
    nat :=
  let group := group_of disambiguated name in
  let max_id_length := max_list (String.length ∘ en_id <$> group) in
  let id_length := Nat.min 8 max_id_length in
  grow_group (max_id_length - id_length) occupied name group id_length.

(** The loop that fills [suffix_lengths], a group at a time. *)
Fixpoint fill_lengths (occupied : gset string) (disambiguated entries : list Entry)
    (lengths : list (option nat)) : list (option nat) :=
  match entries with
  | [] => lengths
  | e :: entries' =>
      match mjoin (lengths !! en_index e) with
      | Some _ => fill_lengths occupied disambiguated entries' lengths
      | None =>
          let n := group_length occupied disambiguated (en_name e) in
          fill_lengths occupied disambiguated entries'
            (foldl (λ ls g, <[en_index g := Some n]> ls) lengths
               (group_of disambiguated (en_name e)))
      end
  end.

(** [while occupied.contains(&token) && id_length < id.len()]; the first argument is
    [id.len() - id_length], the result the token. *)
Fixpoint lengthen (room : nat) (occupied : gset string) (name id : string) (id_length : nat) :
    string :=
  let token := suffixed name id id_length in
  match room with
  | 0 => token
  | S room' =>
      if bool_decide (token ∈ occupied) then lengthen room' occupied name id (S id_length)
      else token
  end.

(** [while occupied.contains(&token)], numbering from [duplicate]. *)
Fixpoint renumber (fuel : nat) (occupied : gset string) (name id token : string)
    (duplicate : nat) : string :=
  if bool_decide (token ∈ occupied) then
    match fuel with
    | 0 => token
    | S fuel' => renumber fuel' occupied name id (numbered name id duplicate) (S duplicate)
    end
  else token.

(** One turn of the last loop. *)
Definition suffix_token (occupied : gset string) (lengths : list (option nat)) (e : Entry) :
    string :=
  let id_length :=
    Nat.min (default 8 (mjoin (lengths !! en_index e))) (String.length (en_id e)) in
  let token :=
    lengthen (String.length (en_id e) - id_length) occupied (en_name e) (en_id e) id_length in
  renumber (S (size occupied)) occupied (en_name e) (en_id e) token 2.

Fixpoint assign_suffixes (lengths : list (option nat)) (entries : list Entry)
    (occupied : gset string) (tokens : list (option string)) : list (option string) :=
  match entries with
  | [] => tokens
  | e :: entries' =>
      let token := suffix_token occupied lengths e in
      assign_suffixes lengths entries' ({[token]} ∪ occupied) (<[en_index e := Some token]> tokens)
  end.

Section tokens.
Context `{UuidCrate, Unicode}.

Definition pinned_codex (p : RoomParticipant) : bool :=
  bool_decide (rp_id p = CODEX_AGENT_ID) && String.eqb (rp_role p) "agent".

Definition name_count (names : list string) (name : string) : nat :=
  length (List.filter (String.eqb name) names).

Definition needs_suffix (names : list string) (p : RoomParticipant) (name : string) : bool :=
  negb (pinned_codex p)
  && (String.eqb name "codex-agent" || bool_decide (name ∈ MENTION_ALIASES)
      || (1 <? name_count names name)).

(** The first loop: participants whose name is free keep it. *)
Definition plain_token (names : list string) (p : RoomParticipant) (name : string) :
    option string :=
  if needs_suffix names p name then None
  else Some (if pinned_codex p then "codex-agent" else name).

Definition occupied_names (names : list string) (ps : list RoomParticipant) : gset string :=
  list_to_set ("codex-agent" :: MENTION_ALIASES) ∪
  list_to_set (snd <$> List.filter (λ pn, negb (needs_suffix names pn.1 pn.2)) (zip ps names)).

Definition suffix_entries (names : list string) (ps : list RoomParticipant) : list Entry :=
  (λ '(i, (p, name)), {| en_index := i; en_name := name; en_id := participant_id_token (rp_id p) |})
  <$> List.filter (λ ipn, needs_suffix names ipn.2.1 ipn.2.2) (imap (λ i pn, (i, pn)) (zip ps names)).

Definition participant_mention_tokens (participants : list RoomParticipant) : list string :=
  let names := normalized_participant_name ∘ rp_display_name <$> participants in
  let tokens := zip_with (plain_token names) participants names in
  let occupied := occupied_names names participants in
  let disambiguated := merge_sort entry_le (suffix_entries names participants) in
  let lengths :=
    fill_lengths occupied disambiguated disambiguated (replicate (length participants) None) in
  default "participant" <$> assign_suffixes lengths disambiguated occupied tokens.
End tokens.

(** ** Mentions and audiences *)

Section audience.
Context `{UuidCrate, Unicode}.

(** The tokens by participant identifier. *)
Definition known_participants (participants : list RoomParticipant) : gmap Uuid string :=
  collect_map (zip (rp_id <$> participants) (participant_mention_tokens participants)).

(** The loop of [validate_mentions] over the two sets of targets seen so far. *)
Fixpoint check_mentions (known : gmap Uuid string) (ids : gset Uuid)
    (aliases : list ChatMentionAlias) (mentions : list ChatMention) : result RpcError () :=
  match mentions with
  | [] => Ok ()
  | MentionParticipant id token :: ms =>
      match known !! id with
      | None => Err unknown_mention_target
      | Some canonical_token =>
          if bool_decide (id ∈ ids) || negb (String.eqb token canonical_token)
          then Err unknown_mention_target
          else check_mentions known ({[id]} ∪ ids) aliases ms
      end
  | MentionAlias alias :: ms =>
      if bool_decide (alias ∈ aliases) then Err unknown_mention_target
      else check_mentions known ids (alias :: aliases) ms
  end.

Definition validate_mentions (participants : list RoomParticipant) (mentions : list ChatMention) :
    result RpcError () :=
  check_mentions (known_participants participants) ∅ [] mentions.

(** Whom one mention adds to the audience. *)
Definition mention_targets (participants : list RoomParticipant) (m : ChatMention) : list Uuid :=
  match m with
  | MentionParticipant id _ => [id]
  | MentionAlias AllHumans =>
      rp_id <$> List.filter (λ p, String.eqb (rp_role p) "human") participants
  | MentionAlias AllAgents =>
      rp_id <$> List.filter
        (λ p, String.eqb (rp_role p) "agent" || String.eqb (rp_role p) "human") participants
  end.

Definition resolve_chat_audience (actor : Actor) (participants : list RoomParticipant)
    (request : ChatSend) : result RpcError (list Uuid) :=
  _ ← validate_mentions participants (cs_mentions request);
  if decide (cs_delivery request = DeliverRoom) then Ok []
  else
    let audience_ids : gset Uuid :=
      foldl (λ acc m, acc ∪ list_to_set (mention_targets participants m)) {[actor_id actor]}
        (cs_mentions request) in
    Ok (merge_sort uuid_le (elements audience_ids)).

Definition normalized_chat_payload (request : ChatSend) (audience_ids : list Uuid) : Value :=
  json_object
    [("text", Str (cs_text request)); ("mentions", json_mentions (cs_mentions request));
     ("delivery", Str (delivery_str (cs_delivery request)));
     ("audienceIds", json_uuids audience_ids)].

Definition invokes_action_items (actor : Actor) (request : ChatSend) : bool :=
  bool_decide (actor_role actor = Human) && bool_decide (cs_delivery request = DeliverRoom) &&
  existsb (λ m, match m with
                | MentionParticipant id _ => bool_decide (id = ACTION_ITEMS_AGENT_ID)
                | MentionAlias _ => false
                end) (cs_mentions request).

(** Governs replay, live delivery and agent context packets alike. *)
Definition event_visible_to (event : RoomEvent) (actor : Uuid) : bool :=
  match get "delivery" (ev_payload event) ≫= as_str with
  | Some delivery =>
      if String.eqb delivery "mentioned" then
        match get "audienceIds" (ev_payload event) ≫= as_array with
        | Some audience_ids =>
            existsb (λ v, bool_decide ((as_str v ≫= uuid_parse) = Some actor)) audience_ids
        | None => false
        end
      else true
  | None => true
  end.
End audience.

(** ** Tokens are unambiguous *)

Section token_facts.
Context `{UuidCrate, Unicode}.

Lemma renumber_spec fuel occupied name id token d :
  renumber fuel occupied name id token d ∉ occupied ∨
  (token ∈ occupied ∧ ∀ k, k < fuel → numbered name id (d + k) ∈ occupied).
Proof.
  revert token d. induction fuel as [|fuel IH]; intros token d; simpl;
    case_bool_decide as Hin; auto.
  - right. split; [done|]. lia.
  - destruct (IH (numbered name id d) (S d)) as [?|[H1 H2]]; [by left|right].
    split; [done|]. intros [|k] Hk.
    + by rewrite Nat.add_0_r.
    + rewrite <-Nat.add_succ_comm. apply H2. lia.
Qed.

Global Instance numbered_inj name id : Inj (=) (=) (numbered name id).
Proof.
  intros d d'. unfold numbered. intros Heq.
  by apply (inj (String.append _)), (inj (String.append _)), (inj (String.append _)),
    (inj (String.append _)), (inj pretty) in Heq.
Qed.

(** More candidates than occupied tokens: one of them is free. *)
Lemma renumber_fresh occupied name id token d :
  renumber (S (size occupied)) occupied name id token d ∉ occupied.
Proof.
  destruct (renumber_spec (S (size occupied)) occupied name id token d) as [?|[_ Hall]]; [done|].
  exfalso.
  assert (list_to_set (numbered name id <$> seq d (S (size occupied))) ⊆ occupied) as Hsub.
  { intros t. rewrite elem_of_list_to_set, list_elem_of_fmap. intros (n & -> & Hn%elem_of_seq).
    replace n with (d + (n - d)) by lia. apply Hall. lia. }
  apply subseteq_size in Hsub. rewrite size_list_to_set in Hsub.
  - rewrite length_fmap, length_seq in Hsub. lia.
  - apply NoDup_fmap_2; [apply _|]. apply NoDup_seq.
Qed.

Lemma suffix_token_fresh occupied lengths e : suffix_token occupied lengths e ∉ occupied.
Proof. apply renumber_fresh. Qed.

(** What the tokens assigned so far satisfy: each is occupied, and no two are equal. *)
Record tokens_ok (occupied : gset string) (tokens : list (option string)) : Prop := {
  tokens_occupied i t : tokens !! i = Some (Some t) → t ∈ occupied;
  tokens_inj i j t : tokens !! i = Some (Some t) → tokens !! j = Some (Some t) → i = j;
}.

Lemma tokens_ok_insert occupied tokens i t :
  tokens_ok occupied tokens → t ∉ occupied →
  tokens_ok ({[t]} ∪ occupied) (<[i := Some t]> tokens).
Proof.
  intros [Hocc Hinj] Ht. split.
  - intros j u. rewrite list_lookup_insert_Some. intros [(_ & [= <-] & _)|[_ Hj]]; set_solver.
  - intros j k u. rewrite !list_lookup_insert_Some.
    intros [(<- & [= <-] & _)|[Hij Hj]] [(<- & Heq & _)|[Hik Hk]]; try done.
    + by apply Hocc in Hk.
    + simplify_eq. by apply Hocc in Hj.
    + by eapply Hinj.
Qed.

Lemma assign_suffixes_ok lengths entries occupied tokens :
  tokens_ok occupied tokens →
  ∃ occupied', occupied ⊆ occupied' ∧
    tokens_ok occupied' (assign_suffixes lengths entries occupied tokens).
Proof.
  revert occupied tokens. induction entries as [|e entries IH]; intros occupied tokens Hok; simpl.
  - by exists occupied.
  - destruct (IH ({[suffix_token occupied lengths e]} ∪ occupied)
                (<[en_index e := Some (suffix_token occupied lengths e)]> tokens))
      as (occ' & Hsub & Hok'); [by apply tokens_ok_insert, suffix_token_fresh|].
    exists occ'. set_solver.
Qed.

(** A token assigned before the last loop is never overwritten if no entry points at it, and
    a new token is never one that was occupied. *)
Lemma assign_suffixes_lookup lengths entries occupied tokens i :
  i < length tokens →
  (∃ t, assign_suffixes lengths entries occupied tokens !! i = Some (Some t) ∧
        t ∉ occupied ∧ ∃ e, e ∈ entries ∧ en_index e = i) ∨
  (assign_suffixes lengths entries occupied tokens !! i = tokens !! i ∧
   ∀ e, e ∈ entries → en_index e ≠ i).
Proof.
  revert occupied tokens. induction entries as [|e entries IH]; intros occupied tokens Hi; simpl.
  - right. split; [done|]. set_solver.
  - set (t := suffix_token occupied lengths e).
    destruct (IH ({[t]} ∪ occupied) (<[en_index e := Some t]> tokens)) as
      [(u & Hu & Hnin & e' & He' & Hidx)|[Heq Hne]].
    { by rewrite length_insert. }
    + left. exists u. split; [done|]. set_solver.
    + destruct (decide (en_index e = i)) as [<-|Hei].
      * left. exists t. rewrite Heq, list_lookup_insert_eq by done.
        split; [done|]. split; [apply suffix_token_fresh|]. exists e. set_solver.
      * right. rewrite Heq, list_lookup_insert_ne by done. split; [done|]. set_solver.
Qed.

Lemma assign_suffixes_length lengths entries occupied tokens :
  length (assign_suffixes lengths entries occupied tokens) = length tokens.
Proof.
  revert occupied tokens. induction entries as [|e entries IH]; intros; simpl; [done|].
  by rewrite IH, length_insert.
Qed.
End token_facts.

Section token_theorem.
Context `{UuidCrate, Unicode}.

Lemma name_count_repeat names i j name :
  names !! i = Some name → names !! j = Some name → i ≠ j → 1 < name_count names name.
Proof.
  assert (∀ l k, l !! k = Some name → 0 < name_count l name) as Hpos.
  { intros l. unfold name_count. induction l as [|n l IH]; intros [|k] Hk; simplify_eq/=.
    - rewrite String.eqb_refl. simpl. lia.
    - destruct (String.eqb name n); simpl; eauto. apply IH in Hk. lia. }
  revert i j. induction names as [|n names IH]; intros [|i] [|j] Hi Hj Hij; simplify_eq/=;
    unfold name_count in *; simpl; rewrite ?String.eqb_refl; simpl.
  - apply Hpos in Hj. unfold name_count in Hj. lia.
  - apply Hpos in Hi. unfold name_count in Hi. lia.
  - assert (i ≠ j) as Hij' by congruence. specialize (IH i j Hi Hj Hij').
    destruct (String.eqb name n); simpl; lia.
Qed.

Lemma suffix_entries_elem names ps e :
  e ∈ suffix_entries names ps ↔
  ∃ p, ps !! en_index e = Some p ∧ names !! en_index e = Some (en_name e) ∧
       needs_suffix names p (en_name e) = true ∧ en_id e = participant_id_token (rp_id p).
Proof.
  unfold suffix_entries. rewrite list_elem_of_fmap. split.
  - intros ([i [p name]] & -> & Hin). rewrite list_elem_of_In, filter_In in Hin.
    destruct Hin as [Hin Hn]. apply list_elem_of_In, elem_of_lookup_imap in Hin.
    destruct Hin as (j & [p' n'] & [= -> <- <-] & Hz). apply lookup_zip_Some in Hz as [??].
    by exists p.
  - intros (p & Hp & Hname & Hn & Hid). exists (en_index e, (p, en_name e)).
    split; [by destruct e; simpl in *; subst|].
    apply list_elem_of_In, filter_In. split; [|done]. apply list_elem_of_In.
    apply elem_of_lookup_imap. exists (en_index e), (p, en_name e). split; [done|].
    by apply lookup_zip_Some.
Qed.

Lemma plain_tokens_lookup names ps i p name :
  ps !! i = Some p → names !! i = Some name →
  zip_with (plain_token names) ps names !! i = Some (plain_token names p name).
Proof. intros Hp Hn. rewrite lookup_zip_with, Hp, Hn. done. Qed.

Lemma needs_suffix_false names p name :
  needs_suffix names p name = false → pinned_codex p = false →
  name ≠ "codex-agent" ∧ name ∉ MENTION_ALIASES ∧ name_count names name ≤ 1.
Proof.
  unfold needs_suffix. intros Hn Hp. rewrite Hp in Hn. simpl in Hn.
  apply orb_false_iff in Hn as [[Hc Ha]%orb_false_iff Hcount].
  apply bool_decide_eq_false in Ha. apply Nat.ltb_ge in Hcount.
  split_and!; [by apply String.eqb_neq|done|done].
Qed.

Lemma pinned_codex_id p : pinned_codex p = true → rp_id p = CODEX_AGENT_ID.
Proof. unfold pinned_codex. rewrite andb_true_iff, bool_decide_eq_true. tauto. Qed.

(** The tokens after the first loop. *)
Lemma plain_tokens_ok names ps :
  NoDup (rp_id <$> ps) →
  tokens_ok (occupied_names names ps) (zip_with (plain_token names) ps names).
Proof.
  intros Hnd. split.
  - intros i t (p & name & Ht & Hp & Hname)%lookup_zip_with_Some.
    unfold plain_token in Ht. destruct (needs_suffix names p name) eqn:Hn; [done|].
    unfold occupied_names. destruct (pinned_codex p); simplify_eq; [set_solver|].
    apply elem_of_union_r, elem_of_list_to_set, list_elem_of_fmap. exists (p, name).
    split; [done|]. apply list_elem_of_In, filter_In. simpl. rewrite Hn. split; [|done].
    apply list_elem_of_In, list_elem_of_lookup. exists i. by apply lookup_zip_Some.
  - intros i j t (p & name & Ht & Hp & Hname)%lookup_zip_with_Some
      (q & name' & Ht' & Hq & Hname')%lookup_zip_with_Some.
    unfold plain_token in *. destruct (needs_suffix names p name) eqn:Hn; [done|].
    destruct (needs_suffix names q name') eqn:Hn'; [done|].
    destruct (pinned_codex p) eqn:Hpp, (pinned_codex q) eqn:Hpq; simplify_eq.
    + apply pinned_codex_id in Hpp, Hpq.
      apply (NoDup_lookup (rp_id <$> ps) i j CODEX_AGENT_ID); [done|..];
        rewrite list_lookup_fmap; rewrite ?Hp, ?Hq; simpl; congruence.
    + by apply needs_suffix_false in Hn' as (? & _).
    + by apply needs_suffix_false in Hn as (? & _).
    + apply needs_suffix_false in Hn as (_ & _ & Hc); [|done].
      destruct (decide (i = j)) as [|Hij]; [done|].
      pose proof (name_count_repeat names i j _ Hname Hname' Hij). lia.
Qed.

(** Every participant ends with a token, free of aliases and of the pinned name. *)
Lemma assigned_token ps i p :
  ps !! i = Some p →
  let names := normalized_participant_name ∘ rp_display_name <$> ps in
  let entries := merge_sort entry_le (suffix_entries names ps) in
  ∀ lengths, ∃ t,
    assign_suffixes lengths entries (occupied_names names ps)
      (zip_with (plain_token names) ps names) !! i = Some (Some t) ∧
    t ∉ MENTION_ALIASES ∧ (t = "codex-agent" ↔ pinned_codex p = true).
Proof.
  intros Hp names entries lengths.
  assert (names !! i = Some (normalized_participant_name (rp_display_name p))) as Hname.
  { unfold names. by rewrite list_lookup_fmap, Hp. }
  set (name := normalized_participant_name (rp_display_name p)) in *.
  assert (i < length (zip_with (plain_token names) ps names)) as Hlen.
  { eapply lookup_lt_Some, plain_tokens_lookup; done. }
  destruct (assign_suffixes_lookup lengths entries (occupied_names names ps) _ i Hlen)
    as [(t & Ht & Hnin & e & He & Hi)|[Heq Hne]].
  - exists t. split; [done|]. unfold occupied_names in Hnin. split; [set_solver|].
    unfold entries in He. rewrite merge_sort_Permutation in He.
    apply suffix_entries_elem in He as (q & Hq & Hqn & Hneed & _). rewrite Hi in Hq, Hqn.
    simplify_eq. split; [set_solver|]. intros Hpin. unfold needs_suffix in Hneed.
    by rewrite Hpin in Hneed.
  - rewrite Heq, (plain_tokens_lookup _ _ _ _ _ Hp Hname).
    destruct (needs_suffix names p name) eqn:Hn.
    + exfalso. apply (Hne {| en_index := i; en_name := name; en_id := participant_id_token (rp_id p) |});
        [|done]. unfold entries. rewrite merge_sort_Permutation. apply suffix_entries_elem. by exists p.
    + unfold plain_token. rewrite Hn. eexists; split; [done|]. destruct (pinned_codex p) eqn:Hpin.
      * split; [|done]. unfold MENTION_ALIASES. rewrite !elem_of_cons. intros [?|[?|?%elem_of_nil]]; done.
      * apply needs_suffix_false in Hn as (Hc & Ha & _); [|done]. split; [done|]. by split.
Qed.

(** Whatever the participants of a room are called, provided their identifiers differ,
    every one of them gets exactly one mention token, no two tokens are equal, none is one of
    the aliases [allhumans] and [allagents], and only the pinned Codex agent is mentioned as
    [codex-agent]. In particular both loops that look for a free token end with one. *)
Theorem participant_tokens_unambiguous ps :
  NoDup (rp_id <$> ps) →
  length (participant_mention_tokens ps) = length ps ∧
  NoDup (participant_mention_tokens ps) ∧
  (∀ t, t ∈ participant_mention_tokens ps → t ∉ MENTION_ALIASES) ∧
  (∀ i p, ps !! i = Some p →
     participant_mention_tokens ps !! i = Some "codex-agent" ↔ pinned_codex p = true).
Proof.
  intros Hnd. unfold participant_mention_tokens.
  set (names := normalized_participant_name ∘ rp_display_name <$> ps).
  set (entries := merge_sort entry_le (suffix_entries names ps)).
  set (lengths := fill_lengths _ _ _ _).
  destruct (assign_suffixes_ok lengths entries _ _ (plain_tokens_ok names ps Hnd))
    as (occ & _ & [_ Hinj]).
  set (result := assign_suffixes _ _ _ _) in *.
  assert (length result = length ps) as Hlen.
  { unfold result. rewrite assign_suffixes_length, length_zip_with_l_eq; [done|].
    unfold names. by rewrite length_fmap. }
  assert (∀ i t, (default "participant" <$> result) !! i = Some t →
    ∃ p, ps !! i = Some p ∧ result !! i = Some (Some t) ∧ t ∉ MENTION_ALIASES ∧
         (t = "codex-agent" ↔ pinned_codex p = true)) as Hget.
  { intros i t Ht. rewrite list_lookup_fmap in Ht.
    destruct (lookup_lt_is_Some_2 ps i) as [p Hp].
    { rewrite <-Hlen. apply lookup_lt_is_Some. destruct (result !! i); [eauto|done]. }
    destruct (assigned_token ps i p Hp lengths) as (u & Hu & Ha & Hc).
    fold names entries in Hu. fold result in Hu. rewrite Hu in Ht. simplify_eq/=. eauto. }
  split_and!.
  - by rewrite length_fmap.
  - apply NoDup_alt. intros i j t Hi Hj. apply Hget in Hi as (? & _ & Hi & _), Hj as (? & _ & Hj & _).
    by eapply Hinj.
  - intros t (i & Hi)%list_elem_of_lookup. by apply Hget in Hi as (_ & _ & _ & ? & _).
  - intros i p Hp. destruct (assigned_token ps i p Hp lengths) as (u & Hu & _ & Hc).
    fold names entries in Hu. fold result in Hu. rewrite list_lookup_fmap, Hu. simpl. naive_solver.
Qed.
End token_theorem.

(** ** Which mentions are accepted *)

(** What a mention designates; the token is only its spelling. *)
Definition mention_target (m : ChatMention) : Uuid + ChatMentionAlias :=
  match m with MentionParticipant id _ => inl id | MentionAlias alias => inr alias end.

Section mention_facts.
Context `{UuidCrate, Unicode}.

(** [token] is the canonical token of the participant [id]. *)
Definition has_token (ps : list RoomParticipant) (id : Uuid) (token : string) : Prop :=
  ∃ i p, ps !! i = Some p ∧ rp_id p = id ∧ participant_mention_tokens ps !! i = Some token.

Lemma participant_mention_tokens_length ps : length (participant_mention_tokens ps) = length ps.
Proof.
  unfold participant_mention_tokens.
  rewrite length_fmap, assign_suffixes_length, length_zip_with_l_eq; [done|]. by rewrite length_fmap.
Qed.

Lemma known_participants_lookup ps id t :
  NoDup (rp_id <$> ps) → known_participants ps !! id = Some t ↔ has_token ps id t.
Proof.
  intros Hnd. unfold known_participants. rewrite collect_map_lookup.
  - rewrite list_elem_of_lookup. setoid_rewrite lookup_zip_Some.
    setoid_rewrite (list_lookup_fmap_Some rp_id). unfold has_token. split.
    + intros (i & (p & Hid & Hp) & Ht). simpl in *. subst id. by exists i, p.
    + intros (i & p & Hp & Hid & Ht). exists i. simpl. split; [|done]. by exists p.
  - rewrite fst_zip; [done|]. by rewrite length_fmap, participant_mention_tokens_length.
Qed.

(** The loop accepts iff every participant mention carries the canonical token and no target
    repeats or was seen before. *)
Lemma check_mentions_spec known ids aliases ms :
  check_mentions known ids aliases ms = Ok () ↔
  (∀ id token, MentionParticipant id token ∈ ms → known !! id = Some token ∧ id ∉ ids) ∧
  (∀ alias, MentionAlias alias ∈ ms → alias ∉ aliases) ∧
  NoDup (mention_target <$> ms).
Proof.
  revert ids aliases. induction ms as [|[id token|alias] ms IH]; intros ids aliases; cbn [check_mentions].
  - split; [|done]. intros _. split_and!; [set_solver..|constructor].
  - rewrite fmap_cons, NoDup_cons. cbn [mention_target]. split.
    + intros Hok. destruct (known !! id) as [canonical|] eqn:Hk; [|done].
      case_match eqn:Hc; [done|]. apply orb_false_iff in Hc as [Hid Ht].
      apply bool_decide_eq_false in Hid. apply negb_false_iff, String.eqb_eq in Ht as ->.
      apply IH in Hok as (H1 & H2 & H3). split_and!; [set_solver|set_solver| |done].
      intros (m & Hm & Hin)%list_elem_of_fmap. destruct m; simplify_eq/=. set_solver.
    + intros (H1 & H2 & Hnin & H3). destruct (H1 id token) as [Hk Hid]; [set_solver|].
      rewrite Hk, bool_decide_false, String.eqb_refl by done. simpl. apply IH.
      split_and!; [|set_solver|done]. intros id' token' Hin.
      destruct (H1 id' token') as [??]; [set_solver|]. split; [done|].
      apply not_elem_of_union; split; [|done]. rewrite elem_of_singleton. intros ->.
      apply Hnin, list_elem_of_fmap. by exists (MentionParticipant id token').
  - rewrite fmap_cons, NoDup_cons. cbn [mention_target]. split.
    + case_bool_decide as Ha; [done|]. intros (H1 & H2 & H3)%IH. split_and!; [set_solver|set_solver| |done].
      intros (m & Hm & Hin)%list_elem_of_fmap. destruct m; simplify_eq/=. set_solver.
    + intros (H1 & H2 & Hnin & H3). rewrite bool_decide_false by set_solver. apply IH.
      split_and!; [set_solver| |done]. intros alias' Hin.
      rewrite not_elem_of_cons. split; [|set_solver]. intros ->.
      apply Hnin, list_elem_of_fmap. by exists (MentionAlias alias).
Qed.

Lemma validate_mentions_Ok ps ms :
  NoDup (rp_id <$> ps) →
  validate_mentions ps ms = Ok () ↔
  NoDup (mention_target <$> ms) ∧
  ∀ id token, MentionParticipant id token ∈ ms → has_token ps id token.
Proof.
  intros Hnd. unfold validate_mentions. rewrite check_mentions_spec.
  setoid_rewrite (known_participants_lookup _ _ _ Hnd).
  split; [naive_solver|]. intros [H1 H2]. split_and!; [set_solver..|done].
Qed.

Lemma check_mentions_error known ids aliases ms e :
  check_mentions known ids aliases ms = Err e → e = unknown_mention_target.
Proof.
  revert ids aliases. induction ms as [|[] ms IH]; intros ids aliases; simpl; [done|..];
    repeat case_match; intros; simplify_eq; eauto.
Qed.

(** Mentions are accepted exactly when no participant and no alias is mentioned twice and
    every participant mention names a participant of the room by its canonical token; any
    other list of mentions is refused as an unknown mention target. *)
Theorem validate_mentions_iff ps ms :
  NoDup (rp_id <$> ps) →
  (validate_mentions ps ms = Ok () ↔
   NoDup (mention_target <$> ms) ∧
   ∀ id token, MentionParticipant id token ∈ ms → has_token ps id token) ∧
  (validate_mentions ps ms = Ok () ∨ validate_mentions ps ms = Err unknown_mention_target).
Proof.
  intros Hnd. split; [by apply validate_mentions_Ok|].
  destruct (validate_mentions ps ms) as [[]|e] eqn:Hv; [by left|right].
  unfold validate_mentions in Hv. by apply check_mentions_error in Hv as ->.
Qed.
End mention_facts.

(** ** Who receives a message *)

Section audience_facts.
Context `{UuidLaws, Unicode}.

(** The addressees the sender asked for. *)
Definition addressed (sender : Uuid) (ps : list RoomParticipant) (ms : list ChatMention)
    (u : Uuid) : Prop :=
  u = sender ∨ (∃ token, MentionParticipant u token ∈ ms) ∨
  (MentionAlias AllHumans ∈ ms ∧ ∃ p, p ∈ ps ∧ rp_id p = u ∧ rp_role p = "human") ∨
  (MentionAlias AllAgents ∈ ms ∧
   ∃ p, p ∈ ps ∧ rp_id p = u ∧ (rp_role p = "agent" ∨ rp_role p = "human")).

Lemma filtered_ids (P : RoomParticipant → bool) ps u :
  u ∈ rp_id <$> List.filter P ps ↔ ∃ p, p ∈ ps ∧ rp_id p = u ∧ P p = true.
Proof.
  rewrite list_elem_of_fmap. setoid_rewrite list_elem_of_In. setoid_rewrite filter_In. naive_solver.
Qed.

Lemma mention_targets_elem ps m u :
  u ∈ mention_targets ps m ↔
  match m with
  | MentionParticipant id _ => u = id
  | MentionAlias AllHumans => ∃ p, p ∈ ps ∧ rp_id p = u ∧ rp_role p = "human"
  | MentionAlias AllAgents =>
      ∃ p, p ∈ ps ∧ rp_id p = u ∧ (rp_role p = "agent" ∨ rp_role p = "human")
  end.
Proof.
  destruct m as [|[]]; unfold mention_targets; [set_solver|..]; rewrite filtered_ids;
    repeat setoid_rewrite orb_true_iff; repeat setoid_rewrite String.eqb_eq; done.
Qed.

Lemma audience_fold ps ms (acc : gset Uuid) u :
  u ∈ foldl (λ acc m, acc ∪ list_to_set (mention_targets ps m)) acc ms ↔
  u ∈ acc ∨ ∃ m, m ∈ ms ∧ u ∈ mention_targets ps m.
Proof.
  revert acc. induction ms as [|m ms IH]; intros acc; simpl.
  - set_solver.
  - rewrite IH, elem_of_union, elem_of_list_to_set. set_solver.
Qed.

Lemma resolved_membership ps ms sender u :
  u ∈ (foldl (λ acc m, acc ∪ list_to_set (mention_targets ps m)) {[sender]} ms : gset Uuid) ↔
  addressed sender ps ms u.
Proof.
  rewrite audience_fold, elem_of_singleton. unfold addressed.
  setoid_rewrite mention_targets_elem. split.
  - intros [->|([id t|[]] & Hm & Hu)]; subst; eauto 6.
  - intros [->|[[t Hm]|[[Hm Hp]|[Hm Hp]]]]; [by left|right..].
    + by exists (MentionParticipant u t).
    + by exists (MentionAlias AllHumans).
    + by exists (MentionAlias AllAgents).
Qed.

Lemma resolve_Ok actor ps r aud :
  resolve_chat_audience actor ps r = Ok aud →
  validate_mentions ps (cs_mentions r) = Ok () ∧
  ((cs_delivery r = DeliverRoom ∧ aud = []) ∨
   (cs_delivery r = DeliverMentioned ∧
    aud = merge_sort uuid_le (elements
      (foldl (λ acc m, acc ∪ list_to_set (mention_targets ps m)) {[actor_id actor]}
         (cs_mentions r) : gset Uuid)))).
Proof.
  unfold resolve_chat_audience. intros ([] & Hv & Hr)%rbind_Ok. split; [done|].
  destruct (decide _) as [Hd|Hd]; simplify_eq; [by left|right].
  by destruct (cs_delivery r).
Qed.


Lemma existsb_audience l u :
  existsb (λ v, bool_decide ((as_str v ≫= uuid_parse) = Some u)) (json_uuid <$> l) = true ↔ u ∈ l.
Proof.
  rewrite list_find_exists. setoid_rewrite bool_decide_eq_true. split.
  - intros (v & (w & -> & Hw)%list_elem_of_fmap & Hp). simpl in Hp.
    rewrite uuid_parse_to_string in Hp. by simplify_eq.
  - intros Hu. exists (json_uuid u). split; [by apply list_elem_of_fmap_2|].
    simpl. apply uuid_parse_to_string.
Qed.

Lemma chat_payload_float_free r aud : float_free (normalized_chat_payload r aud) = true.
Proof.
  apply float_free_json_object. cbn [forallb snd].
  rewrite float_free_json_mentions, float_free_json_uuids. done.
Qed.

(** Reading the stored payload back. *)
Lemma chat_payload_visible r aud ev u :
  ev_payload ev = normalized_chat_payload r aud →
  event_visible_to ev u = true ↔ cs_delivery r = DeliverRoom ∨ u ∈ aud.
Proof.
  intros Hp. unfold event_visible_to. rewrite Hp. unfold normalized_chat_payload, json_object.
  json_get. cbn [mbind option_bind as_str].
  destruct (cs_delivery r); cbn [delivery_str String.eqb Ascii.eqb Bool.eqb]; [naive_solver|].
  unfold json_uuids. cbn [as_array]. rewrite existsb_audience. naive_solver.
Qed.

(** C28: End to end: once the audience of a chat message is resolved, stored in the event's
    JSONB payload and read back, the event is visible to an actor iff the message was for the
    whole room or addressed that actor. *)
Theorem chat_visible_iff_addressed `{PostgresLaws} actor ps r aud ev u :
  resolve_chat_audience actor ps r = Ok aud →
  ev_payload ev = pg_json (normalized_chat_payload r aud) →
  event_visible_to ev u = true ↔
  cs_delivery r = DeliverRoom ∨ addressed (actor_id actor) ps (cs_mentions r) u.
Proof.
  intros Hr Hp. rewrite pg_json_float_free in Hp by apply chat_payload_float_free.
  rewrite (chat_payload_visible _ _ _ _ Hp).
  apply resolve_Ok in Hr as [_ [[-> ->]|[-> ->]]]; [set_solver|].
  by rewrite merge_sort_Permutation, elem_of_elements, resolved_membership.
Qed.

(** *** The stored mentions *)

Definition participant_keys (ms : list ChatMention) : list string :=
  omap (λ m, match m with MentionParticipant id _ => Some (uuid_to_string id) | _ => None end) ms.
Definition alias_keys (ms : list ChatMention) : list string :=
  omap (λ m, match m with MentionAlias a => Some (alias_str a) | _ => None end) ms.

Lemma mentions_unique_participant ps als id t ms :
  mentions_unique_from ps als (json_mention (MentionParticipant id t) :: ms) =
  if bool_decide (uuid_to_string id ∈ ps) then false
  else mentions_unique_from (uuid_to_string id :: ps) als ms.
Proof.
  cbn [mentions_unique_from]. unfold json_mention. json_get.
  cbn [mbind option_bind as_str String.eqb Ascii.eqb Bool.eqb]. unfold insert_new, json_uuid.
  cbn [as_str mbind option_bind].
  by destruct (bool_decide _).
Qed.

Lemma mentions_unique_alias ps als a ms :
  mentions_unique_from ps als (json_mention (MentionAlias a) :: ms) =
  if bool_decide (alias_str a ∈ als) then false
  else mentions_unique_from ps (alias_str a :: als) ms.
Proof.
  cbn [mentions_unique_from]. unfold json_mention. json_get.
  cbn [mbind option_bind as_str String.eqb Ascii.eqb Bool.eqb]. unfold insert_new.
  by destruct (bool_decide _).
Qed.

Lemma mentions_unique_from_spec ps als ms :
  mentions_unique_from ps als (json_mention <$> ms) = true ↔
  NoDup (participant_keys ms) ∧ NoDup (alias_keys ms) ∧
  (∀ s, s ∈ participant_keys ms → s ∉ ps) ∧ (∀ s, s ∈ alias_keys ms → s ∉ als).
Proof.
  revert ps als. induction ms as [|[id t|a] ms IH]; intros ps als.
  - simpl. split; [|done]. intros _. split_and!; [constructor..| |]; set_solver.
  - rewrite fmap_cons, mentions_unique_participant.
    change (participant_keys _) with (uuid_to_string id :: participant_keys ms).
    change (alias_keys (_ :: ms)) with (alias_keys ms). rewrite NoDup_cons.
    case_bool_decide as Hin; [set_solver|]. rewrite IH. set_solver.
  - rewrite fmap_cons, mentions_unique_alias.
    change (alias_keys (_ :: ms)) with (alias_str a :: alias_keys ms).
    change (participant_keys (_ :: ms)) with (participant_keys ms). rewrite NoDup_cons.
    case_bool_decide as Hin; [set_solver|]. rewrite IH. set_solver.
Qed.

Lemma participant_keys_elem ms id :
  uuid_to_string id ∈ participant_keys ms ↔ inl id ∈ mention_target <$> ms.
Proof.
  unfold participant_keys. rewrite list_elem_of_omap, list_elem_of_fmap. split.
  - intros ([id' t|] & Hm & Heq); simplify_eq/=. apply uuid_to_string_inj in Heq as ->.
    by exists (MentionParticipant id t).
  - intros ([id' t|] & Heq & Hm); simplify_eq/=. by exists (MentionParticipant id' t).
Qed.

Lemma alias_keys_elem ms a : alias_str a ∈ alias_keys ms ↔ inr a ∈ mention_target <$> ms.
Proof.
  unfold alias_keys. rewrite list_elem_of_omap, list_elem_of_fmap. split.
  - intros ([|a'] & Hm & Heq); simplify_eq/=. exists (MentionAlias a'). by destruct a, a'.
  - intros ([|a'] & Heq & Hm); simplify_eq/=. by exists (MentionAlias a').
Qed.

Lemma target_keys_NoDup ms :
  NoDup (mention_target <$> ms) ↔ NoDup (participant_keys ms) ∧ NoDup (alias_keys ms).
Proof.
  induction ms as [|[id t|a] ms IH].
  - simpl. split; [|constructor]. intros _; split; constructor.
  - change (participant_keys (_ :: ms)) with (uuid_to_string id :: participant_keys ms).
    change (alias_keys (_ :: ms)) with (alias_keys ms).
    rewrite fmap_cons, !NoDup_cons, IH. cbn [mention_target]. rewrite participant_keys_elem. tauto.
  - change (alias_keys (_ :: ms)) with (alias_str a :: alias_keys ms).
    change (participant_keys (_ :: ms)) with (participant_keys ms).
    rewrite fmap_cons, !NoDup_cons, IH. cbn [mention_target]. rewrite alias_keys_elem. tauto.
Qed.

(** The check made on every event before it is stored agrees with the check made on the
    request: a chat message's envelope passes the uniqueness test of mentions exactly when no
    participant and no alias is mentioned twice. *)
Theorem stored_mentions_unique_iff `{Chrono} event_id e r aud :
  ne_event_type e = "message.created" → ne_payload e = normalized_chat_payload r aud →
  message_mentions_are_unique (event_envelope event_id e) = true ↔
  NoDup (mention_target <$> cs_mentions r).
Proof.
  intros Ht Hp. unfold message_mentions_are_unique, event_envelope. cbn [pointer]. json_get.
  rewrite Ht, Hp. cbn [mbind option_bind as_str]. rewrite bool_decide_true by done. cbn [negb].
  unfold normalized_chat_payload. json_get. cbn [mbind option_bind].
  unfold json_mentions. cbn [as_array].
  rewrite mentions_unique_from_spec, target_keys_NoDup. set_solver.
Qed.
End audience_facts.

(** ** Examples *)

Module MentionExamples.
Import Reference.

Definition person (id : N) (name : string) : RoomParticipant :=
  {| rp_id := from_u128 id; rp_role := "human"; rp_display_name := name; rp_online := true |}.
Definition room : list RoomParticipant :=
  [ person 0x111111112222 "Ada Lovelace"; person 0x111111113333 "ada  lovelace!";
    person 5 "Grace"; person 6 "AllHumans"; person 7 "Codex Agent";
    {| rp_id := CODEX_AGENT_ID; rp_role := "agent"; rp_display_name := "Codex Agent";
       rp_online := true |} ].
Definition sender : Actor :=
  {| actor_id := from_u128 5; actor_role := Human; actor_display_name := "Grace";
     actor_expires_at := 100%Z |}.
Definition message (mentions : list ChatMention) (delivery : ChatDelivery) : ChatSend :=
  {| cs_id := "1"; cs_contract_version := "n2n.room.v1"; cs_request_id := from_u128 77;
     cs_room_id := from_u128 1; cs_occurred_at := 0%Z; cs_text := "hi"; cs_mentions := mentions;
     cs_delivery := delivery |}.
Definition private_message : ChatSend :=
  message [MentionParticipant CODEX_AGENT_ID "codex-agent"] DeliverMentioned.

(** The two Adas share the first twenty digits of their identifiers. *)
Example room_tokens :
  participant_mention_tokens room =
  [ "ada-lovelace-00000000000000000000111111112"; "ada-lovelace-00000000000000000000111111113";
    "grace"; "allhumans-00000000"; "codex-agent-00000000"; "codex-agent" ].
Proof. vm_compute. reflexivity. Qed.

Lemma room_ids_NoDup : NoDup (rp_id <$> room).
Proof. by apply (bool_decide_unpack _). Qed.

Lemma participant_tokens_unambiguous_witness : NoDup (participant_mention_tokens room).
Proof. apply (participant_tokens_unambiguous room room_ids_NoDup). Defined.

Lemma validate_mentions_iff_witness :
  validate_mentions room [MentionParticipant (from_u128 5) "grace"; MentionAlias AllHumans] = Ok ().
Proof.
  apply (validate_mentions_iff room
    [MentionParticipant (from_u128 5) "grace"; MentionAlias AllHumans] room_ids_NoDup).
  split; [by apply (bool_decide_unpack _)|].
  intros id token [[= -> ->]|[Hm|[]%elem_of_nil]%elem_of_cons]%elem_of_cons; [|done].
  exists 2, (person 5 "Grace"). vm_compute. done.
Defined.


(** The message reaches its sender and the agent, and nobody else in the room. *)
Definition stored (payload : Value) : RoomEvent :=
  {| ev_event_id := from_u128 900; ev_room_id := from_u128 1; ev_sequence := 1;
     ev_request_id := from_u128 77; ev_event_type := "message.created";
     ev_actor_id := from_u128 5; ev_actor_role := "human"; ev_actor_display_name := None;
     ev_payload := payload; ev_occurred_at := 0%Z |}.

Lemma chat_visible_iff_addressed_witness :
  event_visible_to
    (stored (normalized_chat_payload private_message [from_u128 5; CODEX_AGENT_ID]))
    CODEX_AGENT_ID = true.
Proof.
  apply (chat_visible_iff_addressed sender room private_message [from_u128 5; CODEX_AGENT_ID]).
  - vm_compute. reflexivity.
  - reflexivity.
  - right. right. left. exists "codex-agent". by constructor.
Defined.

Lemma stored_mentions_unique_iff_witness :
  message_mentions_are_unique (event_envelope (from_u128 900)
    {| ne_room_id := from_u128 1; ne_request_id := from_u128 77;
       ne_event_type := "message.created"; ne_actor_id := from_u128 5; ne_actor_role := "human";
       ne_actor_display_name := None; ne_payload := normalized_chat_payload private_message [];
       ne_occurred_at := 0%Z |}) = true.
Proof.
  apply (stored_mentions_unique_iff _ _ private_message []); [reflexivity|reflexivity|].
  by apply (bool_decide_unpack _).
Defined.
End MentionExamples.
