(* ===== verification/Facilitator.v ===== *)
(** * Facilitator proposals (src/src/facilitator.rs)

    A draft received from the memory engine is checked against the events it cites and
    turned into a proposal of the gateway's own facilitator. *)

From S2P Require Import Prelude Json Text Crates Types.
Local Open Scope string_scope.
Local Open Scope list_scope.

Record NewDecisionProposal := {
  np_title : string;
  np_summary : string;
  np_source_event_ids : list Uuid;
  np_actor_id : Uuid;
  np_actor_role : string;
  np_actor_display_name : string;
}.

Record MemoryEngineDraftProposal := {
  md_room_id : Uuid;
  md_title : string;
  md_summary : string;
  md_source_event_ids : list Uuid;
}.

Inductive MemoryProposalValidationError :=
| EmptyRoom
| EmptyTitle
| EmptySummary
| MissingSourceEvent (id : Uuid)
| SourceEventFromAnotherRoom
| DuplicateSourceEvent (id : Uuid).

(** The loop over the cited events, with the set of identifiers seen. *)
Fixpoint check_sources (room : Uuid) (events : gmap Uuid RoomEvent) (seen : gset Uuid)
    (ids : list Uuid) : result MemoryProposalValidationError () :=
  match ids with
  | [] => Ok ()
  | id :: ids' =>
      _ ← reject_if (bool_decide (id ∈ seen)) (DuplicateSourceEvent id);
      event ← ok_or (MissingSourceEvent id) (events !! id);
      _ ← reject_if (negb (bool_decide (ev_room_id event = room))) SourceEventFromAnotherRoom;
      check_sources room events ({[id]} ∪ seen) ids'
  end.

Definition validate_memory_engine_proposal (candidate : MemoryEngineDraftProposal)
    (source_events : list RoomEvent) : result MemoryProposalValidationError NewDecisionProposal :=
  _ ← reject_if (is_nil (md_room_id candidate)) EmptyRoom;
  _ ← reject_if (is_empty (trim (md_title candidate))) EmptyTitle;
  _ ← reject_if (is_empty (trim (md_summary candidate))) EmptySummary;
  _ ← reject_if (bool_decide (md_source_event_ids candidate = [])) (MissingSourceEvent nil_uuid);
  _ ← check_sources (md_room_id candidate)
        (collect_map ((λ e, (ev_event_id e, e)) <$> source_events)) ∅
        (md_source_event_ids candidate);
  Ok {| np_title := md_title candidate; np_summary := md_summary candidate;
        np_source_event_ids := md_source_event_ids candidate;
        np_actor_id := FACILITATOR_ACTOR_ID; np_actor_role := "agent";
        np_actor_display_name := FACILITATOR_DISPLAY_NAME |}.

(** ** Properties *)

Lemma check_sources_Ok room events seen ids :
  check_sources room events seen ids = Ok () ↔
  NoDup ids ∧ ∀ id, id ∈ ids → id ∉ seen ∧ ∃ e, events !! id = Some e ∧ ev_room_id e = room.
Proof.
  revert seen. induction ids as [|id ids IH]; intros seen; cbn [check_sources].
  - split; [|done]. intros _. split; [constructor|set_solver].
  - rewrite rbind_Ok, NoDup_cons. split.
    + intros ([] & Hs%reject_if_Ok%bool_decide_eq_false & Hr).
      apply rbind_Ok in Hr as (e & He%ok_or_Ok & Hr).
      apply rbind_Ok in Hr as ([] & Hroom%reject_if_Ok & Hr).
      apply negb_false_iff, bool_decide_eq_true in Hroom.
      apply IH in Hr as [Hnd Hall]. split; [set_solver|].
      intros id' [->|Hin]%elem_of_cons; [eauto|]. destruct (Hall id' Hin). set_solver.
    + intros [[Hnin Hnd] Hall]. destruct (Hall id) as (Hs & e & He & Hroom); [set_solver|].
      exists (). rewrite reject_if_Ok, bool_decide_false by done. split; [done|].
      rewrite He. simpl. rewrite bool_decide_true by done. simpl. apply IH. split; [done|].
      intros id' Hin. destruct (Hall id') as (? & ?); [set_solver|]. set_solver.
Qed.

Lemma source_events_lookup (es : list RoomEvent) id e :
  NoDup (ev_event_id <$> es) →
  collect_map ((λ e, (ev_event_id e, e)) <$> es) !! id = Some e ↔ e ∈ es ∧ ev_event_id e = id.
Proof.
  intros Hnd. rewrite collect_map_lookup by (by rewrite <-list_fmap_compose).
  rewrite list_elem_of_fmap. naive_solver.
Qed.

(** A draft of the memory engine becomes a facilitator proposal exactly when it names a
    room, its title and summary are not blank, and it cites at least one event, no event twice
    and only events of its own room; the proposal then carries the draft's text and sources
    unchanged under the gateway's facilitator identity. *)
Theorem memory_proposal_accepted_iff c es p :
  NoDup (ev_event_id <$> es) →
  validate_memory_engine_proposal c es = Ok p ↔
  (is_nil (md_room_id c) = false ∧ trim (md_title c) ≠ "" ∧ trim (md_summary c) ≠ "" ∧
   md_source_event_ids c ≠ [] ∧ NoDup (md_source_event_ids c) ∧
   ∀ id, id ∈ md_source_event_ids c →
     ∃ e, e ∈ es ∧ ev_event_id e = id ∧ ev_room_id e = md_room_id c) ∧
  p = {| np_title := md_title c; np_summary := md_summary c;
         np_source_event_ids := md_source_event_ids c; np_actor_id := FACILITATOR_ACTOR_ID;
         np_actor_role := "agent"; np_actor_display_name := FACILITATOR_DISPLAY_NAME |}.
Proof.
  intros Hnd. unfold validate_memory_engine_proposal.
  split.
  - intros Hv. repeat (apply rbind_Ok in Hv as ([] & Hg & Hv); rename Hg into Hg';
      first [apply reject_if_Ok in Hg' | apply check_sources_Ok in Hg']; revert Hg').
    intros [Hnds Hall] Hsrc%bool_decide_eq_false Hsum%is_empty_false Ht%is_empty_false Hroom.
    split; [|by simplify_eq]. split_and!; try done. intros id Hid.
    destruct (Hall id Hid) as (_ & e & He & ?). apply source_events_lookup in He as []; eauto.
  - intros ((Hroom & Ht & Hsum & Hsrc & Hnds & Hall) & ->).
    rewrite Hroom, (proj2 (is_empty_false _) Ht), (proj2 (is_empty_false _) Hsum),
      bool_decide_false by done. simpl.
    rewrite (proj2 (check_sources_Ok _ _ _ _)); [done|]. split; [done|]. intros id Hid.
    destruct (Hall id Hid) as (e & ? & ? & ?). split; [set_solver|].
    exists e. by rewrite source_events_lookup.
Qed.

Module FacilitatorExamples.

Definition cited : RoomEvent :=
  {| ev_event_id := from_u128 8; ev_room_id := from_u128 1; ev_sequence := 1%Z;
     ev_request_id := from_u128 2; ev_event_type := "message.created";
     ev_actor_id := from_u128 5; ev_actor_role := "human"; ev_actor_display_name := None;
     ev_payload := Null; ev_occurred_at := 0%Z |}.
Definition draft : MemoryEngineDraftProposal :=
  {| md_room_id := from_u128 1; md_title := "Ship it"; md_summary := "On Friday";
     md_source_event_ids := [from_u128 8] |}.

Lemma memory_proposal_accepted_iff_witness :
  validate_memory_engine_proposal draft [cited] =
  Ok {| np_title := "Ship it"; np_summary := "On Friday";
        np_source_event_ids := [from_u128 8]; np_actor_id := FACILITATOR_ACTOR_ID;
        np_actor_role := "agent"; np_actor_display_name := FACILITATOR_DISPLAY_NAME |}.
Proof.
  apply (memory_proposal_accepted_iff draft [cited]).
  - apply NoDup_singleton.
  - split; [|reflexivity]. split_and!; try done.
    + apply NoDup_singleton.
    + intros id ->%list_elem_of_singleton. exists cited. split; [by constructor|done].
Defined.
End FacilitatorExamples.
