(* ===== verification/ActionItems.v ===== *)
(** * Action items (src/src/action_items.rs)

    The deterministic extractor behind the built-in action-items agent: every line of a
    message that starts with a dash is an item, with optional [owner] and [due] fields. *)

From S2P Require Import Prelude Text.
From Stdlib Require Import Ascii.
Local Open Scope string_scope.
Local Open Scope list_scope.

Record ActionItem := { ai_text : string; ai_owner : option string; ai_due : option string }.

Inductive ParseError := EmptyField | UnsupportedField.

(** The inner loop: the fields after the text, each at most once. *)
Fixpoint parse_fields (fields : list string) (owner due : option string) :
    result ParseError (option string * option string) :=
  match fields with
  | [] => Ok (owner, due)
  | field :: fields' =>
      '(name, value) ← ok_or UnsupportedField (split_once ":" field);
      let value := trim value in
      _ ← reject_if (is_empty value) EmptyField;
      let name := trim name in
      if String.eqb name "owner" && bool_decide (owner = None)
      then parse_fields fields' (Some value) due
      else if String.eqb name "due" && bool_decide (due = None)
      then parse_fields fields' owner (Some value)
      else Err UnsupportedField
  end.

(** An item line after its dash. *)
Definition parse_item (line : string) : result ParseError ActionItem :=
  let fields := trim <$> split_on "|" line in
  let text := trim (default "" (head fields)) in
  _ ← reject_if (is_empty text) EmptyField;
  '(owner, due) ← parse_fields (tail fields) None None;
  Ok {| ai_text := text; ai_owner := owner; ai_due := due |}.

Definition item_line (line : string) : option string := strip_prefix "- " (trim_start line).

Definition extract_action_items (source : string) : result ParseError (list ActionItem) :=
  collect parse_item (omap item_line (lines (remove_first "@action-items" source))).

(** ** Examples *)

Definition nl : string := String LF "".

Example extract_two :
  extract_action_items
    (String.concat nl ["@action-items please"; "- Ship it | owner: Ada | due: Friday";
                       "noise"; "  - Review|due:Monday"]) =
  Ok [ {| ai_text := "Ship it"; ai_owner := Some "Ada"; ai_due := Some "Friday" |};
       {| ai_text := "Review"; ai_owner := None; ai_due := Some "Monday" |} ].
Proof. vm_compute. reflexivity. Qed.

Example extract_repeated_field :
  extract_action_items "- Ship it | owner: Ada | owner: Bob" = Err UnsupportedField.
Proof. vm_compute. reflexivity. Qed.
