(* ===== verification/MemoryEngine.v ===== *)
(** * The memory-engine dispatcher (src/src/memory_engine_client.rs)

    Committed events are handed to a bounded queue that a background task drains; a full
    queue drops the event, it never blocks or fails the request that produced it. *)

From S2P Require Import Prelude Json Text Crates Types.
From Stdlib Require Import Ascii DecimalString.
Local Open Scope string_scope.
Local Open Scope list_scope.
Local Open Scope nat_scope.

(** A duration is in nanoseconds. *)
Record MemoryEngineClientConfig := {
  mc_endpoint : string;
  mc_shared_secret : string;
  mc_timeout : Z;
  mc_queue_capacity : Z;
}.

Record ClientSettings := {
  st_endpoint : string;
  st_shared_secret : string;
  st_timeout : Z;
}.

(** The sender's half and the receiver's half of the channel are one queue of events: the settings
    of a [DispatchJob] are always those of its client. *)
Record MemoryEngineClient := {
  me_settings : ClientSettings;
  me_capacity : nat;
  me_queue : list RoomEvent;
  me_closed : bool;
}.

Record EnqueueReceipt := { er_room_id : Uuid; er_event_id : Uuid }.

Inductive MemoryEngineClientError := QueueFull | QueueClosed.

(** [MemoryEngineClient::new]: the channel holds at least one job. *)
Definition memory_engine_new (config : MemoryEngineClientConfig) : MemoryEngineClient :=
  {| me_settings := {| st_endpoint := mc_endpoint config; st_shared_secret := mc_shared_secret config;
                       st_timeout := mc_timeout config |};
     me_capacity := Nat.max (Z.to_nat (mc_queue_capacity config)) 1; me_queue := []; me_closed := false |}.

(** [enqueue_committed_event], with [mpsc::Sender::try_send] on the bounded channel. *)
Definition enqueue_committed_event (event : RoomEvent) (client : MemoryEngineClient) :
    result MemoryEngineClientError EnqueueReceipt * MemoryEngineClient :=
  if me_closed client then (Err QueueClosed, client)
  else if me_capacity client <=? length (me_queue client) then (Err QueueFull, client)
  else (Ok {| er_room_id := ev_room_id event; er_event_id := ev_event_id event |},
        {| me_settings := me_settings client; me_capacity := me_capacity client;
           me_queue := me_queue client ++ [event]; me_closed := me_closed client |}).

(** ** Delivery *)

(** The body posted for an event. *)
Definition ingest_body `{UuidCrate, Chrono} (event : RoomEvent) : Value :=
  json_object
    [("roomId", json_uuid (ev_room_id event)); ("eventId", json_uuid (ev_event_id event));
     ("eventType", Str (ev_event_type event)); ("occurredAt", json_time (ev_occurred_at event));
     ("payload", ev_payload event)].

(** [send_event] accepts any 2xx status line. *)
Definition response_accepted (response : string) : bool :=
  starts_with "HTTP/1.1 2" response || starts_with "HTTP/1.0 2" response.

Definition parse_endpoint (endpoint : string) : result string (string * string) :=
  remainder ← ok_or "memory-engine endpoint must use http://" (strip_prefix "http://" endpoint);
  let '(authority, path) :=
    match split_once "/" remainder with
    | Some (authority, path) => (authority, String "/" path)
    | None => (remainder, "/internal/v1/ingest")
    end in
  if is_empty authority || String.eqb path "/"
  then Err "memory-engine endpoint is incomplete"
  else Ok (authority, path).

(** The head of the request, up to the blank line. *)
Definition CRLF : string := String (byte 13) (String (byte 10) "").
Definition to_decimal (n : nat) : string := NilZero.string_of_uint (Nat.to_uint n).
Definition request_head (authority path secret : string) (length : nat) : string :=
  String.concat CRLF
    [String.concat "" ["POST "; path; " HTTP/1.1"];
     String.append "Host: " authority;
     String.append "Authorization: Bearer " secret;
     "Content-Type: application/json";
     String.append "Content-Length: " (to_decimal length);
     "Connection: close"; ""; ""].

(** The network: a connection, the bytes written to it and what is read until the peer closes it,
    each of which may fail with a message, for the [n]th job; and whether the time for it is up
    first. *)
Class Tcp := {
  tcp_connect : nat → string → result string ();
  tcp_write : nat → string → result string ();
  tcp_read_to_end : nat → result string string;
  tcp_too_slow : nat → Z → bool;
}.

Definition send_event `{UuidCrate, Chrono, SerdeJson, Tcp} (n : nat) (settings : ClientSettings)
    (event : RoomEvent) : result string () :=
  ap ← parse_endpoint (st_endpoint settings);
  let '(authority, path) := ap in
  _ ← tcp_connect n authority;
  let body := json_to_string (ingest_body event) in
  _ ← tcp_write n (request_head authority path (st_shared_secret settings) (String.length body));
  _ ← tcp_write n body;
  response ← tcp_read_to_end n;
  if response_accepted response then Ok () else Err "memory engine returned a non-success response".

(** What became of a job: only running out of time is logged. *)
Inductive Delivery := TimedOut | Finished (r : result string ()).

(** One turn of the background task: the oldest job is taken, whatever its delivery gives. *)
Definition dispatch_next `{UuidCrate, Chrono, SerdeJson, Tcp} (n : nat) (client : MemoryEngineClient) :
    option (RoomEvent * Delivery) * MemoryEngineClient :=
  match me_queue client with
  | [] => (None, client)
  | event :: rest =>
      (Some (event, if tcp_too_slow n (st_timeout (me_settings client)) then TimedOut
                    else Finished (send_event n (me_settings client) event)),
       {| me_settings := me_settings client; me_capacity := me_capacity client; me_queue := rest;
          me_closed := me_closed client |})
  end.

(** The queue never holds more jobs than its capacity. *)
Definition queue_bounded (client : MemoryEngineClient) : Prop :=
  length (me_queue client) ≤ me_capacity client.

Lemma enqueue_bounded event client :
  queue_bounded client → queue_bounded (enqueue_committed_event event client).2.
Proof.
  unfold queue_bounded, enqueue_committed_event. intros Hb.
  destruct (me_closed client); [done|]. destruct (Nat.leb_spec (me_capacity client) (length (me_queue client)));
    simpl; [done|]. rewrite length_app. simpl. lia.
Qed.
