(* ===== verification/World.v ===== *)
(** * The gateway's world

    The state every handler works on: the committed database and the uncommitted one of the
    open transaction, the advisory locks it holds, the in-memory parts of
    [GatewayStateInner] (src/src/rooms.rs), and a tick that advances with every call to the
    outside. The tick indexes an [Oracle] of random identifiers, clocks and outages, so a
    theorem for every oracle covers every sequence of failures. *)

From S2P Require Import Prelude Json Text Crates Types ConversationProtocol ConversationTables MemoryEngine.
Local Open Scope string_scope.
Local Open Scope list_scope.
Local Open Scope Z_scope.

(** ** Tables (migrations/) *)

Record DecisionRow := {
  dc_room_id : Uuid;
  dc_status : string;
  dc_title : string;
  dc_summary : string;
  dc_derived_from_decision_id : option Uuid;
  dc_source_event_ids : list Uuid;
  dc_created_at : DateTime;
  dc_updated_at : DateTime;
}.

Record RequestRow := { rq_request_fingerprint : Value; rq_event_ids : list Uuid }.

(** [agent_tasks]: the skill and the state are text columns. *)
Record TaskRow := {
  tr_room_id : Uuid;
  tr_request_id : Uuid;
  tr_requester_id : Uuid;
  tr_agent_id : Uuid;
  tr_skill_id : string;
  tr_input : string;
  tr_context_revision : Z;
  tr_state : string;
  tr_lease_owner : option Uuid;
  tr_lease_expires_at : option DateTime;
  tr_created_at : DateTime;
  tr_updated_at : DateTime;
}.

(** [room_events] is append-only (a trigger refuses UPDATE and DELETE), so the list in
    insertion order is all there is to it; the other tables are keyed by their primary key. *)
Record Db := {
  room_events : list RoomEvent;
  decisions : gmap Uuid DecisionRow;
  room_requests : gmap (Uuid * Uuid) RequestRow;
  agent_tasks : gmap Uuid TaskRow;
  agent_task_updates : gmap (Uuid * Uuid) (list Uuid);
  conversation_tables : ConversationTables;
}.

Definition empty_db : Db :=
  {| room_events := []; decisions := ∅; room_requests := ∅; agent_tasks := ∅;
     agent_task_updates := ∅; conversation_tables := empty_tables |}.

Definition with_events (f : list RoomEvent → list RoomEvent) (d : Db) : Db :=
  {| room_events := f (room_events d); decisions := decisions d;
     room_requests := room_requests d; agent_tasks := agent_tasks d;
     agent_task_updates := agent_task_updates d; conversation_tables := conversation_tables d |}.
Definition with_decisions (f : gmap Uuid DecisionRow → gmap Uuid DecisionRow) (d : Db) : Db :=
  {| room_events := room_events d; decisions := f (decisions d);
     room_requests := room_requests d; agent_tasks := agent_tasks d;
     agent_task_updates := agent_task_updates d; conversation_tables := conversation_tables d |}.
Definition with_requests (f : gmap (Uuid * Uuid) RequestRow → gmap (Uuid * Uuid) RequestRow)
    (d : Db) : Db :=
  {| room_events := room_events d; decisions := decisions d;
     room_requests := f (room_requests d); agent_tasks := agent_tasks d;
     agent_task_updates := agent_task_updates d; conversation_tables := conversation_tables d |}.
Definition with_tasks (f : gmap Uuid TaskRow → gmap Uuid TaskRow) (d : Db) : Db :=
  {| room_events := room_events d; decisions := decisions d;
     room_requests := room_requests d; agent_tasks := f (agent_tasks d);
     agent_task_updates := agent_task_updates d; conversation_tables := conversation_tables d |}.
Definition with_task_updates (f : gmap (Uuid * Uuid) (list Uuid) → gmap (Uuid * Uuid) (list Uuid))
    (d : Db) : Db :=
  {| room_events := room_events d; decisions := decisions d;
     room_requests := room_requests d; agent_tasks := agent_tasks d;
     agent_task_updates := f (agent_task_updates d); conversation_tables := conversation_tables d |}.
Definition with_conversations (f : ConversationTables → ConversationTables) (d : Db) : Db :=
  {| room_events := room_events d; decisions := decisions d;
     room_requests := room_requests d; agent_tasks := agent_tasks d;
     agent_task_updates := agent_task_updates d;
     conversation_tables := f (conversation_tables d) |}.

(** ** Errors of the database *)

Inductive SqlxError :=
| RowNotFound
| UniqueViolation
| ForeignKeyViolation
| CheckViolation
| NumericOutOfRange
| Unavailable.

Inductive StoreError :=
| InvalidEvent
| InvalidAgentTask
| ConflictingDuplicate
| Database (e : SqlxError).

(** ** The in-memory state *)

(** [ConversationIntegration]: the store's policy, whether a catalogue is configured, the
    cursors handed out for it (revision and provider cursor), and the cursors of the catalogue
    bridge itself (digest of the document and offset). *)
Record ConversationIntegration := {
  ci_policy : ConversationPolicy;
  ci_catalog : bool;
  ci_cursors : gmap string (string * string);
  ci_bridge_cursors : gmap string (string * Z);
}.

(** [ConversationIntegration::disabled]. *)
Definition disabled_integration : ConversationIntegration :=
  {| ci_policy := default_policy; ci_catalog := false; ci_cursors := ∅; ci_bridge_cursors := ∅ |}.

(** [rooms]: for each room with a channel, everything sent on it, oldest first; a subscriber
    is a position in that log. [presence] and the memory-engine client are as in the source;
    [integration] is the conversation integration. *)
Record Gateway := {
  channels : gmap Uuid (list RoomBroadcast);
  presence : gmap Uuid (gmap Uuid ParticipantPresence);
  integration : ConversationIntegration;
  memory_engine : option MemoryEngineClient;
}.

Definition conversations_enabled (g : Gateway) : bool := cp_enabled (ci_policy (integration g)).

(** Advisory locks: [pg_advisory_xact_lock(hashtextextended(id, seed))] with seed 0 for
    rooms and 1 for an agent's queue; the queue of conversation turns has a lock of its own. *)
Inductive Lock := RoomLock (room : Uuid) | AgentQueueLock (agent : Uuid) | ConversationClaimLock.
Global Instance Lock_eq_dec : EqDecision Lock.
Proof. solve_decision. Defined.

Record World := {
  committed : Db;
  working : Db;
  locks : list Lock;
  tx_now : DateTime;
  gateway : Gateway;
  tick : nat;
}.

Definition with_working (d : Db) (w : World) : World :=
  {| committed := committed w; working := d; locks := locks w; tx_now := tx_now w;
     gateway := gateway w; tick := tick w |}.
Definition with_committed (d : Db) (w : World) : World :=
  {| committed := d; working := working w; locks := locks w; tx_now := tx_now w;
     gateway := gateway w; tick := tick w |}.
Definition with_gateway (g : Gateway) (w : World) : World :=
  {| committed := committed w; working := working w; locks := locks w; tx_now := tx_now w;
     gateway := g; tick := tick w |}.
Definition next_tick (w : World) : World :=
  {| committed := committed w; working := working w; locks := locks w; tx_now := tx_now w;
     gateway := gateway w; tick := S (tick w) |}.

(** ** The outside *)

(** How a call to the database goes: it is answered; it fails and has no effect; or its
    effect happens and only the answer is lost. *)
Inductive Outage := Up | Down | Lost.

Class Oracle := {
  fresh_uuid : nat → Uuid;
  utc_now : nat → DateTime;
  db_now : nat → DateTime;
  outage : nat → Outage;
}.

Section primitives.
Context `{Oracle}.

Definition new_v4 {E} : M World E Uuid := λ w, (Ok (fresh_uuid (tick w)), next_tick w).
Definition now {E} : M World E DateTime := λ w, (Ok (utc_now (tick w)), next_tick w).

(** [pool.begin()]: the transaction starts from what is committed; [NOW()] is its start. *)
Definition begin_tx : M World SqlxError () := λ w,
  match outage (tick w) with
  | Up => (Ok (), {| committed := committed w; working := committed w; locks := [];
                     tx_now := db_now (tick w); gateway := gateway w; tick := S (tick w) |})
  | _ => (Err Unavailable, next_tick w)
  end.

(** A statement of the open transaction. *)
Definition tx_query {A} (q : DateTime → Db → result SqlxError (A * Db)) : M World SqlxError A := λ w,
  match outage (tick w) with
  | Up => match q (tx_now w) (working w) with
          | Ok (a, d) => (Ok a, next_tick (with_working d w))
          | Err e => (Err e, next_tick w)
          end
  | _ => (Err Unavailable, next_tick w)
  end.

(** A statement on the pool, its own transaction. *)
Definition pool_query {A} (q : DateTime → Db → result SqlxError (A * Db)) :
    M World SqlxError A := λ w,
  match outage (tick w), q (db_now (tick w)) (committed w) with
  | Up, Ok (a, d) => (Ok a, next_tick (with_committed d w))
  | Lost, Ok (_, d) => (Err Unavailable, next_tick (with_committed d w))
  | Up, Err e => (Err e, next_tick w)
  | _, _ => (Err Unavailable, next_tick w)
  end.

(** [transaction.commit()] and [transaction.rollback()]; the locks end with the transaction. *)
Definition commit_tx : M World SqlxError () := λ w,
  let released d := {| committed := d; working := working w; locks := []; tx_now := tx_now w;
                       gateway := gateway w; tick := S (tick w) |} in
  match outage (tick w) with
  | Up => (Ok (), released (working w))
  | Down => (Err Unavailable, released (committed w))
  | Lost => (Err Unavailable, released (working w))
  end.

Definition rollback_tx : M World SqlxError () := λ w,
  (match outage (tick w) with Up => Ok () | _ => Err Unavailable end,
   {| committed := committed w; working := committed w; locks := []; tx_now := tx_now w;
      gateway := gateway w; tick := S (tick w) |}).

Definition advisory_lock (l : Lock) : M World SqlxError () := λ w,
  match outage (tick w) with
  | Up => (Ok (), {| committed := committed w; working := working w; locks := l :: locks w;
                     tx_now := tx_now w; gateway := gateway w; tick := S (tick w) |})
  | _ => (Err Unavailable, next_tick w)
  end.

(** A SELECT leaves the database as it is. *)
Definition select {A} (f : DateTime → Db → A) (now : DateTime) (d : Db) :
    result SqlxError (A * Db) := Ok (f now d, d).
End primitives.
