(* ===== verification/Store.v ===== *)
(** * The event and task store (src/src/store.rs)

    The SQL statements as functions of the database and the operations that issue them:
    appending an event, replaying a room, request idempotency, and the lifecycle of agent
    tasks (start, lease, context, update). *)

From S2P Require Import Prelude Json Text Crates Types Protocol World.
Local Open Scope string_scope.
Local Open Scope list_scope.
Local Open Scope Z_scope.

(** ** Queries on events *)

Definition sequence_le (a b : RoomEvent) : Prop := ev_sequence a ≤ ev_sequence b.
Global Instance sequence_le_dec a b : Decision (sequence_le a b).
Proof. unfold sequence_le. apply _. Defined.
Global Instance sequence_le_total : Total sequence_le.
Proof. intros a b. unfold sequence_le. lia. Qed.
Global Instance sequence_le_trans : Transitive sequence_le.
Proof. intros a b c. unfold sequence_le. lia. Qed.

(** [SELECT .. FROM room_events WHERE p ORDER BY sequence ASC]. *)
Definition select_events (p : RoomEvent → bool) (d : Db) : list RoomEvent :=
  merge_sort sequence_le (List.filter p (room_events d)).

Definition in_room (room : Uuid) (e : RoomEvent) : bool := bool_decide (ev_room_id e = room).

(** The events of one room, in insertion order. *)
Definition room_log (room : Uuid) (d : Db) : list RoomEvent :=
  List.filter (in_room room) (room_events d).

(** [COALESCE(MAX(sequence), 0)] over a room. *)
Definition max_sequence (room : Uuid) (d : Db) : Z :=
  match ev_sequence <$> room_log room d with
  | [] => 0
  | s :: ss => foldr Z.max s ss
  end.

(** [COALESCE(MAX(sequence), 0) + 1], a BIGINT. *)
Definition next_sequence (room : Uuid) (d : Db) : result SqlxError Z :=
  let next := max_sequence room d + 1 in
  if i64_max <? next then Err NumericOutOfRange else Ok next.

Section store.
Context `{UuidCrate, Chrono, Schemas, Postgres, Oracle}.

(** The row an INSERT of [event] stores, columns converted by their types. *)
Definition event_row (event_id : Uuid) (e : NewEvent) (sequence : Z) : RoomEvent :=
  {| ev_event_id := event_id; ev_room_id := ne_room_id e; ev_sequence := sequence;
     ev_request_id := ne_request_id e; ev_event_type := ne_event_type e;
     ev_actor_id := ne_actor_id e; ev_actor_role := ne_actor_role e;
     ev_actor_display_name := ne_actor_display_name e; ev_payload := pg_json (ne_payload e);
     ev_occurred_at := pg_time (ne_occurred_at e) |}.

(** PRIMARY KEY (event_id) and UNIQUE (room_id, sequence). *)
Definition event_conflict (row : RoomEvent) (d : Db) : bool :=
  existsb (λ e, bool_decide (ev_event_id e = ev_event_id row)
                || in_room (ev_room_id row) e && (ev_sequence e =? ev_sequence row))
    (room_events d).

Definition insert_event (event_id : Uuid) (e : NewEvent) (_ : DateTime) (d : Db) :
    result SqlxError (RoomEvent * Db) :=
  sequence ← next_sequence (ne_room_id e) d;
  let row := event_row event_id e sequence in
  if event_conflict row d then Err UniqueViolation
  else Ok (row, with_events (λ es, es ++ [row]) d).

(** ** Events *)

Definition lock_room (room : Uuid) : M World StoreError () :=
  map_err Database (advisory_lock (RoomLock room)).

Definition append_event_in_transaction (event : NewEvent) : M World StoreError RoomEvent :=
  event_id ← new_v4;
  if negb (is_valid_room_event event_id event) then throw InvalidEvent
  else map_err Database (tx_query (insert_event event_id event)).

Definition append_event (event : NewEvent) : M World StoreError RoomEvent :=
  _ ← map_err Database begin_tx;
  _ ← lock_room (ne_room_id event);
  persisted ← append_event_in_transaction event;
  _ ← map_err Database commit_tx;
  mret persisted.

Definition events_after (room : Uuid) (after_sequence : Z) : M World StoreError (list RoomEvent) :=
  map_err Database (pool_query (select (λ _, select_events
    (λ e, in_room room e && (after_sequence <? ev_sequence e))))).

(** [SELECT COUNT( * ) FROM room_events WHERE room_id = $1]. *)
Definition room_event_count (room : Uuid) : M World StoreError Z :=
  map_err Database (pool_query (select (λ _ d, Z.of_nat (length (room_log room d))))).

(** [WHERE event_id = ANY($1)]. *)
Definition select_by_id (ids : list Uuid) (d : Db) : list RoomEvent :=
  select_events (λ e, bool_decide (ev_event_id e ∈ ids)) d.

Definition events_by_id (ids : list Uuid) : M World StoreError (list RoomEvent) :=
  map_err Database (tx_query (select (λ _, select_by_id ids))).

(** ** Request idempotency *)

Definition prior_request (room request : Uuid) :
    M World StoreError (option (Value * list RoomEvent)) :=
  record ← map_err Database (tx_query (select (λ _ d, room_requests d !! (room, request))));
  match record with
  | None => mret None
  | Some record =>
      events ← events_by_id (rq_event_ids record);
      mret (Some (rq_request_fingerprint record, events))
  end.

Definition insert_request (room request : Uuid) (row : RequestRow) (_ : DateTime) (d : Db) :
    result SqlxError (() * Db) :=
  match room_requests d !! (room, request) with
  | Some _ => Err UniqueViolation
  | None => Ok ((), with_requests <[(room, request) := row]> d)
  end.

Definition record_request (room request : Uuid) (fingerprint : Value) (events : list RoomEvent) :
    M World StoreError () :=
  map_err Database (tx_query (insert_request room request
    {| rq_request_fingerprint := pg_json fingerprint; rq_event_ids := ev_event_id <$> events |})).

(** ** Agent tasks *)

(** [AgentTaskState::parse]. *)
Definition parse_task_state (value : string) : result StoreError AgentTaskState :=
  if String.eqb value "queued" then Ok Queued
  else if String.eqb value "running" then Ok Running
  else if String.eqb value "awaiting_external_input" then Ok AwaitingExternalInput
  else if String.eqb value "succeeded" then Ok Succeeded
  else if String.eqb value "failed" then Ok Failed
  else Err InvalidAgentTask.

Definition agent_task_from_row (task_id : Uuid) (row : TaskRow) :
    result StoreError AgentTaskRecord :=
  skill ← (if String.eqb (tr_skill_id row) "summarize-context" then Ok SummarizeContext
           else if String.eqb (tr_skill_id row) "extract-action-items" then Ok ExtractActionItems
           else Err InvalidAgentTask);
  state ← parse_task_state (tr_state row);
  Ok {| tk_task_id := task_id; tk_room_id := tr_room_id row; tk_request_id := tr_request_id row;
        tk_requester_id := tr_requester_id row; tk_agent_id := tr_agent_id row;
        tk_skill_id := skill; tk_input := tr_input row;
        tk_context_revision := tr_context_revision row; tk_state := state;
        tk_lease_owner := tr_lease_owner row; tk_lease_expires_at := tr_lease_expires_at row;
        tk_created_at := tr_created_at row; tk_updated_at := tr_updated_at row |}.

Definition requested_task_payload (task_id requester_id : Uuid) (start : AgentTaskStart)
    (context_revision : Z) : Value :=
  json_object
    [("taskId", json_uuid task_id); ("agentId", json_uuid (ts_agent_id start));
     ("requesterId", json_uuid requester_id); ("skillId", Str (skill_str (ts_skill_id start)));
     ("contextRevision", json_int context_revision)].

(** The task of a room's request, as [UNIQUE (room_id, request_id)] makes it one. *)
Definition task_of_request (room request : Uuid) (d : Db) : option Uuid :=
  fst <$> head (List.filter
    (λ kv, bool_decide (tr_room_id kv.2 = room ∧ tr_request_id kv.2 = request))
    (map_to_list (agent_tasks d))).

Definition fetch_task_of_request (room request : Uuid) (_ : DateTime) (d : Db) :
    result SqlxError (Uuid * Db) :=
  match task_of_request room request d with
  | Some task => Ok (task, d)
  | None => Err RowNotFound
  end.

(** PRIMARY KEY (task_id), UNIQUE (room_id, request_id); [NOW()] twice. *)
Definition insert_task (task_id : Uuid) (row : DateTime → TaskRow) (now : DateTime) (d : Db) :
    result SqlxError (() * Db) :=
  match agent_tasks d !! task_id, task_of_request (tr_room_id (row now)) (tr_request_id (row now)) d with
  | None, None => Ok ((), with_tasks <[task_id := row now]> d)
  | _, _ => Err UniqueViolation
  end.

Definition select_next_sequence (room : Uuid) (_ : DateTime) (d : Db) :
    result SqlxError (Z * Db) :=
  next ← next_sequence room d; Ok (next, d).

Definition start_agent_task_in_transaction (requester_id : Uuid) (requester_display_name : string)
    (start : AgentTaskStart) (record_idempotency : bool) :
    M World StoreError AgentTaskStartResult :=
  _ ← lock_room (ts_room_id start);
  let fingerprint := agent_task_fingerprint start in
  prior ← prior_request (ts_room_id start) (ts_request_id start);
  match prior with
  | Some (prior_fingerprint, events) =>
      if negb (bool_decide (prior_fingerprint = fingerprint)) then throw ConflictingDuplicate
      else
        task_id ← map_err Database
          (tx_query (fetch_task_of_request (ts_room_id start) (ts_request_id start)));
        mret {| sr_task_id := task_id; sr_events := events |}
  | None =>
      task_id ← new_v4;
      context_revision ← map_err Database (tx_query (select_next_sequence (ts_room_id start)));
      requested ← append_event_in_transaction
        {| ne_room_id := ts_room_id start; ne_request_id := ts_request_id start;
           ne_event_type := "agent.task.requested"; ne_actor_id := requester_id;
           ne_actor_role := "human"; ne_actor_display_name := Some requester_display_name;
           ne_payload := requested_task_payload task_id requester_id start context_revision;
           ne_occurred_at := ts_occurred_at start |};
      if negb (ev_sequence requested =? context_revision) then throw InvalidAgentTask
      else
        _ ← map_err Database (tx_query (insert_task task_id (λ now,
          {| tr_room_id := ts_room_id start; tr_request_id := ts_request_id start;
             tr_requester_id := requester_id; tr_agent_id := ts_agent_id start;
             tr_skill_id := skill_str (ts_skill_id start); tr_input := ts_input start;
             tr_context_revision := context_revision; tr_state := "queued";
             tr_lease_owner := None; tr_lease_expires_at := None;
             tr_created_at := now; tr_updated_at := now |})));
        _ ← (if record_idempotency
             then record_request (ts_room_id start) (ts_request_id start) fingerprint [requested]
             else mret ());
        mret {| sr_task_id := task_id; sr_events := [requested] |}
  end.

(** [AgentTaskStore::start_agent_task]. *)
Definition start_agent_task (requester_id : Uuid) (requester_display_name : string)
    (start : AgentTaskStart) : M World StoreError AgentTaskStartResult :=
  _ ← map_err Database begin_tx;
  result ← start_agent_task_in_transaction requester_id requester_display_name start true;
  _ ← map_err Database commit_tx;
  mret result.

Definition fetch_task (task_id : Uuid) (_ : DateTime) (d : Db) : result SqlxError (TaskRow * Db) :=
  row ← ok_or RowNotFound (agent_tasks d !! task_id); Ok (row, d).

Definition agent_task (task_id : Uuid) : M World StoreError AgentTaskRecord :=
  row ← map_err Database (pool_query (fetch_task task_id));
  lift (agent_task_from_row task_id row).

(** ** Leases *)

(** [state IN ('queued', 'running', 'awaiting_external_input') AND (lease_expires_at IS NULL
    OR lease_expires_at <= now)]. *)
Definition claimable (now : DateTime) (row : TaskRow) : bool :=
  bool_decide (tr_state row ∈ ["queued"; "running"; "awaiting_external_input"]) &&
  match tr_lease_expires_at row with
  | None => true
  | Some expires_at => expires_at <=? now
  end.

Definition leased (state : string) (owner : Uuid) (expires_at now : DateTime) (row : TaskRow) :
    TaskRow :=
  {| tr_room_id := tr_room_id row; tr_request_id := tr_request_id row;
     tr_requester_id := tr_requester_id row; tr_agent_id := tr_agent_id row;
     tr_skill_id := tr_skill_id row; tr_input := tr_input row;
     tr_context_revision := tr_context_revision row; tr_state := state;
     tr_lease_owner := Some owner; tr_lease_expires_at := Some expires_at;
     tr_created_at := tr_created_at row; tr_updated_at := now |}.

(** [UPDATE .. WHERE task_id = $4 AND ..  RETURNING ..]: no row when it does not apply. *)
Definition update_lease (task_id owner : Uuid) (now expires_at : DateTime) (_ : DateTime) (d : Db) :
    result SqlxError (option AgentTaskLease * Db) :=
  match agent_tasks d !! task_id with
  | Some row =>
      if claimable (pg_time now) row then
        let state := if String.eqb (tr_state row) "queued" then "running" else tr_state row in
        Ok (Some {| ls_task_id := task_id; ls_owner_id := owner; ls_expires_at := pg_time expires_at |},
            with_tasks <[task_id := leased state owner (pg_time expires_at) (pg_time now) row]> d)
      else Ok (None, d)
  | None => Ok (None, d)
  end.

Definition claim_agent_task (task_id owner : Uuid) (now : DateTime) :
    M World StoreError (option AgentTaskLease) :=
  let expires_at := now + AGENT_TASK_LEASE_DURATION in
  map_err Database (pool_query (update_lease task_id owner now expires_at)).

(** [ORDER BY created_at ASC, task_id ASC]. *)
Definition older (a b : Uuid * TaskRow) : Prop :=
  tr_created_at a.2 < tr_created_at b.2 ∨
  tr_created_at a.2 = tr_created_at b.2 ∧ uuid_le a.1 b.1.
Global Instance older_dec a b : Decision (older a b).
Proof. unfold older. apply _. Defined.

Definition claim_queue (agent : Uuid) (now : DateTime) (d : Db) : list (Uuid * TaskRow) :=
  merge_sort older
    (List.filter (λ kv, bool_decide (tr_agent_id kv.2 = agent) && claimable now kv.2)
       (map_to_list (agent_tasks d))).

(** The statement [WITH claimable AS (.. LIMIT 1 FOR UPDATE) UPDATE .. RETURNING ..]. *)
Definition claim_oldest (agent owner : Uuid) (now expires_at : DateTime) (_ : DateTime) (d : Db) :
    result SqlxError (option AgentTaskLease * Db) :=
  match head (claim_queue agent (pg_time now) d) with
  | None => Ok (None, d)
  | Some (task_id, row) =>
      Ok (Some {| ls_task_id := task_id; ls_owner_id := owner; ls_expires_at := pg_time expires_at |},
          with_tasks <[task_id := leased "running" owner (pg_time expires_at) (pg_time now) row]> d)
  end.

Definition claim_oldest_queued_agent_task (agent owner : Uuid) (now : DateTime) :
    M World StoreError (option AgentTaskLease) :=
  let expires_at := now + AGENT_TASK_LEASE_DURATION in
  _ ← map_err Database begin_tx;
  _ ← map_err Database (advisory_lock (AgentQueueLock agent));
  lease ← map_err Database (tx_query (claim_oldest agent owner now expires_at));
  _ ← map_err Database commit_tx;
  mret lease.

(** [WHERE task_id = $1 AND lease_owner = $2 AND lease_expires_at = $3
    AND lease_expires_at > NOW()]. *)
Definition holds_lease (lease : AgentTaskLease) (now : DateTime) (row : TaskRow) : bool :=
  bool_decide (tr_lease_owner row = Some (ls_owner_id lease)) &&
  match tr_lease_expires_at row with
  | Some expires_at => (expires_at =? pg_time (ls_expires_at lease)) && (now <? expires_at)
  | None => false
  end.

Definition leased_task (lease : AgentTaskLease) (now : DateTime) (d : Db) : option TaskRow :=
  row ← agent_tasks d !! ls_task_id lease;
  if holds_lease lease now row then Some row else None.

(** [.map(agent_task_from_row).transpose()?]. *)
Definition decode_task (task_id : Uuid) (row : option TaskRow) :
    result StoreError (option AgentTaskRecord) :=
  match row with
  | None => Ok None
  | Some row => task ← agent_task_from_row task_id row; Ok (Some task)
  end.

Definition context_for_lease (lease : AgentTaskLease) :
    M World StoreError (option AgentTaskContext) :=
  row ← map_err Database (pool_query (select (leased_task lease)));
  task ← lift (decode_task (ls_task_id lease) row);
  match task with
  | None => mret None
  | Some task =>
      events ← map_err Database (pool_query (select (λ _, select_events
        (λ e, in_room (tk_room_id task) e && (ev_sequence e <=? tk_context_revision task)))));
      mret (Some {| cx_task := task; cx_events := events |})
  end.

(** ** Updates *)

(** The members the gateway sets itself, in the order of the core object's iteration. *)
Definition task_core (task : AgentTaskRecord) : list (string * Value) :=
  obj_of_list
    [("taskId", json_uuid (tk_task_id task)); ("agentId", json_uuid (tk_agent_id task));
     ("requesterId", json_uuid (tk_requester_id task));
     ("skillId", Str (skill_str (tk_skill_id task)));
     ("contextRevision", json_int (tk_context_revision task))].

Fixpoint merge_core (core fs : list (string * Value)) : result StoreError (list (string * Value)) :=
  match core with
  | [] => Ok fs
  | (key, value) :: core' =>
      match obj_get key fs with
      | Some provided =>
          if bool_decide (provided = value) then merge_core core' (obj_insert key value fs)
          else Err InvalidAgentTask
      | None => merge_core core' (obj_insert key value fs)
      end
  end.

Definition normalized_agent_task_update_payload (task : AgentTaskRecord) (payload : Value) :
    result StoreError Value :=
  fs ← ok_or InvalidAgentTask (as_object payload);
  merged ← merge_core (task_core task) fs;
  Ok (Object merged).

Definition validate_agent_handoff `{UrlCrate} (task : AgentTaskRecord) (lease : AgentTaskLease)
    (payload : Value) : M World StoreError () :=
  let handoff := index payload "handoff" in
  instruction ← lift (ok_or InvalidAgentTask (as_str (index handoff "instruction")));
  url ← lift (ok_or InvalidAgentTask (as_str (index handoff "url") ≫= url_parse));
  expiry ← lift (ok_or InvalidAgentTask
    (as_str (index handoff "expiresAt") ≫= datetime_parse_rfc3339));
  now ← now;
  if negb (bool_decide (tk_agent_id task = REFERENCE_AGENT_ID))
     || is_empty (trim instruction) || negb (String.eqb instruction (trim instruction))
     || negb (String.eqb (url_scheme url) "https") || negb (is_empty (url_username url))
     || bool_decide (is_Some (url_password url)) || bool_decide (is_Some (url_fragment url))
     || negb (bool_decide (url_host_str url = Some "reference-agent.thought-khoral.local"))
     || negb (bool_decide (as_str (index handoff "host") = url_host_str url))
     || negb (bool_decide (url_port_or_known_default url = Some 443))
     || (expiry <=? now) || (ls_expires_at lease <? expiry)
  then throw InvalidAgentTask
  else mret ().

Definition is_matching_agent_task_update (events : list RoomEvent) (update : AgentTaskUpdate)
    (normalized_payload : Value) : bool :=
  match events with
  | [event] =>
      String.eqb (ev_event_type event) (up_event_type update)
      && bool_decide (ev_payload event = normalized_payload)
      && (timestamp_micros (ev_occurred_at event) =? timestamp_micros (up_occurred_at update))
  | _ => false
  end.

Definition state_for_update (event_type : string) : result StoreError AgentTaskState :=
  if String.eqb event_type "agent.task.progressed" then Ok Running
  else if String.eqb event_type "agent.task.awaiting_external_input" then Ok AwaitingExternalInput
  else if String.eqb event_type "agent.task.succeeded" then Ok Succeeded
  else if String.eqb event_type "agent.task.failed" then Ok Failed
  else Err InvalidAgentTask.

(** PRIMARY KEY (task_id, update_id), task_id REFERENCES agent_tasks. *)
Definition insert_task_update (task_id update_id : Uuid) (event_ids : list Uuid) (_ : DateTime)
    (d : Db) : result SqlxError (() * Db) :=
  match agent_tasks d !! task_id, agent_task_updates d !! (task_id, update_id) with
  | None, _ => Err ForeignKeyViolation
  | _, Some _ => Err UniqueViolation
  | _, None => Ok ((), with_task_updates <[(task_id, update_id) := event_ids]> d)
  end.

Definition set_task_state (state : string) (now : DateTime) (row : TaskRow) : TaskRow :=
  {| tr_room_id := tr_room_id row; tr_request_id := tr_request_id row;
     tr_requester_id := tr_requester_id row; tr_agent_id := tr_agent_id row;
     tr_skill_id := tr_skill_id row; tr_input := tr_input row;
     tr_context_revision := tr_context_revision row; tr_state := state;
     tr_lease_owner := tr_lease_owner row; tr_lease_expires_at := tr_lease_expires_at row;
     tr_created_at := tr_created_at row; tr_updated_at := now |}.

(** [UPDATE agent_tasks SET state = $1, updated_at = $2 WHERE task_id = $3]. *)
Definition update_task_state (task_id : Uuid) (state : AgentTaskState) (at_ : DateTime)
    (_ : DateTime) (d : Db) : result SqlxError (() * Db) :=
  Ok ((), with_tasks (alter (set_task_state (task_state_str state) (pg_time at_)) task_id) d).

(** [matches!(task.state, Queued | Running | AwaitingExternalInput)]. *)
Definition is_open (state : AgentTaskState) : bool :=
  match state with Queued | Running | AwaitingExternalInput => true | _ => false end.

(** The part of the update that writes: the event, its record and the task's new state. *)
Definition persist_update `{UrlCrate} (task : AgentTaskRecord) (lease : AgentTaskLease)
    (update : AgentTaskUpdate) (payload : Value) : M World StoreError AgentTaskUpdateResult :=
  _ ← (if String.eqb (up_event_type update) "agent.task.awaiting_external_input"
       then validate_agent_handoff task lease payload else mret ());
  state ← lift (state_for_update (up_event_type update));
  request_id ← new_v4;
  event ← append_event_in_transaction
    {| ne_room_id := tk_room_id task; ne_request_id := request_id;
       ne_event_type := up_event_type update; ne_actor_id := tk_agent_id task;
       ne_actor_role := "agent"; ne_actor_display_name := None; ne_payload := payload;
       ne_occurred_at := up_occurred_at update |};
  _ ← map_err Database (tx_query
    (insert_task_update (tk_task_id task) (up_update_id update) [ev_event_id event]));
  _ ← map_err Database (tx_query
    (update_task_state (tk_task_id task) state (up_occurred_at update)));
  _ ← map_err Database commit_tx;
  mret {| ur_task_id := tk_task_id task; ur_events := [event]; ur_duplicate := false |}.

Definition record_agent_task_update_with_outcome `{UrlCrate} (lease : AgentTaskLease)
    (update : AgentTaskUpdate) : M World StoreError AgentTaskUpdateResult :=
  _ ← map_err Database begin_tx;
  row ← map_err Database (tx_query (select (leased_task lease)));
  task ← lift (decode_task (ls_task_id lease) row);
  match task with
  | None => _ ← map_err Database rollback_tx; throw InvalidAgentTask
  | Some task =>
      _ ← lock_room (tk_room_id task);
      payload ← lift (normalized_agent_task_update_payload task (up_payload update));
      recorded ← map_err Database (tx_query (select (λ _ d,
        agent_task_updates d !! (tk_task_id task, up_update_id update))));
      match recorded with
      | Some event_ids =>
          events ← events_by_id event_ids;
          _ ← map_err Database rollback_tx;
          if negb (is_matching_agent_task_update events update payload)
          then throw ConflictingDuplicate
          else mret {| ur_task_id := tk_task_id task; ur_events := events; ur_duplicate := true |}
      | None =>
          if negb (is_open (tk_state task)) then
            _ ← map_err Database rollback_tx; throw InvalidAgentTask
          else persist_update task lease update payload
      end
  end.

Definition record_agent_task_update `{UrlCrate} (lease : AgentTaskLease) (update : AgentTaskUpdate) :
    M World StoreError AgentTaskStartResult :=
  result ← record_agent_task_update_with_outcome lease update;
  mret {| sr_task_id := ur_task_id result; sr_events := ur_events result |}.
End store.
