(* ===== verification/StoreInvariant.v ===== *)
(** * Invariants of the store

    What holds of every committed database: event identifiers are unique, the events of each
    room are numbered 1, 2, 3, .. without a gap in the order they were appended, request
    records point at events of their room, and task rows are well formed; and the lemmas on
    queries that follow. *)

From S2P Require Import Prelude Json Text Crates Types Protocol MemoryEngine World Store.
Local Open Scope string_scope.
Local Open Scope list_scope.
Local Open Scope Z_scope.

(** [evs] are the events a record of [ids] refers to: stored events of one room, in order. *)
Definition refers_to (d : Db) (room : Uuid) (ids : list Uuid) (evs : list RoomEvent) : Prop :=
  evs `sublist_of` room_log room d ∧ ids = ev_event_id <$> evs.

Definition task_row_ok (d : Db) (row : TaskRow) : Prop :=
  (∃ skill, tr_skill_id row = skill_str skill) ∧ (∃ state, tr_state row = task_state_str state) ∧
  1 ≤ tr_context_revision row ≤ Z.of_nat (length (room_log (tr_room_id row) d)) ∧
  (is_Some (tr_lease_owner row) ↔ is_Some (tr_lease_expires_at row)).

Record db_ok (d : Db) : Prop := {
  ok_ids : NoDup (ev_event_id <$> room_events d);
  ok_gapless room : ev_sequence <$> room_log room d = seqZ 1 (Z.of_nat (length (room_log room d)));
  ok_requests room request row :
    room_requests d !! (room, request) = Some row → ∃ evs, refers_to d room (rq_event_ids row) evs;
  ok_tasks task row : agent_tasks d !! task = Some row → task_row_ok d row;
  ok_updates task update ids :
    agent_task_updates d !! (task, update) = Some ids →
    ∃ row e, agent_tasks d !! task = Some row ∧ refers_to d (tr_room_id row) ids [e];
}.

Lemma empty_db_ok : db_ok empty_db.
Proof. split; simpl; try done; try constructor. Qed.

(** ** Logs *)

Lemma room_log_app room d es :
  room_log room (with_events (λ l, l ++ es) d) = room_log room d ++ List.filter (in_room room) es.
Proof. unfold room_log. simpl. apply List.filter_app. Qed.

Lemma room_log_elem room d e : e ∈ room_log room d ↔ e ∈ room_events d ∧ ev_room_id e = room.
Proof.
  unfold room_log. rewrite list_elem_of_In, filter_In, <-list_elem_of_In.
  unfold in_room. rewrite bool_decide_eq_true. done.
Qed.

Lemma filter_sublist {A} (p : A → bool) (l : list A) : List.filter p l `sublist_of` l.
Proof. induction l; simpl; [done|]. destruct (p a); by constructor. Qed.

Lemma filter_all {A} (p : A → bool) l : Forall (λ x, p x = true) l → List.filter p l = l.
Proof. induction 1 as [|x l Hx _ IH]; simpl; [done|]. by rewrite Hx, IH. Qed.

Lemma filter_none {A} (p : A → bool) l : Forall (λ x, p x = false) l → List.filter p l = [].
Proof. induction 1 as [|x l Hx _ IH]; simpl; [done|]. by rewrite Hx, IH. Qed.

Lemma sublist_fmap {A B} (f : A → B) l k : l `sublist_of` k → f <$> l `sublist_of` f <$> k.
Proof. intros H. by apply fmap_sublist. Qed.

(** Consecutive numbers from [k] on. *)
Definition numbered_from (k : Z) (l : list RoomEvent) : Prop :=
  ev_sequence <$> l = seqZ k (Z.of_nat (length l)).

Lemma numbered_from_cons k e l :
  numbered_from k (e :: l) ↔ ev_sequence e = k ∧ numbered_from (k + 1) l.
Proof.
  unfold numbered_from. rewrite fmap_cons, seqZ_cons by (simpl; lia).
  replace (Z.pred (Z.of_nat (length (e :: l)))) with (Z.of_nat (length l)) by (simpl; lia).
  unfold Z.succ. split; [by intros [= -> ->]|by intros [-> ->]].
Qed.

Lemma numbered_from_lookup k l i e :
  numbered_from k l → l !! i = Some e → ev_sequence e = k + Z.of_nat i.
Proof.
  intros Hn Hi. apply (f_equal (lookup i)) in Hn. rewrite list_lookup_fmap, Hi in Hn.
  symmetry in Hn. by apply lookup_seqZ in Hn as [-> _].
Qed.

Lemma numbered_from_elem k l e :
  numbered_from k l → e ∈ l → k ≤ ev_sequence e < k + Z.of_nat (length l).
Proof.
  intros Hn (i & Hi)%list_elem_of_lookup. rewrite (numbered_from_lookup _ _ _ _ Hn Hi).
  apply lookup_lt_Some in Hi. lia.
Qed.

Lemma numbered_from_app k l l' :
  numbered_from k (l ++ l') ↔ numbered_from k l ∧ numbered_from (k + Z.of_nat (length l)) l'.
Proof.
  revert k. induction l as [|e l IH]; intros k; simpl.
  - rewrite Z.add_0_r. split; [done|tauto].
  - rewrite !numbered_from_cons, IH.
    replace (k + 1 + Z.of_nat (length l)) with (k + Z.of_nat (S (length l))) by lia. tauto.
Qed.

Lemma numbered_from_sorted k l : numbered_from k l → StronglySorted sequence_le l.
Proof.
  revert k. induction l as [|e l IH]; intros k; [constructor|].
  rewrite numbered_from_cons. intros [He Hl]. constructor; [eauto|].
  apply Forall_forall. intros e' He'. unfold sequence_le.
  pose proof (numbered_from_elem _ _ _ Hl He'). lia.
Qed.

Lemma numbered_from_inj k l e e' :
  numbered_from k l → e ∈ l → e' ∈ l → ev_sequence e = ev_sequence e' → e = e'.
Proof.
  intros Hn (i & Hi)%list_elem_of_lookup (j & Hj)%list_elem_of_lookup Heq.
  rewrite (numbered_from_lookup _ _ _ _ Hn Hi), (numbered_from_lookup _ _ _ _ Hn Hj) in Heq.
  assert (i = j) as -> by lia. congruence.
Qed.

Lemma foldr_max_spec s ss :
  foldr Z.max s ss ∈ s :: ss ∧ ∀ x, x ∈ s :: ss → x ≤ foldr Z.max s ss.
Proof.
  induction ss as [|t ss [Hin Hmax]]; simpl.
  - split; [set_solver|]. intros x ->%list_elem_of_singleton. done.
  - split.
    + destruct (Z.max_spec t (foldr Z.max s ss)) as [[_ ->]|[_ ->]]; set_solver.
    + intros x Hx. assert (x = t ∨ x ∈ s :: ss) as [->|Hx'%Hmax] by set_solver; lia.
Qed.

Lemma sublist_sorted (R : relation RoomEvent) l k :
  l `sublist_of` k → StronglySorted R k → StronglySorted R l.
Proof.
  induction 1 as [|x l k Hs IH|x l k Hs IH]; [done|..]; intros [Hk Hx]%StronglySorted_inv; [|auto].
  constructor; [auto|]. rewrite Forall_forall in *. eauto using elem_of_sublist.
Qed.

Lemma filter_sublist_eq {A} (p : A → bool) (l k : list A) :
  k `sublist_of` l → NoDup l → (∀ x, x ∈ k → p x = true) → (∀ x, x ∈ l → p x = true → x ∈ k) →
  List.filter p l = k.
Proof.
  induction 1 as [|x k l Hs IH|x k l Hs IH]; intros Hnd Hk Hl; simpl; [done|..];
    apply NoDup_cons in Hnd as [Hx Hnd].
  - rewrite Hk by set_solver. f_equal. apply IH; [done|set_solver|].
    intros y Hy Hpy. assert (y ∈ x :: k) as [->|?]%elem_of_cons; [|done|done].
    apply Hl; [set_solver|done].
  - destruct (p x) eqn:Hpx.
    + exfalso. apply Hx. eapply elem_of_sublist; [|done]. apply Hl; [set_solver|done].
    + apply IH; [done|set_solver|]. intros y Hy. apply Hl. set_solver.
Qed.

(** Selecting by sequence cuts a numbered list. *)
Lemma filter_after k l (after : Z) (p : RoomEvent → bool) :
  numbered_from k l → (∀ e, e ∈ l → p e = (after <? ev_sequence e)) →
  List.filter p l = drop (Z.to_nat (after - k + 1)) l.
Proof.
  revert k. induction l as [|e l IH]; intros k Hn Hp; [by rewrite drop_nil|].
  apply numbered_from_cons in Hn as [He Hn]. simpl. rewrite Hp, He by set_solver.
  rewrite (IH (k + 1)) by set_solver.
  destruct (Z.ltb_spec after k).
  - replace (Z.to_nat (after - k + 1)) with 0%nat by lia.
    replace (Z.to_nat (after - (k + 1) + 1)) with 0%nat by lia. done.
  - replace (Z.to_nat (after - k + 1)) with (S (Z.to_nat (after - (k + 1) + 1))) by lia. done.
Qed.

Lemma filter_upto k l (upto : Z) (p : RoomEvent → bool) :
  numbered_from k l → (∀ e, e ∈ l → p e = (ev_sequence e <=? upto)) →
  List.filter p l = take (Z.to_nat (upto - k + 1)) l.
Proof.
  revert k. induction l as [|e l IH]; intros k Hn Hp; [by rewrite take_nil|].
  apply numbered_from_cons in Hn as [He Hn]. simpl. rewrite Hp, He by set_solver.
  rewrite (IH (k + 1)) by set_solver.
  destruct (Z.leb_spec k upto).
  - replace (Z.to_nat (upto - k + 1)) with (S (Z.to_nat (upto - (k + 1) + 1))) by lia. done.
  - replace (Z.to_nat (upto - k + 1)) with 0%nat by lia.
    replace (Z.to_nat (upto - (k + 1) + 1)) with 0%nat by lia. done.
Qed.

Section log_facts.
Context (d : Db) (Hok : db_ok d).

Lemma room_log_numbered room : numbered_from 1 (room_log room d).
Proof. apply Hok. Qed.

Lemma max_sequence_ok room : max_sequence room d = Z.of_nat (length (room_log room d)).
Proof.
  unfold max_sequence. pose proof (room_log_numbered room) as Hn. unfold numbered_from in Hn.
  destruct (room_log room d) as [|e l] eqn:Hl; [done|]. rewrite Hn.
  destruct (seqZ 1 _) as [|s ss] eqn:Hs; [done|].
  destruct (foldr_max_spec s ss) as [Hin Hmax]. rewrite <-Hs in Hin.
  apply elem_of_seqZ in Hin.
  assert (Z.of_nat (length (e :: l)) ∈ s :: ss) as Hlast%Hmax.
  { rewrite <-Hs. apply elem_of_seqZ. simpl. lia. }
  lia.
Qed.

(** A query that selects events of one room returns them in insertion order. *)
Lemma select_events_room room p :
  (∀ e, e ∈ room_events d → p e = true → ev_room_id e = room) →
  select_events p d = List.filter p (room_log room d).
Proof.
  intros Hp. assert (List.filter p (room_events d) = List.filter p (room_log room d)) as Heq.
  { clear Hok. unfold room_log. induction (room_events d) as [|e es IH]; simpl; [done|].
    specialize (IH ltac:(set_solver)). unfold in_room at 1. case_bool_decide as Hr; simpl;
      destruct (p e) eqn:Hpe; simpl; rewrite ?Hpe, ?IH; try done.
    apply Hp in Hpe; [done|set_solver]. }
  unfold select_events. rewrite Heq. apply (StronglySorted_unique_strong sequence_le).
  - intros x y Hx Hy Hxy Hyx. rewrite merge_sort_Permutation in Hx.
    apply (numbered_from_inj 1 (room_log room d)); [apply room_log_numbered|..].
    + eapply elem_of_sublist; [exact Hx|apply filter_sublist].
    + eapply elem_of_sublist; [exact Hy|apply filter_sublist].
    + unfold sequence_le in *. lia.
  - apply StronglySorted_merge_sort; apply _.
  - eapply sublist_sorted; [apply filter_sublist|]. eapply numbered_from_sorted, room_log_numbered.
  - apply merge_sort_Permutation.
Qed.

Lemma select_after room after :
  select_events (λ e, in_room room e && (after <? ev_sequence e)) d =
  drop (Z.to_nat after) (room_log room d).
Proof.
  rewrite (select_events_room room).
  - rewrite (filter_after 1 (room_log room d) after).
    + f_equal. f_equal. lia.
    + apply room_log_numbered.
    + intros e [_ He]%room_log_elem. unfold in_room. by rewrite bool_decide_true.
  - intros e _ [Hr _]%andb_true_iff. by apply bool_decide_eq_true in Hr.
Qed.

Lemma select_upto room upto :
  select_events (λ e, in_room room e && (ev_sequence e <=? upto)) d =
  take (Z.to_nat upto) (room_log room d).
Proof.
  rewrite (select_events_room room).
  - rewrite (filter_upto 1 (room_log room d) upto).
    + f_equal. f_equal. lia.
    + apply room_log_numbered.
    + intros e [_ He]%room_log_elem. unfold in_room. by rewrite bool_decide_true.
  - intros e _ [Hr _]%andb_true_iff. by apply bool_decide_eq_true in Hr.
Qed.

Lemma room_log_ids room : NoDup (ev_event_id <$> room_log room d).
Proof. eapply sublist_NoDup; [apply Hok|]. apply sublist_fmap, filter_sublist. Qed.

Lemma event_id_inj e e' :
  e ∈ room_events d → e' ∈ room_events d → ev_event_id e = ev_event_id e' → e = e'.
Proof.
  intros (i & Hi)%list_elem_of_lookup (j & Hj)%list_elem_of_lookup Heq.
  assert (i = j) as ->; [|congruence].
  eapply NoDup_lookup; [apply Hok| |]; rewrite list_lookup_fmap; [by rewrite Hi|].
  rewrite Hj. simpl. by rewrite Heq.
Qed.

Lemma select_by_id_refers room ids evs : refers_to d room ids evs → select_by_id ids d = evs.
Proof.
  intros [Hs ->]. unfold select_by_id. rewrite (select_events_room room).
  - apply filter_sublist_eq; [done|..].
    + eapply NoDup_fmap_1, room_log_ids.
    + intros e He. apply bool_decide_eq_true. by apply list_elem_of_fmap_2.
    + intros e He (e' & Hid & He')%bool_decide_eq_true%list_elem_of_fmap.
      assert (e = e') as ->; [|done]. apply event_id_inj; [|..|done].
      * by apply room_log_elem in He as [? _].
      * eapply elem_of_sublist in He'; [|done]. by apply room_log_elem in He' as [? _].
  - intros e He (e' & Hid & He')%bool_decide_eq_true%list_elem_of_fmap.
    eapply elem_of_sublist in He'; [|done]. apply room_log_elem in He' as [He' <-].
    f_equal. by apply event_id_inj.
Qed.
End log_facts.

(** ** Growth *)

(** [d'] has all the events of [d], in the same places. *)
Definition grows (d d' : Db) : Prop := ∃ new, room_events d' = room_events d ++ new.

Global Instance grows_preorder : PreOrder grows.
Proof.
  split.
  - intros d. exists []. by rewrite app_nil_r.
  - intros d1 d2 d3 [n1 H1] [n2 H2]. exists (n1 ++ n2). by rewrite H2, H1, app_assoc.
Qed.

Lemma room_log_grows room d d' :
  grows d d' → ∃ new, room_log room d' = room_log room d ++ new.
Proof.
  intros [new Hd]. exists (List.filter (in_room room) new). unfold room_log.
  by rewrite Hd, List.filter_app.
Qed.

Lemma refers_to_grows d d' room ids evs :
  grows d d' → refers_to d room ids evs → refers_to d' room ids evs.
Proof.
  intros Hg [Hs ->]. destruct (room_log_grows room d d' Hg) as [new Hl].
  split; [|done]. rewrite Hl. by apply sublist_inserts_r.
Qed.

Lemma task_row_ok_grows d d' row : grows d d' → task_row_ok d row → task_row_ok d' row.
Proof.
  intros Hg (? & ? & Hrev & ?). destruct (room_log_grows (tr_room_id row) d d' Hg) as [new Hl].
  unfold task_row_ok. rewrite Hl, length_app. split_and!; try done; lia.
Qed.

(** ** Statements preserve the invariant *)

Section statements.
Context `{UuidCrate, Chrono, Schemas, Postgres}.

Lemma event_conflict_iff row d :
  event_conflict row d = true ↔
  ev_event_id row ∈ (ev_event_id <$> room_events d) ∨
  ∃ e, e ∈ room_log (ev_room_id row) d ∧ ev_sequence e = ev_sequence row.
Proof.
  unfold event_conflict. rewrite list_find_exists. split.
  - intros (e & He & [Hid%bool_decide_eq_true|[Hr%bool_decide_eq_true Hs%Z.eqb_eq]%andb_true_iff]%orb_true_iff).
    + left. rewrite <-Hid. by apply list_elem_of_fmap_2.
    + right. exists e. split; [|done]. by apply room_log_elem.
  - intros [(e & Heq & He)%list_elem_of_fmap|(e & [He Hr]%room_log_elem & Hs)].
    + exists e. split; [done|]. by rewrite bool_decide_true.
    + exists e. split; [done|]. unfold in_room. rewrite (bool_decide_true (ev_room_id e = _)) by done.
      apply Z.eqb_eq in Hs. rewrite Hs. apply orb_true_r.
Qed.

Lemma event_conflict_false row d :
  event_conflict row d = false →
  ev_event_id row ∉ (ev_event_id <$> room_events d).
Proof.
  intros Hc (e & Heq & He)%list_elem_of_fmap. unfold event_conflict in Hc.
  rewrite <-not_true_iff_false, list_find_exists in Hc. apply Hc. exists e. split; [done|].
  by rewrite bool_decide_true.
Qed.

(** Appending a row that carries the next sequence of its room. *)
Lemma append_row_ok d row :
  db_ok d → ev_event_id row ∉ (ev_event_id <$> room_events d) →
  ev_sequence row = Z.of_nat (length (room_log (ev_room_id row) d)) + 1 →
  db_ok (with_events (λ es, es ++ [row]) d).
Proof.
  intros Hok Hid Hseq. assert (grows d (with_events (λ es, es ++ [row]) d)) as Hg by (by eexists).
  split.
  - simpl. rewrite fmap_app. apply NoDup_app. split_and!; [apply Hok| |apply NoDup_singleton].
    intros x Hx. simpl. rewrite list_elem_of_singleton. by intros ->.
  - intros room. change (numbered_from 1 (room_log room (with_events (λ es, es ++ [row]) d))).
    rewrite room_log_app. apply numbered_from_app. split; [by apply room_log_numbered|].
    simpl. unfold in_room. case_bool_decide as Hr; [|done]. subst room.
    apply numbered_from_cons. split; [lia|done].
  - intros room request r Hr. destruct (ok_requests _ Hok _ _ _ Hr) as [evs ?].
    exists evs. by eapply refers_to_grows.
  - intros task r Hr. eapply task_row_ok_grows; [done|]. by eapply ok_tasks.
  - intros task update ids Hu. destruct (ok_updates _ Hok _ _ _ Hu) as (r & e & ? & ?).
    exists r, e. split; [done|]. by eapply refers_to_grows.
Qed.

Lemma insert_event_Ok id e now d row d' :
  db_ok d → insert_event id e now d = Ok (row, d') →
  row = event_row id e (Z.of_nat (length (room_log (ne_room_id e) d)) + 1) ∧
  d' = with_events (λ es, es ++ [row]) d ∧ db_ok d'.
Proof.
  intros Hok. unfold insert_event, next_sequence. rewrite max_sequence_ok by done.
  destruct (Z.ltb_spec i64_max (Z.of_nat (length (room_log (ne_room_id e) d)) + 1)); simpl; [done|].
  destruct (event_conflict _ d) eqn:Hc; [done|]. intros [= <- <-]. split_and!; [done..|].
  apply append_row_ok; [done|by eapply event_conflict_false in Hc|done].
Qed.

Lemma insert_request_Ok room request row now d u d' evs :
  db_ok d → refers_to d room (rq_event_ids row) evs →
  insert_request room request row now d = Ok (u, d') →
  d' = with_requests <[(room, request) := row]> d ∧ db_ok d'.
Proof.
  intros Hok Hr. unfold insert_request. destruct (room_requests d !! _) eqn:Hl; [done|].
  intros [= <- <-]. split; [done|]. destruct Hok as [Hi Hg Hq Ht Hup].
  split; [exact Hi|exact Hg| |exact Ht|exact Hup].
  intros room' request' row'. simpl. rewrite lookup_insert_Some.
  intros [[[= <- <-] <-]|[_ Hrow]]; [eauto|]. destruct (Hq _ _ _ Hrow) as [evs' ?]. by exists evs'.
Qed.

(** Replacing or adding task rows that are well formed and keep the room of the old row. *)
Lemma set_task_ok d task row :
  db_ok d → task_row_ok d row →
  (∀ old, agent_tasks d !! task = Some old → tr_room_id row = tr_room_id old) →
  db_ok (with_tasks <[task := row]> d).
Proof.
  intros [Hi Hg Hq Ht Hup] Hrow Hroom. split; [exact Hi|exact Hg|exact Hq|..].
  - intros task' row'. simpl. rewrite lookup_insert_Some.
    intros [[<- <-]|[_ Hr]]; [done|]. by eapply Ht.
  - intros task' update ids Hu. destruct (Hup _ _ _ Hu) as (r & e & Hr & He). simpl.
    destruct (decide (task = task')) as [<-|Hne].
    + exists row, e. rewrite lookup_insert_eq. split; [done|]. by rewrite (Hroom _ Hr).
    + exists r, e. rewrite lookup_insert_ne by done. done.
Qed.
End statements.

(** ** Specifications of the primitives *)

(** Inside a transaction: what is committed, the gateway's memory, the transaction's start and
    its uncommitted database. *)
Record tx_state (c : Db) (g : Gateway) (now : DateTime) (d : Db) (w : World) : Prop := {
  tx_committed : committed w = c;
  tx_gateway : gateway w = g;
  tx_start : tx_now w = now;
  tx_working : working w = d;
}.

(** Outside any transaction that matters. *)
Definition settled (c : Db) (g : Gateway) (w : World) : Prop :=
  committed w = c ∧ gateway w = g.

Section primitive_specs.
Context `{Oracle}.

Lemma tx_state_settled c g now d w : tx_state c g now d w → settled c g w.
Proof. by intros [? ? ? ?]. Qed.

Lemma wp_begin c g w :
  settled c g w →
  wp begin_tx (λ _ w', ∃ now, tx_state c g now c w') (λ _ w', settled c g w') w.
Proof. intros [<- <-]. unfold wp, begin_tx. destruct (outage (tick w)); [|done..]. by eexists. Qed.

Lemma wp_tx_query {A} (q : DateTime → Db → result SqlxError (A * Db)) c g now d w :
  tx_state c g now d w →
  wp (tx_query q) (λ a w', ∃ d', q now d = Ok (a, d') ∧ tx_state c g now d' w')
    (λ _, settled c g) w.
Proof.
  intros [<- <- <- <-]. unfold wp, tx_query. destruct (outage (tick w)); [|done..].
  destruct (q (tx_now w) (working w)) as [[a d']|e] eqn:Hq; [|done]. by exists d'.
Qed.

Lemma wp_tx_select {A} (f : DateTime → Db → A) c g now d w :
  tx_state c g now d w →
  wp (tx_query (select f)) (λ a w', a = f now d ∧ tx_state c g now d w') (λ _, settled c g) w.
Proof.
  intros Hw. wp_use wp_tx_query; [done| |done]. intros a w' (d' & [= <- <-] & Hw'). done.
Qed.

(** A read of the pool from inside a transaction sees what is committed. *)
Lemma wp_pool_select {A} (f : DateTime → Db → A) c g now d w :
  tx_state c g now d w →
  wp (pool_query (select f)) (λ a w', (∃ t, a = f t c) ∧ tx_state c g now d w')
    (λ _, settled c g) w.
Proof.
  intros [<- <- <- <-]. unfold wp, pool_query, select. destruct (outage (tick w)); [|done..].
  split; [by eexists|]. done.
Qed.

Lemma wp_advisory_lock l c g now d w :
  tx_state c g now d w →
  wp (advisory_lock l) (λ _, tx_state c g now d) (λ _, settled c g) w.
Proof. intros [<- <- <- <-]. unfold wp, advisory_lock. by destruct (outage (tick w)). Qed.

Lemma wp_new_v4 {E} c g now d w Q (F : E → World → Prop) :
  tx_state c g now d w → (∀ u w', tx_state c g now d w' → Q u w') → wp new_v4 Q F w.
Proof. intros [<- <- <- <-] HQ. by apply HQ. Qed.

Lemma wp_now {E} c g now d w Q (F : E → World → Prop) :
  tx_state c g now d w → (∀ t w', tx_state c g now d w' → Q t w') → wp World.now Q F w.
Proof. intros [<- <- <- <-] HQ. by apply HQ. Qed.

(** A commit that reports an error may still have happened. *)
Lemma wp_commit c g now d w :
  tx_state c g now d w →
  wp commit_tx (λ _, settled d g) (λ _ w', settled c g w' ∨ settled d g w') w.
Proof.
  intros [<- <- <- <-]. unfold wp, commit_tx. destruct (outage (tick w)); simpl; [done|by left|by right].
Qed.

Lemma wp_rollback c g now d w :
  tx_state c g now d w → wp rollback_tx (λ _, settled c g) (λ _, settled c g) w.
Proof. intros [<- <- <- <-]. unfold wp, rollback_tx. by destruct (outage (tick w)). Qed.
End primitive_specs.

(** ** Specifications of the store's operations *)

Section store_specs.
Context `{UuidCrate, Chrono, Schemas, Postgres, Oracle}.

Definition next_row (d : Db) (id : Uuid) (e : NewEvent) : RoomEvent :=
  event_row id e (Z.of_nat (length (room_log (ne_room_id e) d)) + 1).

Definition add_row (row : RoomEvent) (d : Db) : Db := with_events (λ es, es ++ [row]) d.

Lemma wp_lock_room room c g now d w :
  tx_state c g now d w → wp (lock_room room) (λ _, tx_state c g now d) (λ _, settled c g) w.
Proof. intros Hw. unfold lock_room. wp_step. by wp_use wp_advisory_lock. Qed.

Lemma wp_append e c g now d w :
  tx_state c g now d w → db_ok d →
  wp (append_event_in_transaction e)
    (λ row w', ∃ id, is_valid_room_event id e = true ∧ row = next_row d id e ∧
       db_ok (add_row row d) ∧ tx_state c g now (add_row row d) w')
    (λ _, settled c g) w.
Proof.
  intros Hw Hok. unfold append_event_in_transaction. wp_step.
  eapply wp_new_v4; [done|]. intros id w1 Hw1. wp_step; [wp_step; by eapply tx_state_settled|].
  wp_step. wp_use wp_tx_query; [done| |done]. intros row w2 (d' & Hq & Hw2).
  apply insert_event_Ok in Hq as (Hrow & -> & Hok'); [|done]. exists id.
  split_and!; try done. by apply negb_false_iff.
Qed.

Lemma wp_prior_request room request c g now d w :
  tx_state c g now d w → db_ok d →
  wp (prior_request room request)
    (λ r w', tx_state c g now d w' ∧
       match room_requests d !! (room, request) with
       | None => r = None
       | Some row => ∃ evs, refers_to d room (rq_event_ids row) evs ∧
                            r = Some (rq_request_fingerprint row, evs)
       end)
    (λ _, settled c g) w.
Proof.
  intros Hw Hok. unfold prior_request. wp_step. wp_step. wp_use wp_tx_select; [done| |done].
  intros record w1 [-> Hw1]. destruct (room_requests d !! _) as [row|] eqn:Hl.
  - wp_step. unfold events_by_id. wp_step. wp_use wp_tx_select; [done| |done].
    intros evs w2 [-> Hw2]. wp_step. split; [done|].
    destruct (ok_requests _ Hok _ _ _ Hl) as [evs Hevs]. exists evs. split; [done|].
    by rewrite (select_by_id_refers d Hok room (rq_event_ids row) evs).
  - by wp_step.
Qed.

Lemma wp_record_request room request fp evs c g now d w :
  tx_state c g now d w → db_ok d → evs `sublist_of` room_log room d →
  let row := {| rq_request_fingerprint := pg_json fp; rq_event_ids := ev_event_id <$> evs |} in
  wp (record_request room request fp evs)
    (λ _ w', room_requests d !! (room, request) = None ∧
       db_ok (with_requests <[(room, request) := row]> d) ∧
       tx_state c g now (with_requests <[(room, request) := row]> d) w')
    (λ _, settled c g) w.
Proof.
  intros Hw Hok Hs row. unfold record_request. wp_step. wp_use wp_tx_query; [done| |done].
  intros [] w1 (d' & Hq & Hw1).
  assert (room_requests d !! (room, request) = None).
  { unfold insert_request in Hq. by destruct (room_requests d !! _). }
  apply (insert_request_Ok room request row _ _ _ _ evs) in Hq as [-> Hok']; [|done|by split]. done.
Qed.
End store_specs.
