(* ===== verification/Concurrency.v ===== *)
(** * Writers of a room at the same time

    Elsewhere a transaction runs from begin to commit without another one in between. Here the
    transactions that append to rooms ([append_event], [process]) are taken apart into their
    statements, any number of them are open at once, and their statements interleave in any way
    that READ COMMITTED and the advisory lock of the room allow: a statement sees what is committed
    when it runs and its own transaction's writes, [lock_room] waits for the transaction that has
    the lock, and an insertion waits while its key is pending elsewhere. What commits is what the
    same transactions would commit one after the other. *)

From S2P Require Import Prelude Json Text Crates Types Protocol MemoryEngine World Store StoreInvariant.
Local Open Scope string_scope.
Local Open Scope list_scope.
Local Open Scope Z_scope.

(** What a transaction sets out to write: the events of one room, each with the identifier drawn
    for it, and the record of the request unless it comes from [append_event]. *)
Record Intent := {
  it_room : Uuid;
  it_request : option (Uuid * Value);
  it_events : list (Uuid * NewEvent);
}.

(** How far a transaction has come; [rows] are the events it has inserted. *)
Inductive Phase :=
| Waiting
| Locked
| Appending (past rest : list (Uuid * NewEvent)) (rows : list RoomEvent)
| Recorded (rows : list RoomEvent).

Record Writer := { wr_intent : Intent; wr_phase : Phase }.

(** The database, the open transactions, and what was committed so far. *)
Record Shared := { sh_db : Db; sh_open : gmap nat Writer; sh_history : list Intent }.

Definition holds_lock (w : Writer) : bool := match wr_phase w with Waiting => false | _ => true end.
Definition rows_of (w : Writer) : list RoomEvent :=
  match wr_phase w with Appending _ _ rows | Recorded rows => rows | _ => [] end.
Definition ids_of (w : Writer) : list Uuid := ev_event_id <$> rows_of w.

Definition request_key (i : Intent) : option (Uuid * Uuid) :=
  (λ r, (it_room i, r.1)) <$> it_request i.
(** The row [prior_request] looks for. *)
Definition prior_row (i : Intent) (d : Db) : option RequestRow :=
  request_key i ≫= λ key, room_requests d !! key.

Section writers.
Context `{UuidCrate, Chrono, Schemas, Postgres}.

Definition idempotency_row (fingerprint : Value) (rows : list RoomEvent) : RequestRow :=
  {| rq_request_fingerprint := pg_json fingerprint; rq_event_ids := ev_event_id <$> rows |}.

(** [record_request], where the transaction has one. *)
Definition record (i : Intent) (rows : list RoomEvent) (d : Db) : result SqlxError Db :=
  match it_request i with
  | Some (request, fingerprint) =>
      ud ← insert_request (it_room i) request (idempotency_row fingerprint rows) 0 d; Ok ud.2
  | None => Ok d
  end.

(** ** One after the other *)

Fixpoint append_all (events : list (Uuid * NewEvent)) (d : Db) : result SqlxError (list RoomEvent * Db) :=
  match events with
  | [] => Ok ([], d)
  | (id, e) :: events' =>
      rd ← insert_event id e 0 d;
      rest ← append_all events' rd.2;
      Ok (rd.1 :: rest.1, rest.2)
  end.

(** The whole transaction with nothing in between; nothing to write when it is recorded. *)
Definition alone (i : Intent) (d : Db) : option Db :=
  match prior_row i d with
  | Some _ => None
  | None => rd ← ok (append_all (it_events i) d); ok (record i rd.1 rd.2)
  end.
Definition serially (intents : list Intent) (d : Db) : option Db :=
  foldl (λ acc i, d ← acc; alone i d) (Some d) intents.

(** ** All at once *)

(** The database as the statements of [w] see it. *)
Definition view (d : Db) (w : Writer) : Db := with_events (λ es, es ++ rows_of w) d.

Definition enter (n : nat) (i : Intent) (phase : Phase) (s : Shared) : Shared :=
  {| sh_db := sh_db s; sh_open := <[n := {| wr_intent := i; wr_phase := phase |}]> (sh_open s);
     sh_history := sh_history s |}.

Inductive step (s : Shared) : Shared → Prop :=
(** [pool.begin()]. *)
| StepBegin n i :
    sh_open s !! n = None → Forall (λ p, ne_room_id p.2 = it_room i) (it_events i) →
    step s (enter n i Waiting s)
(** [lock_room]. *)
| StepLock n i :
    sh_open s !! n = Some {| wr_intent := i; wr_phase := Waiting |} →
    (∀ m w, sh_open s !! m = Some w → holds_lock w = true → it_room (wr_intent w) ≠ it_room i) →
    step s (enter n i Locked s)
(** [prior_request] finds nothing. *)
| StepFresh n i :
    sh_open s !! n = Some {| wr_intent := i; wr_phase := Locked |} → prior_row i (sh_db s) = None →
    step s (enter n i (Appending [] (it_events i) []) s)
(** [append_event_in_transaction]. *)
| StepInsert n i past id e rest rows row d' now :
    let w := {| wr_intent := i; wr_phase := Appending past ((id, e) :: rest) rows |} in
    sh_open s !! n = Some w → is_valid_room_event id e = true →
    insert_event id e now (view (sh_db s) w) = Ok (row, d') →
    (∀ m w', m ≠ n → sh_open s !! m = Some w' → id ∉ ids_of w') →
    step s (enter n i (Appending (past ++ [(id, e)]) rest (rows ++ [row])) s)
(** [record_request], not yet committed. *)
| StepRecord n i past rows d' :
    let w := {| wr_intent := i; wr_phase := Appending past [] rows |} in
    sh_open s !! n = Some w → record i rows (view (sh_db s) w) = Ok d' →
    step s (enter n i (Recorded rows) s)
(** [transaction.commit()], which makes the writes of the transaction visible to all. *)
| StepCommit n i rows d' :
    let w := {| wr_intent := i; wr_phase := Recorded rows |} in
    sh_open s !! n = Some w → record i rows (view (sh_db s) w) = Ok d' →
    step s {| sh_db := d'; sh_open := delete n (sh_open s); sh_history := sh_history s ++ [i] |}
(** An error, a recorded request or a lost connection: the transaction is rolled back. *)
| StepRollback n w :
    sh_open s !! n = Some w →
    step s {| sh_db := sh_db s; sh_open := delete n (sh_open s); sh_history := sh_history s |}.

(** The same as a function of the transaction whose turn it is. *)
Inductive Action :=
| Begin (n : nat) (i : Intent) | TakeLock (n : nat) | Look (n : nat) | Insert (n : nat) | WriteRecord (n : nat)
| Commit (n : nat) | Rollback (n : nat).

Definition act (a : Action) (s : Shared) : option Shared :=
  match a with
  | Begin n i =>
      match sh_open s !! n with
      | Some _ => None
      | None => if bool_decide (Forall (λ p, ne_room_id p.2 = it_room i) (it_events i))
                then Some (enter n i Waiting s) else None
      end
  | TakeLock n =>
      match sh_open s !! n with
      | Some {| wr_intent := i; wr_phase := Waiting |} =>
          if bool_decide (map_Forall (λ _ w, holds_lock w = true → it_room (wr_intent w) ≠ it_room i) (sh_open s))
          then Some (enter n i Locked s) else None
      | _ => None
      end
  | Look n =>
      match sh_open s !! n with
      | Some {| wr_intent := i; wr_phase := Locked |} =>
          match prior_row i (sh_db s) with
          | None => Some (enter n i (Appending [] (it_events i) []) s)
          | Some _ => None
          end
      | _ => None
      end
  | Insert n =>
      match sh_open s !! n with
      | Some ({| wr_intent := i; wr_phase := Appending past ((id, e) :: rest) rows |} as w) =>
          match insert_event id e 0 (view (sh_db s) w) with
          | Ok (row, _) =>
              if is_valid_room_event id e
                 && bool_decide (map_Forall (λ m w', m ≠ n → id ∉ ids_of w') (sh_open s))
              then Some (enter n i (Appending (past ++ [(id, e)]) rest (rows ++ [row])) s) else None
          | Err _ => None
          end
      | _ => None
      end
  | WriteRecord n =>
      match sh_open s !! n with
      | Some ({| wr_intent := i; wr_phase := Appending past [] rows |} as w) =>
          _ ← ok (record i rows (view (sh_db s) w)); Some (enter n i (Recorded rows) s)
      | _ => None
      end
  | Commit n =>
      match sh_open s !! n with
      | Some ({| wr_intent := i; wr_phase := Recorded rows |} as w) =>
          d' ← ok (record i rows (view (sh_db s) w));
          Some {| sh_db := d'; sh_open := delete n (sh_open s); sh_history := sh_history s ++ [i] |}
      | _ => None
      end
  | Rollback n =>
      _ ← sh_open s !! n;
      Some {| sh_db := sh_db s; sh_open := delete n (sh_open s); sh_history := sh_history s |}
  end.
Definition schedule (actions : list Action) (s : Shared) : option Shared :=
  foldl (λ acc a, s ← acc; act a s) (Some s) actions.

Lemma act_step a s s' : act a s = Some s' → step s s'.
Proof.
  destruct a as [n i|n|n|n|n|n|n]; simpl; destruct (sh_open s !! n) as [[i0 []]|] eqn:Hn; try done; simpl; intros Ha.
  - case_bool_decide; simplify_eq. by apply StepBegin.
  - case_bool_decide as Hfree; simplify_eq. apply StepLock; [done|]. intros m w Hm. by apply (Hfree m w).
  - destruct (prior_row i0 (sh_db s)) eqn:Hr; simplify_eq. by apply StepFresh.
  - destruct rest as [|[id e] rest]; [done|]. destruct (insert_event _ _ _ _) as [[row d']|] eqn:Hi; [|done].
    destruct (is_valid_room_event id e) eqn:Hv; [|done]. simpl in Ha. case_bool_decide as Hfree; simplify_eq.
    eapply StepInsert; [done..|]. intros m w' Hne Hm. by apply (Hfree m w').
  - destruct rest; [|done]. destruct (record _ _ _) eqn:Hr; simpl in Ha; simplify_eq. by eapply StepRecord.
  - destruct (record _ _ _) eqn:Hr; simpl in Ha; simplify_eq. by eapply StepCommit.
  - simplify_eq. by eapply StepRollback.
  - simplify_eq. by eapply StepRollback.
  - simplify_eq. by eapply StepRollback.
  - simplify_eq. by eapply StepRollback.
Qed.

Lemma schedule_run actions s s' : schedule actions s = Some s' → rtc step s s'.
Proof.
  revert s'. induction actions as [|a actions IH] using rev_ind; intros s'; [by intros [= <-]|].
  unfold schedule in *. rewrite foldl_app. simpl. intros (s1 & Hs1 & Ha)%bind_Some.
  eapply rtc_r; [by apply IH|]. by eapply act_step.
Qed.

(** ** Statements do not notice other rooms *)

Lemma insert_event_row id e now d row d' :
  insert_event id e now d = Ok (row, d') →
  d' = with_events (λ es, es ++ [row]) d ∧ ev_room_id row = ne_room_id e ∧ ev_event_id row = id.
Proof.
  unfold insert_event. rewrite rbind_Ok. intros (sequence & _ & Hi). revert Hi.
  by destruct (event_conflict _ d); [|intros [= <- <-]].
Qed.

Lemma insert_event_frame id e now now' d d2 row d' :
  insert_event id e now d = Ok (row, d') → room_log (ne_room_id e) d2 = room_log (ne_room_id e) d →
  (id ∈ (ev_event_id <$> room_events d2) → id ∈ (ev_event_id <$> room_events d)) →
  insert_event id e now' d2 = Ok (row, with_events (λ es, es ++ [row]) d2).
Proof.
  unfold insert_event, next_sequence, max_sequence. intros Hi Hlog Hids. rewrite Hlog.
  revert Hi. destruct (i64_max <? _); simpl; [done|].
  destruct (event_conflict _ d) eqn:Hc; [done|]. intros [= <- <-].
  destruct (event_conflict _ d2) eqn:Hc2; [|done]. exfalso. apply not_true_iff_false in Hc. apply Hc.
  apply event_conflict_iff in Hc2. apply event_conflict_iff. simpl in *. rewrite Hlog in Hc2. naive_solver.
Qed.

Lemma with_events_app rows rows' d :
  with_events (λ es, es ++ rows') (with_events (λ es, es ++ rows) d) =
  with_events (λ es, es ++ rows ++ rows') d.
Proof. unfold with_events. simpl. by rewrite app_assoc. Qed.
Lemma with_events_nil d : with_events (λ es, es ++ []) d = d.
Proof. destruct d. unfold with_events. simpl. by rewrite app_nil_r. Qed.

Lemma append_all_frame room events d d2 rows d' :
  Forall (λ p, ne_room_id p.2 = room) events → append_all events d = Ok (rows, d') →
  room_log room d2 = room_log room d →
  (∀ id, id ∈ (ev_event_id <$> rows) → id ∈ (ev_event_id <$> room_events d2) →
     id ∈ (ev_event_id <$> room_events d)) →
  append_all events d2 = Ok (rows, with_events (λ es, es ++ rows) d2) ∧
  d' = with_events (λ es, es ++ rows) d ∧ Forall (λ e, ev_room_id e = room) rows.
Proof.
  revert d d2 rows d'. induction events as [|[id e] events IH]; intros d d2 rows d' Hev; simpl.
  { intros [= <- <-] _ _. by rewrite !with_events_nil. }
  apply Forall_cons in Hev as [He Hev]. simpl in He. rewrite rbind_Ok. intros ([row d1] & Hi & Hr) Hlog Hids.
  apply rbind_Ok in Hr as ([rest d3] & Hr & [= <- <-]). simpl in *.
  destruct (insert_event_row id e 0 d row d1 Hi) as (-> & Hroom & Hid).
  pose proof (insert_event_frame id e 0 0 d d2 row _ Hi) as Hi2.
  rewrite He in Hi2. specialize (Hi2 Hlog ltac:(apply Hids; rewrite Hid; set_solver)).
  destruct (IH (with_events (λ es, es ++ [row]) d) (with_events (λ es, es ++ [row]) d2) rest d3 Hev Hr)
    as (Hr2 & -> & Hrest).
  - by rewrite !room_log_app, Hlog.
  - intros x Hx. simpl. rewrite !fmap_app. set_solver.
  - rewrite Hi2. simpl. rewrite Hr2. simpl. rewrite !with_events_app. simpl. split_and!; [done..|].
    constructor; [congruence|done].
Qed.

Lemma append_all_snoc events id e d :
  append_all (events ++ [(id, e)]) d =
  (rd ← append_all events d; r ← insert_event id e 0 rd.2; Ok (rd.1 ++ [r.1], r.2)).
Proof.
  revert d. induction events as [|[id' e'] events IH]; intros d; simpl.
  - destruct (insert_event id e 0 d) as [[]|]; done.
  - destruct (insert_event id' e' 0 d) as [[row d1]|]; simpl; [|done]. rewrite IH.
    destruct (append_all events d1) as [[rows d2]|]; simpl; [|done].
    by destruct (insert_event id e 0 d2) as [[]|].
Qed.

(** ** The invariant of the interleaving *)

(** What [w] has done so far is what it would have done alone on the database of this moment. *)
Definition on_course (d : Db) (w : Writer) : Prop :=
  let i := wr_intent w in
  Forall (λ p, ne_room_id p.2 = it_room i) (it_events i) ∧
  match wr_phase w with
  | Waiting | Locked => True
  | Appending past rest rows =>
      it_events i = past ++ rest ∧ prior_row i d = None ∧
      append_all past d = Ok (rows, with_events (λ es, es ++ rows) d)
  | Recorded rows =>
      prior_row i d = None ∧ append_all (it_events i) d = Ok (rows, with_events (λ es, es ++ rows) d)
  end.

(** Two transactions keep out of each other's way. *)
Definition apart (w w' : Writer) : Prop :=
  (holds_lock w = true → holds_lock w' = true → it_room (wr_intent w) ≠ it_room (wr_intent w')) ∧
  (∀ id, id ∈ ids_of w → id ∈ ids_of w' → False).

Record serialised (d0 : Db) (s : Shared) : Prop := {
  sr_ok : db_ok (sh_db s);
  sr_serial : serially (sh_history s) d0 = Some (sh_db s);
  sr_once : NoDup (omap request_key (sh_history s));
  sr_records key : key ∈ omap request_key (sh_history s) → is_Some (room_requests (sh_db s) !! key);
  sr_course n w : sh_open s !! n = Some w → on_course (sh_db s) w;
  sr_apart n m w w' : n ≠ m → sh_open s !! n = Some w → sh_open s !! m = Some w' → apart w w';
}.

Lemma apart_sym w w' : apart w w' → apart w' w.
Proof. intros [Hl Hi]. split; [intros ? ? ?; by apply Hl|naive_solver]. Qed.

(** A statement that writes nothing for others to see. *)
Lemma enter_serialised d0 s n i phase :
  serialised d0 s → let w := {| wr_intent := i; wr_phase := phase |} in
  on_course (sh_db s) w → (∀ m w', m ≠ n → sh_open s !! m = Some w' → apart w w') →
  serialised d0 (enter n i phase s).
Proof.
  intros [Hok Hs Ho Hr Hc Ha] w Hw Hap. split; [done..| |].
  - intros m w'. simpl. rewrite lookup_insert_Some. intros [[_ <-]|[_ ?]]; [done|eauto].
  - intros m m' w1 w2 Hne. simpl. rewrite !lookup_insert_Some. intros [[-> <-]|[Hn1 Hw1]] [[-> <-]|[Hn2 Hw2]].
    + done.
    + eapply Hap; [|eassumption]; congruence.
    + apply apart_sym. eapply Hap; [|eassumption]; congruence.
    + exact (Ha m m' w1 w2 Hne Hw1 Hw2).
Qed.

(** The new phase of a transaction that already had the lock. *)
Lemma advance_serialised d0 s n w phase :
  serialised d0 s → sh_open s !! n = Some w → holds_lock w = true →
  let w' := {| wr_intent := wr_intent w; wr_phase := phase |} in
  on_course (sh_db s) w' →
  (∀ m w'' id, m ≠ n → sh_open s !! m = Some w'' → id ∈ ids_of w' → id ∉ ids_of w → id ∉ ids_of w'') →
  serialised d0 (enter n (wr_intent w) phase s).
Proof.
  intros Hinv Hn Hl w' Hw' Hids. apply enter_serialised; [done..|]. intros m w'' Hne Hm.
  destruct (sr_apart _ _ Hinv n m w w'' ltac:(done) Hn Hm) as [Hroom Hd]. split; [intros _; by apply Hroom|].
  intros id Hid Hid'. destruct (decide (id ∈ ids_of w)) as [Hin|Hin]; [by eapply Hd|]. by eapply Hids.
Qed.

(** ** Commit *)

Lemma record_Ok i rows d d' :
  record i rows d = Ok d' →
  room_events d' = room_events d ∧
  match request_key i with
  | Some key => ∃ row, room_requests d !! key = None ∧ room_requests d' = <[key := row]> (room_requests d)
  | None => d' = d
  end.
Proof.
  unfold record, request_key. destruct (it_request i) as [[request fingerprint]|]; simpl; [|by intros [= <-]].
  unfold insert_request. destruct (room_requests d !! _) eqn:Hk; simpl; [done|]. intros [= <-]. by eauto.
Qed.

Lemma append_all_ok events d rows d' : db_ok d → append_all events d = Ok (rows, d') → db_ok d'.
Proof.
  revert d rows. induction events as [|[id e] events IH]; intros d rows Hok; simpl; [by intros [= _ <-]|].
  rewrite rbind_Ok. intros ([row d1] & Hi & Hr). apply rbind_Ok in Hr as ([rest d2] & Hr & [= _ <-]).
  eapply IH, Hr. by eapply insert_event_Ok in Hi as (_ & _ & ?).
Qed.

Lemma record_ok i rows d d' :
  db_ok (with_events (λ es, es ++ rows) d) → Forall (λ e, ev_room_id e = it_room i) rows →
  record i rows (with_events (λ es, es ++ rows) d) = Ok d' → db_ok d'.
Proof.
  unfold record. intros Hok Hrows. destruct (it_request i) as [[request fingerprint]|]; [|by intros [= <-]].
  rewrite rbind_Ok. intros ([u d1] & Hi & [= <-]). eapply insert_request_Ok in Hi as [_ ?]; [done..|].
  split; [|done]. rewrite room_log_app, filter_all; [by apply sublist_inserts_l|].
  eapply Forall_impl; [exact Hrows|]. intros e He. by apply bool_decide_eq_true.
Qed.

(** A commit in another room changes nothing for [w]. *)
Lemma commit_on_course i rows d d' w :
  record i rows (with_events (λ es, es ++ rows) d) = Ok d' → Forall (λ e, ev_room_id e = it_room i) rows →
  (holds_lock w = true → it_room (wr_intent w) ≠ it_room i) →
  (∀ id, id ∈ (ev_event_id <$> rows) → id ∈ ids_of w → False) →
  on_course d w → on_course d' w.
Proof.
  intros Hrec Hrows Hroom Hids [Hev Hphase]. split; [done|].
  destruct (record_Ok _ _ _ _ Hrec) as [He Hk]. simpl in He.
  assert (it_room (wr_intent w) ≠ it_room i → room_log (it_room (wr_intent w)) d' = room_log (it_room (wr_intent w)) d) as Hlog.
  { intros Hne. unfold room_log. rewrite He, List.filter_app, (filter_none _ rows), app_nil_r; [done|].
    eapply Forall_impl; [exact Hrows|]. intros e Hr. apply bool_decide_eq_false. by rewrite Hr. }
  assert (it_room (wr_intent w) ≠ it_room i → prior_row (wr_intent w) d' = prior_row (wr_intent w) d) as Hrecd.
  { intros Hne. unfold prior_row. unfold request_key in *. destruct (it_request (wr_intent w)) as [[r fp]|]; [|done].
    simpl. destruct (it_request i) as [[r' fp']|]; simpl in Hk; [|by rewrite Hk].
    destruct Hk as (row & _ & ->). rewrite lookup_insert_ne; [done|congruence]. }
  assert (∀ past rs, Forall (λ p, ne_room_id p.2 = it_room (wr_intent w)) past →
    it_room (wr_intent w) ≠ it_room i → (ids_of w = ev_event_id <$> rs) →
    append_all past d = Ok (rs, with_events (λ es, es ++ rs) d) →
    append_all past d' = Ok (rs, with_events (λ es, es ++ rs) d')) as Happ.
  { intros past rs Hd Hne Hrs Ha. eapply append_all_frame; [exact Hd|exact Ha|by apply Hlog|].
    intros id Hid. rewrite He, fmap_app. intros [?|Hin]%elem_of_app; [done|]. destruct (Hids id Hin). by rewrite Hrs. }
  unfold holds_lock, ids_of, rows_of in *. destruct (wr_phase w) as [| |past rest rs|rs]; [done..| |].
  - destruct Hphase as (Hsplit & Hr & Ha). rewrite Hrecd by auto. split_and!; [done..|].
    apply Happ; [|by auto|done..]. rewrite Hsplit in Hev. by apply Forall_app in Hev as [? _].
  - destruct Hphase as [Hr Ha]. rewrite Hrecd by auto. split; [done|]. by apply Happ; [|auto|..].
Qed.

Lemma serially_snoc intents i d : serially (intents ++ [i]) d = (d' ← serially intents d; alone i d').
Proof. unfold serially. by rewrite foldl_app. Qed.

Lemma commit_serialised d0 s n i rows d' :
  let w := {| wr_intent := i; wr_phase := Recorded rows |} in
  serialised d0 s → sh_open s !! n = Some w → record i rows (view (sh_db s) w) = Ok d' →
  serialised d0 {| sh_db := d'; sh_open := delete n (sh_open s); sh_history := sh_history s ++ [i] |}.
Proof.
  intros w Hinv Hn Hrec. destruct (sr_course _ _ Hinv n w Hn) as [Hev [Hfresh Ha]]. simpl in Hev, Hfresh, Ha.
  destruct (append_all_frame _ _ _ (sh_db s) _ _ Hev Ha) as (_ & _ & Hrows); [done..|].
  change (view (sh_db s) w) with (with_events (λ es, es ++ rows) (sh_db s)) in Hrec.
  destruct (record_Ok _ _ _ _ Hrec) as [He Hk]. simpl in Hk.
  split; simpl.
  - eapply record_ok; [|exact Hrows|exact Hrec]. eapply append_all_ok; [|exact Ha]. apply Hinv.
  - rewrite serially_snoc, (sr_serial _ _ Hinv). simpl. unfold alone. rewrite Hfresh, Ha. simpl. by rewrite Hrec.
  - rewrite omap_app. simpl. unfold prior_row in Hfresh. apply NoDup_app. split_and!; [apply Hinv| |].
    + intros key Hin. destruct (request_key i) as [key'|]; [|set_solver]. intros ->%list_elem_of_singleton.
      apply (sr_records _ _ Hinv) in Hin as [row Hrow]. simpl in Hfresh. congruence.
    + destruct (request_key i); [apply NoDup_singleton|constructor].
  - intros key. rewrite omap_app. simpl. intros [Hin|Hin]%elem_of_app.
    + apply (sr_records _ _ Hinv) in Hin. destruct (request_key i) as [key'|]; [|by rewrite Hk].
      destruct Hk as (row & _ & ->). rewrite lookup_insert_is_Some. destruct (decide (key' = key)); auto.
    + destruct (request_key i) as [key'|]; [|set_solver]. apply list_elem_of_singleton in Hin as ->.
      destruct Hk as (row & _ & ->). rewrite lookup_insert_eq. by eexists.
  - intros m w' [Hne Hm]%lookup_delete_Some. destruct (sr_apart _ _ Hinv n m w w' Hne Hn Hm) as [Hl Hi].
    eapply commit_on_course; [exact Hrec|done| | |by eapply sr_course].
    + intros Hlock. symmetry. by apply Hl.
    + exact Hi.
  - intros m m' w1 w2 Hne [_ Hw1]%lookup_delete_Some [_ Hw2]%lookup_delete_Some. exact (sr_apart _ _ Hinv m m' w1 w2 Hne Hw1 Hw2).
Qed.

(** ** Every step keeps it *)

Lemma step_serialised d0 s s' : step s s' → serialised d0 s → serialised d0 s'.
Proof.
  intros [n i Hn Hev|n i Hn Hfree|n i Hn Hfresh|n i past id e rest rows row d' now w Hn Hvalid Hins Hpend
         |n i past rows d' w Hn Hrec|n i rows d' w Hn Hrec|n w Hn] Hinv.
  - apply enter_serialised; [done..|]. intros m w' _ _. split; [done|]. intros id Hid. by apply elem_of_nil in Hid.
  - pose proof (sr_course _ _ Hinv n _ Hn) as [Hev _]. apply enter_serialised; [done..|].
    intros m w' Hne Hm. split; [|intros id Hid; by apply elem_of_nil in Hid].
    intros _ Hl. apply not_eq_sym. by eapply Hfree.
  - pose proof (sr_course _ _ Hinv n _ Hn) as [Hev _].
    apply (advance_serialised d0 s n _ (Appending [] (it_events i) []) Hinv Hn eq_refl); [|set_solver].
    split; [done|]. simpl. by rewrite with_events_nil.
  - pose proof (sr_course _ _ Hinv n _ Hn) as [Hev (Hsplit & Hfresh & Ha)]. simpl in Hsplit, Hfresh, Hev.
    destruct (insert_event_row _ _ _ _ _ _ Hins) as (-> & Hroom & Hid).
    apply (advance_serialised d0 s n _ (Appending (past ++ [(id, e)]) rest (rows ++ [row])) Hinv Hn eq_refl).
    + split; [done|]. simpl. split_and!; [by rewrite <-app_assoc|done|]. rewrite append_all_snoc, Ha. simpl.
      change (insert_event id e 0 _) with (insert_event id e now (view (sh_db s) w)). rewrite Hins. simpl.
      unfold view. by rewrite with_events_app.
    + intros m w'' x Hne Hm. unfold ids_of, rows_of. simpl. rewrite fmap_app. intros [Hx|Hx]%elem_of_app; [done|].
      apply list_elem_of_singleton in Hx as ->. intros _. rewrite Hid. by eapply Hpend.
  - pose proof (sr_course _ _ Hinv n _ Hn) as [Hev (Hsplit & Hfresh & Ha)]. simpl in Hsplit, Hfresh, Hev.
    apply (advance_serialised d0 s n _ (Recorded rows) Hinv Hn eq_refl); [|done].
    split; [done|]. simpl. by rewrite Hsplit, app_nil_r.
  - by eapply commit_serialised.
  - destruct Hinv as [Hok Hs Ho Hr Hc Ha]. split; [done..| |]; simpl.
    + intros m w' [_ Hm]%lookup_delete_Some. by eapply Hc.
    + intros m m' w1 w2 Hne [_ Hw1]%lookup_delete_Some [_ Hw2]%lookup_delete_Some. exact (Ha m m' w1 w2 Hne Hw1 Hw2).
Qed.

Lemma run_serialised d0 s s' : rtc step s s' → serialised d0 s → serialised d0 s'.
Proof. induction 1 as [|s1 s2 s3 Hstep _ IH]; [done|]. intros Hs. by eapply IH, step_serialised. Qed.

Definition quiet (d : Db) : Shared := {| sh_db := d; sh_open := ∅; sh_history := [] |}.

End writers.

(** What [alone] describes is what the operation does when nothing comes in between. *)
Section operations.
Context `{UuidCrate, Chrono, Schemas, Postgres, Oracle}.

Lemma append_event_alone e w row w' :
  append_event e w = (Ok row, w') →
  ∃ id, is_valid_room_event id e = true ∧
    alone {| it_room := ne_room_id e; it_request := None; it_events := [(id, e)] |} (committed w) =
    Some (committed w').
Proof.
  unfold append_event, append_event_in_transaction, lock_room.
  cbv [mbind M_bind mret M_ret map_err begin_tx advisory_lock new_v4 tx_query commit_tx throw]. simpl.
  destruct (outage (tick w)); simpl; [|done..]. destruct (outage (S (tick w))); simpl; [|done..].
  set (id := fresh_uuid _). destruct (is_valid_room_event id e) eqn:Hvalid; simpl; [|done].
  destruct (outage (S (S (S (tick w))))); simpl; [|done..].
  destruct (insert_event id e _ (committed w)) as [[row' d']|] eqn:Hins; simpl; [|done].
  destruct (outage (S (S (S (S (tick w)))))); simpl; [|done..]. intros [= <- <-]. exists id. split; [done|].
  unfold alone. simpl. change (insert_event id e 0 (committed w)) with (insert_event id e (db_now (tick w)) (committed w)).
  by rewrite Hins.
Qed.
End operations.

(** Two copies of one request to a room and a request to another room, interleaved. *)
Module WriterExamples.
Import Reference.

Definition hello (room request : N) : NewEvent :=
  {| ne_room_id := from_u128 room; ne_request_id := from_u128 request; ne_event_type := "chat.message";
     ne_actor_id := from_u128 0xada; ne_actor_role := "human"; ne_actor_display_name := Some "Ada";
     ne_payload := json_object [("text", Str "hello")]; ne_occurred_at := 0 |}.
Definition sends (room request : N) (ids : list N) : Intent :=
  {| it_room := from_u128 room; it_request := Some (from_u128 request, Str "hello");
     it_events := (λ id, (from_u128 id, hello room request)) <$> ids |}.

Definition first_copy : Intent := sends 1 10 [100; 101]%N.
Definition second_copy : Intent := sends 1 10 [200; 201]%N.
Definition elsewhere : Intent := sends 2 10 [300]%N.

Definition order : list Action :=
  [Begin 0 first_copy; Begin 1 second_copy; Begin 2 elsewhere; TakeLock 0; TakeLock 2; Look 0; Look 2; Insert 0;
   Insert 2; WriteRecord 2; Commit 2; Insert 0; WriteRecord 0; Commit 0; TakeLock 1; Rollback 1].
Definition outcome : Shared := default (quiet empty_db) (schedule order (quiet empty_db)).

(** The copy that got the lock second has to wait, and then finds the request recorded. *)
Example second_waits : schedule (take 5 order ++ [TakeLock 1]) (quiet empty_db) = None.
Proof. vm_compute. reflexivity. Qed.
Example second_refused :
  (act (Look 1) <$> schedule (take 15 order) (quiet empty_db)) = Some None.
Proof. vm_compute. reflexivity. Qed.

End WriterExamples.
