(* ===== verification/ConversationContext.v ===== *)
(** * Conversation context (src/src/conversation_context.rs)

    The frozen context of a turn: the public messages of the room since the base revision, the
    active decisions whose sources are public, the replies the agent itself gave, and the
    digest that binds them; and the manifest of what the context discloses. *)

From S2P Require Import Prelude Json Text Crates Types ConversationProtocol ConversationTables Protocol MemoryEngine World Store.
From Stdlib Require Import Ascii.
Local Open Scope string_scope.
Local Open Scope list_scope.
Local Open Scope Z_scope.

(** Errors of the database become [RuntimeUnavailable] ([From<sqlx::Error>] and
    [From<StoreError>]). *)
Abbreviation Conv := (M World ConversationError).
Definition unavailable {E A} (m : M World E A) : Conv A := map_err (λ _, RuntimeUnavailable) m.

(** ** Canonical bytes *)

Definition is_ascii (s : string) : bool := forall_bytes (λ c, (nat_of_ascii c <? 128)%nat) s.

(** The inner function [sorted]; all its errors are the same, so the order in which the members
    are visited does not matter, and inserting them into an ordered map sorts them. *)
Fixpoint sorted (value : Value) : result ConversationError Value :=
  match value with
  | Number n => if safe_integer n then Ok value else Err ContextMismatch
  | Object fs =>
      if existsb (λ kv, negb (is_ascii kv.1)) fs then Err ContextMismatch
      else
        fs' ← (fix members fs :=
          match fs with
          | [] => Ok []
          | (k, v) :: fs' => v' ← sorted v; rest ← members fs'; Ok ((k, v') :: rest)
          end) fs;
        Ok (json_object fs')
  | Array l =>
      l' ← (fix items l :=
        match l with
        | [] => Ok []
        | v :: l' => v' ← sorted v; rest ← items l'; Ok (v' :: rest)
        end) l;
      Ok (Array l')
  | _ => Ok value
  end.

Definition canonical_context_bytes `{SerdeJson} (value : Value) : result ConversationError string :=
  value' ← sorted value; Ok (json_to_string value').

(** ** What is public *)

(** [payload->>'key']. *)
Definition member_text `{Postgres} (value : Value) (key : string) : option string :=
  match get key value with
  | None | Some Null => None
  | Some (Str s) => Some s
  | Some v => Some (pg_json_text v)
  end.

(** [(payload->>'delivery' IS NULL OR payload->>'delivery'='room') AND
    (payload->'audienceIds' IS NULL OR payload->'audienceIds'='[]'::jsonb)]. *)
Definition is_public `{Postgres} (e : RoomEvent) : bool :=
  match member_text (ev_payload e) "delivery" with
  | None => true
  | Some delivery => String.eqb delivery "room"
  end &&
  match get "audienceIds" (ev_payload e) with
  | None => true
  | Some audience => bool_decide (audience = Array [])
  end.

Section context.
Context `{UuidCrate, Chrono, SerdeJson, Sha2, Schemas, Postgres, Oracle}.

(** The sequence of the event that triggers a turn, if it is a human's room message. *)
Definition trigger_revision (room trigger : Uuid) (d : Db) : option Z :=
  ev_sequence <$> head (List.filter (λ e,
    bool_decide (ev_event_id e = trigger) && in_room room e
    && String.eqb (ev_event_type e) "message.created" && String.eqb (ev_actor_role e) "human"
    && bool_decide (member_text (ev_payload e) "delivery" = Some "room")
    && bool_decide (get "audienceIds" (ev_payload e) = Some (Array []))) (room_events d)).

(** The public messages of a room after [base], up to [revision]. *)
Definition context_events (room : Uuid) (base revision : Z) (d : Db) : list RoomEvent :=
  select_events (λ e, in_room room e && (base <? ev_sequence e) && (ev_sequence e <=? revision)
    && String.eqb (ev_event_type e) "message.created" && is_public e) d.

(** The [ON] clause of the join: a completed turn of this conversation whose reply is [e]. *)
Definition replied_by (conversation : Uuid) (generation : Z) (e : RoomEvent) (row : TurnRow) : bool :=
  bool_decide (tn_reply_event_id row = Some (ev_event_id e))
  && bool_decide (tn_room_id (tn_turn row) = ev_room_id e)
  && bool_decide (tn_conversation_id (tn_turn row) = conversation)
  && (tn_generation (tn_turn row) =? generation)
  && bool_decide (tn_state row = TnCompleted).

(** [LEFT JOIN conversation_tasks t ON ..]. *)
Definition join_reply (conversation : Uuid) (generation : Z) (d : Db) (e : RoomEvent) :
    list (RoomEvent * option (Uuid * TurnRow)) :=
  match List.filter (λ kv, replied_by conversation generation e kv.2)
          (map_to_list (conversation_tasks (conversation_tables d))) with
  | [] => [(e, None)]
  | tasks => (λ t, (e, Some t)) <$> tasks
  end.

Definition context_rows (room conversation : Uuid) (generation base revision : Z) (d : Db) :
    list (RoomEvent * option (Uuid * TurnRow)) :=
  flat_map (join_reply conversation generation d) (context_events room base revision d).

(** [$2>0 AND e.actor_id=$6 AND e.actor_role='agent' AND t.receipt_acknowledgement IS NOT NULL]. *)
Definition native_reply (base : Z) (row : RoomEvent * option (Uuid * TurnRow)) :
    option (Uuid * TurnRow * Value) :=
  if (0 <? base) && bool_decide (ev_actor_id row.1 = CODEX_AGENT_ID)
     && String.eqb (ev_actor_role row.1) "agent"
  then '(task, turn) ← row.2; ack ← tn_receipt_acknowledgement turn; Some (task, turn, ack)
  else None.

(** [octet_length(e.payload->>'text')]. *)
Definition text_length (e : RoomEvent) : option Z :=
  (λ s, Z.of_nat (String.length s)) <$> member_text (ev_payload e) "text".

(** What a row adds to the size; a row without text adds nothing, as a NULL in a sum. *)
Definition row_size (base : Z) (row : RoomEvent * option (Uuid * TurnRow)) : Z :=
  match native_reply base row, text_length row.1 with
  | None, Some n =>
      n + match ev_actor_display_name row.1 with
          | Some name => Z.of_nat (String.length name)
          | None => 0
          end
  | _, _ => 0
  end.

Definition oversized_reply (base : Z) (row : RoomEvent * option (Uuid * TurnRow)) : bool :=
  match native_reply base row, text_length row.1 with
  | Some _, Some n => 65536 <? n
  | _, _ => false
  end.

Definition sum_Z (l : list Z) : Z := foldr Z.add 0 l.

(** One turn of the loop: a reply the agent gave in this conversation becomes a binding, once
    its acknowledgement is verified; anything else is disclosed as an entry. *)
Definition context_record (conversation : Uuid) (generation base : Z)
    (row : RoomEvent * option (Uuid * TurnRow)) : result ConversationError (Value + Value) :=
  let e := row.1 in
  text ← ok_or ContextMismatch (member_text (ev_payload e) "text");
  _ ← reject_if (is_empty text) ContextMismatch;
  match native_reply base row with
  | Some (source_task, turn, ack) =>
      _ ← rmap_err (λ _, ContextMismatch) (validate_profile_value "ack" ack);
      let source_revision := tn_context_revision (tn_turn turn) in
      source_digest ← ok_or RuntimeUnavailable
        (get "context" (tn_frozen_input (tn_turn turn)) ≫= λ c, member_text c "digest");
      let text_digest := sha256_hex text in
      _ ← reject_if
        (negb (bool_decide (index ack "taskId" = json_uuid source_task))
         || negb (bool_decide (index ack "conversationId" = json_uuid conversation))
         || negb (is_int (index ack "generation") generation)
         || negb (bool_decide (index ack "replyEventId" = json_uuid (ev_event_id e)))
         || negb (is_int (index ack "replySequence") (ev_sequence e))
         || negb (is_str (index ack "textDigest") text_digest)
         || negb (is_int (index ack "consumedRevision") source_revision)
         || (base <? source_revision)
         || negb (is_str (index ack "contextDigest") source_digest)) ContextMismatch;
      Ok (inr (json_object
        [("eventId", json_uuid (ev_event_id e)); ("sequence", json_int (ev_sequence e));
         ("sourceTaskId", json_uuid source_task); ("generation", json_int generation);
         ("textDigest", Str text_digest)]))
  | None =>
      let entry := json_object
        [("eventId", json_uuid (ev_event_id e)); ("sequence", json_int (ev_sequence e));
         ("authorId", json_uuid (ev_actor_id e)); ("authorRole", Str (ev_actor_role e));
         ("occurredAt", json_time (ev_occurred_at e)); ("text", Str text)] in
      Ok (inl match ev_actor_display_name e with
              | Some name => set_member entry "displayName" (Str name)
              | None => entry
              end)
  end.

Definition lefts (l : list (Value + Value)) : list Value :=
  omap (λ r, match r with inl v => Some v | inr _ => None end) l.
Definition rights (l : list (Value + Value)) : list Value :=
  omap (λ r, match r with inr v => Some v | inl _ => None end) l.

(** ** Decisions *)

(** Some event of the room, not after [upto], is public and has this identifier. *)
Definition public_source (room : Uuid) (upto : RoomEvent → bool) (d : Db) (source : Uuid) : bool :=
  existsb (λ e, bool_decide (ev_event_id e = source) && in_room room e && upto e && is_public e)
    (room_events d).

Definition decision_le (a b : Uuid * DecisionRow) : Prop := uuid_le a.1 b.1.
Global Instance decision_le_dec a b : Decision (decision_le a b).
Proof. unfold decision_le. apply _. Defined.

(** The query [DECISIONS], ordered by identifier. *)
Definition disclosable_decisions (room : Uuid) (revision : Z) (d : Db) : list (Uuid * DecisionRow) :=
  merge_sort decision_le (List.filter (λ kv,
    bool_decide (dc_room_id kv.2 = room) && String.eqb (dc_status kv.2) "active"
    && forallb (public_source room (λ e, ev_sequence e <=? revision) d) (dc_source_event_ids kv.2))
    (map_to_list (decisions d))).

Definition decision_size (kv : Uuid * DecisionRow) : Z :=
  Z.of_nat (String.length (dc_title kv.2)) + Z.of_nat (String.length (dc_summary kv.2))
  + Z.of_nat (length (dc_source_event_ids kv.2)) * 39 + 80.

Definition json_decision (kv : Uuid * DecisionRow) : Value :=
  json_object
    [("decisionId", json_uuid kv.1); ("title", Str (dc_title kv.2));
     ("summary", Str (dc_summary kv.2)); ("sourceEventIds", json_uuids (dc_source_event_ids kv.2))].

(** ** Freezing *)

(** The aggregates [count], [bytes] and [oversized_reply]. *)
Definition context_totals (room conversation : Uuid) (generation base revision : Z) (d : Db) :
    Z * Z * bool :=
  let rows := context_rows room conversation generation base revision d in
  (Z.of_nat (length rows), sum_Z (row_size base <$> rows), existsb (oversized_reply base) rows).

Definition freeze_context (room conversation : Uuid) (generation base revision : Z)
    (policy : ConversationPolicy) : Conv Value :=
  totals ← unavailable (tx_query (select (λ _,
    context_totals room conversation generation base revision)));
  let '(count, size, oversized) := totals : Z * Z * bool in
  if oversized then throw ContextMismatch
  else if (cp_max_records policy <? count) || (cp_max_context_bytes policy <? size)
  then throw ContextTooLarge
  else
    rows ← unavailable (tx_query (select (λ _,
      context_rows room conversation generation base revision)));
    records ← lift (collect (context_record conversation generation base) rows);
    decision_bytes ← unavailable (tx_query (select (λ _ d,
      sum_Z (decision_size <$> disclosable_decisions room revision d))));
    if cp_max_context_bytes policy <? decision_bytes then throw ContextTooLarge
    else
      decisions ← unavailable (tx_query (select (λ _, disclosable_decisions room revision)));
      mret (json_object
        [("kind", Str (if base =? 0 then "baseline" else "delta")); ("baseRevision", json_int base);
         ("revision", json_int revision); ("policyRevision", Str (cp_policy_revision policy));
         ("entries", Array (lefts records)); ("activeDecisions", Array (json_decision <$> decisions));
         ("nativeReplyBindings", Array (rights records))]).

Definition context_preimage (room conversation : Uuid) (generation : Z) (trigger : Uuid)
    (policy : ConversationPolicy) (context : Value) : Value :=
  json_object
    [("roomId", json_uuid room); ("agentId", json_uuid CODEX_AGENT_ID);
     ("conversationId", json_uuid conversation); ("generation", json_int generation);
     ("triggerEventId", json_uuid trigger);
     ("guidanceRevision", Str (cp_guidance_revision policy)); ("context", context)].

Definition build_context (room conversation : Uuid) (generation base : Z) (trigger : Uuid)
    (policy : ConversationPolicy) : Conv Value :=
  _ ← unavailable (lock_room room);
  found ← unavailable (tx_query (select (λ _, trigger_revision room trigger)));
  revision ← lift (ok_or ContextMismatch found);
  if (base <? 0) || (revision <=? base) || (generation <=? 0) || (MAX_SAFE_INTEGER <? generation)
     || (MAX_SAFE_INTEGER <? revision)
  then throw ContextMismatch
  else
    context ← freeze_context room conversation generation base revision policy;
    bytes ← lift (canonical_context_bytes
      (context_preimage room conversation generation trigger policy context));
    if cp_max_context_bytes policy <? Z.of_nat (String.length bytes) then throw ContextTooLarge
    else mret (set_member context "digest" (Str (sha256_hex bytes))).
End context.

(** ** The manifest of disclosed sources *)

(** The arrays and strings are those of a context the gateway built, so that the calls of
    [expect] in the source succeed. *)
Definition array_of (value : Value) (key : string) : list Value :=
  default [] (as_array (index value key)).

Definition json_source (kind : string) (id : Value) : Value :=
  json_object [("sourceId", id); ("sourceKind", Str kind)].

(** [if ids.insert(id) { sources.push(..) }] over a list of candidates. *)
Fixpoint distinct_sources (ids : list string) (candidates : list (string * Value)) : list Value :=
  match candidates with
  | [] => []
  | (kind, id) :: rest =>
      match as_str id with
      | Some s =>
          if bool_decide (s ∈ ids) then distinct_sources ids rest
          else json_source kind id :: distinct_sources (s :: ids) rest
      | None => distinct_sources ids rest
      end
  end.

(** The candidates in the order the loops visit them. *)
Definition source_candidates (context : Value) : list (string * Value) :=
  ((λ entry, ("event", index entry "eventId")) <$>
     array_of context "entries" ++ array_of context "nativeReplyBindings") ++
  flat_map (λ decision, ("decision", index decision "decisionId")
                        :: ((λ id, ("event", id)) <$> array_of decision "sourceEventIds"))
    (array_of context "activeDecisions").

Definition source_manifest (context : Value) : Value :=
  Array (distinct_sources [] (source_candidates context)).
