(* ===== verification/Catalog.v ===== *)
(** * Model catalogue

    The part of src/src/conversation_service.rs that reads a model catalogue: the trait
    [CatalogQuery], the check of a page and the search for a selected model over all pages. *)

From S2P Require Import Prelude Json Text Crates Types ConversationProtocol ConversationTables Protocol MemoryEngine World Store ConversationContext.
From Stdlib Require Import Ascii.
Local Open Scope string_scope.
Local Open Scope list_scope.
Local Open Scope Z_scope.

(** [dyn CatalogQuery]: its one method, [page(agent, cursor, limit)]. *)
Definition CatalogQuery : Type := Uuid → option string → Z → Conv Value.

Definition unavailable_catalog : CatalogQuery := λ _ _ _, throw RuntimeUnavailable.

(** [tokio::time::timeout] of five seconds: the timer can only fire while the task waits, that
    is inside a call of [page], which then has no effect. *)
Class Timer := { elapsed : nat → bool }.

Definition timed `{Timer} (catalog : CatalogQuery) : CatalogQuery := λ agent cursor limit w,
  if elapsed (tick w) then (Err RuntimeUnavailable, next_tick w)
  else catalog agent cursor limit (next_tick w).

Definition MAX_CATALOG_BYTES : Z := 1048576.

Section catalog.
Context `{Schemas, SerdeJson}.

(** The efforts of a model, each named once. *)
Fixpoint distinct_efforts (efforts : list (option string)) (values : list Value) :
    result ConversationError (list (option string)) :=
  match values with
  | [] => Ok efforts
  | effort :: rest =>
      let id := as_str (index effort "id") in
      _ ← reject_if (bool_decide (id ∈ efforts)) RuntimeUnavailable;
      distinct_efforts (id :: efforts) rest
  end.

Fixpoint check_catalog_models (models : list (option string)) (values : list Value) :
    result ConversationError () :=
  match values with
  | [] => Ok ()
  | model :: rest =>
      let id := as_str (index model "id") in
      _ ← reject_if (bool_decide (id ∈ models)) RuntimeUnavailable;
      supported ← ok_or RuntimeUnavailable (as_array (index model "supportedReasoningEfforts"));
      efforts ← distinct_efforts [] supported;
      _ ← reject_if
        (negb (is_null (index model "defaultReasoningEffort"))
         && negb (bool_decide (as_str (index model "defaultReasoningEffort") ∈ efforts)))
        RuntimeUnavailable;
      check_catalog_models (id :: models) rest
  end.

Definition validate_catalog (page : Value) (policy : ConversationPolicy) :
    result ConversationError () :=
  _ ← rmap_err (λ _, RuntimeUnavailable) (validate_profile_value "catalog" page);
  _ ← reject_if (MAX_CATALOG_BYTES <? Z.of_nat (String.length (json_to_string page)))
        RuntimeUnavailable;
  _ ← reject_if (negb (is_str (index page "catalogRevision") (cp_catalog_revision policy)))
        ConversationStale;
  data ← ok_or RuntimeUnavailable (as_array (index page "data"));
  check_catalog_models [] data.

(** The model offers the selected effort. *)
Definition supports (selected : Value) (efforts : list Value) : bool :=
  existsb (λ effort, bool_decide (index effort "id" = index selected "reasoningEffort")) efforts.

(** The models of one page: each identifier is new, and the selected model, when met, decides
    whether the selection was found. *)
Fixpoint scan_models (selected : Value) (models : list string) (found : bool) (data : list Value) :
    result ConversationError (list string * bool) :=
  match data with
  | [] => Ok (models, found)
  | model :: rest =>
      id ← ok_or RuntimeUnavailable (as_str (index model "id"));
      _ ← reject_if (bool_decide (id ∈ models)) RuntimeUnavailable;
      if bool_decide (index model "id" = index selected "model") then
        efforts ← ok_or RuntimeUnavailable (as_array (index model "supportedReasoningEfforts"));
        scan_models selected (id :: models) (supports selected efforts) rest
      else scan_models selected (id :: models) found rest
  end.

(** The loop of [validate_catalog_selection], with the turns that remain. *)
Fixpoint scan_pages (turns : nat) (catalog : CatalogQuery) (policy : ConversationPolicy)
    (selected : Value) (cursor : option string) (cursors models : list string) (found : bool) :
    Conv () :=
  match turns with
  | O => throw RuntimeUnavailable
  | S turns' =>
      page ← catalog CODEX_AGENT_ID cursor 100;
      _ ← lift (validate_catalog page policy);
      data ← lift (ok_or RuntimeUnavailable (as_array (index page "data")));
      scanned ← lift (scan_models selected models found data);
      match as_str (index page "nextCursor") with
      | None => if scanned.2 : bool then mret () else throw InvalidTaskInput
      | Some next =>
          if bool_decide (next ∈ cursors) then throw RuntimeUnavailable
          else scan_pages turns' catalog policy selected (Some next) (next :: cursors)
                 scanned.1 scanned.2
      end
  end.

Definition validate_catalog_selection (catalog : CatalogQuery) (policy : ConversationPolicy)
    (selected : Value) : Conv () :=
  scan_pages 100 catalog policy selected None [] [] false.

(** ** What a successful search has seen *)

Definition model_id (model : Value) : option string := as_str (index model "id").
Definition models_of (page : Value) : list Value := default [] (as_array (index page "data")).
Definition efforts_of (model : Value) : option (list Value) :=
  as_array (index model "supportedReasoningEfforts").

(** The model is the selected one, with the selected effort. *)
Definition offers_selection (selected model : Value) : bool :=
  bool_decide (index model "id" = index selected "model")
  && supports selected (default [] (efforts_of model)).

(** The pages a catalogue gives from a cursor to its last one, no cursor being repeated. *)
Inductive pages_from (catalog : CatalogQuery) (cursors : list string) :
    option string → World → list Value → World → Prop :=
| last_page cursor w page w' :
    catalog CODEX_AGENT_ID cursor 100 w = (Ok page, w') →
    as_str (index page "nextCursor") = None →
    pages_from catalog cursors cursor w [page] w'
| more_pages cursor w page w1 next pages w' :
    catalog CODEX_AGENT_ID cursor 100 w = (Ok page, w1) →
    as_str (index page "nextCursor") = Some next → next ∉ cursors →
    pages_from catalog (next :: cursors) (Some next) w1 pages w' →
    pages_from catalog cursors cursor w (page :: pages) w'.

(** The loop's variables after the models [seen]. *)
Record reading (selected : Value) (seen : list Value) (models : list string) (found : bool) : Prop := {
  rd_ids : model_id <$> seen = Some <$> reverse models;
  rd_unique : NoDup models;
  rd_found : found = existsb (offers_selection selected) seen;
}.

Lemma reading_nil selected : reading selected [] [] false.
Proof. split; [done|constructor|done]. Qed.

(** One more model: it decides [found] exactly when it is the selected one. *)
Lemma reading_cons selected seen models found model id efforts :
  reading selected seen models found → model_id model = Some id → id ∉ models →
  efforts_of model = Some efforts →
  reading selected (seen ++ [model]) (id :: models)
    (if bool_decide (index model "id" = index selected "model") then supports selected efforts else found).
Proof.
  intros [Hids Hnd ->] Hid Hnew Heff. split.
  - rewrite fmap_app, Hids, reverse_cons, fmap_app. simpl. by rewrite Hid.
  - by constructor.
  - rewrite existsb_app. simpl. unfold offers_selection at 3. rewrite Heff. simpl.
    destruct (bool_decide_reflect (index model "id" = index selected "model")) as [Hsel|]; simpl.
    + rewrite orb_false_r. assert (existsb (offers_selection selected) seen = false) as ->; [|done].
      apply not_true_iff_false. rewrite list_find_exists. intros (m & Hm & Ho).
      apply andb_true_iff in Ho as [Ho%bool_decide_eq_true _]. apply Hnew.
      assert (model_id m = Some id) as Hmid by (unfold model_id in *; by rewrite Ho, <-Hsel).
      apply (list_elem_of_fmap_2 model_id) in Hm. rewrite Hmid, Hids in Hm.
      apply list_elem_of_fmap in Hm as (id' & [= <-] & Hm). by rewrite elem_of_reverse in Hm.
    + by rewrite !orb_false_r.
Qed.

(** All models of a page. *)
Definition page_ok (data : list Value) : Prop := Forall (λ m, is_Some (efforts_of m)) data.

Lemma scan_models_reading selected seen models found data models' found' :
  reading selected seen models found → page_ok data →
  scan_models selected models found data = Ok (models', found') → reading selected (seen ++ data) models' found'.
Proof.
  revert seen models found. induction data as [|m data IH]; intros seen models found Hr Hp; simpl.
  { intros [= <- <-]. by rewrite app_nil_r. }
  apply Forall_cons in Hp as [[efforts Heff] Hp]. rewrite rbind_Ok. intros (id & Hid & Hs).
  rewrite ok_or_Ok in Hid. rewrite rbind_Ok in Hs. destruct Hs as (u & Hnew & Hs).
  rewrite reject_if_Ok, bool_decide_eq_false in Hnew.
  pose proof (reading_cons _ _ _ _ _ _ _ Hr Hid Hnew Heff) as Hr'.
  rewrite cons_middle, app_assoc. eapply IH; [exact Hr'|done|]. unfold efforts_of in Heff. rewrite Heff in Hs.
  destruct (bool_decide (index m "id" = index selected "model")); exact Hs.
Qed.

Lemma reading_inj selected seen models found models' found' :
  reading selected seen models found → reading selected seen models' found' → models' = models ∧ found' = found.
Proof.
  intros [H1 _ ->] [H2 _ ->]. split; [|done]. rewrite H1 in H2. apply (inj (fmap Some)) in H2.
  by apply (inj reverse) in H2.
Qed.

(** Nothing but a repeated or nameless model stops the scan of a page. *)
Lemma scan_models_complete selected seen models found data models' found' :
  reading selected seen models found → page_ok data → reading selected (seen ++ data) models' found' →
  scan_models selected models found data = Ok (models', found').
Proof.
  revert seen models found. induction data as [|m data IH]; intros seen models found Hr Hp Hr'; simpl.
  { rewrite app_nil_r in Hr'. by destruct (reading_inj _ _ _ _ _ _ Hr Hr') as [-> ->]. }
  apply Forall_cons in Hp as [[efforts Heff] Hp].
  assert (∃ id, model_id m = Some id ∧ id ∉ models) as (id & Hid & Hnew).
  { destruct Hr as [Hids _ _], Hr' as [Hids' Hnd' _]. rewrite fmap_app, fmap_cons, Hids in Hids'.
    symmetry in Hids'. apply fmap_app_inv in Hids' as (l1 & l2 & Hl1 & Hl2 & Hrev).
    apply (inj (fmap Some)) in Hl1. subst l1. symmetry in Hl2. apply fmap_cons_inv in Hl2 as (id & l3 & Hid & _ & ->).
    exists id. split; [done|]. rewrite <-reverse_Permutation, Hrev in Hnd'.
    apply NoDup_app in Hnd' as (_ & Hdisj & _). intros Hin. apply (Hdisj id); [by apply elem_of_reverse|by left]. }
  pose proof (reading_cons _ _ _ _ _ _ _ Hr Hid Hnew Heff) as Hr1. unfold model_id in Hid.
  rewrite Hid. simpl. rewrite (bool_decide_false (id ∈ models)) by done. simpl.
  rewrite cons_middle, app_assoc in Hr'. specialize (IH _ _ _ Hr1 Hp Hr'). unfold efforts_of in Heff.
  rewrite Heff. simpl. by destruct (bool_decide (index m "id" = index selected "model")).
Qed.

Lemma check_catalog_models_ok seen data u : check_catalog_models seen data = Ok u → page_ok data.
Proof.
  revert seen. induction data as [|m data IH]; intros seen; simpl; [by constructor|].
  rewrite rbind_Ok. intros (? & _ & Hc). rewrite rbind_Ok in Hc. destruct Hc as (efforts & Heff & Hc).
  rewrite ok_or_Ok in Heff. rewrite rbind_Ok in Hc. destruct Hc as (? & _ & Hc).
  rewrite rbind_Ok in Hc. destruct Hc as (? & _ & Hc). constructor; [by exists efforts|by eapply IH].
Qed.

Lemma validate_catalog_page page policy u :
  validate_catalog page policy = Ok u → as_array (index page "data") = Some (models_of page) ∧ page_ok (models_of page).
Proof.
  unfold validate_catalog, models_of. rewrite rbind_Ok. intros (? & _ & Hv). rewrite rbind_Ok in Hv.
  destruct Hv as (? & _ & Hv). rewrite rbind_Ok in Hv. destruct Hv as (? & _ & Hv).
  rewrite rbind_Ok in Hv. destruct Hv as (data & Hd & Hv). rewrite ok_or_Ok in Hd. rewrite Hd.
  split; [done|]. by eapply check_catalog_models_ok.
Qed.

(** The models of all pages. *)
Definition all_models (pages : list Value) : list Value := concat (models_of <$> pages).

(** What the remaining turns must see for the search to succeed. *)
Definition selectable (catalog : CatalogQuery) (policy : ConversationPolicy) (selected : Value)
    (turns : nat) (cursors : list string) (cursor : option string) (seen : list Value) (w w' : World) :
    Prop :=
  ∃ pages models, pages_from catalog cursors cursor w pages w' ∧ (length pages ≤ turns)%nat ∧
    Forall (λ page, validate_catalog page policy = Ok ()) pages ∧
    reading selected (seen ++ all_models pages) models true.

(** A scan stops at the last page or goes on with the next. *)
Lemma scan_pages_sound turns catalog policy selected cursor cursors models found seen w w' :
  reading selected seen models found →
  scan_pages turns catalog policy selected cursor cursors models found w = (Ok (), w') →
  selectable catalog policy selected turns cursors cursor seen w w'.
Proof.
  revert cursor cursors models found seen w. induction turns as [|turns IH];
    intros cursor cursors models found seen w Hr; simpl; [done|].
  intros Hrun. apply bind_Ok_inv in Hrun as (page & w1 & Hpage & Hrun).
  apply bind_Ok_inv in Hrun as ([] & w2 & Hv & Hrun). apply lift_Ok_inv in Hv as [Hv ->].
  destruct (validate_catalog_page _ _ _ Hv) as [Hdata Hok]. rewrite Hdata in Hrun.
  apply bind_Ok_inv in Hrun as (data & w2 & [= <- <-] & Hrun).
  apply bind_Ok_inv in Hrun as ([models' found'] & w2 & Hs & Hrun). apply lift_Ok_inv in Hs as [Hs ->].
  apply (scan_models_reading _ seen) in Hs; [|done..]. simpl in Hrun.
  destruct (as_str (index page "nextCursor")) as [next|] eqn:Hnext.
  - destruct (bool_decide_reflect (next ∈ cursors)) as [|Hfresh]; [done|].
    destruct (IH _ _ _ _ _ _ Hs Hrun) as (pages & ms & Hp & Hlen & Hall & Hread).
    exists (page :: pages), ms. split_and!; [by eapply more_pages|simpl; lia|by constructor|].
    unfold all_models. simpl. by rewrite app_assoc.
  - destruct found'; [|done]. apply ret_Ok_inv in Hrun as [_ <-]. exists [page], models'.
    split_and!; [by apply last_page|simpl; lia|by constructor|]. unfold all_models. simpl. by rewrite app_nil_r.
Qed.

(** The models read so far are a prefix of a reading. *)
Lemma reading_prefix selected seen more models found :
  reading selected (seen ++ more) models found → ∃ models' found', reading selected seen models' found'.
Proof.
  intros [Hids Hnd _]. rewrite fmap_app in Hids. symmetry in Hids.
  apply fmap_app_inv in Hids as (l1 & l2 & Hl1 & _ & Hrev).
  exists (reverse l1), (existsb (offers_selection selected) seen). split; [by rewrite reverse_involutive| |done].
  rewrite reverse_Permutation. rewrite <-reverse_Permutation, Hrev in Hnd. by apply NoDup_app in Hnd as [? _].
Qed.

Lemma scan_pages_complete turns catalog policy selected cursor cursors models found seen w w' :
  reading selected seen models found →
  selectable catalog policy selected turns cursors cursor seen w w' →
  scan_pages turns catalog policy selected cursor cursors models found w = (Ok (), w').
Proof.
  intros Hr (pages & ms & Hp & Hlen & Hall & Hread). revert turns models found seen Hr Hlen Hread.
  induction Hp as [cursors cursor w page w' Hpage Hnext|cursors cursor w page w1 next pages w' Hpage Hnext Hfresh Hp IH];
    intros [|turns] models found seen Hr Hlen Hread; simpl in Hlen; try lia;
    apply Forall_cons in Hall as [Hv Hall]; destruct (validate_catalog_page _ _ _ Hv) as [Hdata Hok];
    simpl; rewrite (bind_ok _ _ _ _ _ Hpage), Hv, Hdata, Hnext; unfold mbind, M_bind, lift; simpl;
    unfold all_models in Hread; simpl in Hread.
  - rewrite app_nil_r in Hread. rewrite (scan_models_complete _ _ _ _ _ _ _ Hr Hok Hread). done.
  - rewrite app_assoc in Hread. destruct (reading_prefix _ _ _ _ _ Hread) as (models' & found' & Hr').
    rewrite (scan_models_complete _ _ _ _ _ _ _ Hr Hok Hr'). simpl. rewrite bool_decide_false by done.
    eapply (IH Hall); [exact Hr'|lia|exact Hread].
Qed.

(** C38: the search for a selection succeeds exactly when the catalogue has at most a hundred
    pages, each of them valid for the policy and none under a repeated cursor, whose models are
    all named and named differently, and one of them is the selected model and supports the
    selected effort; it always ends, within a hundred requests. *)
Theorem selection_exact catalog policy selected w w' :
  validate_catalog_selection catalog policy selected w = (Ok (), w') ↔
  ∃ pages ids, pages_from catalog [] None w pages w' ∧ (length pages ≤ 100)%nat ∧
    Forall (λ page, validate_catalog page policy = Ok ()) pages ∧
    model_id <$> all_models pages = Some <$> ids ∧ NoDup ids ∧
    existsb (offers_selection selected) (all_models pages) = true.
Proof.
  transitivity (selectable catalog policy selected 100 [] None [] w w').
  { split; [apply scan_pages_sound|apply scan_pages_complete]; apply reading_nil. }
  split.
  - intros (pages & ms & ? & ? & ? & [Hids Hnd Hf]). exists pages, (reverse ms).
    split_and!; try done. by rewrite reverse_Permutation.
  - intros (pages & ids & ? & ? & ? & Hids & Hnd & Hf). exists pages, (reverse ids).
    split_and!; try done. split; [by rewrite reverse_involutive|by rewrite reverse_Permutation|done].
Qed.
End catalog.
