(* ===== verification/Rooms.v ===== *)
(** * Rooms (src/src/rooms.rs)

    The gateway's state machine: channels and presence in memory, the roster of a room, and
    [process], the one entry point through which a client's request changes a room. *)

From S2P Require Import Prelude Json Text Crates Types Protocol Mentions ActionItems MemoryEngine World Store.
Local Open Scope string_scope.
Local Open Scope list_scope.
Local Open Scope Z_scope.

Record ProcessedRequest := { pr_events : list RoomEvent; pr_duplicate : bool }.

(** ** Channels *)

Definition with_channels (f : gmap Uuid (list RoomBroadcast) → gmap Uuid (list RoomBroadcast))
    (g : Gateway) : Gateway :=
  {| channels := f (channels g); presence := presence g;
     integration := integration g; memory_engine := memory_engine g |}.
Definition with_presence
    (f : gmap Uuid (gmap Uuid ParticipantPresence) → gmap Uuid (gmap Uuid ParticipantPresence))
    (g : Gateway) : Gateway :=
  {| channels := channels g; presence := f (presence g);
     integration := integration g; memory_engine := memory_engine g |}.
Definition with_memory_engine (m : option MemoryEngineClient) (g : Gateway) : Gateway :=
  {| channels := channels g; presence := presence g;
     integration := integration g; memory_engine := m |}.

Definition modify_gateway {E} (f : Gateway → Gateway) : M World E () :=
  modify (λ w, with_gateway (f (gateway w)) w).

(** The log of a room's channel; a channel not yet created has sent nothing. *)
Definition channel_log (room : Uuid) (g : Gateway) : list RoomBroadcast :=
  default [] (channels g !! room).

(** [room_channel]: the channel is created on first use; the new receiver starts at the end
    of the log. *)
Definition room_channel {E} (room : Uuid) : M World E nat :=
  _ ← modify_gateway (with_channels (λ cs, <[room := default [] (cs !! room)]> cs));
  gets (λ w, length (channel_log room (gateway w))).

(** [sender.send] on the channel of a room. *)
Definition send_to (room : Uuid) (b : RoomBroadcast) (g : Gateway) : Gateway :=
  with_channels (λ cs, <[room := default [] (cs !! room) ++ [b]]> cs) g.

Definition publish {E} (event : RoomEvent) : M World E () :=
  modify_gateway (send_to (ev_room_id event) (BEvent event)).

(** ** Presence *)

Definition register_participant {E} (room : Uuid) (actor : Actor) : M World E () :=
  modify_gateway (with_presence (λ p,
    let in_room := default ∅ (p !! room) in
    let connections :=
      match in_room !! actor_id actor with Some q => pp_connections q | None => O end in
    <[room := <[actor_id actor :=
      {| pp_role := role_str (actor_role actor); pp_display_name := actor_display_name actor;
         pp_connections := S connections |}]> in_room]> p)).

Definition disconnect (q : ParticipantPresence) : ParticipantPresence :=
  {| pp_role := pp_role q; pp_display_name := pp_display_name q;
     pp_connections :=
       if (1 <? pp_connections q)%nat then (pp_connections q - 1)%nat else O |}.

Definition unregister_participant {E} (room actor : Uuid) : M World E () :=
  modify_gateway (with_presence (λ p,
    match p !! room with
    | None => p
    | Some in_room =>
        match in_room !! actor with
        | None => p
        | Some q => <[room := <[actor := disconnect q]> in_room]> p
        end
    end)).

(** ** Roster *)

Definition participant_le (a b : RoomParticipant) : Prop :=
  match String.compare (rp_role a) (rp_role b) with
  | Lt => True
  | Gt => False
  | Eq => match String.compare (rp_display_name a) (rp_display_name b) with
          | Lt => True
          | Gt => False
          | Eq => uuid_le (rp_id a) (rp_id b)
          end
  end.
Global Instance participant_le_dec a b : Decision (participant_le a b).
Proof. unfold participant_le. repeat case_match; apply _. Defined.

Definition action_items_participant : RoomParticipant :=
  {| rp_id := ACTION_ITEMS_AGENT_ID; rp_role := "agent";
     rp_display_name := ACTION_ITEMS_AGENT_DISPLAY_NAME; rp_online := true |}.
Definition codex_participant : RoomParticipant :=
  {| rp_id := CODEX_AGENT_ID; rp_role := "agent"; rp_display_name := "Codex Agent";
     rp_online := true |}.

Section rooms.
Context `{UuidCrate, Chrono, Schemas, Postgres, Unicode, Oracle}.

Definition event_author (event : RoomEvent) : RoomParticipant :=
  {| rp_id := ev_actor_id event; rp_role := ev_actor_role event;
     rp_display_name :=
       match ev_actor_display_name event with
       | Some name => name
       | None =>
           String.append (if String.eqb (ev_actor_role event) "human" then "Human " else "Agent ")
             (take_bytes 8 (uuid_to_string (ev_actor_id event)))
       end;
     rp_online := false |}.

Definition present (id : Uuid) (q : ParticipantPresence) : RoomParticipant :=
  {| rp_id := id; rp_role := pp_role q; rp_display_name := pp_display_name q;
     rp_online := (0 <? pp_connections q)%nat |}.

(** The roster by identifier: who wrote, who is or was connected, the built-in agents. *)
Definition roster (events : list RoomEvent) (room_presence : gmap Uuid ParticipantPresence)
    (codex : bool) : gmap Uuid RoomParticipant :=
  let authors := foldl (λ m e, <[ev_actor_id e := event_author e]> m)
                   {[ACTION_ITEMS_AGENT_ID := action_items_participant]} events in
  let everyone := map_imap (λ id q, Some (present id q)) room_presence ∪ authors in
  if codex then <[CODEX_AGENT_ID := codex_participant]> everyone else everyone.

Definition sorted_roster (m : gmap Uuid RoomParticipant) : list RoomParticipant :=
  merge_sort participant_le (map_to_list m).*2.

Definition replay (room : Uuid) (after_sequence : Z) : M World RpcError (list RoomEvent) :=
  map_err (λ _, internal_error) (events_after room after_sequence).

Definition participant_snapshot (room : Uuid) : M World RpcError (list RoomParticipant) :=
  events ← replay room 0;
  room_presence ← gets (λ w, default ∅ (presence (gateway w) !! room));
  codex ← gets (λ w, conversations_enabled (gateway w));
  mret (sorted_roster (roster events room_presence codex)).

Definition publish_participant_snapshot (room : Uuid) (exclude_actor_id : option Uuid) :
    M World RpcError () :=
  participants ← participant_snapshot room;
  modify_gateway (λ g,
    match channels g !! room with
    | Some _ => send_to room (BParticipants participants exclude_actor_id) g
    | None => g
    end).

(** ** Requests: chat *)

Definition internal {E A} (m : M World E A) : M World RpcError A :=
  map_err (λ _, internal_error) m.

Definition action_items_task_payload (task_id source_event_id requester_id : Uuid) : Value :=
  json_object
    [("taskId", json_uuid task_id); ("kind", Str "action-items.v1");
     ("sourceEventId", json_uuid source_event_id); ("requesterId", json_uuid requester_id);
     ("agentId", json_uuid ACTION_ITEMS_AGENT_ID)].

Definition action_item_value (item : ActionItem) : Value :=
  json_object
    [("text", Str (ai_text item)); ("owner", json_option Str (ai_owner item));
     ("due", json_option Str (ai_due item))].

(** The outcome of the built-in agent: the type and payload of its last event. *)
Definition action_items_outcome (core_payload : Value) (text : string) : string * Value :=
  match extract_action_items text with
  | Ok items =>
      ("agent.task.succeeded",
       set_member core_payload "result"
         (json_object [("actionItems", Array (action_item_value <$> items))]))
  | Err _ =>
      ("agent.task.failed",
       set_member core_payload "failure" (json_object [("code", Str "invalid_task_input")]))
  end.

(** An event of the built-in agent in answer to a chat message. *)
Definition action_items_event (request : ChatSend) (event_type : string) (payload : Value) :
    NewEvent :=
  {| ne_room_id := cs_room_id request; ne_request_id := cs_request_id request;
     ne_event_type := event_type; ne_actor_id := ACTION_ITEMS_AGENT_ID; ne_actor_role := "agent";
     ne_actor_display_name := Some ACTION_ITEMS_AGENT_DISPLAY_NAME; ne_payload := payload;
     ne_occurred_at := cs_occurred_at request |}.

Definition run_action_items (actor : Actor) (request : ChatSend) (message : RoomEvent) :
    M World RpcError (list RoomEvent) :=
  task_id ← new_v4;
  let core_payload := action_items_task_payload task_id (ev_event_id message) (actor_id actor) in
  started ← for_each (λ event_type,
      internal (append_event_in_transaction (action_items_event request event_type core_payload)))
    ["agent.task.queued"; "agent.task.running"];
  let '(event_type, payload) := action_items_outcome core_payload (cs_text request) in
  ended ← internal (append_event_in_transaction (action_items_event request event_type payload));
  mret (started ++ [ended]).

Definition chat_event (actor : Actor) (request : ChatSend) (audience_ids : list Uuid) : NewEvent :=
  {| ne_room_id := cs_room_id request; ne_request_id := cs_request_id request;
     ne_event_type := "message.created"; ne_actor_id := actor_id actor;
     ne_actor_role := role_str (actor_role actor);
     ne_actor_display_name := Some (actor_display_name actor);
     ne_payload := normalized_chat_payload request audience_ids;
     ne_occurred_at := cs_occurred_at request |}.

Definition chat_send (actor : Actor) (request : ChatSend) : M World RpcError (list RoomEvent) :=
  participants ← participant_snapshot (cs_room_id request);
  audience_ids ← lift (resolve_chat_audience actor participants request);
  message ← internal (append_event_in_transaction (chat_event actor request audience_ids));
  answers ← (if invokes_action_items actor request
             then run_action_items actor request message else mret []);
  mret (message :: answers).

(** ** Requests: decisions *)

(** PRIMARY KEY (decision_id). *)
Definition insert_decision (decision_id : Uuid) (row : DecisionRow) (_ : DateTime) (d : Db) :
    result SqlxError (() * Db) :=
  match decisions d !! decision_id with
  | Some _ => Err UniqueViolation
  | None => Ok ((), with_decisions <[decision_id := row]> d)
  end.

(** An event by the actor of a decision request. *)
Definition decision_event (room request : Uuid) (at_ : DateTime) (actor : Actor)
    (event_type : string) (payload : Value) : NewEvent :=
  {| ne_room_id := room; ne_request_id := request; ne_event_type := event_type;
     ne_actor_id := actor_id actor; ne_actor_role := role_str (actor_role actor);
     ne_actor_display_name := Some (actor_display_name actor); ne_payload := payload;
     ne_occurred_at := at_ |}.

Definition decision_propose (actor : Actor) (request : DecisionPropose) :
    M World RpcError (list RoomEvent) :=
  decision_id ← new_v4;
  _ ← internal (tx_query (insert_decision decision_id
    {| dc_room_id := dp_room_id request; dc_status := "draft"; dc_title := dp_title request;
       dc_summary := dp_summary request; dc_derived_from_decision_id := None;
       dc_source_event_ids := dp_source_event_ids request;
       dc_created_at := pg_time (dp_occurred_at request);
       dc_updated_at := pg_time (dp_occurred_at request) |}));
  event ← internal (append_event_in_transaction
    (decision_event (dp_room_id request) (dp_request_id request) (dp_occurred_at request) actor
       "decision.proposed"
       (json_object
          [("decisionId", json_uuid decision_id); ("status", Str "draft");
           ("title", Str (dp_title request)); ("summary", Str (dp_summary request));
           ("sourceEventIds", json_uuids (dp_source_event_ids request))])));
  mret [event].

(** [SELECT .. FROM decisions WHERE decision_id = $1 AND room_id = $2 FOR UPDATE]. *)
Definition select_decision (decision_id room : Uuid) (_ : DateTime) (d : Db) :
    option DecisionRow :=
  row ← decisions d !! decision_id;
  if bool_decide (dc_room_id row = room) then Some row else None.

Definition delete_decision_in_transaction (actor : Actor) (request : DecisionDelete) :
    M World RpcError (list RoomEvent) :=
  found ← internal (tx_query (select (select_decision (dd_decision_id request) (dd_room_id request))));
  row ← lift (ok_or not_found found);
  event ← internal (append_event_in_transaction
    (decision_event (dd_room_id request) (dd_request_id request) (dd_occurred_at request) actor
       "decision.deleted"
       (json_object
          [("decisionId", json_uuid (dd_decision_id request)); ("priorStatus", Str (dc_status row));
           ("title", Str (dc_title row)); ("summary", Str (dc_summary row));
           ("sourceEventIds", json_uuids (dc_source_event_ids row))])));
  _ ← internal (tx_query (λ _ d, Ok ((), with_decisions (λ m,
    match m !! dd_decision_id request with
    | Some row => if bool_decide (dc_room_id row = dd_room_id request)
                  then delete (dd_decision_id request) m else m
    | None => m
    end) d)));
  mret [event].

Definition set_decision_status (status : string) (at_ : DateTime) (row : DecisionRow) :
    DecisionRow :=
  {| dc_room_id := dc_room_id row; dc_status := status; dc_title := dc_title row;
     dc_summary := dc_summary row;
     dc_derived_from_decision_id := dc_derived_from_decision_id row;
     dc_source_event_ids := dc_source_event_ids row; dc_created_at := dc_created_at row;
     dc_updated_at := at_ |}.

(** [UPDATE decisions SET status = $1, updated_at = $2 WHERE decision_id = $3]. *)
Definition update_decision (decision_id : Uuid) (status : string) (at_ : DateTime) (_ : DateTime)
    (d : Db) : result SqlxError (() * Db) :=
  Ok ((), with_decisions (alter (set_decision_status status (pg_time at_)) decision_id) d).

(** Confirm and dismiss: the draft gets its final status. *)
Definition settle_decision (actor : Actor) (request : DecisionTransition) (row : DecisionRow)
    (status event_type : string) : M World RpcError (list RoomEvent) :=
  _ ← internal (tx_query (update_decision (dt_decision_id request) status (dt_occurred_at request)));
  event ← internal (append_event_in_transaction
    (decision_event (dt_room_id request) (dt_request_id request) (dt_occurred_at request) actor
       event_type
       (json_object
          [("decisionId", json_uuid (dt_decision_id request)); ("status", Str status);
           ("title", Str (dc_title row)); ("summary", Str (dc_summary row));
           ("sourceEventIds", json_uuids (dc_source_event_ids row))])));
  mret [event].

(** Edit: the draft is superseded by an active replacement derived from it. *)
Definition replace_decision (actor : Actor) (request : DecisionTransition) (row : DecisionRow) :
    M World RpcError (list RoomEvent) :=
  edited_title ← lift (ok_or invalid_request (dt_edited_title request));
  edited_summary ← lift (ok_or invalid_request (dt_edited_summary request));
  replacement_id ← new_v4;
  _ ← internal (tx_query
    (update_decision (dt_decision_id request) "superseded" (dt_occurred_at request)));
  _ ← internal (tx_query (insert_decision replacement_id
    {| dc_room_id := dt_room_id request; dc_status := "active"; dc_title := edited_title;
       dc_summary := edited_summary;
       dc_derived_from_decision_id := Some (dt_decision_id request);
       dc_source_event_ids := dc_source_event_ids row;
       dc_created_at := pg_time (dt_occurred_at request);
       dc_updated_at := pg_time (dt_occurred_at request) |}));
  edited ← internal (append_event_in_transaction
    (decision_event (dt_room_id request) (dt_request_id request) (dt_occurred_at request) actor
       "decision.edited"
       (json_object
          [("decisionId", json_uuid (dt_decision_id request)); ("status", Str "superseded");
           ("replacementDecisionId", json_uuid replacement_id)])));
  activated ← internal (append_event_in_transaction
    (decision_event (dt_room_id request) (dt_request_id request) (dt_occurred_at request) actor
       "decision.confirmed"
       (json_object
          [("decisionId", json_uuid replacement_id); ("status", Str "active");
           ("title", Str edited_title); ("summary", Str edited_summary);
           ("sourceEventIds", json_uuids (dc_source_event_ids row));
           ("derivedFromDecisionId", json_uuid (dt_decision_id request))])));
  mret [edited; activated].

Definition transition_decision_in_transaction (actor : Actor) (request : DecisionTransition) :
    M World RpcError (list RoomEvent) :=
  found ← internal (tx_query (select (select_decision (dt_decision_id request) (dt_room_id request))));
  row ← lift (ok_or not_found found);
  if negb (String.eqb (dc_status row) "draft") then throw invalid_transition
  else match dt_action request with
       | Confirm => settle_decision actor request row "active" "decision.confirmed"
       | Dismiss => settle_decision actor request row "dismissed" "decision.dismissed"
       | Edit => replace_decision actor request row
       end.

(** ** The entry point *)

(** The match on the request inside the transaction; the last two are unreachable. *)
Definition handle_request (actor : Actor) (request : ValidatedRequest) :
    M World RpcError (list RoomEvent) :=
  match request with
  | RChatSend r => chat_send actor r
  | RDecisionPropose r => decision_propose actor r
  | RDecisionTransition r => transition_decision_in_transaction actor r
  | RDecisionDelete r => delete_decision_in_transaction actor r
  | RAgentTaskStart r =>
      result ← internal (start_agent_task_in_transaction (actor_id actor)
                           (actor_display_name actor) r false);
      mret (sr_events result)
  | RJoin _ | RSessionAuthenticate _ => throw invalid_request
  end.

Definition human_only (request : ValidatedRequest) : bool :=
  match request with
  | RDecisionTransition _ | RDecisionDelete _ | RAgentTaskStart _ => true
  | _ => false
  end.

(** After the commit: each event is offered to the memory engine, whatever it answers. *)
Definition offer_to_memory_engine {E} (events : list RoomEvent) : M World E () :=
  modify_gateway (λ g,
    match memory_engine g with
    | None => g
    | Some client =>
        with_memory_engine
          (Some (foldl (λ c e, (enqueue_committed_event e c).2) client events)) g
    end).

(** [process] once the request is known to concern a room. *)
Definition process_in_room (actor : Actor) (request : ValidatedRequest) (room request_id : Uuid)
    (fp : Value) : M World RpcError ProcessedRequest :=
  _ ← internal begin_tx;
  _ ← internal (lock_room room);
  prior ← internal (prior_request room request_id);
  match prior with
  | Some (prior_fingerprint, events) =>
      _ ← internal rollback_tx;
      if bool_decide (prior_fingerprint = fp)
      then mret {| pr_events := events; pr_duplicate := true |}
      else throw conflicting_duplicate
  | None =>
      events ← handle_request actor request;
      _ ← internal (record_request room request_id fp events);
      _ ← internal commit_tx;
      _ ← offer_to_memory_engine events;
      mret {| pr_events := events; pr_duplicate := false |}
  end.

Definition process (actor : Actor) (request : ValidatedRequest) : M World RpcError ProcessedRequest :=
  if human_only request && negb (bool_decide (actor_role actor = Human)) then throw forbidden
  else match room_id request, Protocol.request_id request, fingerprint request, request with
       | _, _, _, RJoin _ => throw invalid_request
       | Some room, Some request_id, Some fp, _ => process_in_room actor request room request_id fp
       | _, _, _, _ => throw invalid_request
       end.

(** [GatewayState::transition_decision]. *)
Definition transition_decision (actor : Actor) (request : DecisionTransition) :
    M World RpcError (list RoomEvent) :=
  processed ← process actor (RDecisionTransition request);
  mret (pr_events processed).
End rooms.
