(* ===== verification/ConversationStore.v ===== *)
(** * The conversation store (src/src/conversation_store.rs)

    Turns of a conversation with the Codex agent: a turn is reserved by a human's message, claimed
    by one worker under a lease, reported on by ordered updates and completed by a reply, or
    failed. The statements are functions of the database with the constraints of the
    migrations; every operation is written with its transactions, failures included. *)

From S2P Require Import Prelude Json Text Crates Types ConversationProtocol ConversationTables Protocol Mentions ActionItems MemoryEngine World Store Rooms ConversationContext Catalog.
Local Open Scope string_scope.
Local Open Scope list_scope.
Local Open Scope Z_scope.

(** ** Statements on conversations *)

(** A statement that writes only conversation tables. *)
Definition on_tables (f : ConversationTables → result SqlxError ConversationTables)
    (_ : DateTime) (d : Db) : result SqlxError (() * Db) :=
  t ← f (conversation_tables d); Ok ((), with_conversations (λ _, t) d).

(** UNIQUE (room_id, agent_id, generation), and the index on (room_id, agent_id) WHERE
    state <> 'superseded'. *)
Definition conversation_conflict (id : Uuid) (row : ConversationRow) (t : ConversationTables) : bool :=
  existsb (λ kv,
    negb (bool_decide (kv.1 = id))
    && bool_decide (cv_room_id kv.2 = cv_room_id row ∧ cv_agent_id kv.2 = cv_agent_id row)
    && ((cv_generation kv.2 =? cv_generation row)
        || negb (bool_decide (cv_state kv.2 = CvSuperseded))
           && negb (bool_decide (cv_state row = CvSuperseded))))
    (map_to_list (agent_conversations t)).

(** The row a statement leaves under [id] obeys the constraints. *)
Definition put_conversation (id : Uuid) (row : ConversationRow) (t : ConversationTables) :
    result SqlxError ConversationTables :=
  if negb (conversation_check row) then Err CheckViolation
  else if conversation_conflict id row t then Err UniqueViolation
  else Ok (with_agent_conversations <[id := row]> t).

Definition insert_conversation (id : Uuid) (row : ConversationRow) (t : ConversationTables) :
    result SqlxError ConversationTables :=
  match agent_conversations t !! id with
  | Some _ => Err UniqueViolation
  | None => put_conversation id row t
  end.

(** [UPDATE agent_conversations SET .. WHERE conversation_id = id AND p]. *)
Definition update_conversation (id : Uuid) (p : ConversationRow → bool)
    (f : ConversationRow → ConversationRow) (t : ConversationTables) :
    result SqlxError ConversationTables :=
  match agent_conversations t !! id with
  | Some row => if p row then put_conversation id (f row) t else Ok t
  | None => Ok t
  end.

Definition always {A} (_ : A) : bool := true.

(** The columns a statement sets. *)
Definition set_conversation (state : ConversationState) (active : option Uuid) (settings : Value)
    (consumed : Z) (at_ : DateTime) (row : ConversationRow) : ConversationRow :=
  {| cv_room_id := cv_room_id row; cv_agent_id := cv_agent_id row;
     cv_generation := cv_generation row; cv_state := state; cv_consumed_revision := consumed;
     cv_policy_revision := cv_policy_revision row;
     cv_guidance_revision := cv_guidance_revision row; cv_selected_settings := settings;
     cv_active_task_id := active; cv_created_at := cv_created_at row; cv_updated_at := at_ |}.

(** ** Statements on turns *)

(** PRIMARY KEY, UNIQUE (room_id, request_id), the foreign keys and the CHECKs. *)
Definition insert_turn (task : Uuid) (row : TurnRow) (_ : DateTime) (d : Db) :
    result SqlxError (() * Db) :=
  let t := conversation_tables d in
  let turn := tn_turn row in
  if negb (turn_check row) then Err CheckViolation
  else if bool_decide (is_Some (conversation_tasks t !! task))
          || existsb (λ kv, bool_decide (tn_room_id (tn_turn kv.2) = tn_room_id turn
                                         ∧ tn_request_id (tn_turn kv.2) = tn_request_id turn))
               (map_to_list (conversation_tasks t))
  then Err UniqueViolation
  else if negb (bool_decide (is_Some (room_requests d !! (tn_room_id turn, tn_request_id turn))))
          || negb match agent_conversations t !! tn_conversation_id turn with
                  | Some c => bool_decide (cv_room_id c = tn_room_id turn
                                           ∧ cv_agent_id c = tn_agent_id turn
                                           ∧ cv_generation c = tn_generation turn)
                  | None => false
                  end
          || negb (existsb (λ e, bool_decide (ev_event_id e = tn_trigger_event_id turn
                                              ∧ ev_room_id e = tn_room_id turn)) (room_events d))
  then Err ForeignKeyViolation
  else Ok ((), with_conversations (with_turns <[task := row]>) d).

(** [UPDATE conversation_tasks SET .. WHERE task_id = task AND p]. *)
Definition update_turn (task : Uuid) (p : TurnRow → bool) (f : TurnRow → TurnRow)
    (_ : DateTime) (d : Db) : result SqlxError (() * Db) :=
  match conversation_tasks (conversation_tables d) !! task with
  | Some row =>
      if p row then
        let row' := f row in
        if negb (turn_check row') then Err CheckViolation
        else if match tn_reply_event_id row' with
                | Some reply => negb (existsb (λ e, bool_decide (ev_event_id e = reply
                                   ∧ ev_room_id e = tn_room_id (tn_turn row'))) (room_events d))
                | None => false
                end
        then Err ForeignKeyViolation
        else Ok ((), with_conversations (with_turns <[task := row']>) d)
      else Ok ((), d)
  | None => Ok ((), d)
  end.

Definition set_leased (owner : string) (token : Uuid) (expires_at now : DateTime) (row : TurnRow) :
    TurnRow :=
  {| tn_turn := tn_turn row; tn_state := TnRunning; tn_lease_owner := Some owner;
     tn_lease_expires_at := Some expires_at; tn_lease_token := Some token;
     tn_receipt_acknowledgement := tn_receipt_acknowledgement row;
     tn_reply_event_id := tn_reply_event_id row; tn_updated_at := now; tn_result := tn_result row;
     tn_failure := tn_failure row; tn_effective_settings := tn_effective_settings row;
     tn_usage := tn_usage row; tn_last_update_ordinal := tn_last_update_ordinal row;
     tn_last_progress_at := tn_last_progress_at row |}.

Definition set_completed (result : Value) (reply : Uuid) (ack : Value)
    (effective usage : option Value) (now : DateTime) (row : TurnRow) : TurnRow :=
  {| tn_turn := tn_turn row; tn_state := TnCompleted; tn_lease_owner := tn_lease_owner row;
     tn_lease_expires_at := tn_lease_expires_at row; tn_lease_token := tn_lease_token row;
     tn_receipt_acknowledgement := Some ack; tn_reply_event_id := Some reply; tn_updated_at := now;
     tn_result := Some result; tn_failure := tn_failure row; tn_effective_settings := effective;
     tn_usage := usage; tn_last_update_ordinal := tn_last_update_ordinal row;
     tn_last_progress_at := tn_last_progress_at row |}.

Definition set_failed (failure : Value) (now : DateTime) (row : TurnRow) : TurnRow :=
  {| tn_turn := tn_turn row; tn_state := TnFailed; tn_lease_owner := tn_lease_owner row;
     tn_lease_expires_at := tn_lease_expires_at row; tn_lease_token := tn_lease_token row;
     tn_receipt_acknowledgement := tn_receipt_acknowledgement row;
     tn_reply_event_id := tn_reply_event_id row; tn_updated_at := now; tn_result := tn_result row;
     tn_failure := Some failure; tn_effective_settings := tn_effective_settings row;
     tn_usage := tn_usage row; tn_last_update_ordinal := tn_last_update_ordinal row;
     tn_last_progress_at := tn_last_progress_at row |}.

(** [SET {column} = data, updated_at = now] for the columns [effective_settings] and [usage]. *)
Definition set_reported (settings : bool) (data : Value) (now : DateTime) (row : TurnRow) : TurnRow :=
  {| tn_turn := tn_turn row; tn_state := tn_state row; tn_lease_owner := tn_lease_owner row;
     tn_lease_expires_at := tn_lease_expires_at row; tn_lease_token := tn_lease_token row;
     tn_receipt_acknowledgement := tn_receipt_acknowledgement row;
     tn_reply_event_id := tn_reply_event_id row; tn_updated_at := now; tn_result := tn_result row;
     tn_failure := tn_failure row;
     tn_effective_settings := if settings then Some data else tn_effective_settings row;
     tn_usage := if settings then tn_usage row else Some data;
     tn_last_update_ordinal := tn_last_update_ordinal row;
     tn_last_progress_at := tn_last_progress_at row |}.

(** [SET last_progress_at = ..] and [SET last_update_ordinal = ..]. *)
Definition set_progress (progress : option DateTime) (ordinal : Z) (row : TurnRow) : TurnRow :=
  {| tn_turn := tn_turn row; tn_state := tn_state row; tn_lease_owner := tn_lease_owner row;
     tn_lease_expires_at := tn_lease_expires_at row; tn_lease_token := tn_lease_token row;
     tn_receipt_acknowledgement := tn_receipt_acknowledgement row;
     tn_reply_event_id := tn_reply_event_id row; tn_updated_at := tn_updated_at row;
     tn_result := tn_result row; tn_failure := tn_failure row;
     tn_effective_settings := tn_effective_settings row; tn_usage := tn_usage row;
     tn_last_update_ordinal := ordinal; tn_last_progress_at := progress |}.

(** ** Statements on updates and disclosures *)

(** PRIMARY KEY (task_id, update_id), UNIQUE (task_id, ordinal), the task exists. *)
Definition insert_update (task update : Uuid) (row : UpdateRow) (t : ConversationTables) :
    result SqlxError ConversationTables :=
  if negb (update_check row) then Err CheckViolation
  else if bool_decide (is_Some (conversation_updates t !! (task, update)))
          || existsb (λ kv, bool_decide (kv.1.1 = task) && (cu_ordinal kv.2 =? cu_ordinal row))
               (map_to_list (conversation_updates t))
  then Err UniqueViolation
  else if negb (bool_decide (is_Some (conversation_tasks t !! task))) then Err ForeignKeyViolation
  else Ok (with_updates <[(task, update) := row]> t).

Definition delete_updates (task : Uuid) (p : UpdateRow → bool) (t : ConversationTables) :
    result SqlxError ConversationTables :=
  Ok (with_updates (filter (λ kv, ¬ (kv.1.1 = task ∧ p kv.2 = true))) t).

Definition insert_update_request (task update : Uuid) (row : UpdateRequestRow)
    (t : ConversationTables) : result SqlxError ConversationTables :=
  if negb (update_request_check row) then Err CheckViolation
  else if bool_decide (is_Some (conversation_update_requests t !! (task, update)))
          || existsb (λ kv, bool_decide (kv.1.1 = task) && (uq_ordinal kv.2 =? uq_ordinal row))
               (map_to_list (conversation_update_requests t))
  then Err UniqueViolation
  else if negb (bool_decide (is_Some (conversation_tasks t !! task))) then Err ForeignKeyViolation
  else Ok (with_update_requests <[(task, update) := row]> t).

(** [INSERT .. ON CONFLICT (conversation_id, source_id) DO NOTHING]. *)
Definition insert_disclosure (conversation source : Uuid) (row : DisclosureRow)
    (t : ConversationTables) : result SqlxError ConversationTables :=
  if negb (disclosure_check row) then Err CheckViolation
  else match conversation_disclosures t !! (conversation, source) with
       | Some _ => Ok t
       | None =>
           if negb (bool_decide (is_Some (conversation_tasks t !! ds_first_task_id row)))
           then Err ForeignKeyViolation
           else Ok (with_disclosures <[(conversation, source) := row]> t)
       end.

(** ** Results *)

Record ConversationReservation := { cr_accepted : Value; cr_prompt : option RoomEvent }.
Record ConversationUpdateOutcome := { uo_response : Value; uo_event : option RoomEvent }.

Section store.
Context `{UuidCrate, Chrono, SerdeJson, Sha2, Schemas, Postgres, Unicode, Timer, Oracle}.

(** ** Mentions of a turn (src/src/rooms.rs) *)

(** [SELECT DISTINCT ON (actor_id) .. ORDER BY actor_id, sequence DESC LIMIT 2001]. *)
Definition actor_le (a b : Uuid * RoomEvent) : Prop := uuid_le a.1 b.1.
Global Instance actor_le_dec a b : Decision (actor_le a b).
Proof. unfold actor_le. apply _. Defined.

Definition latest_by_actor (room : Uuid) (d : Db) : list RoomEvent :=
  take 2001 (merge_sort actor_le (map_to_list (collect_map
    ((λ e, (ev_actor_id e, e)) <$> select_events (in_room room) d)))).*2.

Definition oversized_name (e : RoomEvent) : bool :=
  match ev_actor_display_name e with
  | Some name => 8000 <? Z.of_nat (String.length name)
  | None => false
  end.

(** Who may be mentioned: the authors of the room, those present, and the built-in agents. *)
Definition turn_participants (authors : list RoomEvent)
    (room_presence : gmap Uuid ParticipantPresence) : result ConversationError (gmap Uuid RoomParticipant) :=
  _ ← reject_if (2000 <? Z.of_nat (length authors)) ContextTooLarge;
  _ ← reject_if (existsb oversized_name authors) ContextTooLarge;
  let written := collect_map ((λ e, (ev_actor_id e, event_author e)) <$> authors) in
  _ ← reject_if (2000 <? Z.of_nat (size room_presence)) ContextTooLarge;
  _ ← reject_if (existsb (λ kv, 8000 <? Z.of_nat (String.length (pp_display_name kv.2)))
                   (map_to_list room_presence)) ContextTooLarge;
  let everyone := map_imap (λ id q, Some (present id q)) room_presence ∪ written in
  _ ← reject_if (2000 <? Z.of_nat (size everyone)) ContextTooLarge;
  Ok (<[CODEX_AGENT_ID := codex_participant]>
        (<[ACTION_ITEMS_AGENT_ID := action_items_participant]> everyone)).

Definition mentions_others (mentions : list ChatMention) : bool :=
  existsb (λ m, match m with
                | MentionParticipant id _ => negb (bool_decide (id = CODEX_AGENT_ID))
                | MentionAlias _ => false
                end) mentions.

Definition validate_conversation_mentions (room : Uuid) (mentions : Value) : Conv () :=
  mentions ← lift (ok_or InvalidTaskInput (decode_array decode_mention mentions));
  if negb (mentions_others mentions) then mret ()
  else
    authors ← unavailable (tx_query (select (λ _, latest_by_actor room)));
    room_presence ← gets (λ w, default ∅ (presence (gateway w) !! room));
    participants ← lift (turn_participants authors room_presence);
    lift (rmap_err (λ _, InvalidTaskInput) (validate_mentions (map_to_list participants).*2 mentions)).

(** ** Reserving a turn *)

(** [.. WHERE room_id=$1 AND agent_id=$2 AND state <> 'superseded'], one row by the index. *)
Definition current_conversation (room : Uuid) (d : Db) : option (Uuid * ConversationRow) :=
  head (List.filter (λ kv,
    bool_decide (cv_room_id kv.2 = room ∧ cv_agent_id kv.2 = CODEX_AGENT_ID
                 ∧ cv_state kv.2 ≠ CvSuperseded))
    (map_to_list (agent_conversations (conversation_tables d)))).

(** [COALESCE(MAX(generation), 0)]. *)
Definition last_generation (room : Uuid) (d : Db) : Z :=
  foldr Z.max 0 ((λ kv, cv_generation kv.2) <$>
    List.filter (λ kv, bool_decide (cv_room_id kv.2 = room ∧ cv_agent_id kv.2 = CODEX_AGENT_ID))
      (map_to_list (agent_conversations (conversation_tables d)))).

(** [SELECT accepted_turn .. WHERE room_id=$1 AND request_id=$2 AND requester_id=$3]. *)
Definition accepted_turn (room request requester : Uuid) (d : Db) : option Value :=
  (λ kv, tn_accepted_turn (tn_turn kv.2)) <$> head (List.filter (λ kv,
    bool_decide (tn_room_id (tn_turn kv.2) = room ∧ tn_request_id (tn_turn kv.2) = request
                 ∧ tn_requester_id (tn_turn kv.2) = requester))
    (map_to_list (conversation_tasks (conversation_tables d)))).

Definition turn_fingerprint (actor : Actor) (request : Value) : Value :=
  json_object
    [("method", Str "agent-conversation.turn"); ("requesterId", json_uuid (actor_id actor));
     ("intent", request)].

Definition turn_mode (request : Value) (current : option (Uuid * ConversationRow)) : string :=
  match pointer ["conversation"; "mode"] request ≫= as_str with
  | Some mode => mode
  | None => match current with Some _ => "continue" | None => "new" end
  end.

(** The conversation of the turn: the current one if it may be continued, else a new one. *)
Definition turn_conversation (policy : ConversationPolicy) (room : Uuid) (request : Value)
    (current : option (Uuid * ConversationRow)) : Conv (Uuid * Z * Z) :=
  if String.eqb (turn_mode request current) "continue" then
    match current with
    | None => throw ConversationStale
    | Some (id, row) =>
        if negb (bool_decide (cv_state row = CvReady))
           || negb (String.eqb (cv_policy_revision row) (cp_policy_revision policy))
           || negb (String.eqb (cv_guidance_revision row) (cp_guidance_revision policy))
           || match pointer ["conversation"; "mode"] request ≫= as_str with
              | Some _ =>
                  negb (bool_decide (index (index request "conversation") "id" = json_uuid id))
                  || negb (is_int (index (index request "conversation") "generation")
                             (cv_generation row))
              | None => false
              end
        then throw ConversationStale
        else if cv_consumed_revision row <=? 0 then throw ContextMismatch
        else mret (id, cv_generation row, cv_consumed_revision row)
    end
  else
    previous ← unavailable (tx_query (select (λ _, last_generation room)));
    if MAX_SAFE_INTEGER <=? previous then throw ConversationStale
    else id ← new_v4; mret (id, previous + 1, 0).

(** The choices of the last turn of a continued conversation, at the current catalogue. *)
Definition shared_settings (policy : ConversationPolicy) (mode : string)
    (current : option (Uuid * ConversationRow)) : option Value :=
  if String.eqb mode "continue" then
    '(_, row) ← current;
    Some (json_object
      [("model", index (cv_selected_settings row) "model");
       ("reasoningEffort", index (cv_selected_settings row) "reasoningEffort");
       ("catalogRevision", Str (cp_catalog_revision policy))])
  else None.

Definition prompt_event (actor : Actor) (room request_id : Uuid) (request : Value)
    (at_ : DateTime) : NewEvent :=
  {| ne_room_id := room; ne_request_id := request_id; ne_event_type := "message.created";
     ne_actor_id := actor_id actor; ne_actor_role := "human";
     ne_actor_display_name := Some (actor_display_name actor);
     ne_payload := json_object
       [("text", index request "text"); ("mentions", index request "mentions");
        ("delivery", Str "room"); ("audienceIds", Array [])];
     ne_occurred_at := at_ |}.

Definition frozen_input (policy : ConversationPolicy) (actor : Actor)
    (room task conversation : Uuid) (generation : Z) (mode : string) (trigger : Uuid)
    (context : Value) (now expires authorization_expires_at : DateTime) (settings : Value) : Value :=
  json_object
    [("profileVersion", Str PROFILE_VERSION); ("taskId", json_uuid task);
     ("roomId", json_uuid room); ("requesterId", json_uuid (actor_id actor));
     ("agentId", json_uuid CODEX_AGENT_ID); ("skillId", Str "chat");
     ("conversation", json_object
        [("id", json_uuid conversation); ("generation", json_int generation); ("mode", Str mode)]);
     ("triggerEventId", json_uuid trigger); ("context", context);
     ("guidanceRevision", Str (cp_guidance_revision policy)); ("issuedAt", json_time now);
     ("expiresAt", json_time expires);
     ("authorizationExpiresAt", json_time authorization_expires_at);
     ("model", index settings "model"); ("reasoningEffort", index settings "reasoningEffort");
     ("catalogRevision", index settings "catalogRevision")].

Definition accepted_value (room task conversation : Uuid) (generation : Z) (trigger : Uuid)
    (revision : Z) (settings : Value) : Value :=
  json_object
    [("profileVersion", Str PROFILE_VERSION); ("roomId", json_uuid room);
     ("taskId", json_uuid task); ("conversationId", json_uuid conversation);
     ("generation", json_int generation); ("triggerEventId", json_uuid trigger);
     ("contextRevision", json_int revision); ("selectedSettings", settings)].

(** The statements on [agent_conversations]: a new conversation replaces the current one, a
    continued one is reserved again. *)
Definition reserve_conversation (policy : ConversationPolicy) (mode : string)
    (current : option (Uuid * ConversationRow)) (room conversation : Uuid) (generation : Z)
    (task : Uuid) (settings : Value) (now : DateTime) : Conv () :=
  if String.eqb mode "new" then
    _ ← match current with
        | Some (previous, _) =>
            unavailable (tx_query (on_tables (update_conversation previous always (λ row,
              set_conversation CvSuperseded None (cv_selected_settings row)
                (cv_consumed_revision row) (pg_time now) row))))
        | None => mret ()
        end;
    unavailable (tx_query (on_tables (insert_conversation conversation
      {| cv_room_id := room; cv_agent_id := CODEX_AGENT_ID; cv_generation := generation;
         cv_state := CvReserved; cv_consumed_revision := 0;
         cv_policy_revision := cp_policy_revision policy;
         cv_guidance_revision := cp_guidance_revision policy;
         cv_selected_settings := pg_json settings; cv_active_task_id := Some task;
         cv_created_at := pg_time now; cv_updated_at := pg_time now |})))
  else
    unavailable (tx_query (on_tables (update_conversation conversation always (λ row,
      set_conversation CvReserved (Some task) (pg_json settings) (cv_consumed_revision row)
        (pg_time now) row)))).

(** The row of a new turn. *)
Definition new_turn (policy : ConversationPolicy) (actor : Actor)
    (room request_id conversation : Uuid) (generation : Z) (trigger : Uuid) (revision : Z)
    (frozen settings sources accepted : Value) (authorization_expires_at now expires : DateTime) :
    TurnRow :=
  {| tn_turn :=
       {| tn_room_id := room; tn_request_id := request_id; tn_requester_id := actor_id actor;
          tn_agent_id := CODEX_AGENT_ID; tn_conversation_id := conversation;
          tn_generation := generation; tn_trigger_event_id := trigger;
          tn_context_revision := revision; tn_frozen_input := pg_json frozen;
          tn_selected_settings := pg_json settings; tn_source_manifest := pg_json sources;
          tn_policy_revision := cp_policy_revision policy;
          tn_authorization_expires_at := pg_time authorization_expires_at;
          tn_issued_at := pg_time now; tn_expires_at := pg_time expires;
          tn_created_at := pg_time now; tn_accepted_turn := pg_json accepted |};
     tn_state := TnReserved; tn_lease_owner := None; tn_lease_expires_at := None;
     tn_lease_token := None; tn_receipt_acknowledgement := None; tn_reply_event_id := None;
     tn_updated_at := pg_time now; tn_result := None; tn_failure := None;
     tn_effective_settings := None; tn_usage := None; tn_last_update_ordinal := 0;
     tn_last_progress_at := None |}.

(** How long an authorization must still last. *)
Definition turn_minimum (policy : ConversationPolicy) : Z :=
  seconds (cp_turn_deadline_seconds policy + cp_interrupt_grace_seconds policy).

(** The end of [reserve_inner]: everything is decided, and the turn is written. *)
Definition reserve_turn (policy : ConversationPolicy) (actor : Actor) (request : Value)
    (room request_id : Uuid) (current : option (Uuid * ConversationRow)) (mode : string)
    (conversation_id : Uuid) (generation base : Z) (settings : Value)
    (authorization_expires_at now : DateTime) : Conv ConversationReservation :=
  task_id ← new_v4;
  occurred_at ← lift (ok_or InvalidTaskInput
    (as_str (index request "occurredAt") ≫= datetime_parse_rfc3339));
  prompt ← unavailable (append_event_in_transaction
    (prompt_event actor room request_id request occurred_at));
  if MAX_SAFE_INTEGER <? ev_sequence prompt then throw ContextMismatch
  else
    context ← build_context room conversation_id generation base (ev_event_id prompt) policy;
    let expires := now + seconds (cp_turn_deadline_seconds policy) in
    let frozen := frozen_input policy actor room task_id conversation_id generation mode
                    (ev_event_id prompt) context now expires authorization_expires_at settings in
    _ ← lift (validate_profile_value "reserved-input" frozen);
    let accepted := accepted_value room task_id conversation_id generation
                      (ev_event_id prompt) (ev_sequence prompt) settings in
    _ ← lift (validate_profile_value "task" accepted);
    let sources := source_manifest context in
    _ ← unavailable (record_request room request_id (turn_fingerprint actor request) [prompt]);
    _ ← reserve_conversation policy mode current room conversation_id generation task_id
          settings now;
    trigger ← lift (uuid_field accepted "triggerEventId");
    revision ← lift (ok_or RuntimeUnavailable (as_i64 (index accepted "contextRevision")));
    _ ← unavailable (tx_query (insert_turn task_id
          (new_turn policy actor room request_id conversation_id generation trigger revision
             frozen settings sources accepted authorization_expires_at now expires)));
    after ← World.now;
    _ ← lift (authorize_conversation_turn actor authorization_expires_at after (turn_minimum policy));
    _ ← unavailable commit_tx;
    mret {| cr_accepted := accepted; cr_prompt := Some prompt |}.

(** [reserve_inner]: [catalog] and [mediated] are the two options, the second standing for the
    gateway's state, which the model reads from the world. *)
Definition reserve_inner (policy : ConversationPolicy) (actor : Actor) (request : Value)
    (authorization_expires_at : DateTime) (catalog : option CatalogQuery) (mediated : bool) :
    Conv ConversationReservation :=
  let minimum := turn_minimum policy in
  before ← now;
  _ ← lift (authorize_conversation_turn actor authorization_expires_at before minimum);
  if negb (cp_enabled policy) then throw RuntimeUnavailable else
  request ← lift (validate_turn_request request);
  room ← lift (uuid_field request "roomId");
  request_id ← lift (uuid_field request "requestId");
  let fingerprint := turn_fingerprint actor request in
  _ ← unavailable begin_tx;
  _ ← unavailable (lock_room room);
  now ← now;
  authorization_expires_at ← lift
    (authorize_conversation_turn actor authorization_expires_at now minimum);
  prior ← unavailable (prior_request room request_id);
  match prior with
  | Some (prior_fingerprint, _) =>
      if negb (bool_decide (prior_fingerprint = fingerprint)) then throw DuplicateConflict
      else
        accepted ← unavailable (tx_query (select (λ _, accepted_turn room request_id (actor_id actor))));
        accepted ← lift (ok_or DuplicateConflict accepted);
        mret {| cr_accepted := accepted; cr_prompt := None |}
  | None =>
      _ ← (if mediated then validate_conversation_mentions room (index request "mentions")
           else mret ());
      current ← unavailable (tx_query (select (λ _, current_conversation room)));
      if match current with Some (_, row) => busy (cv_state row) | None => false end
      then throw ConversationBusy
      else
        let mode := turn_mode request current in
        conversation ← turn_conversation policy room request current;
        let '(conversation_id, generation, base) := conversation : Uuid * Z * Z in
        settings ← lift (resolve_settings policy
          match get "settings" request with
          | Some chosen => Some chosen
          | None => shared_settings policy mode current
          end);
        _ ← match catalog with
            | Some catalog => validate_catalog_selection (timed catalog) policy settings
            | None => mret ()
            end;
        reserve_turn policy actor request room request_id current mode conversation_id generation base
          settings authorization_expires_at now
  end.

Definition reserve (policy : ConversationPolicy) (actor : Actor) (request : Value)
    (authorization_expires_at : DateTime) : Conv Value :=
  outcome ← reserve_inner policy actor request authorization_expires_at None false;
  mret (cr_accepted outcome).

Definition reserve_mediated (policy : ConversationPolicy) (actor : Actor) (request : Value)
    (authorization_expires_at : DateTime) (catalog : CatalogQuery) : Conv ConversationReservation :=
  reserve_inner policy actor request authorization_expires_at (Some catalog) true.
End store.
