(* ===== verification/ConversationTurns.v ===== *)
(** * The life of a turn (src/src/conversation_store.rs, second part)

    Reading conversations and turns, claiming the oldest turn under a lease, the authority of a
    worker, and its updates: progress, settings, usage, the completed reply or a failure. *)

From S2P Require Import Prelude Json Text Crates Types ConversationProtocol ConversationTables Protocol Mentions ActionItems MemoryEngine World Store Rooms ConversationContext Catalog ConversationStore.
Local Open Scope string_scope.
Local Open Scope list_scope.
Local Open Scope Z_scope.

Section turns.
Context `{UuidCrate, Chrono, SerdeJson, Sha2, Schemas, Postgres, Oracle}.

Definition require_enabled (policy : ConversationPolicy) (agent : Uuid) :
    result ConversationError () :=
  _ ← reject_if (negb (bool_decide (agent = CODEX_AGENT_ID))) Forbidden;
  reject_if (negb (cp_enabled policy)) RuntimeUnavailable.

(** ** Views *)

(** [ORDER BY created_at DESC, task_id DESC LIMIT 1] over the turns of a conversation. *)
Definition newer (a b : Uuid * TurnRow) : Prop :=
  tn_created_at (tn_turn b.2) < tn_created_at (tn_turn a.2) ∨
  tn_created_at (tn_turn b.2) = tn_created_at (tn_turn a.2) ∧ uuid_le b.1 a.1.
Global Instance newer_dec a b : Decision (newer a b).
Proof. unfold newer. apply _. Defined.

Definition latest_turn (conversation : Uuid) (d : Db) : option TurnRow :=
  snd <$> head (merge_sort newer (List.filter
    (λ kv, bool_decide (tn_conversation_id (tn_turn kv.2) = conversation))
    (map_to_list (conversation_tasks (conversation_tables d))))).

Definition json_conversation (id : Uuid) (row : ConversationRow) (latest : option TurnRow) : Value :=
  json_object
    [("id", json_uuid id); ("generation", json_int (cv_generation row));
     ("state", Str (conversation_state_str (cv_state row)));
     ("activeTaskId", json_option json_uuid (cv_active_task_id row));
     ("consumedRevision", json_int (cv_consumed_revision row));
     ("policyRevision", Str (cv_policy_revision row));
     ("guidanceRevision", Str (cv_guidance_revision row));
     ("selectedSettings", cv_selected_settings row);
     ("effectiveSettings", json_option (λ v, v) (latest ≫= tn_effective_settings));
     ("usage", json_option (λ v, v) (latest ≫= tn_usage))].

Definition conversation_view (policy : ConversationPolicy) (room agent : Uuid) : Conv Value :=
  _ ← lift (require_enabled policy agent);
  found ← unavailable (pool_query (select (λ _ d,
    '(id, row) ← current_conversation room d; Some (json_conversation id row (latest_turn id d)))));
  let view := json_object
    [("profileVersion", Str PROFILE_VERSION); ("roomId", json_uuid room);
     ("agentId", json_uuid agent); ("conversation", json_option (λ v, v) found)] in
  _ ← lift (validate_profile_value "view" view);
  mret view.

(** [WHERE task_id=$1 AND agent_id=$2]. *)
Definition turn_of (task : Uuid) (d : Db) : option TurnRow :=
  row ← conversation_tasks (conversation_tables d) !! task;
  if bool_decide (tn_agent_id (tn_turn row) = CODEX_AGENT_ID) then Some row else None.

Definition ordinal_le (a b : Uuid * UpdateRow) : Prop := cu_ordinal a.2 ≤ cu_ordinal b.2.
Global Instance ordinal_le_dec a b : Decision (ordinal_le a b).
Proof. unfold ordinal_le. apply _. Defined.

(** The updates of a task by their identifiers. *)
Definition updates_of (task : Uuid) (d : Db) : list (Uuid * UpdateRow) :=
  omap (λ kv, if bool_decide (kv.1.1 = task) then Some (kv.1.2, kv.2) else None)
    (map_to_list (conversation_updates (conversation_tables d))).

(** [ORDER BY ordinal LIMIT 256]. *)
Definition shown_updates (task : Uuid) (d : Db) : list (Uuid * UpdateRow) :=
  take 256 (merge_sort ordinal_le (updates_of task d)).

Definition json_update (kv : Uuid * UpdateRow) : Value :=
  json_object
    [("updateId", json_uuid kv.1); ("ordinal", json_int (cu_ordinal kv.2));
     ("kind", Str (cu_kind kv.2)); ("occurredAt", json_time (cu_occurred_at kv.2));
     ("data", cu_data kv.2)].

Definition task_view (policy : ConversationPolicy) (room task : Uuid) : Conv Value :=
  _ ← lift (require_enabled policy CODEX_AGENT_ID);
  _ ← unavailable begin_tx;
  _ ← unavailable (tx_query (select (λ _ _, ())));
  found ← unavailable (tx_query (select (λ _, turn_of task)));
  row ← lift (ok_or SessionUnavailable
    (row ← found; if bool_decide (tn_room_id (tn_turn row) = room) then Some row else None));
  updates ← unavailable (tx_query (select (λ _, shown_updates task)));
  let view := json_object
    [("profileVersion", Str PROFILE_VERSION); ("roomId", json_uuid room);
     ("taskId", json_uuid task); ("conversationId", json_uuid (tn_conversation_id (tn_turn row)));
     ("generation", json_int (tn_generation (tn_turn row)));
     ("requesterId", json_uuid (tn_requester_id (tn_turn row)));
     ("state", Str (turn_state_str (tn_state row)));
     ("selectedSettings", tn_selected_settings (tn_turn row));
     ("effectiveSettings", json_option (λ v, v) (tn_effective_settings row));
     ("usage", json_option (λ v, v) (tn_usage row)); ("updates", Array (json_update <$> updates));
     ("result", json_option (λ v, v) (tn_result row));
     ("replyEventId", json_option json_uuid (tn_reply_event_id row));
     ("failure", json_option (λ v, v) (tn_failure row))] in
  _ ← lift (validate_profile_value "task" view);
  _ ← unavailable commit_tx;
  mret view.

Definition receipt (policy : ConversationPolicy) (task : Uuid) : Conv Value :=
  _ ← lift (require_enabled policy CODEX_AGENT_ID);
  found ← unavailable (pool_query (select (λ _, turn_of task)));
  row ← lift (ok_or SessionUnavailable found);
  mret (json_object
    [("profileVersion", Str PROFILE_VERSION); ("taskId", json_uuid task);
     ("conversationId", json_uuid (tn_conversation_id (tn_turn row)));
     ("generation", json_int (tn_generation (tn_turn row)));
     ("state", Str (turn_state_str (tn_state row)));
     ("acknowledgement", json_option (λ v, v) (tn_receipt_acknowledgement row));
     ("result", json_option (λ v, v) (tn_result row))]).

(** ** Authority *)

(** A task joined with its conversation. *)
Record TaskView := { tv_task : Uuid; tv_row : TurnRow; tv_conversation : ConversationRow }.

(** [.. JOIN agent_conversations c ON .. WHERE t.task_id=$1 AND t.agent_id=$2]. *)
Definition joined_task (task : Uuid) (d : Db) : option TaskView :=
  row ← turn_of task d;
  c ← agent_conversations (conversation_tables d) !! tn_conversation_id (tn_turn row);
  if bool_decide (cv_room_id c = tn_room_id (tn_turn row) ∧ cv_agent_id c = tn_agent_id (tn_turn row)
                  ∧ cv_generation c = tn_generation (tn_turn row))
  then Some {| tv_task := task; tv_row := row; tv_conversation := c |} else None.

Definition task_in_transaction (task : Uuid) : Conv TaskView :=
  found ← unavailable (tx_query (select (λ _, joined_task task)));
  lift (ok_or SessionUnavailable found).

(** The policy under which the turn was frozen still stands and still offers its model. *)
Definition policy_stands (policy : ConversationPolicy) (row : TurnRow) : bool :=
  String.eqb (tn_policy_revision (tn_turn row)) (cp_policy_revision policy)
  && is_str (index (tn_frozen_input (tn_turn row)) "guidanceRevision") (cp_guidance_revision policy)
  && offers policy (index (tn_frozen_input (tn_turn row)) "model")
       (index (tn_frozen_input (tn_turn row)) "reasoningEffort").

(** [task_authority] at an instant. *)
Definition task_authority_at (policy : ConversationPolicy) (view : TaskView) (lease : option Uuid)
    (claim : bool) (now : DateTime) : result ConversationError () :=
  let row := tv_row view in
  _ ← require_enabled policy (tn_agent_id (tn_turn row));
  _ ← reject_if (negb (policy_stands policy row)) Forbidden;
  _ ← reject_if (tn_authorization_expires_at (tn_turn row) <=? now) AuthenticationRequired;
  _ ← reject_if (tn_expires_at (tn_turn row) <=? now) Timeout;
  _ ← reject_if
    (negb (in_flight (tn_state row))
     || negb (bool_decide (cv_active_task_id (tv_conversation view) = Some (tv_task view)))
     || negb (busy (cv_state (tv_conversation view)))) ConversationStale;
  if claim then
    reject_if (negb (bool_decide (tn_state row = TnReserved))
               || bool_decide (is_Some (tn_lease_token row))) ConversationInterrupted
  else
    _ ← reject_if (negb (bool_decide (is_Some lease))
                   || negb (bool_decide (tn_lease_token row = lease))) Forbidden;
    reject_if match tn_lease_expires_at row with
              | Some expiry => expiry <=? now
              | None => true
              end ConversationInterrupted.

Definition task_authority (policy : ConversationPolicy) (view : TaskView) (lease : option Uuid)
    (claim : bool) : Conv () :=
  now ← now; lift (task_authority_at policy view lease claim now).

(** ** Failing a turn *)

Definition json_failure (error : ConversationError) : Value :=
  json_object [("code", Str (error_code error)); ("message", Str (error_code error))].

(** Both statements of [fail_task_state] use CURRENT_TIMESTAMP. *)
Definition fail_task_state (view : TaskView) (error : ConversationError) : Conv () :=
  _ ← unavailable (tx_query (λ now, update_turn (tv_task view) (λ row, in_flight (tn_state row))
        (set_failed (pg_json (json_failure error)) now) now));
  unavailable (tx_query (λ now, on_tables (update_conversation (tn_conversation_id (tn_turn (tv_row view)))
    (λ c, bool_decide (cv_active_task_id c = Some (tv_task view)))
    (λ c, set_conversation CvUnusable None (cv_selected_settings c) (cv_consumed_revision c) now c)) now)).

Definition fail_task (view : TaskView) (error : ConversationError) : Conv () :=
  _ ← fail_task_state view error;
  let ordinal := tn_last_update_ordinal (tv_row view) + 1 in
  if MAX_SAFE_INTEGER <? ordinal then throw ExecutionFailed
  else
    update ← new_v4;
    _ ← unavailable (tx_query (λ now, on_tables (insert_update (tv_task view) update
      {| cu_ordinal := ordinal; cu_kind := "failed"; cu_occurred_at := now;
         cu_data := pg_json (json_object [("code", Str (error_code error))]) |}) now));
    unavailable (tx_query (update_turn (tv_task view) always
      (λ row, set_progress (tn_last_progress_at row) ordinal row))).

(** ** Claiming *)

Definition turn_older (a b : Uuid * TurnRow) : Prop :=
  tn_created_at (tn_turn a.2) < tn_created_at (tn_turn b.2) ∨
  tn_created_at (tn_turn a.2) = tn_created_at (tn_turn b.2) ∧ uuid_le a.1 b.1.
Global Instance turn_older_dec a b : Decision (turn_older a b).
Proof. unfold turn_older. apply _. Defined.

(** A turn waits for a worker, or its worker has run out of time. *)
Definition needs_worker (now : DateTime) (row : TurnRow) : bool :=
  match tn_state row with
  | TnReserved => true
  | TnRunning =>
      match tn_lease_expires_at row with Some t => t <=? now | None => false end
      || (tn_expires_at (tn_turn row) <=? now)
      || (tn_authorization_expires_at (tn_turn row) <=? now)
  | _ => false
  end.

(** [.. ORDER BY created_at, task_id LIMIT 1]. *)
Definition turn_queue (now : DateTime) (d : Db) : list (Uuid * TurnRow) :=
  merge_sort turn_older (List.filter
    (λ kv, bool_decide (tn_agent_id (tn_turn kv.2) = CODEX_AGENT_ID) && needs_worker now kv.2)
    (map_to_list (conversation_tasks (conversation_tables d)))).

Definition claim_candidate (now : DateTime) (d : Db) : option (Uuid * Uuid) :=
  (λ kv, (kv.1, tn_room_id (tn_turn kv.2))) <$> head (turn_queue now d).

Definition leased_packet (frozen : Value) (owner expires_at : Value) : Value :=
  set_member (set_member frozen "leaseOwner" owner) "leaseExpiresAt" expires_at.

(** The body of the loop once the task is granted. *)
Definition grant_turn (policy : ConversationPolicy) (owner : string) (view : TaskView) : Conv Value :=
  token ← new_v4;
  let turn := tn_turn (tv_row view) in
  let lease_expiry :=
    Z.min (tn_expires_at turn + seconds (cp_interrupt_grace_seconds policy))
      (tn_authorization_expires_at turn) in
  _ ← unavailable (tx_query (λ now, update_turn (tv_task view) always
        (set_leased owner token (pg_time lease_expiry) now) now));
  _ ← unavailable (tx_query (λ now, on_tables (update_conversation (tn_conversation_id turn) always
        (λ c, set_conversation CvRunning (cv_active_task_id c) (cv_selected_settings c)
                (cv_consumed_revision c) now c)) now));
  let packet := leased_packet (tn_frozen_input turn) (Str owner) (json_time lease_expiry) in
  _ ← lift (validate_profile_value "input" packet);
  _ ← unavailable commit_tx;
  mret (json_object [("packet", packet); ("leaseToken", json_uuid token)]).

(** The loop, with the turns that remain; a candidate without authority is failed. *)
Fixpoint claim_loop (turns : nat) (policy : ConversationPolicy) (owner : string) :
    Conv (option Value) :=
  match turns with
  | O => mret None
  | S turns' =>
      _ ← unavailable begin_tx;
      _ ← unavailable (advisory_lock ConversationClaimLock);
      candidate ← unavailable (tx_query (select claim_candidate));
      match candidate with
      | None => mret None
      | Some (task, room) =>
          _ ← unavailable (lock_room room);
          view ← task_in_transaction task;
          authority ← attempt (task_authority policy view None true);
          match authority with
          | Err error =>
              _ ← fail_task view error;
              _ ← unavailable commit_tx;
              claim_loop turns' policy owner
          | Ok _ => granted ← grant_turn policy owner view; mret (Some granted)
          end
      end
  end.

Definition claim (policy : ConversationPolicy) (owner : string) : Conv (option Value) :=
  _ ← lift (require_enabled policy CODEX_AGENT_ID);
  if is_empty owner || (128 <? Z.of_nat (chars_count owner)) then throw InvalidTaskInput
  else claim_loop 100 policy owner.

(** ** The packet of a lease *)

Definition ends_lease (error : ConversationError) : bool :=
  match error with
  | Timeout | AuthenticationRequired | ConversationInterrupted | Forbidden | RuntimeUnavailable => true
  | _ => false
  end.

Definition packet (policy : ConversationPolicy) (task lease : Uuid) : Conv Value :=
  _ ← unavailable begin_tx;
  room ← unavailable (tx_query (select (λ _ d, (λ row, tn_room_id (tn_turn row)) <$> turn_of task d)));
  room ← lift (ok_or SessionUnavailable room);
  _ ← unavailable (lock_room room);
  view ← task_in_transaction task;
  authority ← attempt (task_authority policy view (Some lease) false);
  match authority with
  | Err error =>
      _ ← (if bool_decide (tn_lease_token (tv_row view) = Some lease) && ends_lease error
              && in_flight (tn_state (tv_row view))
           then _ ← fail_task view error; unavailable commit_tx
           else mret ());
      throw error
  | Ok _ =>
      let packet := leased_packet (tn_frozen_input (tn_turn (tv_row view)))
        (json_option Str (tn_lease_owner (tv_row view)))
        (json_option json_time (tn_lease_expires_at (tv_row view))) in
      _ ← lift (validate_profile_value "input" packet);
      mret packet
  end.
End turns.
