(* ===== verification/ConversationUpdates.v ===== *)
(** * Updates of a turn (src/src/conversation_store.rs, [record_update])

    A worker reports on its turn: each update has an identifier, by which a repetition is
    recognised, and an ordinal, which only grows. The completed update appends the reply to the
    room; its citations must be sources that were disclosed and are still public. *)

From S2P Require Import Prelude Json Text Crates Types ConversationProtocol ConversationTables Protocol Mentions ActionItems MemoryEngine World Store Rooms ConversationContext Catalog ConversationStore ConversationTurns.
Local Open Scope string_scope.
Local Open Scope list_scope.
Local Open Scope Z_scope.

Section updates.
Context `{UuidCrate, Chrono, SerdeJson, Sha2, Schemas, Postgres, Oracle}.

(** ** Citations *)

(** [.. WHERE conversation_id=$1 AND policy_revision=$2 AND source_id=ANY($3)]. *)
Definition disclosed_sources (conversation : Uuid) (revision : string) (cited : list Uuid) (d : Db) :
    list Value :=
  omap (λ kv, if bool_decide (kv.1.1 = conversation) && String.eqb (ds_policy_revision kv.2) revision
                 && bool_decide (kv.1.2 ∈ cited)
              then Some (json_source (ds_source_kind kv.2) (json_uuid kv.1.2)) else None)
    (map_to_list (conversation_disclosures (conversation_tables d))).

Definition event_public (room id : Uuid) (d : Db) : bool := public_source room always d id.

Definition decision_public (room id : Uuid) (d : Db) : bool :=
  match decisions d !! id with
  | Some row => bool_decide (dc_room_id row = room)
                && forallb (public_source room always d) (dc_source_event_ids row)
  | None => false
  end.

Definition check_citation (sources : list Value) (room : Uuid) (citation : Value) : Conv () :=
  source ← lift (ok_or Forbidden
    (snd <$> list_find (λ s, index s "sourceId" = citation) sources));
  id ← lift (uuid_field source "sourceId");
  visible ← unavailable (tx_query (select (λ _,
    if is_str (index source "sourceKind") "event" then event_public room id
    else decision_public room id)));
  if visible : bool then mret () else throw Forbidden.

Definition validate_citations (policy : ConversationPolicy) (view : TaskView) (reply : Value) :
    Conv () :=
  let turn := tn_turn (tv_row view) in
  sources ← lift (ok_or ContextMismatch (as_array (tn_source_manifest turn)));
  citations ← lift (ok_or InvalidTaskInput (as_array (index reply "citations")));
  cited ← lift (collect (λ id, ok_or InvalidTaskInput (as_str id ≫= uuid_parse)) citations);
  disclosed ← unavailable (tx_query (select (λ _,
    disclosed_sources (tn_conversation_id turn) (cp_policy_revision policy) cited)));
  _ ← for_each (check_citation (sources ++ disclosed) (tn_room_id turn)) citations;
  mret ().

(** ** A repeated update *)

(** The checks of a replay of a finished turn, in order. *)
Definition replay_authority (policy : ConversationPolicy) (view : TaskView) (t1 t2 t3 : DateTime) :
    result ConversationError () :=
  let row := tv_row view in
  _ ← require_enabled policy CODEX_AGENT_ID;
  _ ← reject_if match tn_lease_expires_at row with
                | Some expiry => expiry <=? t1
                | None => true
                end ConversationInterrupted;
  _ ← reject_if (tn_authorization_expires_at (tn_turn row) <=? t2) AuthenticationRequired;
  _ ← reject_if (bool_decide (cv_state (tv_conversation view) = CvSuperseded)
                 || (tn_expires_at (tn_turn row) <=? t3)) ConversationStale;
  reject_if (negb (policy_stands policy row)) Forbidden.

Definition replay_update (policy : ConversationPolicy) (view : TaskView) (lease : Uuid)
    (request : Value) (prior : UpdateRequestRow) : Conv ConversationUpdateOutcome :=
  if negb (bool_decide (uq_request prior = request)) then throw DuplicateConflict
  else
    _ ← (if negb (in_flight (tn_state (tv_row view))) then
           t1 ← now; t2 ← now; t3 ← now; lift (replay_authority policy view t1 t2 t3)
         else task_authority policy view (Some lease) false);
    mret {| uo_response := uq_response prior; uo_event := None |}.

(** ** A new update *)

Definition check_metadata (kind : string) (data : Value) : result ConversationError () :=
  if String.eqb kind "settings" then validate_metadata (Some data) None
  else if String.eqb kind "usage" then validate_metadata None (Some data)
  else if String.eqb kind "completed" then
    validate_metadata (optional_json (index data "effectiveSettings"))
      (optional_json (index data "usage"))
  else Ok ().

Definition reply_event (row : TurnRow) (data : Value) (at_ : DateTime) : NewEvent :=
  {| ne_room_id := tn_room_id (tn_turn row); ne_request_id := tn_request_id (tn_turn row);
     ne_event_type := "message.created"; ne_actor_id := CODEX_AGENT_ID; ne_actor_role := "agent";
     ne_actor_display_name := Some "Codex Agent";
     ne_payload := json_object
       [("text", index data "assistantText"); ("delivery", Str "room"); ("mentions", Array []);
        ("audienceIds", Array [])];
     ne_occurred_at := at_ |}.

Definition acknowledgement (view : TaskView) (reply : RoomEvent) (text : string) : Value :=
  let turn := tn_turn (tv_row view) in
  json_object
    [("profileVersion", Str PROFILE_VERSION); ("taskId", json_uuid (tv_task view));
     ("conversationId", json_uuid (tn_conversation_id turn));
     ("generation", json_int (tn_generation turn)); ("replyEventId", json_uuid (ev_event_id reply));
     ("replySequence", json_int (ev_sequence reply)); ("textDigest", Str (sha256_hex text));
     ("consumedRevision", json_int (tn_context_revision turn));
     ("contextDigest", index (index (tn_frozen_input turn) "context") "digest")].

(** One turn of the loop over the manifest. *)
Definition disclose (policy : ConversationPolicy) (view : TaskView) (source : Value) : Conv () :=
  let turn := tn_turn (tv_row view) in
  id ← lift (uuid_field source "sourceId");
  kind ← lift (ok_or RuntimeUnavailable (as_str (index source "sourceKind")));
  unavailable (tx_query (on_tables (insert_disclosure (tn_conversation_id turn) id
    {| ds_source_kind := kind; ds_first_task_id := tv_task view;
       ds_policy_revision := cp_policy_revision policy;
       ds_disclosed_revision := tn_context_revision turn |}))).

(** The branch [kind == "completed"]. *)
Definition complete_turn (policy : ConversationPolicy) (view : TaskView) (data : Value)
    (now : DateTime) : Conv (RoomEvent * Value) :=
  let turn := tn_turn (tv_row view) in
  _ ← lift (validate_profile_value "result" data);
  if negb (bool_decide (index data "conversationId" = json_uuid (tn_conversation_id turn)))
     || negb (is_int (index data "generation") (tn_generation turn))
     || negb (is_int (index data "consumedRevision") (tn_context_revision turn))
     || negb (bool_decide (index data "contextDigest"
                           = index (index (tn_frozen_input turn) "context") "digest"))
  then throw ContextMismatch
  else
    text ← lift (ok_or InvalidTaskInput (as_str (index data "assistantText")));
    if 65536 <? Z.of_nat (String.length text) then throw ContextTooLarge
    else
      _ ← validate_citations policy view data;
      reply ← unavailable (append_event_in_transaction (reply_event (tv_row view) data now));
      let ack := acknowledgement view reply text in
      _ ← lift (validate_profile_value "ack" ack);
      _ ← unavailable (tx_query (update_turn (tv_task view) always
            (set_completed (pg_json data) (ev_event_id reply) (pg_json ack)
               (pg_json <$> optional_json (index data "effectiveSettings"))
               (pg_json <$> optional_json (index data "usage")) (pg_time now))));
      _ ← unavailable (tx_query (on_tables (update_conversation (tn_conversation_id turn) always
            (λ c, set_conversation CvReady None (cv_selected_settings c) (tn_context_revision turn)
                    (pg_time now) c))));
      sources ← lift (ok_or ContextMismatch (as_array (tn_source_manifest turn)));
      _ ← for_each (disclose policy view) sources;
      mret (reply, ack).

(** The other kinds: a failure ends the turn, settings and usage are kept in the row. *)
Definition note_update (view : TaskView) (kind : string) (data : Value) (update_id : Uuid)
    (ordinal : Z) (now : DateTime) : Conv Value :=
  _ ← (if String.eqb kind "failed" then
         code ← lift (ok_or InvalidTaskInput (as_str (index data "code")));
         error ← lift (failure_code code);
         fail_task_state view error
       else mret ());
  _ ← (if String.eqb kind "settings" || String.eqb kind "usage" then
         unavailable (tx_query (update_turn (tv_task view) always
           (set_reported (String.eqb kind "settings") (pg_json data) (pg_time now))))
       else mret ());
  mret (json_object
    [("profileVersion", Str PROFILE_VERSION); ("taskId", json_uuid (tv_task view));
     ("updateId", json_uuid update_id); ("ordinal", json_int ordinal)]).

Definition is_acceptance (row : UpdateRow) : bool :=
  String.eqb (cu_kind row) "progress" && bool_decide (member_text (cu_data row) "phase" = Some "accepted").

(** A progress report of the last second, or a second acceptance, leaves no row. *)
Definition coalesced (view : TaskView) (kind : string) (data : Value) (now : DateTime) : Conv bool :=
  let acceptance := String.eqb kind "progress" && is_str (index data "phase") "accepted" in
  prior_acceptance ← (if acceptance then
    unavailable (tx_query (select (λ _ d, existsb (λ kv, is_acceptance kv.2) (updates_of (tv_task view) d))))
    else mret false);
  mret (String.eqb kind "progress" &&
        (if acceptance then prior_acceptance
         else match tn_last_progress_at (tv_row view) with
              | Some time => now - time <? seconds 1
              | None => false
              end)).

(** The retained row of an update replaces the rows it supersedes. *)
Definition retain_update (view : TaskView) (kind : string) (data : Value) (update_id : Uuid)
    (ordinal : Z) (now : DateTime) : Conv () :=
  let task := tv_task view in
  _ ← (if String.eqb kind "settings" || String.eqb kind "usage" then
         unavailable (tx_query (on_tables (delete_updates task (λ u, String.eqb (cu_kind u) kind))))
       else mret ());
  _ ← (if String.eqb kind "progress" then
         unavailable (tx_query (on_tables (delete_updates task (λ u,
           String.eqb (cu_kind u) "progress"
           && match member_text (cu_data u) "phase" with
              | Some phase => negb (String.eqb phase "accepted")
              | None => false
              end))))
       else mret ());
  _ ← unavailable (tx_query (on_tables (insert_update task update_id
        {| cu_ordinal := ordinal; cu_kind := kind; cu_occurred_at := pg_time now;
           cu_data := pg_json data |})));
  if String.eqb kind "progress" then
    unavailable (tx_query (update_turn task always
      (λ row, set_progress (Some (pg_time now)) (tn_last_update_ordinal row) row)))
  else mret ().

(** A new update with its number, kind and data. *)
Definition apply_update (policy : ConversationPolicy) (view : TaskView) (lease : Uuid)
    (request : Value) (update_id : Uuid) : Conv ConversationUpdateOutcome :=
  let task := tv_task view in
  ordinal ← lift (ok_or InvalidTaskInput (as_i64 (index request "ordinal")));
  if ordinal <=? tn_last_update_ordinal (tv_row view) then throw DuplicateConflict
  else
    kind ← lift (ok_or InvalidTaskInput (as_str (index request "kind")));
    if (ordinal =? MAX_SAFE_INTEGER) && negb (String.eqb kind "completed" || String.eqb kind "failed")
    then throw InvalidTaskInput
    else
      let data := index request "data" in
      _ ← lift (check_metadata kind data);
      now ← now;
      done ← (if String.eqb kind "completed" then
                completed ← complete_turn policy view data now;
                mret {| uo_response := completed.2; uo_event := Some completed.1 |}
              else
                response ← note_update view kind data update_id ordinal now;
                mret {| uo_response := response; uo_event := None |});
      skip ← coalesced view kind data now;
      _ ← (if skip : bool then mret () else retain_update view kind data update_id ordinal now);
      _ ← unavailable (tx_query (update_turn task always
            (λ row, set_progress (tn_last_progress_at row) ordinal row)));
      _ ← unavailable (tx_query (on_tables (insert_update_request task update_id
            {| uq_ordinal := ordinal; uq_request := pg_json request;
               uq_response := pg_json (uo_response done); uq_received_at := pg_time now |})));
      _ ← task_authority policy view (Some lease) false;
      _ ← unavailable commit_tx;
      mret done.

Definition record_update (policy : ConversationPolicy) (task lease : Uuid) (request : Value) :
    Conv ConversationUpdateOutcome :=
  _ ← lift (validate_profile_value "update" request);
  if negb (bool_decide (index request "taskId" = json_uuid task)) then throw ContextMismatch else
  _ ← unavailable begin_tx;
  room ← unavailable (tx_query (select (λ _ d, (λ row, tn_room_id (tn_turn row)) <$> turn_of task d)));
  room ← lift (ok_or SessionUnavailable room);
  _ ← unavailable (lock_room room);
  view ← task_in_transaction task;
  _ ← lift (require_enabled policy CODEX_AGENT_ID);
  if negb (is_int (index request "generation") (tn_generation (tn_turn (tv_row view))))
     || negb (bool_decide (index request "contextDigest"
                = index (index (tn_frozen_input (tn_turn (tv_row view))) "context") "digest"))
  then throw ContextMismatch
  else if negb (bool_decide (tn_lease_token (tv_row view) = Some lease)) then throw Forbidden
  else
    update_id ← lift (uuid_field request "updateId");
    prior ← unavailable (tx_query (select (λ _ d,
      conversation_update_requests (conversation_tables d) !! (task, update_id))));
    match prior with
    | Some prior => replay_update policy view lease request prior
    | None =>
        authority ← attempt (task_authority policy view (Some lease) false);
        match authority with
        | Err error =>
            _ ← (if in_flight (tn_state (tv_row view))
                 then _ ← fail_task view error; unavailable commit_tx
                 else mret ());
            throw error
        | Ok _ => apply_update policy view lease request update_id
        end
    end.
End updates.
