(* ===== verification/ConversationInvariant.v ===== *)
(** * Invariants of conversations

    What holds of the conversation tables in every committed database. [keys_ok] is what the
    constraints of the migrations enforce statement by statement; [links_ok] is what the
    operations keep between the tables: a turn in flight is the active turn of its conversation
    and an active turn is in flight, leases go with running turns, a completed turn has its reply
    in the room. It implies the deferred foreign key [conversation_active_task_binding], so a
    commit never violates it. *)

From S2P Require Import Prelude Json Text Crates Types ConversationProtocol ConversationTables Protocol Mentions ActionItems MemoryEngine World Store StoreInvariant ConversationContext Catalog Rooms ConversationStore ConversationTurns ConversationUpdates.
Local Open Scope string_scope.
Local Open Scope list_scope.
Local Open Scope Z_scope.

Abbreviation conversations_of d := (agent_conversations (conversation_tables d)).
Abbreviation turns_of d := (conversation_tasks (conversation_tables d)).
Abbreviation requests_of d := (conversation_update_requests (conversation_tables d)).

Definition set_tables (t : ConversationTables) (d : Db) : Db := with_conversations (λ _, t) d.

(** ** The invariant *)

Record keys_ok (t : ConversationTables) : Prop := {
  ko_check id c : agent_conversations t !! id = Some c → conversation_check c = true;
  ko_generation id c id' c' :
    agent_conversations t !! id = Some c → agent_conversations t !! id' = Some c' →
    cv_room_id c = cv_room_id c' → cv_generation c = cv_generation c' → id = id';
  ko_current id c id' c' :
    agent_conversations t !! id = Some c → agent_conversations t !! id' = Some c' →
    cv_room_id c = cv_room_id c' → cv_state c ≠ CvSuperseded → cv_state c' ≠ CvSuperseded → id = id';
  ko_turn_check task row : conversation_tasks t !! task = Some row → turn_check row = true;
  ko_request task row task' row' :
    conversation_tasks t !! task = Some row → conversation_tasks t !! task' = Some row' →
    tn_room_id (tn_turn row) = tn_room_id (tn_turn row') →
    tn_request_id (tn_turn row) = tn_request_id (tn_turn row') → task = task';
}.

(** The state of a conversation whose active turn is in this state. *)
Definition phase (s : TurnState) : ConversationState :=
  match s with TnReserved => CvReserved | _ => CvRunning end.

Definition has_event (d : Db) (room id : Uuid) : Prop :=
  ∃ e, e ∈ room_events d ∧ ev_event_id e = id ∧ ev_room_id e = room.

(** A conversation and the turns that belong to it agree on the composite key. *)
Definition belongs (turn : Turn) (c : ConversationRow) : Prop :=
  cv_room_id c = tn_room_id turn ∧ cv_agent_id c = tn_agent_id turn ∧
  cv_generation c = tn_generation turn.

Definition lease_ok (row : TurnRow) : Prop :=
  match tn_state row with
  | TnReserved => tn_lease_token row = None
  | TnRunning => is_Some (tn_lease_token row)
  | _ => True
  end.

(** A completed turn has an acknowledged reply, a message of the agent in its room. *)
Definition reply_ok (d : Db) (row : TurnRow) : Prop :=
  tn_state row = TnCompleted → ∃ e,
    e ∈ room_events d ∧ ev_room_id e = tn_room_id (tn_turn row) ∧
    tn_reply_event_id row = Some (ev_event_id e) ∧ ev_actor_id e = CODEX_AGENT_ID ∧
    ev_request_id e = tn_request_id (tn_turn row) ∧ is_Some (tn_receipt_acknowledgement row).

Record links_ok (d : Db) : Prop := {
  lo_turn task row : turns_of d !! task = Some row → ∃ c,
    conversations_of d !! tn_conversation_id (tn_turn row) = Some c ∧ belongs (tn_turn row) c ∧
    (in_flight (tn_state row) = true →
     cv_active_task_id c = Some task ∧ cv_state c = phase (tn_state row));
  lo_active id c task :
    conversations_of d !! id = Some c → cv_active_task_id c = Some task → ∃ row,
    turns_of d !! task = Some row ∧ tn_conversation_id (tn_turn row) = id ∧
    in_flight (tn_state row) = true;
  lo_lease task row : turns_of d !! task = Some row → lease_ok row;
  lo_trigger task row : turns_of d !! task = Some row →
    has_event d (tn_room_id (tn_turn row)) (tn_trigger_event_id (tn_turn row)) ∧
    is_Some (room_requests d !! (tn_room_id (tn_turn row), tn_request_id (tn_turn row)));
  lo_reply task row : turns_of d !! task = Some row → reply_ok d row;
  lo_ordinal task update q :
    requests_of d !! (task, update) = Some q → ∃ row,
    turns_of d !! task = Some row ∧ uq_ordinal q ≤ tn_last_update_ordinal row;
}.

Record conv_ok (d : Db) : Prop := {
  co_keys : keys_ok (conversation_tables d);
  co_links : links_ok d;
}.

Lemma empty_conv_ok : conv_ok empty_db.
Proof. split; split; intros; simpl in *; by rewrite lookup_empty in *. Qed.

(** ** What the statements do *)

Lemma existsb_map_false {K A} `{Countable K} (p : K * A → bool) (m : gmap K A) k a :
  existsb p (map_to_list m) = false → m !! k = Some a → p (k, a) = false.
Proof.
  intros Hp Hk. apply not_true_iff_false. intros Ht. rewrite <-not_true_iff_false in Hp. apply Hp.
  apply list_find_exists. exists (k, a). split; [|done]. by apply elem_of_map_to_list.
Qed.

Lemma put_conversation_Ok id row t t' :
  put_conversation id row t = Ok t' →
  conversation_check row = true ∧ conversation_conflict id row t = false ∧
  t' = with_agent_conversations <[id := row]> t.
Proof. unfold put_conversation. repeat case_match; intros; simplify_eq. by rewrite negb_false_iff in *. Qed.

Lemma checked_agent row : conversation_check row = true → cv_agent_id row = CODEX_AGENT_ID.
Proof. unfold conversation_check. rewrite !andb_true_iff, bool_decide_eq_true. tauto. Qed.

Lemma checked_active row :
  conversation_check row = true → busy (cv_state row) = true ↔ is_Some (cv_active_task_id row).
Proof.
  unfold conversation_check. rewrite !andb_true_iff, eqb_true_iff. intros [[_ Hb] _]. rewrite Hb.
  apply bool_decide_eq_true.
Qed.

Lemma conflict_free id row t k c :
  conversation_conflict id row t = false → agent_conversations t !! k = Some c → k ≠ id →
  cv_room_id c = cv_room_id row → cv_agent_id c = cv_agent_id row →
  cv_generation c ≠ cv_generation row ∧
  (cv_state c = CvSuperseded ∨ cv_state row = CvSuperseded).
Proof.
  intros Hc Hk Hne Hr Ha. eapply existsb_map_false in Hc; [|done]. simpl in Hc.
  rewrite bool_decide_false, bool_decide_true in Hc by done. simpl in Hc.
  apply orb_false_iff in Hc as [Hg%Z.eqb_neq Hs]. split; [done|].
  apply andb_false_iff in Hs as [Hs|Hs]; rewrite negb_false_iff, bool_decide_eq_true in Hs; auto.
Qed.

Lemma put_conversation_keys id row t t' :
  keys_ok t → put_conversation id row t = Ok t' →
  keys_ok t' ∧ t' = with_agent_conversations <[id := row]> t ∧ conversation_check row = true.
Proof.
  intros [Hch Hg Hcu Htc Hrq] (Hrow & Hcf & ->)%put_conversation_Ok. split; [|done].
  pose proof (checked_agent _ Hrow) as Ha.
  assert (∀ k c, agent_conversations t !! k = Some c → k ≠ id → cv_room_id c = cv_room_id row →
    cv_generation c ≠ cv_generation row ∧ (cv_state c = CvSuperseded ∨ cv_state row = CvSuperseded))
    as Hfree.
  { intros k c Hk Hne Hr. eapply conflict_free; [done..|]. rewrite Ha. by eapply checked_agent, Hch. }
  split; simpl; [..|done|done].
  - intros k c [[<- <-]|[_ Hk]]%lookup_insert_Some; [done|by eapply Hch].
  - intros k c k' c' [[<- <-]|[Hne Hk]]%lookup_insert_Some [[<- <-]|[Hne' Hk']]%lookup_insert_Some Hr Hgen;
      [done|..|by eapply Hg].
    + by destruct (Hfree _ _ Hk' (not_eq_sym Hne') (eq_sym Hr)).
    + by destruct (Hfree _ _ Hk (not_eq_sym Hne) Hr).
  - intros k c k' c' [[<- <-]|[Hne Hk]]%lookup_insert_Some [[<- <-]|[Hne' Hk']]%lookup_insert_Some Hr Hs Hs';
      [done|..|by eapply Hcu].
    + by destruct (Hfree _ _ Hk' (not_eq_sym Hne') (eq_sym Hr)) as [_ []].
    + by destruct (Hfree _ _ Hk (not_eq_sym Hne) Hr) as [_ []].
Qed.

Lemma insert_conversation_keys id row t t' :
  keys_ok t → insert_conversation id row t = Ok t' →
  keys_ok t' ∧ t' = with_agent_conversations <[id := row]> t ∧ conversation_check row = true ∧
  agent_conversations t !! id = None.
Proof.
  intros Ht. unfold insert_conversation. destruct (agent_conversations t !! id) eqn:Hid; [done|].
  intros Hput. by destruct (put_conversation_keys _ _ _ _ Ht Hput) as (? & ? & ?).
Qed.

(** An UPDATE of a row that exists and satisfies the condition. *)
Lemma update_conversation_keys id p f t t' c :
  keys_ok t → agent_conversations t !! id = Some c → p c = true →
  update_conversation id p f t = Ok t' →
  keys_ok t' ∧ t' = with_agent_conversations <[id := f c]> t ∧ conversation_check (f c) = true.
Proof.
  intros Ht Hc Hp. unfold update_conversation. rewrite Hc, Hp. by apply put_conversation_keys.
Qed.

Lemma turn_lease_checked row : turn_check row = true →
  is_Some (tn_lease_token row) ↔ is_Some (tn_lease_expires_at row).
Proof.
  unfold turn_check. rewrite !andb_true_iff. intros ((((_ & Hl) & _) & _) & _).
  destruct (tn_lease_owner row), (tn_lease_expires_at row), (tn_lease_token row); try done;
    split; intros []; done.
Qed.

(** An UPDATE of a turn keeps the columns that were written when it was reserved. *)
Lemma update_turn_keys task p f now d u d' row :
  keys_ok (conversation_tables d) → turns_of d !! task = Some row → p row = true →
  tn_turn (f row) = tn_turn row → update_turn task p f now d = Ok (u, d') →
  d' = set_tables (with_turns <[task := f row]> (conversation_tables d)) d ∧
  keys_ok (conversation_tables d') ∧ turn_check (f row) = true.
Proof.
  intros [Hch Hg Hcu Htc Hrq] Hrow Hp Hturn. unfold update_turn. rewrite Hrow, Hp.
  destruct (turn_check (f row)) eqn:Hck; simpl; [|done]. case_match; [done|].
  intros [= <- <-]. split_and!; [done| |done]. split; simpl; [exact Hch|exact Hg|exact Hcu|..].
  - intros k r [[<- <-]|[_ Hk]]%lookup_insert_Some; [done|by eapply Htc].
  - intros k r k' r' [[<- <-]|[_ Hk]]%lookup_insert_Some [[<- <-]|[_ Hk']]%lookup_insert_Some;
      rewrite ?Hturn; [done|by apply Hrq..].
Qed.

Lemma on_tables_Ok f now d u d' :
  on_tables f now d = Ok (u, d') →
  ∃ t, f (conversation_tables d) = Ok t ∧ d' = set_tables t d.
Proof.
  unfold on_tables. destruct (f (conversation_tables d)) eqn:Hf; simpl; [|done].
  intros [= <- <-]. eauto.
Qed.

Lemma db_ok_set_tables t d : db_ok d → db_ok (set_tables t d).
Proof. intros [Hi Hg Hq Ht Hu]. split; [exact Hi|exact Hg|exact Hq|exact Ht|exact Hu]. Qed.

(** ** Growth around the conversations *)

(** [d'] has the events and the request records of [d]. *)
Definition extends (d d' : Db) : Prop :=
  grows d d' ∧ ∀ key, is_Some (room_requests d !! key) → is_Some (room_requests d' !! key).

Global Instance extends_preorder : PreOrder extends.
Proof.
  split; [by split|]. intros d1 d2 d3 [Hg Hr] [Hg' Hr']. split; [by etrans|auto].
Qed.

Lemma extends_elem d d' e : extends d d' → e ∈ room_events d → e ∈ room_events d'.
Proof. intros [[new Hg] _] He. rewrite Hg. apply elem_of_app. by left. Qed.

Lemma has_event_extends d d' room id : extends d d' → has_event d room id → has_event d' room id.
Proof. intros Hx (e & He & ?). exists e. split; [by eapply extends_elem|done]. Qed.

Lemma reply_ok_extends d d' row : extends d d' → reply_ok d row → reply_ok d' row.
Proof.
  intros Hx Hr Hs. destruct (Hr Hs) as (e & He & ?). exists e. split; [by eapply extends_elem|done].
Qed.

(** What the room operations do leaves the conversations well formed. *)
Lemma conv_ok_extends d d' :
  extends d d' → conversation_tables d' = conversation_tables d → conv_ok d → conv_ok d'.
Proof.
  intros Hx Heq [Hk [Ht Ha Hl Htr Hr Ho]]. split; [by rewrite Heq|].
  split; rewrite Heq; [exact Ht|exact Ha|exact Hl|..|exact Ho].
  - intros task row Hrow. destruct (Htr _ _ Hrow) as [? ?]. split; [by eapply has_event_extends|].
    by apply Hx.
  - intros task row Hrow. eapply reply_ok_extends; [done|by eapply Hr].
Qed.

(** A turn in flight with its conversation. *)
Definition at_work (d : Db) (task : Uuid) (row : TurnRow) (c : ConversationRow) : Prop :=
  turns_of d !! task = Some row ∧
  conversations_of d !! tn_conversation_id (tn_turn row) = Some c ∧
  in_flight (tn_state row) = true.

(** The turn and its conversation are replaced together: the turn stays in flight and active, or
    it ends and the conversation is free. *)
Lemma step_turn_ok d d' task row c row' c' :
  conv_ok d → at_work d task row c → extends d d' → keys_ok (conversation_tables d') →
  conversations_of d' = <[tn_conversation_id (tn_turn row) := c']> (conversations_of d) →
  turns_of d' = <[task := row']> (turns_of d) →
  (∀ k u q, requests_of d' !! (k, u) = Some q →
     requests_of d !! (k, u) = Some q ∨ k = task ∧ uq_ordinal q ≤ tn_last_update_ordinal row') →
  tn_turn row' = tn_turn row → belongs (tn_turn row) c' →
  tn_last_update_ordinal row ≤ tn_last_update_ordinal row' →
  (if in_flight (tn_state row') then cv_active_task_id c' = Some task ∧ cv_state c' = phase (tn_state row')
   else cv_active_task_id c' = None) →
  lease_ok row' → reply_ok d' row' →
  conv_ok d'.
Proof.
  intros [Hk [Ht Ha Hl Htr Hr Ho]] (Hrow & Hc & Hf) Hx Hk' Hcs Hts Hq Hturn Hbel Hord Hact Hlease Hreply.
  assert (cv_active_task_id c = Some task) as Hca.
  { destruct (Ht _ _ Hrow) as (c0 & Hc0 & _ & Hin). assert (c0 = c) as -> by congruence. by apply Hin. }
  split; [done|]. split; rewrite ?Hcs, ?Hts.
  - intros k r [[<- <-]|[Hne Hkr]]%lookup_insert_Some.
    + exists c'. rewrite Hturn, lookup_insert_eq. split_and!; [done..|]. intros Hin. by rewrite Hin in Hact.
    + destruct (Ht _ _ Hkr) as (c0 & Hc0 & Hb0 & Hin0).
      destruct (decide (tn_conversation_id (tn_turn r) = tn_conversation_id (tn_turn row))) as [He|Hne'].
      * rewrite He in *. rewrite lookup_insert_eq. exists c'. assert (c0 = c) as -> by congruence.
        split_and!; [done|..].
        -- destruct Hb0 as (?&?&?), Hbel as (?&?&?), (Ht _ _ Hrow) as (c1 & Hc1 & (?&?&?) & _).
           assert (c1 = c) as -> by congruence. split_and!; congruence.
        -- intros Hin. destruct (Hin0 Hin) as [Hca0 _]. congruence.
      * rewrite lookup_insert_ne by done. by exists c0.
  - intros id c0 k [[<- <-]|[Hne Hc0]]%lookup_insert_Some Hak.
    + destruct (in_flight (tn_state row')) eqn:Hin; [|congruence].
      assert (k = task) as -> by (destruct Hact; congruence). exists row'.
      rewrite lookup_insert_eq. split_and!; [done|by rewrite Hturn|done].
    + destruct (Ha _ _ _ Hc0 Hak) as (r & Hkr & Hid & Hin).
      rewrite lookup_insert_ne; [by exists r|]. intros <-. congruence.
  - intros k r [[<- <-]|[_ Hkr]]%lookup_insert_Some; [done|by eapply Hl].
  - assert (∀ k r, turns_of d !! k = Some r →
      has_event d' (tn_room_id (tn_turn r)) (tn_trigger_event_id (tn_turn r)) ∧
      is_Some (room_requests d' !! (tn_room_id (tn_turn r), tn_request_id (tn_turn r)))) as Htr'.
    { intros k r Hkr. destruct (Htr _ _ Hkr). split; [by eapply has_event_extends|by apply Hx]. }
    intros k r [[<- <-]|[_ Hkr]]%lookup_insert_Some; [rewrite Hturn; by eapply Htr'|by eapply Htr'].
  - intros k r [[<- <-]|[_ Hkr]]%lookup_insert_Some; [done|]. eapply reply_ok_extends; [done|by eapply Hr].
  - intros k u q [Hold|[-> Hle]]%Hq; [|exists row'; by rewrite lookup_insert_eq].
    destruct (Ho _ _ _ Hold) as (r & Hkr & Hle). destruct (decide (task = k)) as [<-|Hne].
    + exists row'. rewrite lookup_insert_eq. split; [done|]. assert (r = row) as -> by congruence. lia.
    + exists r. by rewrite lookup_insert_ne.
Qed.

(** ** What never changes *)

(** A turn keeps what it was reserved with, its lease token once it has one and, when it is
    finished, everything; its ordinal only grows. *)
Definition turn_evolves (row row' : TurnRow) : Prop :=
  tn_turn row' = tn_turn row ∧
  (∀ token, tn_lease_token row = Some token → tn_lease_token row' = Some token ∧
     tn_lease_owner row' = tn_lease_owner row ∧ tn_lease_expires_at row' = tn_lease_expires_at row) ∧
  (in_flight (tn_state row) = false → row' = row) ∧
  (tn_state row = TnRunning → tn_state row' ≠ TnReserved) ∧
  tn_last_update_ordinal row ≤ tn_last_update_ordinal row'.

Global Instance turn_evolves_preorder : PreOrder turn_evolves.
Proof.
  split; [intros r; split_and!; try done; by intros ->|]. intros r1 r2 r3 (Ht & Hl & Hf & Hs & Ho) (Ht' & Hl' & Hf' & Hs' & Ho').
  split_and!; [congruence|..|lia].
  - intros token H. destruct (Hl _ H) as (H2 & ? & ?). destruct (Hl' _ H2) as (? & ? & ?).
    split_and!; congruence.
  - intros H. assert (r2 = r1) as -> by auto. auto.
  - intros H. destruct (tn_state r2) eqn:H2; [by apply Hs in H|by apply Hs'|..];
      rewrite Hf'; rewrite ?H2; done.
Qed.

(** Answers given to updates are kept. *)
Definition turns_evolve (d d' : Db) : Prop :=
  (∀ task row, turns_of d !! task = Some row → ∃ row', turns_of d' !! task = Some row' ∧ turn_evolves row row') ∧
  (∀ key q, requests_of d !! key = Some q → requests_of d' !! key = Some q).

Global Instance turns_evolve_preorder : PreOrder turns_evolve.
Proof.
  split.
  - intros d. split; [|done]. intros task row Hrow. by exists row.
  - intros d1 d2 d3 [H12 Hq12] [H23 Hq23]. split; [|auto]. intros task row Hrow.
    destruct (H12 _ _ Hrow) as (r2 & Hr2 & He2). destruct (H23 _ _ Hr2) as (r3 & Hr3 & He3).
    exists r3. split; [done|by etrans].
Qed.

Lemma turns_evolve_same d d' : conversation_tables d' = conversation_tables d → turns_evolve d d'.
Proof. intros Heq. unfold turns_evolve. rewrite Heq. apply (turns_evolve_preorder). Qed.

Lemma turns_evolve_step d d' task row row' :
  turns_of d !! task = Some row → turn_evolves row row' →
  turns_of d' = <[task := row']> (turns_of d) →
  (∀ key q, requests_of d !! key = Some q → requests_of d' !! key = Some q) → turns_evolve d d'.
Proof.
  intros Hrow Hev Hts Hq. split; [|done]. intros k r Hk. rewrite Hts.
  destruct (decide (task = k)) as [<-|Hne].
  - exists row'. rewrite lookup_insert_eq. split; [done|]. by assert (r = row) as -> by congruence.
  - exists r. by rewrite lookup_insert_ne.
Qed.
