(* ===== verification/ConversationSteps.v ===== *)
(** * Specifications of the conversation operations

    A transaction that works on one turn is followed statement by statement: [editing] says that
    the open transaction has the database it started from, except for this turn, its
    conversation, the events it appended and the updates it recorded. *)

From S2P Require Import Prelude Json Text Crates Types ConversationProtocol ConversationTables Protocol Mentions ActionItems MemoryEngine World Store StoreInvariant ConversationContext Catalog Rooms ConversationStore ConversationTurns ConversationUpdates ConversationInvariant.
Local Open Scope string_scope.
Local Open Scope list_scope.
Local Open Scope Z_scope.

Abbreviation UpdateRequests := (gmap (Uuid * Uuid) UpdateRequestRow).

Record turn_at (d0 : Db) (task : Uuid) (evs : list RoomEvent) (row : TurnRow) (c : ConversationRow)
    (q : UpdateRequests) (d : Db) : Prop := {
  ta_db : db_ok d;
  ta_events : room_events d = room_events d0 ++ evs;
  ta_room_requests : room_requests d = room_requests d0;
  ta_decisions : decisions d = decisions d0;
  ta_tasks : agent_tasks d = agent_tasks d0 ∧ agent_task_updates d = agent_task_updates d0;
  ta_keys : keys_ok (conversation_tables d);
  ta_conversations : conversations_of d = <[tn_conversation_id (tn_turn row) := c]> (conversations_of d0);
  ta_turns : turns_of d = <[task := row]> (turns_of d0);
  ta_requests : requests_of d = q;
}.

(** The transaction, as [tx_state], with the turn as [turn_at]. *)
Definition editing (cm : Db) (g : Gateway) (now : DateTime) (d0 : Db) (task : Uuid)
    (evs : list RoomEvent) (row : TurnRow) (c : ConversationRow) (q : UpdateRequests) (w : World) :
    Prop :=
  ∃ d, tx_state cm g now d w ∧ turn_at d0 task evs row c q d.

Lemma editing_settled cm g now d0 task evs row c q w :
  editing cm g now d0 task evs row c q w → settled cm g w.
Proof. intros (d & Hw & _). by eapply tx_state_settled. Qed.

Lemma turn_at_refl d task row c :
  db_ok d → conv_ok d → turns_of d !! task = Some row →
  conversations_of d !! tn_conversation_id (tn_turn row) = Some c →
  turn_at d task [] row c (requests_of d) d.
Proof.
  intros Hok [Hk _] Hrow Hc. split; try done; [by rewrite app_nil_r|by rewrite insert_id..].
Qed.

Lemma turn_at_extends d0 task evs row c q d : turn_at d0 task evs row c q d → extends d0 d.
Proof.
  intros Hta. split; [exists evs; apply Hta|]. intros key. by rewrite (ta_room_requests _ _ _ _ _ _ _ Hta).
Qed.

Section edits.
Context `{UuidCrate, Chrono, SerdeJson, Sha2, Schemas, Postgres, Oracle}.
Context (cm : Db) (g : Gateway) (now : DateTime) (d0 : Db) (task : Uuid).
Local Abbreviation ed := (editing cm g now d0 task).
Local Abbreviation quiet := (settled cm g).

Lemma wp_edit_now {E} evs row c q w Q (F : E → World → Prop) :
  ed evs row c q w → (∀ t w', ed evs row c q w' → Q t w') → wp World.now Q F w.
Proof.
  intros (d & Hw & Hta) HQ. eapply wp_now; [done|]. intros t w' Hw'. apply HQ. by exists d.
Qed.

Lemma wp_edit_new_v4 {E} evs row c q w Q (F : E → World → Prop) :
  ed evs row c q w → (∀ u w', ed evs row c q w' → Q u w') → wp new_v4 Q F w.
Proof.
  intros (d & Hw & Hta) HQ. eapply wp_new_v4; [done|]. intros t w' Hw'. apply HQ. by exists d.
Qed.

(** A SELECT sees the turn where it is. *)
Lemma wp_edit_select {A} (f : DateTime → Db → A) evs row c q w :
  ed evs row c q w →
  wp (unavailable (tx_query (select f)))
    (λ a w', ed evs row c q w' ∧ ∃ d, a = f now d ∧ turn_at d0 task evs row c q d) (λ _, quiet) w.
Proof.
  intros (d & Hw & Hta). unfold unavailable. wp_step. wp_use wp_tx_select; [done| |done].
  intros a w' [-> Hw']. split; by exists d.
Qed.

Lemma wp_edit_turn p (f : DateTime → TurnRow → TurnRow) evs row c q w :
  ed evs row c q w → p row = true → tn_turn (f now row) = tn_turn row →
  wp (unavailable (tx_query (λ t, update_turn task p (f t) t)))
    (λ _ w', ed evs (f now row) c q w') (λ _, quiet) w.
Proof.
  intros (d & Hw & Hta) Hp Hf. unfold unavailable. wp_step. wp_use wp_tx_query; [done| |done].
  intros [] w' (d' & Hq & Hw'). exists d'. split; [done|]. destruct Hta as [Hok ? ? ? ? Hk Hcs Hts ?].
  destruct (update_turn_keys task p (f now) now d () d' row Hk) as (-> & Hk' & _); try done.
  { by rewrite Hts, lookup_insert_eq. }
  split; try done; [by apply db_ok_set_tables|by rewrite Hf|]. simpl. rewrite Hts. apply insert_insert_eq.
Qed.

Lemma wp_edit_conversation p (f : DateTime → ConversationRow → ConversationRow) evs row c q w :
  ed evs row c q w → p c = true →
  wp (unavailable (tx_query (λ t, on_tables
        (update_conversation (tn_conversation_id (tn_turn row)) p (f t)) t)))
    (λ _ w', ed evs row (f now c) q w') (λ _, quiet) w.
Proof.
  intros (d & Hw & Hta) Hp. unfold unavailable. wp_step. wp_use wp_tx_query; [done| |done].
  intros [] w' (d' & (t & Ht & ->)%on_tables_Ok & Hw'). exists (set_tables t d). split; [done|].
  destruct Hta as [Hok ? ? ? ? Hk Hcs Hts ?].
  destruct (update_conversation_keys (tn_conversation_id (tn_turn row)) p (f now)
    (conversation_tables d) t c Hk) as (Hk' & -> & _); try done.
  { by rewrite Hcs, lookup_insert_eq. }
  split; try done; [by apply db_ok_set_tables|]. simpl. rewrite Hcs. apply insert_insert_eq.
Qed.

(** A statement on updates or disclosures. *)
Definition beside (f : ConversationTables → result SqlxError ConversationTables) : Prop :=
  ∀ t t', f t = Ok t' →
    agent_conversations t' = agent_conversations t ∧ conversation_tasks t' = conversation_tasks t ∧
    conversation_update_requests t' = conversation_update_requests t.

Lemma keys_ok_same t t' :
  agent_conversations t' = agent_conversations t → conversation_tasks t' = conversation_tasks t →
  keys_ok t → keys_ok t'.
Proof. intros Hc Ht []. split; rewrite ?Hc, ?Ht; done. Qed.

Lemma wp_edit_beside (f : DateTime → ConversationTables → result SqlxError ConversationTables)
    evs row c q w :
  ed evs row c q w → beside (f now) →
  wp (unavailable (tx_query (λ t, on_tables (f t) t))) (λ _ w', ed evs row c q w') (λ _, quiet) w.
Proof.
  intros (d & Hw & Hta) Hb. unfold unavailable. wp_step. wp_use wp_tx_query; [done| |done].
  intros [] w' (d' & (t & (Hc & Ht & Hr)%Hb & ->)%on_tables_Ok & Hw'). exists (set_tables t d). split; [done|].
  destruct Hta as [Hok ? ? ? ? Hk Hcs Hts ?]. split; try done; simpl; try congruence.
  - by apply db_ok_set_tables.
  - by eapply keys_ok_same.
Qed.

Lemma beside_insert_update k u r : beside (insert_update k u r).
Proof. intros t t'. unfold insert_update. repeat case_match; intros; by simplify_eq. Qed.

Lemma beside_delete_updates k p : beside (delete_updates k p).
Proof. intros t t' [= <-]. done. Qed.

Lemma beside_disclosure k s r : beside (insert_disclosure k s r).
Proof. intros t t'. unfold insert_disclosure. repeat case_match; intros; by simplify_eq. Qed.

Lemma wp_edit_request u r evs row c q w :
  ed evs row c q w →
  wp (unavailable (tx_query (on_tables (insert_update_request task u r))))
    (λ _ w', q !! (task, u) = None ∧ ed evs row c (<[(task, u) := r]> q) w') (λ _, quiet) w.
Proof.
  intros (d & Hw & Hta). unfold unavailable. wp_step. wp_use wp_tx_query; [done| |done].
  intros [] w' (d' & (t & Ht & ->)%on_tables_Ok & Hw').
  destruct Hta as [Hok ? ? ? ? Hk Hcs Hts Hq]. unfold insert_update_request in Ht.
  rewrite Hq in Ht. case_match; [done|]. case_match eqn:Hdup; [done|]. case_match; [done|].
  injection Ht as <-. apply orb_false_iff in Hdup as [Hnone%bool_decide_eq_false _].
  rewrite <-eq_None_not_Some in Hnone. split; [done|]. eexists. split; [done|].
  split; try done; simpl; [by apply db_ok_set_tables|by apply (keys_ok_same (conversation_tables d))|by rewrite Hq].
Qed.

Lemma wp_edit_append e evs row c q w :
  ed evs row c q w →
  wp (unavailable (append_event_in_transaction e))
    (λ r w', ed (evs ++ [r]) row c q w' ∧ ∃ id n, r = event_row id e n) (λ _, quiet) w.
Proof.
  intros (d & Hw & Hta). unfold unavailable. wp_step. wp_use wp_append; [done|apply Hta| |done].
  intros r w' (id & _ & -> & Hok & Hw'). split; [|by eexists _, _]. eexists. split; [done|].
  destruct Hta. split; try done. simpl. by rewrite ta_events0, app_assoc.
Qed.

Lemma wp_edit_authority policy view lease claim evs row c q w :
  ed evs row c q w →
  wp (task_authority policy view lease claim)
    (λ _ w', ed evs row c q w' ∧ ∃ t, task_authority_at policy view lease claim t = Ok ())
    (λ e w', ed evs row c q w' ∧ ∃ t, task_authority_at policy view lease claim t = Err e) w.
Proof.
  intros Hed. unfold task_authority. wp_step. eapply wp_edit_now; [done|]. intros t w' Hed'.
  wp_step; (split; [done|]); exists t; [by destruct a|done].
Qed.

(** ** Failing a turn *)

Definition failed_row (error : ConversationError) (row : TurnRow) : TurnRow :=
  set_failed (pg_json (json_failure error)) now row.

Definition freed (c : ConversationRow) : ConversationRow :=
  set_conversation CvUnusable None (cv_selected_settings c) (cv_consumed_revision c) now c.

Lemma fail_task_state_spec view error evs row c q w :
  ed evs row c q w → tv_task view = task →
  tn_conversation_id (tn_turn (tv_row view)) = tn_conversation_id (tn_turn row) →
  in_flight (tn_state row) = true → cv_active_task_id c = Some task →
  wp (fail_task_state view error) (λ _ w', ed evs (failed_row error row) (freed c) q w')
    (λ _, quiet) w.
Proof.
  intros Hed Htask Hcid Hf Ha. unfold fail_task_state. rewrite Htask, Hcid. wp_step.
  wp_use (wp_edit_turn _ (λ t, set_failed (pg_json (json_failure error)) t)); [done|done|done| |done].
  intros [] w1 Hed1. wp_use (wp_edit_conversation _ (λ t c, set_conversation CvUnusable None
    (cv_selected_settings c) (cv_consumed_revision c) t c) _ (failed_row error row)); [done| |done|done].
  by apply bool_decide_eq_true.
Qed.

Lemma fail_task_spec view error evs row c q w :
  ed evs row c q w → tv_task view = task → tn_turn (tv_row view) = tn_turn row →
  in_flight (tn_state row) = true → cv_active_task_id c = Some task →
  wp (fail_task view error)
    (λ _ w', tn_last_update_ordinal (tv_row view) < MAX_SAFE_INTEGER ∧
       ed evs (set_progress (tn_last_progress_at row) (tn_last_update_ordinal (tv_row view) + 1)
                 (failed_row error row)) (freed c) q w')
    (λ _, quiet) w.
Proof.
  intros Hed Htask Hturn Hf Ha. unfold fail_task. wp_step.
  wp_use fail_task_state_spec; [done|done|by rewrite Hturn|done|done| |done].
  intros [] w1 Hed1. destruct (Z.ltb_spec MAX_SAFE_INTEGER (tn_last_update_ordinal (tv_row view) + 1)).
  { wp_step. by eapply editing_settled. }
  wp_step. eapply wp_edit_new_v4; [done|]. intros u w2 Hed2. wp_step. rewrite Htask.
  wp_use (wp_edit_beside (λ t, insert_update task u _)); [done|apply beside_insert_update| |done].
  intros [] w3 Hed3.
  wp_use (wp_edit_turn _ (λ _ r, set_progress (tn_last_progress_at r) _ r)); [done|done|done| |done].
  intros [] w4 Hed4. split; [lia|done].
Qed.
End edits.

(** ** What a committed transaction did *)

(** One transaction on conversations: the invariants hold again, history is kept, the rest of the
    database is untouched. *)
Record conv_step (d d' : Db) : Prop := {
  cs_db : db_ok d';
  cs_conv : conv_ok d';
  cs_extends : extends d d';
  cs_turns : turns_evolve d d';
  cs_decisions : decisions d' = decisions d;
  cs_tasks : agent_tasks d' = agent_tasks d ∧ agent_task_updates d' = agent_task_updates d;
}.

Lemma conv_step_refl d : db_ok d → conv_ok d → conv_step d d.
Proof. by split. Qed.

Lemma conv_step_trans d1 d2 d3 : conv_step d1 d2 → conv_step d2 d3 → conv_step d1 d3.
Proof.
  intros [_ _ Hx Ht Hd [Ha Hu]] [Hok Hc Hx' Ht' Hd' [Ha' Hu']].
  split; [done|done|by etrans|by etrans|congruence|split; congruence].
Qed.

Lemma joined_task_Some task d view :
  joined_task task d = Some view ↔
  tv_task view = task ∧ turns_of d !! task = Some (tv_row view) ∧
  tn_agent_id (tn_turn (tv_row view)) = CODEX_AGENT_ID ∧
  conversations_of d !! tn_conversation_id (tn_turn (tv_row view)) = Some (tv_conversation view) ∧
  belongs (tn_turn (tv_row view)) (tv_conversation view).
Proof.
  unfold joined_task, turn_of. split.
  - destruct (turns_of d !! task) as [row|] eqn:Hrow; simpl; [|done].
    case_bool_decide as Ha; simpl; [|done].
    destruct (conversations_of d !! _) as [c|] eqn:Hc; simpl; [|done].
    case_bool_decide; [|done]. intros [= <-]. done.
  - intros (<- & -> & Ha & Hc & Hb). simpl. rewrite bool_decide_true by done. simpl.
    rewrite Hc. simpl. rewrite bool_decide_true by done. by destruct view.
Qed.

(** The conversation of a turn in flight is busy with it. *)
Lemma at_work_active d task row c :
  conv_ok d → at_work d task row c →
  cv_active_task_id c = Some task ∧ cv_state c = phase (tn_state row) ∧ belongs (tn_turn row) c ∧
  lease_ok row.
Proof.
  intros [_ [Ht _ Hl _ _ _]] (Hrow & Hc & Hf). destruct (Ht _ _ Hrow) as (c0 & Hc0 & Hb & Hin).
  assert (c0 = c) as -> by congruence. destruct (Hin Hf). split_and!; try done. by eapply Hl.
Qed.

Lemma view_at_work d task view :
  joined_task task d = Some view → in_flight (tn_state (tv_row view)) = true →
  at_work d task (tv_row view) (tv_conversation view).
Proof. intros (_ & ? & _ & ? & _)%joined_task_Some ?. done. Qed.

(** The turn ends or goes on; its conversation is freed or stays busy with it. *)
Definition settles (task : Uuid) (row : TurnRow) (c : ConversationRow) : Prop :=
  if in_flight (tn_state row) then cv_active_task_id c = Some task ∧ cv_state c = phase (tn_state row)
  else cv_active_task_id c = None.

Lemma turn_at_step d0 task evs row0 c0 row c q d :
  conv_ok d0 → at_work d0 task row0 c0 → turn_at d0 task evs row c q d →
  turn_evolves row0 row → belongs (tn_turn row0) c → settles task row c → lease_ok row →
  reply_ok d row →
  (∀ key r, requests_of d0 !! key = Some r → q !! key = Some r) →
  (∀ k u r, q !! (k, u) = Some r →
     requests_of d0 !! (k, u) = Some r ∨ k = task ∧ uq_ordinal r ≤ tn_last_update_ordinal row) →
  conv_step d0 d.
Proof.
  intros Hconv Hwork Hta Hev Hbel Hset Hlease Hreply Hkept Hq.
  pose proof Hev as (Hturn & _ & _ & _ & Hord). pose proof (turn_at_extends _ _ _ _ _ _ _ Hta) as Hx.
  destruct Hta as [Hok _ _ Hd Ht Hk Hcs Hts Hreq]. rewrite Hturn in Hcs.
  split; [done| |done| |done|done].
  - eapply (step_turn_ok d0 d task row0 c0 row c); try done. by rewrite Hreq.
  - eapply (turns_evolve_step d0 d task row0 row); [apply Hwork|done|done|]. by rewrite Hreq.
Qed.

Section transactions.
Context `{UuidCrate, Chrono, SerdeJson, Sha2, Schemas, Postgres, Oracle}.

Lemma wp_task_in_transaction task cm g now d w :
  tx_state cm g now d w →
  wp (task_in_transaction task)
    (λ view w', joined_task task d = Some view ∧ tx_state cm g now d w') (λ _, settled cm g) w.
Proof.
  intros Hw. unfold task_in_transaction. wp_step. unfold unavailable. wp_step.
  wp_use wp_tx_select; [done| |done]. intros found w1 [-> Hw1]. wp_step; [|by eapply tx_state_settled].
  match goal with H : ok_or _ _ = Ok _ |- _ => by apply ok_or_Ok in H end.
Qed.

Lemma wp_authority policy view lease claim cm g now d w :
  tx_state cm g now d w →
  wp (task_authority policy view lease claim)
    (λ _ w', tx_state cm g now d w' ∧ ∃ t, task_authority_at policy view lease claim t = Ok ())
    (λ e w', tx_state cm g now d w' ∧ ∃ t, task_authority_at policy view lease claim t = Err e) w.
Proof.
  intros Hw. unfold task_authority. wp_step. eapply wp_now; [done|]. intros t w' Hw'.
  wp_step; (split; [done|]); exists t; [by destruct a|done].
Qed.

(** Failing a turn in flight: it is failed with one more update and its conversation is unusable. *)
Lemma fail_step d0 task row0 c0 now error d :
  conv_ok d0 → at_work d0 task row0 c0 →
  turn_at d0 task [] (set_progress (tn_last_progress_at row0) (tn_last_update_ordinal row0 + 1)
    (failed_row now error row0)) (freed now c0) (requests_of d0) d →
  conv_step d0 d ∧ ∃ row, turns_of d !! task = Some row ∧ tn_state row = TnFailed.
Proof.
  intros Hconv Hwork Hta. pose proof (at_work_active _ _ _ _ Hconv Hwork) as (_ & _ & Hb & _).
  assert (in_flight (tn_state row0) = true) as Hf by apply Hwork. split.
  - eapply turn_at_step; [done|done|done|..]; try done; [|by left].
    split_and!; simpl; try done; [congruence|lia].
  - eexists. rewrite (ta_turns _ _ _ _ _ _ _ Hta), lookup_insert_eq. done.
Qed.

Lemma wp_fail_task view error cm g now d w :
  tx_state cm g now d w → db_ok d → conv_ok d → joined_task (tv_task view) d = Some view →
  in_flight (tn_state (tv_row view)) = true →
  wp (fail_task view error)
    (λ _ w', ∃ d', tx_state cm g now d' w' ∧ conv_step d d' ∧ room_events d' = room_events d ∧
       ∃ row, turns_of d' = <[tv_task view := row]> (turns_of d) ∧ tn_state row = TnFailed)
    (λ _, settled cm g) w.
Proof.
  intros Hw Hok Hconv Hview Hf. pose proof (view_at_work _ _ _ Hview Hf) as Hwork.
  pose proof (at_work_active _ _ _ _ Hconv Hwork) as (Ha & _). destruct Hwork as (Hrow & Hc & _).
  wp_use (fail_task_spec cm g now d (tv_task view) view error [] (tv_row view) (tv_conversation view)
    (requests_of d)); [|done|done|done|done| |done].
  - exists d. split; [done|]. by apply turn_at_refl.
  - intros [] w' (_ & d' & Hw' & Hta). exists d'. split; [done|].
    destruct (fail_step d (tv_task view) (tv_row view) (tv_conversation view) now error d') as [Hst _]; try done.
    split_and!; [done|by rewrite (ta_events _ _ _ _ _ _ _ Hta), app_nil_r|].
    eexists. split; [apply Hta|done].
Qed.

(** What an operation that may have committed leaves behind. *)
Definition stepped (cm : Db) (g : Gateway) (w : World) : Prop :=
  ∃ d, settled d g w ∧ conv_step cm d.

Lemma settled_stepped cm g w : db_ok cm → conv_ok cm → settled cm g w → stepped cm g w.
Proof. intros ? ? ?. exists cm. split; [done|by apply conv_step_refl]. Qed.

Lemma stepped_trans cm d g w : conv_step cm d → stepped d g w → stepped cm g w.
Proof. intros ? (d' & ? & ?). exists d'. split; [done|by eapply conv_step_trans]. Qed.

Lemma wp_commit_step cm g now d w :
  tx_state cm g now d w → db_ok cm → conv_ok cm → conv_step cm d →
  wp (unavailable commit_tx) (λ _, settled d g) (λ _, stepped cm g) w.
Proof.
  intros Hw Hok Hc Hst. unfold unavailable. wp_step. wp_use wp_commit; [done|done|].
  intros e w' [?|?]; [by apply settled_stepped|by exists d].
Qed.

Lemma wp_start {Q : () → World → Prop} {F} cm g w :
  settled cm g w → (∀ now w', tx_state cm g now cm w' → Q () w') → (∀ e w', settled cm g w' → F e w') →
  wp (unavailable begin_tx) Q F w.
Proof.
  intros Hw HQ HF. unfold unavailable. wp_step. wp_use wp_begin; [done| |].
  - intros [] w' [now Hw']. by eapply HQ.
  - intros e w' ?. by apply HF.
Qed.

(** The first statements of an operation on one turn. *)
Lemma wp_turn_room task cm g now d w :
  tx_state cm g now d w →
  wp (unavailable (tx_query (select (λ _ d, (λ row, tn_room_id (tn_turn row)) <$> turn_of task d))))
    (λ _, tx_state cm g now d) (λ _, settled cm g) w.
Proof.
  intros Hw. unfold unavailable. wp_step. wp_use wp_tx_select; [done| |done]. by intros a w' [_ ?].
Qed.

Lemma wp_lock room cm g now d w :
  tx_state cm g now d w →
  wp (unavailable (lock_room room)) (λ _, tx_state cm g now d) (λ _, settled cm g) w.
Proof. intros Hw. unfold unavailable. wp_step. by wp_use wp_lock_room. Qed.

(** Failing a turn and committing. *)
Lemma wp_fail_commit {A} view error cm g now w (k : Conv A) (F : ConversationError → World → Prop) Q :
  tx_state cm g now cm w → db_ok cm → conv_ok cm → joined_task (tv_task view) cm = Some view →
  in_flight (tn_state (tv_row view)) = true →
  (∀ d w', settled d g w' → conv_step cm d → room_events d = room_events cm →
     (∃ row, turns_of d = <[tv_task view := row]> (turns_of cm) ∧ tn_state row = TnFailed) → wp k Q F w') →
  (∀ e w', stepped cm g w' → F e w') →
  wp (_ ← fail_task view error; _ ← unavailable commit_tx; k) Q F w.
Proof.
  intros Hw Hok Hc Hview Hf Hk HF. wp_step. wp_use wp_fail_task; [done..| |].
  - intros [] w1 (d & Hw1 & Hst & Hev & Hrow). wp_step. wp_use wp_commit_step; [done..| |].
    + intros [] w2 Hw2. by eapply Hk.
    + intros e w2 ?. by apply HF.
  - intros e w1 ?. by apply HF, settled_stepped.
Qed.

(** ** The packet of a lease *)

Lemma packet_steps policy task lease cm g w :
  settled cm g w → db_ok cm → conv_ok cm →
  wp (packet policy task lease) (λ _, settled cm g) (λ _, stepped cm g) w.
Proof.
  intros Hw Hok Hc. pose proof (λ w, settled_stepped cm g w Hok Hc) as Hquiet. unfold packet. wp_step.
  eapply wp_start; [done| |naive_solver]. intros now w1 Hw1. wp_step.
  wp_use wp_turn_room; [done| |naive_solver]. intros room w2 Hw2. wp_step.
  wp_step; [|apply Hquiet; by eapply tx_state_settled]. wp_step.
  wp_use wp_lock; [done| |naive_solver]. intros [] w3 Hw3. wp_step.
  wp_use wp_task_in_transaction; [done| |naive_solver]. intros view w4 [Hview Hw4]. wp_step. wp_step.
  assert (tv_task view = task) as <- by (by apply joined_task_Some in Hview as [? _]).
  wp_use wp_authority; [done|..].
  - intros [] w5 [Hw5 _]. wp_step. wp_step; [|apply Hquiet; by eapply tx_state_settled].
    wp_step. by eapply tx_state_settled.
  - intros e w5 [Hw5 _]. wp_step. wp_step.
    + match goal with Hb : _ && _ && _ = true |- _ => apply andb_true_iff in Hb as [_ Hf] end.
      wp_step. wp_use wp_fail_task; [done..| |naive_solver].
      intros [] w6 (d' & Hw6 & Hst & _). wp_use wp_commit_step; [done..| |naive_solver].
      intros [] w7 Hw7. wp_step. by exists d'.
    + wp_step. wp_step. apply Hquiet; by eapply tx_state_settled.
Qed.
End transactions.
