(* ===== verification/ConversationClaims.v ===== *)
(** * Claiming a turn

    Specification of [claim]: candidates that lost their authority are failed, and the first one
    that has it is granted to the caller under a fresh token. *)

From S2P Require Import Prelude Json Text Crates Types ConversationProtocol ConversationTables Protocol Mentions ActionItems MemoryEngine World Store StoreInvariant ConversationContext Catalog Rooms ConversationStore ConversationTurns ConversationUpdates ConversationInvariant ConversationSteps.
Local Open Scope string_scope.
Local Open Scope list_scope.
Local Open Scope Z_scope.

(** How many turns wait or run. *)
Definition in_flight_turns (d : Db) : gset Uuid :=
  dom (filter (λ kv : Uuid * TurnRow, in_flight (tn_state kv.2) = true) (turns_of d)).

Lemma in_flight_turns_elem d task :
  task ∈ in_flight_turns d ↔ ∃ row, turns_of d !! task = Some row ∧ in_flight (tn_state row) = true.
Proof.
  unfold in_flight_turns. rewrite elem_of_dom. unfold is_Some. setoid_rewrite map_lookup_filter_Some.
  done.
Qed.

Lemma in_flight_turns_failed d d' task row row' :
  turns_of d !! task = Some row → in_flight (tn_state row) = true →
  turns_of d' = <[task := row']> (turns_of d) → tn_state row' = TnFailed →
  in_flight_turns d' = in_flight_turns d ∖ {[task]} ∧ task ∈ in_flight_turns d.
Proof.
  intros Hrow Hf Hts Hs. split; [|apply in_flight_turns_elem; by eexists].
  apply set_eq. intros k. rewrite elem_of_difference, !in_flight_turns_elem, elem_of_singleton, Hts. split.
  - intros (r & [[<- <-]|[Hne Hk]]%lookup_insert_Some & Hin); [by rewrite Hs in Hin|].
    split; [by exists r|done].
  - intros [(r & Hk & Hin) Hne]. exists r. by rewrite lookup_insert_ne.
Qed.

Section claims.
Context `{UuidCrate, Chrono, SerdeJson, Sha2, Schemas, Postgres, Oracle}.

(** ** Authority *)

Lemma require_enabled_Ok policy agent u :
  require_enabled policy agent = Ok u → agent = CODEX_AGENT_ID ∧ cp_enabled policy = true.
Proof.
  unfold require_enabled. case_bool_decide; simpl; [|done]. by destruct (cp_enabled policy).
Qed.

(** What a worker may rely on while its authority stands. *)
Record authorized (policy : ConversationPolicy) (view : TaskView) (t : DateTime) : Prop := {
  au_enabled : cp_enabled policy = true;
  au_policy : policy_stands policy (tv_row view) = true;
  au_authorization : t < tn_authorization_expires_at (tn_turn (tv_row view));
  au_deadline : t < tn_expires_at (tn_turn (tv_row view));
  au_in_flight : in_flight (tn_state (tv_row view)) = true;
  au_active : cv_active_task_id (tv_conversation view) = Some (tv_task view);
  au_busy : busy (cv_state (tv_conversation view)) = true;
}.

Lemma authority_Ok policy view lease claim t :
  task_authority_at policy view lease claim t = Ok () →
  authorized policy view t ∧
  if claim then tn_state (tv_row view) = TnReserved ∧ tn_lease_token (tv_row view) = None
  else is_Some lease ∧ tn_lease_token (tv_row view) = lease ∧
       ∃ expiry, tn_lease_expires_at (tv_row view) = Some expiry ∧ t < expiry.
Proof.
  unfold task_authority_at. intros ([] & Hen & Hr)%rbind_Ok.
  apply require_enabled_Ok in Hen as [_ Hen].
  apply rbind_Ok in Hr as ([] & Hp & Hr). apply reject_if_Ok, negb_false_iff in Hp.
  apply rbind_Ok in Hr as ([] & Hau & Hr). apply reject_if_Ok, Z.leb_gt in Hau.
  apply rbind_Ok in Hr as ([] & Hex & Hr). apply reject_if_Ok, Z.leb_gt in Hex.
  apply rbind_Ok in Hr as ([] & Hs & Hr). apply reject_if_Ok in Hs.
  rewrite !orb_false_iff, !negb_false_iff, bool_decide_eq_true in Hs. destruct Hs as [[Hf Ha] Hb].
  split; [by split|]. destruct claim.
  - apply reject_if_Ok, orb_false_iff in Hr as [Hs Ht].
    rewrite negb_false_iff, bool_decide_eq_true in Hs.
    rewrite bool_decide_eq_false, <-eq_None_not_Some in Ht. done.
  - apply rbind_Ok in Hr as ([] & Hl & Hr). apply reject_if_Ok, orb_false_iff in Hl as [Hl Ht].
    rewrite negb_false_iff, bool_decide_eq_true in Hl, Ht.
    destruct (tn_lease_expires_at (tv_row view)) as [expiry|]; simpl in Hr; [|done].
    destruct (Z.leb_spec expiry t); simpl in Hr; [done|]. eauto.
Qed.

(** ** The candidate *)

Lemma claim_candidate_Some now d task room :
  claim_candidate now d = Some (task, room) → ∃ row,
  turns_of d !! task = Some row ∧ needs_worker now row = true ∧ head (turn_queue now d) = Some (task, row).
Proof.
  unfold claim_candidate. destruct (head (turn_queue now d)) as [[k row]|] eqn:Hh; simpl; [|done].
  intros [= <- <-]. exists row. apply head_Some in Hh as Hh'. destruct Hh' as [rest Hq].
  assert ((k, row) ∈ turn_queue now d) as Hin by (rewrite Hq; set_solver).
  unfold turn_queue in Hin. rewrite merge_sort_Permutation in Hin.
  apply list_elem_of_In, filter_In in Hin as [Hin Hp]. apply list_elem_of_In, elem_of_map_to_list in Hin.
  simpl in Hp. apply andb_true_iff in Hp as [_ Hp]. done.
Qed.

Lemma needs_worker_in_flight now row : needs_worker now row = true → in_flight (tn_state row) = true.
Proof. unfold needs_worker. by destruct (tn_state row). Qed.

(** ** The grant *)

Definition lease_expiry (policy : ConversationPolicy) (turn : Turn) : DateTime :=
  Z.min (tn_expires_at turn + seconds (cp_interrupt_grace_seconds policy))
    (tn_authorization_expires_at turn).

(** The turn of [view] is granted to [owner] under [token]: it runs, with its conversation, and
    nothing else has changed. *)
Definition granted (policy : ConversationPolicy) (owner : string) (view : TaskView) (token : Uuid)
    (d d' : Db) : Prop :=
  ∃ now,
    turns_of d' = <[tv_task view := set_leased owner token
      (pg_time (lease_expiry policy (tn_turn (tv_row view)))) now (tv_row view)]> (turns_of d) ∧
    conversations_of d' = <[tn_conversation_id (tn_turn (tv_row view)) :=
      set_conversation CvRunning (Some (tv_task view)) (cv_selected_settings (tv_conversation view))
        (cv_consumed_revision (tv_conversation view)) now (tv_conversation view)]> (conversations_of d) ∧
    requests_of d' = requests_of d ∧ room_events d' = room_events d.

Definition claim_response (policy : ConversationPolicy) (owner : string) (view : TaskView)
    (token : Uuid) : Value :=
  json_object
    [("packet", leased_packet (tn_frozen_input (tn_turn (tv_row view))) (Str owner)
        (json_time (lease_expiry policy (tn_turn (tv_row view)))));
     ("leaseToken", json_uuid token)].

(** A claim granted the turn of [view], as it was in [d], where [t] is the instant of the check. *)
Record claimed (policy : ConversationPolicy) (owner : string) (d d' : Db) (response : Value) : Prop := {
  cl_grant : ∃ view token t,
    joined_task (tv_task view) d = Some view ∧ authorized policy view t ∧
    tn_state (tv_row view) = TnReserved ∧ tn_lease_token (tv_row view) = None ∧
    granted policy owner view token d d' ∧ response = claim_response policy owner view token;
}.

Lemma grant_turn_spec policy owner view t cm g now w :
  tx_state cm g now cm w → db_ok cm → conv_ok cm → joined_task (tv_task view) cm = Some view →
  authorized policy view t → tn_state (tv_row view) = TnReserved → tn_lease_token (tv_row view) = None →
  wp (grant_turn policy owner view)
    (λ v w', ∃ d, settled d g w' ∧ conv_step cm d ∧ claimed policy owner cm d v) (λ _, stepped cm g) w.
Proof.
  intros Hw Hok Hc Hview Hau Hs Htok. pose proof (view_at_work _ _ _ Hview (au_in_flight _ _ _ Hau)) as Hwork.
  pose proof (at_work_active _ _ _ _ Hc Hwork) as (Ha & _ & Hb & _). pose proof Hwork as (Hrow & Hcv & _).
  pose proof (λ w, settled_stepped cm g w Hok Hc) as Hquiet.
  assert (editing cm g now cm (tv_task view) [] (tv_row view) (tv_conversation view) (requests_of cm) w) as Hed.
  { exists cm. split; [done|]. by apply turn_at_refl. }
  unfold grant_turn. wp_step. eapply wp_edit_new_v4; [done|]. intros token w1 Hed1. wp_step.
  wp_use (wp_edit_turn _ _ _ _ _ _ (λ t, set_leased owner token _ t)); [done|done|done| |naive_solver].
  intros [] w2 Hed2. wp_step.
  wp_use (wp_edit_conversation _ _ _ _ _ _ (λ t c, set_conversation CvRunning (cv_active_task_id c)
    (cv_selected_settings c) (cv_consumed_revision c) t c) _ (set_leased _ _ _ _ _));
    [exact Hed2|done| |naive_solver].
  intros [] w3 (d & Hw3 & Hta). wp_step. wp_step; [|apply Hquiet; by eapply tx_state_settled].
  wp_step. rewrite Ha in Hta.
  assert (conv_step cm d) as Hst.
  { eapply turn_at_step; [done|done|done|..]; try done; [|by eexists|by left].
    split_and!; simpl; try done; [congruence|by rewrite Hs]. }
  wp_use wp_commit_step; [done..| |done]. intros [] w4 Hw4. wp_step. exists d.
  split_and!; [done..|]. split. exists view, token, t. split_and!; try done. exists now.
  destruct Hta as [_ Hev _ _ _ _ Hcs Hts Hq]. rewrite Hcs, Hts, Hq, Hev, app_nil_r. done.
Qed.

(** ** The loop *)

(** Up to [n] candidates were failed, one after the other. *)
Definition retired (n : nat) (d d' : Db) : Prop :=
  conv_step d d' ∧ room_events d' = room_events d ∧ in_flight_turns d' ⊆ in_flight_turns d ∧
  (size (in_flight_turns d') + n ≤ size (in_flight_turns d))%nat.

Lemma retired_refl d : db_ok d → conv_ok d → retired 0 d d.
Proof. intros. split_and!; [by apply conv_step_refl|done|done|lia]. Qed.

Lemma retired_trans n m d1 d2 d3 : retired n d1 d2 → retired m d2 d3 → retired (n + m) d1 d3.
Proof.
  intros (Hs & He & Hi & Hn) (Hs' & He' & Hi' & Hn').
  split_and!; [by eapply conv_step_trans|congruence|set_solver|lia].
Qed.

Lemma retired_one d d' task row row' :
  conv_step d d' → room_events d' = room_events d → turns_of d !! task = Some row →
  in_flight (tn_state row) = true → turns_of d' = <[task := row']> (turns_of d) →
  tn_state row' = TnFailed → retired 1 d d'.
Proof.
  intros Hst Hev Hrow Hf Hts Hs.
  destruct (in_flight_turns_failed d d' task row row') as [Heq Hin]; [done..|].
  split_and!; [done|done|set_solver|]. rewrite Heq, size_difference by set_solver.
  rewrite size_singleton. assert (size (in_flight_turns d) ≠ 0)%nat; [|lia].
  intros Hz. apply size_empty_inv in Hz. set_solver.
Qed.

(** The answer of a loop that may still make [n] turns. *)
Definition claim_answer (policy : ConversationPolicy) (owner : string) (n : nat) (d d' : Db)
    (r : option Value) : Prop :=
  match r with
  | Some v => ∃ k d1, retired k d d1 ∧ conv_step d1 d' ∧ claimed policy owner d1 d' v
  | None => retired n d d' ∨ ∃ k now, retired k d d' ∧ turn_queue now d' = []
  end.

Lemma claim_loop_spec n policy owner cm g w :
  settled cm g w → db_ok cm → conv_ok cm →
  wp (claim_loop n policy owner)
    (λ r w', ∃ d, settled d g w' ∧ conv_step cm d ∧ claim_answer policy owner n cm d r)
    (λ _, stepped cm g) w.
Proof.
  revert cm w. induction n as [|n IH]; intros cm w Hw Hok Hc; simpl.
  { wp_step. exists cm. split_and!; [done|by apply conv_step_refl|]. left. by apply retired_refl. }
  pose proof (λ w, settled_stepped cm g w Hok Hc) as Hquiet. wp_step.
  eapply wp_start; [done| |naive_solver]. intros now w1 Hw1. wp_step. unfold unavailable at 1. wp_step.
  wp_use wp_advisory_lock; [done| |naive_solver]. intros [] w2 Hw2. wp_step. unfold unavailable at 1. wp_step.
  wp_use wp_tx_select; [done| |naive_solver]. intros candidate w3 [-> Hw3].
  destruct (claim_candidate now cm) as [[task room]|] eqn:Hcand.
  2: { wp_step. exists cm. split_and!; [by eapply tx_state_settled|by apply conv_step_refl|].
       right. exists 0%nat, now. split; [by apply retired_refl|]. unfold claim_candidate in Hcand.
       by destruct (turn_queue now cm). }
  apply claim_candidate_Some in Hcand as (row & Hrow & Hneeds & _). wp_step.
  wp_use wp_lock; [done| |naive_solver]. intros [] w4 Hw4. wp_step.
  wp_use wp_task_in_transaction; [done| |naive_solver]. intros view w5 [Hview Hw5]. wp_step. wp_step.
  pose proof Hview as (Htask & Hrow' & _)%joined_task_Some. subst task.
  assert (row = tv_row view) as -> by congruence. apply needs_worker_in_flight in Hneeds as Hf.
  wp_use wp_authority; [done|..].
  - intros [] w6 [Hw6 (t & (Hau & Hs & Htok)%authority_Ok)]. wp_step.
    wp_use grant_turn_spec; [done..| |done]. intros v w7 (d & Hw7 & Hst & Hcl). wp_step.
    exists d. split_and!; [done..|]. exists 0%nat, cm. split_and!; [by apply retired_refl|done..].
  - intros e w6 [Hw6 _]. eapply wp_fail_commit; [done..| |done].
    intros d w7 Hw7 Hst Hev (row' & Hts & Hs).
    assert (retired 1 cm d) as Hone by (by eapply retired_one).
    wp_use IH; [done|apply Hst|apply Hst| |].
    + intros r w8 (d' & Hw8 & Hst' & Hans). exists d'.
      split_and!; [done|by eapply conv_step_trans|]. destruct r as [v|].
      * destruct Hans as (k & d1 & Hret & Hst1 & Hcl). exists (1 + k)%nat, d1.
        split_and!; [by eapply retired_trans|done..].
      * destruct Hans as [Hret|(k & t & Hret & Hq)]; [left; by apply (retired_trans 1 n _ d)|right].
        exists (1 + k)%nat, t. split; [by eapply retired_trans|done].
    + intros e' w8 ?. by eapply stepped_trans.
Qed.

Lemma turn_claim_spec policy owner cm g w :
  settled cm g w → db_ok cm → conv_ok cm →
  wp (ConversationTurns.claim policy owner)
    (λ r w', ∃ d, settled d g w' ∧ conv_step cm d ∧ claim_answer policy owner 100 cm d r)
    (λ _, stepped cm g) w.
Proof.
  intros Hw Hok Hc. unfold ConversationTurns.claim. wp_step. wp_step; [|by apply settled_stepped].
  wp_step; [wp_step; by apply settled_stepped|]. by apply claim_loop_spec.
Qed.
End claims.
