(* ===== verification/ConversationReports.v ===== *)
(** * Reporting on a turn

    Specification of [record_update]: a new update is recorded under its ordinal together with
    its effect on the turn, in one transaction; a repeated one is answered from the record. *)

From S2P Require Import Prelude Json Text Crates Types ConversationProtocol ConversationTables Protocol Mentions ActionItems MemoryEngine World Store StoreInvariant ConversationContext Catalog Rooms ConversationStore ConversationTurns ConversationUpdates ConversationInvariant ConversationSteps ConversationClaims.
Local Open Scope string_scope.
Local Open Scope list_scope.
Local Open Scope Z_scope.

(** Rows that differ at most in what was reported on the way: settings, usage, progress. *)
Definition same_phase (row row' : TurnRow) : Prop :=
  tn_turn row' = tn_turn row ∧ tn_state row' = tn_state row ∧
  tn_lease_token row' = tn_lease_token row ∧ tn_lease_owner row' = tn_lease_owner row ∧
  tn_lease_expires_at row' = tn_lease_expires_at row ∧
  tn_receipt_acknowledgement row' = tn_receipt_acknowledgement row ∧
  tn_reply_event_id row' = tn_reply_event_id row ∧ tn_result row' = tn_result row ∧
  tn_failure row' = tn_failure row.

Lemma same_phase_refl row : same_phase row row.
Proof. by split_and!. Qed.

Lemma same_phase_trans r1 r2 r3 : same_phase r1 r2 → same_phase r2 r3 → same_phase r1 r3.
Proof. unfold same_phase. intros (?&?&?&?&?&?&?&?&?) (?&?&?&?&?&?&?&?&?). split_and!; congruence. Qed.

Lemma same_phase_progress row p n : same_phase row (set_progress p n row).
Proof. by split_and!. Qed.

Lemma lease_ok_phase row row' : same_phase row row' → lease_ok row → lease_ok row'.
Proof. unfold lease_ok. by intros (_ & -> & -> & _). Qed.

Lemma reply_ok_phase d row row' : same_phase row row' → reply_ok d row → reply_ok d row'.
Proof.
  unfold reply_ok. intros (Ht & Hs & _ & _ & _ & Hack & Hrep & _) Hr. by rewrite Ht, Hs, Hack, Hrep.
Qed.

Section reports.
Context `{UuidCrate, Chrono, SerdeJson, Sha2, Schemas, Postgres, Oracle}.

(** What an update does to the turn of [view], up to what is reported on the way: events
    appended, the row, its conversation, the answer. *)
Inductive update_effect (view : TaskView) (kind : string) (data : Value) :
    list RoomEvent → TurnRow → ConversationRow → ConversationUpdateOutcome → Prop :=
| effect_completed reply text effective usage id n at_ row c :
    kind = "completed" → as_str (index data "assistantText") = Some text →
    reply = event_row id (reply_event (tv_row view) data at_) n →
    same_phase (set_completed (pg_json data) (ev_event_id reply)
      (pg_json (acknowledgement view reply text)) effective usage (pg_time at_) (tv_row view)) row →
    c = set_conversation CvReady None (cv_selected_settings (tv_conversation view))
          (tn_context_revision (tn_turn (tv_row view))) (pg_time at_) (tv_conversation view) →
    update_effect view kind data [reply] row c
      {| uo_response := acknowledgement view reply text; uo_event := Some reply |}
| effect_failed code error at_ row c response :
    kind = "failed" → as_str (index data "code") = Some code → failure_code code = Ok error →
    same_phase (failed_row at_ error (tv_row view)) row → c = freed at_ (tv_conversation view) →
    update_effect view kind data [] row c {| uo_response := response; uo_event := None |}
| effect_noted row response :
    kind ≠ "completed" → kind ≠ "failed" → same_phase (tv_row view) row →
    update_effect view kind data [] row (tv_conversation view)
      {| uo_response := response; uo_event := None |}.

Lemma update_effect_phase view kind data evs row row' c o :
  update_effect view kind data evs row c o → same_phase row row' →
  update_effect view kind data evs row' c o.
Proof.
  intros Hef Hp. destruct Hef;
    [eapply effect_completed|eapply effect_failed|eapply effect_noted]; try done;
    by eapply same_phase_trans.
Qed.

Section edits.
Context (cm : Db) (g : Gateway) (now : DateTime) (d0 : Db) (task : Uuid).
Local Abbreviation ed := (editing cm g now d0 task).
Local Abbreviation quiet := (settled cm g).

(** ** Citations *)

Lemma check_citation_spec sources room citation evs row c q w :
  ed evs row c q w →
  wp (check_citation sources room citation) (λ _, ed evs row c q) (λ _, quiet) w.
Proof.
  intros Hed. unfold check_citation. wp_step. wp_step; [|by eapply editing_settled].
  wp_step. wp_step; [|by eapply editing_settled]. wp_step.
  wp_use wp_edit_select; [done| |done]. intros visible w1 [Hed1 _].
  destruct visible; wp_step; [done|by eapply editing_settled].
Qed.

Lemma validate_citations_spec policy view reply evs row c q w :
  ed evs row c q w →
  wp (validate_citations policy view reply) (λ _, ed evs row c q) (λ _, quiet) w.
Proof.
  intros Hed. unfold validate_citations. wp_step. wp_step; [|by eapply editing_settled].
  wp_step. wp_step; [|by eapply editing_settled]. wp_step. wp_step; [|by eapply editing_settled].
  wp_step. wp_use wp_edit_select; [done| |done]. intros disclosed w1 [Hed1 _]. wp_step.
  wp_use (wp_for_each _ (ed evs row c q) (λ _, quiet)); [|done| |done].
  - intros citation w2 Hed2. by wp_use check_citation_spec.
  - intros _ w2 Hed2. by wp_step.
Qed.

(** ** Completing *)

Lemma complete_turn_spec policy view data at_ row c q w :
  ed [] row c q w → tv_task view = task → tv_row view = row → tv_conversation view = c →
  wp (complete_turn policy view data at_)
    (λ r w', ∃ text row' c', ed [r.1] row' c' q w' ∧
       tn_last_update_ordinal row' = tn_last_update_ordinal row ∧ r.2 = acknowledgement view r.1 text ∧
       update_effect view "completed" data [r.1] row' c'
         {| uo_response := r.2; uo_event := Some r.1 |})
    (λ _, quiet) w.
Proof.
  intros Hed Htask Hrow Hc. unfold complete_turn. wp_step. wp_step; [|by eapply editing_settled].
  wp_step; [wp_step; by eapply editing_settled|]. wp_step. wp_step; [|by eapply editing_settled].
  wp_step; [wp_step; by eapply editing_settled|]. wp_step.
  wp_use validate_citations_spec; [done| |done]. intros [] w1 Hed1. wp_step.
  wp_use wp_edit_append; [done| |done]. intros reply w2 [Hed2 (id & n & Hreply)]. simpl in Hed2. wp_step.
  wp_step; [|by eapply editing_settled]. wp_step. rewrite Htask.
  wp_use (wp_edit_turn _ _ _ _ _ _ (λ _, set_completed _ _ _ _ _ _)); [exact Hed2|done|done| |done].
  intros [] w3 Hed3. wp_step. rewrite Hrow.
  wp_use (wp_edit_conversation _ _ _ _ _ _ (λ _ c, set_conversation CvReady None
    (cv_selected_settings c) _ _ c) _ (set_completed _ _ _ _ _ _ _)); [exact Hed3|done| |done].
  intros [] w4 Hed4. wp_step. wp_step; [|by eapply editing_settled]. wp_step.
  wp_use (wp_for_each _ (ed _ _ _ q) (λ _, quiet)); [|exact Hed4| |done].
  - intros source w5 Hed5. unfold disclose. wp_step. wp_step; [|by eapply editing_settled].
    wp_step. wp_step; [|by eapply editing_settled].
    by wp_use (wp_edit_beside _ _ _ _ _ (λ _, insert_disclosure _ _ _)); [|apply beside_disclosure| |].
  - intros _ w5 Hed5. wp_step. eexists _, _, _. split; [exact Hed5|]. split; [done|].
    split; [done|]. eapply effect_completed; [done|by eapply ok_or_Ok|exact Hreply| |by rewrite Hc, Hrow].
    rewrite Hrow. apply same_phase_refl.
Qed.

(** ** The other kinds *)

Lemma note_update_spec view kind data update_id ordinal at_ row c q w :
  ed [] row c q w → tv_task view = task → tv_row view = row → tv_conversation view = c →
  in_flight (tn_state row) = true → cv_active_task_id c = Some task → kind ≠ "completed" →
  wp (note_update view kind data update_id ordinal at_)
    (λ r w', ∃ row' c', ed [] row' c' q w' ∧
       tn_last_update_ordinal row' = tn_last_update_ordinal row ∧
       update_effect view kind data [] row' c' {| uo_response := r; uo_event := None |})
    (λ _, quiet) w.
Proof.
  intros Hed Htask Hrow Hc Hf Ha Hk. unfold note_update. wp_step.
  destruct (String.eqb_spec kind "failed") as [->|Hne].
  - wp_step. wp_step; [|by eapply editing_settled]. wp_step. wp_step; [|by eapply editing_settled].
    wp_use fail_task_state_spec; [exact Hed|done|by rewrite Hrow|done|done| |done].
    intros [] w1 Hed1. wp_step. simpl. wp_step. wp_step. eexists _, _. split; [exact Hed1|].
    split; [done|]. eapply effect_failed; [done|by eapply ok_or_Ok|done| |by rewrite Hc].
    rewrite Hrow. apply same_phase_refl.
  - wp_step. wp_step. wp_step.
    + rewrite Htask. wp_use (wp_edit_turn _ _ _ _ _ _ (λ _, set_reported _ _ _)); [exact Hed|done|done| |done].
      intros [] w1 Hed1. wp_step. eexists _, _. split; [exact Hed1|]. split; [done|]. rewrite <-Hc.
      apply effect_noted; [done..|]. rewrite Hrow. by split_and!.
    + wp_step. wp_step. eexists _, _. split; [exact Hed|]. split; [done|]. rewrite <-Hc.
      apply effect_noted; [done..|]. rewrite Hrow. apply same_phase_refl.
Qed.

(** ** The record of an update *)

Lemma coalesced_spec view kind data at_ evs row c q w :
  ed evs row c q w → wp (coalesced view kind data at_) (λ _, ed evs row c q) (λ _, quiet) w.
Proof.
  intros Hed. unfold coalesced. wp_step. wp_step.
  - wp_use wp_edit_select; [done| |done]. intros b w1 [Hed1 _]. by wp_step.
  - wp_step. by wp_step.
Qed.

Lemma retain_update_spec view kind data update_id ordinal at_ evs row c q w :
  ed evs row c q w → tv_task view = task →
  wp (retain_update view kind data update_id ordinal at_)
    (λ _ w', ∃ row', ed evs row' c q w' ∧ same_phase row row' ∧
       tn_last_update_ordinal row' = tn_last_update_ordinal row) (λ _, quiet) w.
Proof.
  intros Hed Htask. unfold retain_update. rewrite Htask. wp_step.
  eapply wp_mono with (Q := λ _, ed evs row c q) (F := λ _, quiet); [|cbv beta|done].
  { wp_step; [|by wp_step].
    by wp_use (wp_edit_beside _ _ _ _ _ (λ _, delete_updates _ _)); [|apply beside_delete_updates| |]. }
  intros [] w1 Hed1. wp_step.
  eapply wp_mono with (Q := λ _, ed evs row c q) (F := λ _, quiet); [|cbv beta|done].
  { wp_step; [|by wp_step].
    by wp_use (wp_edit_beside _ _ _ _ _ (λ _, delete_updates _ _)); [|apply beside_delete_updates| |]. }
  intros [] w2 Hed2. wp_step.
  wp_use (wp_edit_beside _ _ _ _ _ (λ _, insert_update _ _ _)); [done|apply beside_insert_update| |done].
  intros [] w3 Hed3. wp_step.
  - wp_use (wp_edit_turn _ _ _ _ _ _ (λ _ r, set_progress _ (tn_last_update_ordinal r) r));
      [exact Hed3|done|done| |done].
    intros [] w4 Hed4. eexists. split; [exact Hed4|]. split; [apply same_phase_progress|done].
  - wp_step. exists row. split_and!; [done|apply same_phase_refl|done].
Qed.
End edits.

(** The turn after an update: it goes on under its lease, or it has ended. *)
Lemma update_effect_turn view kind data evs row c o task :
  update_effect view kind data evs row c o → tv_task view = task →
  in_flight (tn_state (tv_row view)) = true →
  cv_active_task_id (tv_conversation view) = Some task →
  cv_state (tv_conversation view) = phase (tn_state (tv_row view)) →
  belongs (tn_turn (tv_row view)) (tv_conversation view) → lease_ok (tv_row view) →
  tn_last_update_ordinal (tv_row view) ≤ tn_last_update_ordinal row →
  turn_evolves (tv_row view) row ∧ belongs (tn_turn (tv_row view)) c ∧ settles task row c ∧ lease_ok row.
Proof.
  intros Hef Htask Hf Ha Hs Hb Hl Ho. unfold turn_evolves, settles.
  destruct Hef as [reply text eff usage id n at_ row c _ _ _ Hp ->|code error at_ row c r _ _ _ Hp ->|row r _ _ Hp];
    pose proof (lease_ok_phase _ _ Hp) as Hlp; destruct Hp as (Ht & Hst & Htok & Hown & Hexp & _);
    simpl in *; rewrite Hst, ?Hf; split_and!; try done; try naive_solver congruence.
Qed.

(** The reply a completed turn refers to is the event just appended. *)
Lemma update_effect_reply view kind data evs row c o d q d0 :
  update_effect view kind data evs row c o → in_flight (tn_state (tv_row view)) = true →
  turn_at d0 (tv_task view) evs row c q d → reply_ok d row.
Proof.
  intros Hef Hf Hta. pose proof (ta_events _ _ _ _ _ _ _ Hta) as Hev. intros Hst.
  destruct Hef as [reply text eff usage id n at_ row c _ _ -> Hp ->|code error at_ row c r _ _ _ Hp ->|row r _ _ Hp];
    destruct Hp as (Ht & Hs & _ & _ & _ & Hack & Hrep & _); simpl in *; [|congruence|].
  - eexists. rewrite Hev. split; [apply elem_of_app; right; by apply list_elem_of_singleton|].
    rewrite Ht, Hrep, Hack. simpl. split_and!; done.
  - rewrite <-Hs, Hst in Hf. done.
Qed.

Definition update_record (request response : Value) (ordinal : Z) (at_ : DateTime) : UpdateRequestRow :=
  {| uq_ordinal := ordinal; uq_request := pg_json request; uq_response := pg_json response;
     uq_received_at := pg_time at_ |}.

(** A new update: its effect and its record, under an ordinal above all earlier ones. *)
Record recorded (view : TaskView) (request : Value) (update_id : Uuid) (d d' : Db)
    (o : ConversationUpdateOutcome) : Prop := {
  rc_new : requests_of d !! (tv_task view, update_id) = None;
  rc_effect : ∃ kind ordinal evs row c at_,
    as_str (index request "kind") = Some kind ∧ as_i64 (index request "ordinal") = Some ordinal ∧
    tn_last_update_ordinal (tv_row view) < ordinal ∧ tn_last_update_ordinal row = ordinal ∧
    update_effect view kind (index request "data") evs row c o ∧
    turn_at d (tv_task view) evs row c
      (<[(tv_task view, update_id) := update_record request (uo_response o) ordinal at_]> (requests_of d)) d';
}.

Lemma recorded_step view request update_id d d' o :
  conv_ok d → at_work d (tv_task view) (tv_row view) (tv_conversation view) →
  recorded view request update_id d d' o → conv_step d d'.
Proof.
  intros Hc Hwork [Hnew (kind & ordinal & evs & row & c & at_ & _ & _ & Hlt & Hord & Hef & Hta)].
  pose proof (at_work_active _ _ _ _ Hc Hwork) as (Ha & Hs & Hb & Hl).
  assert (in_flight (tn_state (tv_row view)) = true) as Hf by apply Hwork.
  destruct (update_effect_turn _ _ _ _ _ _ _ _ Hef eq_refl Hf Ha Hs Hb Hl) as (Hev & Hbel & Hset & Hlease); [lia|].
  eapply turn_at_step; [done|done|done|done|done|done|done|..].
  - by eapply update_effect_reply.
  - intros key r Hr. rewrite lookup_insert_ne; [done|]. intros <-. congruence.
  - intros k u r [[[= <- <-] <-]|[_ Hr]]%lookup_insert_Some; [right; simpl; split; [done|lia]|by left].
Qed.

Lemma apply_update_spec policy view lease request update_id cm g now w :
  tx_state cm g now cm w → db_ok cm → conv_ok cm → joined_task (tv_task view) cm = Some view →
  in_flight (tn_state (tv_row view)) = true →
  wp (apply_update policy view lease request update_id)
    (λ o w', ∃ d, settled d g w' ∧ recorded view request update_id cm d o)
    (λ _, stepped cm g) w.
Proof.
  intros Hw Hok Hc Hview Hf. pose proof (view_at_work _ _ _ Hview Hf) as Hwork.
  pose proof (at_work_active _ _ _ _ Hc Hwork) as (Ha & _). pose proof Hwork as (Hrow & Hcv & _).
  pose proof (λ w, settled_stepped cm g w Hok Hc) as Hquiet.
  assert (∀ evs row c q w, editing cm g now cm (tv_task view) evs row c q w → stepped cm g w) as Hq.
  { intros. by eapply Hquiet, editing_settled. }
  assert (editing cm g now cm (tv_task view) [] (tv_row view) (tv_conversation view) (requests_of cm) w) as Hed.
  { exists cm. split; [done|]. by apply turn_at_refl. }
  unfold apply_update. wp_step. wp_step; [|by eapply Hq].
  match goal with Hz : ok_or _ _ = Ok ?n |- _ => apply ok_or_Ok in Hz; rename n into ordinal, Hz into Hordinal end.
  destruct (Z.leb_spec ordinal (tn_last_update_ordinal (tv_row view))) as [|Hlt]; [wp_step; by eapply Hq|].
  wp_step. wp_step; [|by eapply Hq].
  match goal with Hz : ok_or _ _ = Ok ?s |- _ => apply ok_or_Ok in Hz; rename s into kind, Hz into Hkind end.
  wp_step; [wp_step; by eapply Hq|]. wp_step. wp_step; [|by eapply Hq]. wp_step.
  eapply wp_edit_now; [done|]. intros at_ w1 Hed1. wp_step.
  eapply wp_mono with (F := λ _, settled cm g) (Q := λ o w', ∃ evs row c,
    editing cm g now cm (tv_task view) evs row c (requests_of cm) w' ∧
    update_effect view kind (index request "data") evs row c o); [|cbv beta|naive_solver].
  { destruct (String.eqb_spec kind "completed") as [->|Hne]; wp_step.
    - wp_use complete_turn_spec; [done|done|done|done| |done].
      intros [reply ack] w2 (text & row' & c' & Hed2 & _ & Hack & Hef). wp_step. eauto.
    - wp_use note_update_spec; [done|done|done|done|done|done|done| |done].
      intros r w2 (row' & c' & Hed2 & _ & Hef). wp_step. eauto. }
  intros o w2 (evs & row & c & Hed2 & Hef). wp_step.
  wp_use coalesced_spec; [done| |naive_solver]. intros skip w3 Hed3. wp_step.
  eapply wp_mono with (F := λ _, settled cm g) (Q := λ _ w', ∃ row',
    editing cm g now cm (tv_task view) evs row' c (requests_of cm) w' ∧ same_phase row row');
    [|cbv beta|naive_solver].
  { destruct skip; [wp_step; exists row; split; [done|apply same_phase_refl]|].
    wp_use retain_update_spec; [done|done| |done]. intros [] w4 (row' & ? & ? & _). eauto. }
  intros [] w4 (row' & Hed4 & Hp). wp_step.
  wp_use (wp_edit_turn _ _ _ _ _ _ (λ _ r, set_progress (tn_last_progress_at r) ordinal r));
    [exact Hed4|done|done| |naive_solver].
  intros [] w5 Hed5. wp_step. wp_use wp_edit_request; [done| |naive_solver].
  intros [] w6 [Hnew Hed6]. wp_step. wp_use wp_edit_authority; [done| |].
  2: { intros e w7 [Hed7 _]. by eapply Hq. }
  intros [] w7 [(d & Hw7 & Hta) _]. wp_step.
  assert (recorded view request update_id cm d o) as Hrec.
  { split; [done|]. exists kind, ordinal, evs, (set_progress (tn_last_progress_at row') ordinal row'), c, at_.
    split_and!; try done.
    eapply update_effect_phase; [done|]. eapply same_phase_trans; [done|]. apply same_phase_progress. }
  wp_use wp_commit_step; [done|done|done|by eapply recorded_step| |done].
  intros [] w8 Hw8. wp_step. by exists d.
Qed.

(** ** The whole operation *)

(** A repeated update is answered as before; a new one is recorded. *)
Definition update_answer (task lease : Uuid) (request : Value) (d d' : Db)
    (o : ConversationUpdateOutcome) : Prop :=
  ∃ view update_id, joined_task task d = Some view ∧ tn_lease_token (tv_row view) = Some lease ∧
    uuid_field request "updateId" = Ok update_id ∧
    match requests_of d !! (task, update_id) with
    | Some prior => d' = d ∧ uq_request prior = request ∧
                    o = {| uo_response := uq_response prior; uo_event := None |}
    | None => in_flight (tn_state (tv_row view)) = true ∧ recorded view request update_id d d' o
    end.

Lemma replay_update_spec policy view lease request prior cm g now w :
  tx_state cm g now cm w →
  wp (replay_update policy view lease request prior)
    (λ o w', settled cm g w' ∧ uq_request prior = request ∧
       o = {| uo_response := uq_response prior; uo_event := None |}) (λ _, settled cm g) w.
Proof.
  intros Hw. unfold replay_update. case_bool_decide as Heq; simpl; [|wp_step; by eapply tx_state_settled].
  wp_step. eapply wp_mono with (Q := λ _, settled cm g) (F := λ _, settled cm g); [|cbv beta|done].
  - wp_step.
    + do 3 (wp_step; eapply wp_now; [done|]; clear w Hw; intros ? w Hw).
      wp_step; by eapply tx_state_settled.
    + wp_use wp_authority; [done|..]; intros ? w1 [? _]; by eapply tx_state_settled.
  - intros [] w1 Hw1. by wp_step.
Qed.

Lemma conversation_update_spec policy task lease request cm g w :
  settled cm g w → db_ok cm → conv_ok cm →
  wp (record_update policy task lease request)
    (λ o w', ∃ d, settled d g w' ∧ conv_step cm d ∧ update_answer task lease request cm d o)
    (λ _, stepped cm g) w.
Proof.
  intros Hw Hok Hc. pose proof (λ w, settled_stepped cm g w Hok Hc) as Hquiet.
  assert (∀ now w, tx_state cm g now cm w → stepped cm g w) as Hq.
  { intros. by eapply Hquiet, tx_state_settled. }
  unfold record_update. wp_step. wp_step; [|by apply Hquiet]. wp_step; [wp_step; by apply Hquiet|].
  wp_step. eapply wp_start; [done| |naive_solver]. intros now w1 Hw1. wp_step.
  wp_use wp_turn_room; [done| |naive_solver]. intros room w2 Hw2. wp_step. wp_step; [|by eapply Hq].
  wp_step. wp_use wp_lock; [done| |naive_solver]. intros [] w3 Hw3. wp_step.
  wp_use wp_task_in_transaction; [done| |naive_solver]. intros view w4 [Hview Hw4]. wp_step.
  wp_step; [|by eapply Hq]. wp_step; [wp_step; by eapply Hq|].
  destruct (bool_decide_reflect (tn_lease_token (tv_row view) = Some lease)) as [Htok|]; simpl.
  2: { wp_step. by eapply Hq. }
  wp_step. wp_step; [|by eapply Hq]. rename a2 into update_id. wp_step. unfold unavailable at 1. wp_step.
  wp_use wp_tx_select; [done| |naive_solver]. intros prior w5 [-> Hw5].
  assert (tv_task view = task) as Htask by (by apply joined_task_Some in Hview as [? _]).
  destruct (requests_of cm !! (task, update_id)) as [prior|] eqn:Hprior.
  - wp_use replay_update_spec; [done| |naive_solver]. intros o w6 (Hw6 & Hreq & ->). exists cm.
    split_and!; [done|by apply conv_step_refl|]. exists view, update_id. by rewrite Hprior.
  - wp_step. wp_step. rewrite <-Htask in Hview. wp_use wp_authority; [done|..].
    + intros [] w6 [Hw6 (t & (Hau & _)%authority_Ok)].
      wp_use apply_update_spec; [done|done|done|done|apply Hau| |done].
      intros o w7 (d & Hw7 & Hrec). exists d. split_and!; [done|..].
      * eapply recorded_step; [done|by eapply view_at_work, Hau|done].
      * exists view, update_id. rewrite <-Htask in Hprior |- *. rewrite Hprior.
        split_and!; try done. apply Hau.
    + intros e w6 [Hw6 _]. wp_step. wp_step.
      * wp_step. wp_use wp_fail_task; [done..| |naive_solver].
        intros [] w7 (d' & Hw7 & Hst & _). wp_use wp_commit_step; [done..| |naive_solver].
        intros [] w8 Hw8. wp_step. by exists d'.
      * wp_step. wp_step. by eapply Hq.
Qed.
End reports.
