(* ===== verification/ConversationReserve.v ===== *)
(** * Reserving a turn

    Specification of [reserve_inner]: in one transaction the prompt is appended to the room, the
    context is frozen, the request is recorded, the conversation is continued or replaced and the
    turn is inserted; a repeated request is answered from the record. *)

From S2P Require Import Prelude Json Text Crates Types ConversationProtocol ConversationTables Protocol Mentions ActionItems MemoryEngine World Store StoreInvariant ConversationContext Catalog Rooms ConversationStore ConversationTurns ConversationUpdates ConversationInvariant ConversationSteps.
Local Open Scope string_scope.
Local Open Scope list_scope.
Local Open Scope Z_scope.

(** The gateway's memory but for the cursors of the catalogue. *)
Definition same_but_cursors (g g' : Gateway) : Prop :=
  channels g' = channels g ∧ presence g' = presence g ∧ memory_engine g' = memory_engine g ∧
  ci_policy (integration g') = ci_policy (integration g) ∧
  ci_catalog (integration g') = ci_catalog (integration g).

Global Instance same_but_cursors_preorder : PreOrder same_but_cursors.
Proof.
  split; [done|]. intros g1 g2 g3 (?&?&?&?&?) (?&?&?&?&?). split_and!; congruence.
Qed.

(** A catalogue asks its provider; it does not write to the database and keeps nothing but
    cursors. *)
Definition catalog_frame (catalog : CatalogQuery) : Prop :=
  ∀ agent cursor limit w,
    let w' := (catalog agent cursor limit w).2 in
    committed w' = committed w ∧ working w' = working w ∧ tx_now w' = tx_now w ∧
    same_but_cursors (gateway w) (gateway w').

Lemma unavailable_catalog_frame : catalog_frame unavailable_catalog.
Proof. by intros agent cursor limit w. Qed.

Lemma timed_frame `{Timer} catalog : catalog_frame catalog → catalog_frame (timed catalog).
Proof.
  intros Hf agent cursor limit w. unfold timed. destruct (elapsed (tick w)); [done|].
  apply (Hf agent cursor limit (next_tick w)).
Qed.

(** An open transaction, up to cursors. *)
Definition tx_about (cm : Db) (g : Gateway) (now : DateTime) (d : Db) (w : World) : Prop :=
  ∃ g', same_but_cursors g g' ∧ tx_state cm g' now d w.
Definition quiet_about (cm : Db) (g : Gateway) (w : World) : Prop :=
  ∃ g', same_but_cursors g g' ∧ settled cm g' w.

Lemma tx_about_quiet cm g now d w : tx_about cm g now d w → quiet_about cm g w.
Proof. intros (g' & Hg & Hw). exists g'. split; [done|by eapply tx_state_settled]. Qed.

Lemma settled_quiet cm g w : settled cm g w → quiet_about cm g w.
Proof. by exists g. Qed.

Lemma wp_catalog catalog agent cursor limit cm g now d w :
  catalog_frame catalog → tx_about cm g now d w →
  wp (catalog agent cursor limit) (λ _, tx_about cm g now d) (λ _, tx_about cm g now d) w.
Proof.
  intros Hf (g' & Hg & [Hc Hgw Hn Hd]). specialize (Hf agent cursor limit w). unfold wp.
  destruct (catalog agent cursor limit w) as [r w']; simpl in Hf. destruct Hf as (Hc' & Hd' & Hn' & Hg').
  assert (tx_about cm g now d w').
  { exists (gateway w'). split; [by etrans; [|rewrite <-Hgw]|]. split; congruence. }
  by destruct r.
Qed.

Section selection.
Context `{Schemas, SerdeJson}.

Lemma scan_pages_frame turns catalog policy selected cursor cursors models found cm g now d w :
  catalog_frame catalog → tx_about cm g now d w →
  wp (scan_pages turns catalog policy selected cursor cursors models found)
    (λ _, tx_about cm g now d) (λ _, tx_about cm g now d) w.
Proof.
  intros Hf. revert cursor cursors models found w.
  induction turns as [|n IH]; intros cursor cursors models found w Hw; simpl; [by wp_step|].
  wp_step. wp_use wp_catalog; [done|done| |done]. intros page w1 Hw1.
  wp_step. wp_step; [|done]. wp_step. wp_step; [|done]. wp_step. wp_step; [|done].
  destruct (as_str (index page "nextCursor")) as [next|].
  - wp_step; [by wp_step|by apply IH].
  - wp_step; by wp_step.
Qed.
End selection.

Section reserve.
Context `{UuidCrate, Chrono, SerdeJson, Sha2, Schemas, Postgres, Unicode, Timer, Oracle}.

(** ** The context as a function of the database *)

Definition freeze_in (room conversation : Uuid) (generation base revision : Z)
    (policy : ConversationPolicy) (d : Db) : result ConversationError Value :=
  let rows := context_rows room conversation generation base revision d in
  let active := disclosable_decisions room revision d in
  _ ← reject_if (existsb (oversized_reply base) rows) ContextMismatch;
  _ ← reject_if ((cp_max_records policy <? Z.of_nat (length rows))
                 || (cp_max_context_bytes policy <? sum_Z (row_size base <$> rows))) ContextTooLarge;
  records ← collect (context_record conversation generation base) rows;
  _ ← reject_if (cp_max_context_bytes policy <? sum_Z (decision_size <$> active)) ContextTooLarge;
  Ok (json_object
    [("kind", Str (if base =? 0 then "baseline" else "delta")); ("baseRevision", json_int base);
     ("revision", json_int revision); ("policyRevision", Str (cp_policy_revision policy));
     ("entries", Array (lefts records)); ("activeDecisions", Array (json_decision <$> active));
     ("nativeReplyBindings", Array (rights records))]).

Definition build_in (room conversation : Uuid) (generation base : Z) (trigger : Uuid)
    (policy : ConversationPolicy) (d : Db) : result ConversationError Value :=
  revision ← ok_or ContextMismatch (trigger_revision room trigger d);
  _ ← reject_if ((base <? 0) || (revision <=? base) || (generation <=? 0)
                 || (MAX_SAFE_INTEGER <? generation) || (MAX_SAFE_INTEGER <? revision)) ContextMismatch;
  context ← freeze_in room conversation generation base revision policy d;
  bytes ← canonical_context_bytes
    (context_preimage room conversation generation trigger policy context);
  _ ← reject_if (cp_max_context_bytes policy <? Z.of_nat (String.length bytes)) ContextTooLarge;
  Ok (set_member context "digest" (Str (sha256_hex bytes))).

(** Inside a transaction that answers, the stateful routine computes this function. *)
Lemma freeze_context_spec room conversation generation base revision policy cm g now d w :
  tx_state cm g now d w →
  wp (freeze_context room conversation generation base revision policy)
    (λ v w', tx_state cm g now d w' ∧ freeze_in room conversation generation base revision policy d = Ok v)
    (λ _, settled cm g) w.
Proof.
  intros Hw. unfold freeze_context, unavailable. wp_step. wp_step. wp_use wp_tx_select; [done| |done].
  intros totals w1 [-> Hw1]. unfold context_totals, freeze_in. cbv zeta. wp_step.
  { wp_step. by eapply tx_state_settled. }
  wp_step; [wp_step; by eapply tx_state_settled|]. wp_step. wp_step. wp_use wp_tx_select; [done| |done].
  intros rows w2 [-> Hw2]. wp_step. wp_step; [|by eapply tx_state_settled]. wp_step. wp_step.
  wp_use wp_tx_select; [done| |done]. intros size w3 [-> Hw3].
  wp_step; [wp_step; by eapply tx_state_settled|]. wp_step. wp_step. wp_use wp_tx_select; [done| |done].
  intros ds w4 [-> Hw4]. wp_step. split; [done|].
  repeat match goal with Hb : _ = _ |- _ => rewrite Hb; clear Hb end. done.
Qed.

Lemma build_context_spec room conversation generation base trigger policy cm g now d w :
  tx_state cm g now d w →
  wp (build_context room conversation generation base trigger policy)
    (λ v w', tx_state cm g now d w' ∧ build_in room conversation generation base trigger policy d = Ok v)
    (λ _, settled cm g) w.
Proof.
  intros Hw. unfold build_context. wp_step. wp_use wp_lock; [done| |done]. intros [] w1 Hw1. wp_step.
  unfold unavailable. wp_step. wp_use wp_tx_select; [done| |done]. intros found w2 [-> Hw2]. wp_step.
  wp_step; [|by eapply tx_state_settled]. wp_step; [wp_step; by eapply tx_state_settled|].
  wp_step. wp_use freeze_context_spec; [done| |done]. intros v w3 [Hw3 Hv]. wp_step.
  wp_step; [|by eapply tx_state_settled]. wp_step; [wp_step; by eapply tx_state_settled|].
  wp_step. split; [done|]. unfold build_in.
  repeat first [ rewrite Hv; simpl | match goal with Hb : _ = _ |- _ => rewrite Hb; clear Hb end; simpl ]. done.
Qed.
End reserve.

(** ** Conversations that are not busy *)

(** A conversation without an active turn may change, as long as it keeps its key. *)
Lemma idle_conversation_ok d t id c c' :
  conv_ok d → conversations_of d !! id = Some c → cv_active_task_id c = None →
  t = with_agent_conversations <[id := c']> (conversation_tables d) → keys_ok t →
  cv_room_id c' = cv_room_id c → cv_agent_id c' = cv_agent_id c → cv_generation c' = cv_generation c →
  cv_active_task_id c' = None → conv_ok (set_tables t d).
Proof.
  intros [Hk [Ht Ha Hl Htr Hr Ho]] Hc Hn -> Hk' Hroom Hag Hgen Hn'. split; [done|].
  split; simpl; [..|exact Hl|exact Htr|exact Hr|exact Ho].
  - intros task row Hrow. destruct (Ht _ _ Hrow) as (c0 & Hc0 & (?&?&?) & Hin).
    destruct (decide (id = tn_conversation_id (tn_turn row))) as [->|Hne].
    + rewrite lookup_insert_eq. exists c'. assert (c0 = c) as -> by congruence.
      split_and!; try congruence; [split_and!; congruence|]. intros Hf. destruct (Hin Hf). congruence.
    + rewrite lookup_insert_ne by done. by exists c0.
  - intros id' c0 task [[<- <-]|[_ Hc0]]%lookup_insert_Some Hact; [congruence|by eapply Ha].
Qed.

(** A new turn becomes the active turn of a conversation that is new or had none. *)
Lemma reserve_turn_ok d d' task row c' :
  conv_ok d → keys_ok (conversation_tables d') →
  conversations_of d' = <[tn_conversation_id (tn_turn row) := c']> (conversations_of d) →
  turns_of d' = <[task := row]> (turns_of d) → requests_of d' = requests_of d →
  extends d d' → turns_of d !! task = None →
  (∀ c, conversations_of d !! tn_conversation_id (tn_turn row) = Some c →
     cv_active_task_id c = None ∧ belongs (tn_turn row) c) →
  belongs (tn_turn row) c' → cv_active_task_id c' = Some task → cv_state c' = CvReserved →
  tn_state row = TnReserved → tn_lease_token row = None →
  has_event d' (tn_room_id (tn_turn row)) (tn_trigger_event_id (tn_turn row)) →
  is_Some (room_requests d' !! (tn_room_id (tn_turn row), tn_request_id (tn_turn row))) →
  conv_ok d'.
Proof.
  intros [Hk [Ht Ha Hl Htr Hr Ho]] Hk' Hcs Hts Hrq Hx Hnew Hidle Hbel Hact Hst Hs Htok Hev Hreq.
  split; [done|]. split; rewrite ?Hcs, ?Hts, ?Hrq.
  - intros k r [[<- <-]|[Hne Hkr]]%lookup_insert_Some.
    + exists c'. rewrite lookup_insert_eq, Hs. by split_and!.
    + destruct (Ht _ _ Hkr) as (c0 & Hc0 & Hb0 & Hin).
      destruct (decide (tn_conversation_id (tn_turn row) = tn_conversation_id (tn_turn r))) as [He|Hne'].
      * rewrite He in *. rewrite lookup_insert_eq. exists c'. destruct (Hidle _ Hc0) as [Hn (?&?&?)].
        destruct Hb0 as (?&?&?), Hbel as (?&?&?). split_and!; [done|split_and!; congruence|].
        intros Hf. destruct (Hin Hf). congruence.
      * rewrite lookup_insert_ne by done. by exists c0.
  - intros id c0 k [[<- <-]|[Hne Hc0]]%lookup_insert_Some Hak.
    + assert (k = task) as -> by congruence. exists row. rewrite lookup_insert_eq, Hs. done.
    + destruct (Ha _ _ _ Hc0 Hak) as (r & Hkr & Hid & Hf). exists r.
      rewrite lookup_insert_ne; [done|]. intros <-. congruence.
  - intros k r [[<- <-]|[_ Hkr]]%lookup_insert_Some; [|by eapply Hl]. unfold lease_ok. by rewrite Hs.
  - intros k r [[<- <-]|[_ Hkr]]%lookup_insert_Some; [done|]. destruct (Htr _ _ Hkr).
    split; [by eapply has_event_extends|by apply Hx].
  - intros k r [[<- <-]|[_ Hkr]]%lookup_insert_Some; [intros ?; congruence|].
    eapply reply_ok_extends; [done|by eapply Hr].
  - intros k u q Hq. destruct (Ho _ _ _ Hq) as (r & Hkr & Hle). exists r.
    rewrite lookup_insert_ne; [done|]. intros <-. congruence.
Qed.

Lemma insert_turn_Ok task row now d u d' :
  keys_ok (conversation_tables d) → insert_turn task row now d = Ok (u, d') →
  d' = set_tables (with_turns <[task := row]> (conversation_tables d)) d ∧
  keys_ok (conversation_tables d') ∧ turns_of d !! task = None ∧
  is_Some (room_requests d !! (tn_room_id (tn_turn row), tn_request_id (tn_turn row))) ∧
  (∃ c, conversations_of d !! tn_conversation_id (tn_turn row) = Some c ∧ belongs (tn_turn row) c) ∧
  has_event d (tn_room_id (tn_turn row)) (tn_trigger_event_id (tn_turn row)).
Proof.
  intros [Hch Hg Hcu Htc Hrq]. unfold insert_turn.
  destruct (turn_check row) eqn:Hck; simpl; [|done].
  destruct (_ || _) eqn:Hu; [done|]. destruct (_ || _) eqn:Hf in |- *; [done|]. intros [= <- <-].
  apply orb_false_iff in Hu as [Hnone%bool_decide_eq_false Huniq]. rewrite <-eq_None_not_Some in Hnone.
  rewrite !orb_false_iff, !negb_false_iff, bool_decide_eq_true in Hf. destruct Hf as [[Hreq Hconv] Hev].
  split_and!; [done| |done|done|..].
  - split; simpl; [exact Hch|exact Hg|exact Hcu|..].
    + intros k r [[<- <-]|[_ Hk]]%lookup_insert_Some; [done|by eapply Htc].
    + intros k r k' r' [[<- <-]|[_ Hk]]%lookup_insert_Some [[<- <-]|[_ Hk']]%lookup_insert_Some Hr Hq;
        [done|..|by eapply Hrq].
      * eapply existsb_map_false in Huniq; [|exact Hk']. apply bool_decide_eq_false in Huniq. naive_solver.
      * eapply existsb_map_false in Huniq; [|exact Hk]. apply bool_decide_eq_false in Huniq. naive_solver.
  - destruct (conversations_of d !! _) as [c|]; [|done]. apply bool_decide_eq_true in Hconv. by exists c.
  - apply list_find_exists in Hev as (e & He & [??]%bool_decide_eq_true). by exists e.
Qed.

Lemma current_conversation_Some room d id c :
  current_conversation room d = Some (id, c) →
  conversations_of d !! id = Some c ∧ cv_room_id c = room ∧ cv_agent_id c = CODEX_AGENT_ID ∧
  cv_state c ≠ CvSuperseded.
Proof.
  unfold current_conversation. intros Hh. apply head_Some in Hh as [rest Hl].
  assert ((id, c) ∈ (id, c) :: rest) as Hin by set_solver. rewrite <-Hl in Hin.
  apply list_elem_of_In, filter_In in Hin as [Hin Hp]. apply list_elem_of_In, elem_of_map_to_list in Hin.
  apply bool_decide_eq_true in Hp. naive_solver.
Qed.

Lemma current_conversation_None room d :
  current_conversation room d = None → ∀ id c, conversations_of d !! id = Some c →
  cv_room_id c = room → cv_agent_id c = CODEX_AGENT_ID → cv_state c = CvSuperseded.
Proof.
  unfold current_conversation. intros Hh id c Hc Hr Ha. destruct (decide (cv_state c = CvSuperseded)) as [|Hne]; [done|].
  apply head_None in Hh. assert ((id, c) ∈ List.filter (λ kv : Uuid * ConversationRow,
    bool_decide (cv_room_id kv.2 = room ∧ cv_agent_id kv.2 = CODEX_AGENT_ID ∧ cv_state kv.2 ≠ CvSuperseded))
    (map_to_list (conversations_of d))) as Hin.
  { apply list_elem_of_In, filter_In. split; [by apply list_elem_of_In, elem_of_map_to_list|].
    by apply bool_decide_eq_true. }
  rewrite Hh in Hin. by apply elem_of_nil in Hin.
Qed.

(** A room whose current conversation is not busy has no turn in flight. *)
Lemma idle_room room d :
  conv_ok d → match current_conversation room d with Some (_, c) => busy (cv_state c) | None => false end = false →
  ∀ task row, turns_of d !! task = Some row → tn_room_id (tn_turn row) = room →
  in_flight (tn_state row) = false.
Proof.
  intros Hc Hb task row Hrow Hr. destruct (in_flight (tn_state row)) eqn:Hf; [|done]. exfalso.
  pose proof Hc as [Hk [Ht _ _ _ _ _]]. destruct (Ht _ _ Hrow) as (c & Hcv & (Hroom & Hag & _) & Hin).
  destruct (Hin Hf) as [Hact Hst]. pose proof (checked_agent _ (ko_check _ Hk _ _ Hcv)) as Hcodex.
  assert (cv_state c ≠ CvSuperseded ∧ busy (cv_state c) = true) as [Hns Hbusy].
  { rewrite Hst. by destruct (tn_state row). }
  destruct (current_conversation room d) as [[id c']|] eqn:Hcur.
  - apply current_conversation_Some in Hcur as (Hc' & Hr' & _ & Hs').
    assert (id = tn_conversation_id (tn_turn row)) as ->.
    { eapply (ko_current _ Hk); [done|done| |done|done]. congruence. }
    assert (c' = c) as -> by congruence. congruence.
  - eapply (current_conversation_None room d Hcur) in Hcv; congruence.
Qed.

Lemma idle_active id d c :
  conv_ok d → conversations_of d !! id = Some c → busy (cv_state c) = false → cv_active_task_id c = None.
Proof.
  intros [Hk _] Hc Hb. pose proof (checked_active _ (ko_check _ Hk _ _ Hc)) as Ha.
  apply eq_None_not_Some. rewrite <-Ha, Hb. done.
Qed.

Lemma last_generation_max room d id c :
  conversations_of d !! id = Some c → cv_room_id c = room → cv_agent_id c = CODEX_AGENT_ID →
  cv_generation c ≤ last_generation room d.
Proof.
  intros Hc Hr Ha. unfold last_generation.
  assert (cv_generation c ∈ (λ kv : Uuid * ConversationRow, cv_generation kv.2) <$>
    List.filter (λ kv : Uuid * ConversationRow,
      bool_decide (cv_room_id kv.2 = room ∧ cv_agent_id kv.2 = CODEX_AGENT_ID))
      (map_to_list (conversations_of d))) as Hin.
  { apply list_elem_of_fmap. exists (id, c). split; [done|]. apply list_elem_of_In, filter_In.
    split; [by apply list_elem_of_In, elem_of_map_to_list|]. by apply bool_decide_eq_true. }
  induction Hin; simpl; lia.
Qed.

Section reservation.
Context `{UuidCrate, !UuidLaws, Chrono, SerdeJson, Sha2, Schemas, Postgres, Unicode, Timer, Oracle}.

(** ** Which conversation *)

(** The conversation of the turn: the current one, ready under the same policy, from the revision
    it consumed; or a new one, of the next generation, from the beginning. *)
Definition chosen (policy : ConversationPolicy) (mode : string) (room : Uuid) (d : Db)
    (conversation : Uuid) (generation base : Z) : Prop :=
  if String.eqb mode "continue" then ∃ c,
    current_conversation room d = Some (conversation, c) ∧ cv_state c = CvReady ∧
    generation = cv_generation c ∧ base = cv_consumed_revision c ∧ 0 < base ∧
    cv_policy_revision c = cp_policy_revision policy ∧
    cv_guidance_revision c = cp_guidance_revision policy
  else generation = last_generation room d + 1 ∧ base = 0 ∧ last_generation room d < MAX_SAFE_INTEGER.

Lemma turn_conversation_spec policy room request cm g now d w :
  tx_state cm g now d w →
  let current := current_conversation room d in
  wp (turn_conversation policy room request current)
    (λ r w', tx_state cm g now d w' ∧ chosen policy (turn_mode request current) room d r.1.1 r.1.2 r.2)
    (λ _, settled cm g) w.
Proof.
  intros Hw current. unfold turn_conversation, chosen.
  destruct (String.eqb (turn_mode request current) "continue").
  - subst current. destruct (current_conversation room d) as [[id c]|] eqn:Hcur; [|wp_step; by eapply tx_state_settled].
    wp_step; [wp_step; by eapply tx_state_settled|].
    destruct (Z.leb_spec (cv_consumed_revision c) 0); [wp_step; by eapply tx_state_settled|].
    wp_step. split; [done|]. exists c. rewrite !orb_false_iff, !negb_false_iff, bool_decide_eq_true, !String.eqb_eq in *.
    naive_solver.
  - wp_step. unfold unavailable. wp_step. wp_use wp_tx_select; [done| |done]. intros previous w1 [-> Hw1].
    destruct (Z.leb_spec MAX_SAFE_INTEGER (last_generation room d)); [wp_step; by eapply tx_state_settled|].
    wp_step. eapply wp_new_v4; [done|]. intros id w2 Hw2. wp_step. done.
Qed.

(** The statements on conversations made this one, if it has the key of the turn, reserved and
    active for [task]; the conversations were in order before that. *)
Definition booked (room conversation : Uuid) (generation : Z) (task : Uuid) (d d' : Db) : Prop :=
  (∃ t, d' = set_tables t d) ∧ keys_ok (conversation_tables d') ∧ turns_of d' = turns_of d ∧
  requests_of d' = requests_of d ∧
  ∀ c, conversations_of d' !! conversation = Some c →
    cv_room_id c = room → cv_agent_id c = CODEX_AGENT_ID → cv_generation c = generation →
    cv_active_task_id c = Some task ∧ cv_state c = CvReserved ∧
    ∃ t, let before := set_tables t d in
      conv_ok before ∧ turns_of before = turns_of d ∧ requests_of before = requests_of d ∧
      conversations_of d' = <[conversation := c]> (conversations_of before) ∧
      ∀ c0, conversations_of before !! conversation = Some c0 →
        cv_active_task_id c0 = None ∧ cv_room_id c0 = room ∧ cv_agent_id c0 = CODEX_AGENT_ID ∧
        cv_generation c0 = generation.

Definition continued (task : Uuid) (settings : Value) (at_ : DateTime) (c : ConversationRow) :
    ConversationRow :=
  set_conversation CvReserved (Some task) (pg_json settings) (cv_consumed_revision c) (pg_time at_) c.

(** Neither a new conversation nor a continued one: nothing with the key of the turn exists. *)
Lemma update_conversation_key id f t t' c :
  (∀ c, cv_room_id (f c) = cv_room_id c ∧ cv_agent_id (f c) = cv_agent_id c ∧ cv_generation (f c) = cv_generation c) →
  keys_ok t → update_conversation id always f t = Ok t' → agent_conversations t' !! id = Some c →
  ∃ c0, agent_conversations t !! id = Some c0 ∧ cv_room_id c = cv_room_id c0 ∧
    cv_agent_id c = cv_agent_id c0 ∧ cv_generation c = cv_generation c0 ∧
    c = f c0 ∧ t' = with_agent_conversations <[id := f c0]> t ∧ keys_ok t'.
Proof.
  intros Hf Hk Hup Hc. destruct (agent_conversations t !! id) as [c0|] eqn:Hc0.
  - destruct (update_conversation_keys id always f t t' c0) as (Hk' & -> & _); try done.
    simpl in Hc. rewrite lookup_insert_eq in Hc. injection Hc as <-. exists c0.
    destruct (Hf c0) as (?&?&?). done.
  - unfold update_conversation in Hup. rewrite Hc0 in Hup. injection Hup as <-. congruence.
Qed.

Lemma update_conversation_frame id p f t t' :
  keys_ok t → update_conversation id p f t = Ok t' →
  keys_ok t' ∧ conversation_tasks t' = conversation_tasks t ∧
  conversation_update_requests t' = conversation_update_requests t.
Proof.
  intros Hk. unfold update_conversation. destruct (agent_conversations t !! id) as [c|]; [|by intros [= <-]].
  destruct (p c); [|by intros [= <-]]. intros Hput.
  by destruct (put_conversation_keys _ _ _ _ Hk Hput) as (? & -> & _).
Qed.

(** A conversation that is not current any more. *)
Lemma supersede_ok d t id c (f := λ row at_, set_conversation CvSuperseded None (cv_selected_settings row)
    (cv_consumed_revision row) at_ row) at_ :
  conv_ok d → conversations_of d !! id = Some c → busy (cv_state c) = false →
  update_conversation id always (λ row, f row at_) (conversation_tables d) = Ok t →
  conv_ok (set_tables t d) ∧ conversation_tasks t = turns_of d ∧
  conversation_update_requests t = requests_of d.
Proof.
  intros Hc Hcv Hb Hup. pose proof (idle_active _ _ _ Hc Hcv Hb) as Hn.
  destruct (update_conversation_keys id always (λ row, f row at_) (conversation_tables d) t c) as (Hk & -> & _);
    [apply Hc|done|done|done|]. split; [|done].
  by eapply (idle_conversation_ok d _ id c (f c at_)).
Qed.

Lemma reserve_conversation_spec policy mode room conversation generation base task settings at_ cm g now d w :
  tx_state cm g now d w → conv_ok d →
  let current := current_conversation room d in
  match current with Some (_, c) => busy (cv_state c) | None => false end = false →
  chosen policy mode room d conversation generation base →
  wp (reserve_conversation policy mode current room conversation generation task settings at_)
    (λ _ w', ∃ d', tx_state cm g now d' w' ∧ booked room conversation generation task d d')
    (λ _, settled cm g) w.
Proof.
  intros Hw Hc current Hb Hch. unfold reserve_conversation.
  destruct (String.eqb_spec mode "new") as [->|Hnew].
  - simpl in Hch. wp_step.
    eapply wp_mono with (F := λ _, settled cm g) (Q := λ _ w', ∃ t, tx_state cm g now (set_tables t d) w' ∧
      conv_ok (set_tables t d) ∧ conversation_tasks t = turns_of d ∧
      conversation_update_requests t = requests_of d); [|cbv beta|done].
    { subst current. destruct (current_conversation room d) as [[previous c]|] eqn:Hcur.
      - apply current_conversation_Some in Hcur as (Hcv & _). unfold unavailable. wp_step.
        wp_use wp_tx_query; [done| |done]. intros [] w1 (d1 & (t & Hup & ->)%on_tables_Ok & Hw1).
        exists t. destruct (supersede_ok d t previous c (pg_time at_)) as (? & ? & ?); done.
      - wp_step. exists (conversation_tables d). by destruct d. }
    intros [] w1 (t1 & Hw1 & Hc1 & Ht1 & Hq1). unfold unavailable. wp_step.
    wp_use wp_tx_query; [done| |done]. intros [] w2 (d2 & (t2 & Hins & ->)%on_tables_Ok & Hw2).
    apply insert_conversation_keys in Hins as (Hk2 & -> & _ & Hnone); [|apply Hc1].
    eexists. split; [exact Hw2|]. split_and!; [by eexists|done|done|done|]. simpl.
    intros c Hcv _ _ _. rewrite lookup_insert_eq in Hcv. injection Hcv as <-.
    split_and!; [done..|]. exists t1. split_and!; [done|done|done|done|]. simpl in *. congruence.
  - unfold unavailable. wp_step. wp_use wp_tx_query; [done| |done].
    intros [] w1 (d1 & (t & Hup & ->)%on_tables_Ok & Hw1). eexists. split; [exact Hw1|].
    pose proof (update_conversation_frame _ _ _ _ _ (co_keys _ Hc) Hup) as (Hk & Ht & Hq).
    split_and!; [by eexists|done|done|done|]. simpl. intros c Hcv Hr Ha Hg.
    destruct (update_conversation_key conversation (continued task settings at_)
        (conversation_tables d) t c (λ _, conj eq_refl (conj eq_refl eq_refl)) (co_keys _ Hc) Hup Hcv)
      as (c0 & Hc0 & Hr0 & Ha0 & Hg0 & -> & -> & _).
    split_and!; [done..|]. exists (conversation_tables d). replace (set_tables (conversation_tables d) d) with d by (by destruct d).
    split_and!; [done..|]. intros c1 Hc1. assert (c1 = c0) as -> by congruence.
    unfold chosen in Hch. destruct (String.eqb_spec mode "continue") as [->|Hm].
    + destruct Hch as (c2 & Hcur & Hs & -> & _). fold current in Hcur. rewrite Hcur in Hb.
      apply current_conversation_Some in Hcur as (Hcv2 & ? & ? & _). assert (c2 = c0) as -> by congruence.
      split_and!; try done. by eapply idle_active.
    + exfalso. assert (cv_generation c0 ≤ last_generation room d) by (eapply last_generation_max; [exact Hc0|congruence|congruence]).
      simpl in *. lia.
Qed.

(** ** The outcome *)

Lemma validate_conversation_mentions_frame room mentions cm g now d w :
  tx_state cm g now d w →
  wp (validate_conversation_mentions room mentions) (λ _, tx_state cm g now d) (λ _, settled cm g) w.
Proof.
  intros Hw. unfold validate_conversation_mentions. wp_step. wp_step; [|by eapply tx_state_settled].
  wp_step; [by wp_step|]. wp_step. unfold unavailable. wp_step. wp_use wp_tx_select; [done| |done].
  intros authors w1 [_ Hw1]. wp_step. apply wp_intro; [|done]. intros room_presence w2 [= <- <-]. wp_step.
  wp_step; [|by eapply tx_state_settled]. wp_step; [done|by eapply tx_state_settled].
Qed.

Lemma authorize_Ok actor requested now minimum expiry :
  authorize_conversation_turn actor requested now minimum = Ok expiry →
  actor_role actor = Human ∧ now + minimum ≤ expiry ∧ expiry ≤ requested ∧
  ∃ token, from_timestamp (actor_expires_at actor) = Some token ∧ expiry ≤ token.
Proof.
  unfold authorize_conversation_turn. intros ([] & Hr & Hx)%rbind_Ok.
  apply reject_if_Ok, negb_false_iff, bool_decide_eq_true in Hr.
  apply rbind_Ok in Hx as (token & Ht%ok_or_Ok & Hx). apply rbind_Ok in Hx as ([] & Hl & [= <-]).
  apply reject_if_Ok, Z.ltb_ge in Hl. split_and!; [done|done|lia|]. exists token. split; [done|lia].
Qed.

(** A new turn of a room that had none in flight. *)
Record reserved (policy : ConversationPolicy) (actor : Actor) (request : Value) (room rid : Uuid)
    (d d' : Db) (o : ConversationReservation) : Prop := {
  rv_idle task row :
    turns_of d !! task = Some row → tn_room_id (tn_turn row) = room → in_flight (tn_state row) = false;
  rv_turn : ∃ id at_ task conversation generation base context settings auth now token,
    let mode := turn_mode request (current_conversation room d) in
    let prompt := next_row d id (prompt_event actor room rid request at_) in
    let expires := now + seconds (cp_turn_deadline_seconds policy) in
    let frozen := frozen_input policy actor room task conversation generation mode
                    (ev_event_id prompt) context now expires auth settings in
    let accepted := accepted_value room task conversation generation (ev_event_id prompt)
                      (ev_sequence prompt) settings in
    let row := new_turn policy actor room rid conversation generation (ev_event_id prompt)
                 (ev_sequence prompt) frozen settings (source_manifest context) accepted auth now expires in
    chosen policy mode room d conversation generation base ∧
    build_in room conversation generation base (ev_event_id prompt) policy (add_row prompt d) = Ok context ∧
    offers policy (index settings "model") (index settings "reasoningEffort") = true ∧
    from_timestamp (actor_expires_at actor) = Some token ∧
    now + turn_minimum policy ≤ auth ∧ auth ≤ token ∧
    room_events d' = room_events d ++ [prompt] ∧
    room_requests d' = <[(room, rid) := {| rq_request_fingerprint := pg_json (turn_fingerprint actor request);
                                           rq_event_ids := [ev_event_id prompt] |}]> (room_requests d) ∧
    turns_of d !! task = None ∧ turns_of d' = <[task := row]> (turns_of d) ∧
    requests_of d' = requests_of d ∧
    o = {| cr_accepted := accepted; cr_prompt := Some prompt |};
}.

(** A repeated request is answered as it was; a new one reserves a turn. *)
Definition reserve_answer (policy : ConversationPolicy) (actor : Actor) (request : Value) (d d' : Db)
    (o : ConversationReservation) : Prop :=
  ∃ room rid, uuid_field request "roomId" = Ok room ∧ uuid_field request "requestId" = Ok rid ∧
    match room_requests d !! (room, rid) with
    | Some row => d' = d ∧ rq_request_fingerprint row = turn_fingerprint actor request ∧
                  accepted_turn room rid (actor_id actor) d = Some (cr_accepted o) ∧ cr_prompt o = None
    | None => reserved policy actor request room rid d d' o
    end.

Lemma accepted_trigger room task conversation generation trigger revision settings u :
  uuid_field (accepted_value room task conversation generation trigger revision settings)
    "triggerEventId" = Ok u → u = trigger.
Proof.
  unfold uuid_field, accepted_value. json_get. unfold json_uuid. simpl.
  rewrite uuid_parse_to_string. by intros [= <-].
Qed.

Lemma accepted_revision room task conversation generation trigger revision settings n :
  ok_or RuntimeUnavailable (as_i64 (index (accepted_value room task conversation generation trigger revision settings)
    "contextRevision")) = Ok n → n = revision.
Proof. intros Hn%ok_or_Ok. revert Hn. simpl. case_match; congruence. Qed.

Lemma resolve_settings_Ok policy settings v :
  resolve_settings policy settings = Ok v →
  v = default (default_settings policy) settings ∧
  is_str (index v "catalogRevision") (cp_catalog_revision policy) = true ∧
  offers policy (index v "model") (index v "reasoningEffort") = true.
Proof.
  unfold resolve_settings. intros ([] & Hr & [= <-])%rbind_Ok. apply reject_if_Ok in Hr.
  rewrite orb_false_iff, !negb_false_iff in Hr. done.
Qed.

(** The turn inserted into a booked conversation. *)
Lemma booked_turn_ok d d3 task row now u d4 :
  conv_ok d → booked (tn_room_id (tn_turn row)) (tn_conversation_id (tn_turn row))
    (tn_generation (tn_turn row)) task d d3 →
  tn_agent_id (tn_turn row) = CODEX_AGENT_ID → tn_state row = TnReserved → tn_lease_token row = None →
  insert_turn task row now d3 = Ok (u, d4) →
  conv_ok d4 ∧ (∃ t, d4 = set_tables t d) ∧ turns_of d !! task = None ∧
  turns_of d4 = <[task := row]> (turns_of d) ∧ requests_of d4 = requests_of d.
Proof.
  intros Hc ([t Hd3] & Hk3 & Ht3 & Hq3 & Hbook) Hag Hs Htok Hins.
  apply insert_turn_Ok in Hins as (Hd4 & Hk4 & Hnone & Hreq & (c & Hc3 & (Hr & Ha & Hg)) & Hev); [|done].
  destruct (Hbook c Hc3 Hr) as (Hact & Hst & tb & Hcb & Htb & Hqb & Hcs & Hidle); [congruence|done|].
  assert (turns_of d4 = <[task := row]> (turns_of d)) as Hts by (by rewrite Hd4; simpl; rewrite Ht3).
  assert (requests_of d4 = requests_of d) as Hqs by (by rewrite Hd4).
  split_and!; [| |by rewrite <-Ht3|done|done].
  - eapply (reserve_turn_ok (set_tables tb d) d4 task row c); try done.
    + by rewrite Hd4.
    + by rewrite Hts, Htb.
    + by rewrite Hqs, Hqb.
    + rewrite Hd4, Hd3. by split; [exists []; rewrite app_nil_r|].
    + by rewrite Htb, <-Ht3.
    + intros c0 Hc0. destruct (Hidle c0 Hc0) as (? & ? & ? & ?). split; [done|]. split_and!; congruence.
    + by rewrite Hd4, Hd3 in *.
    + by rewrite Hd4, Hd3 in *.
  - rewrite Hd4, Hd3. by eexists.
Qed.

(** What an operation through a catalogue may leave behind. *)
Definition stepped_about (cm : Db) (g : Gateway) (w : World) : Prop :=
  ∃ d g', same_but_cursors g g' ∧ settled d g' w ∧ conv_step cm d.

Lemma quiet_stepped cm g w : db_ok cm → conv_ok cm → quiet_about cm g w → stepped_about cm g w.
Proof. intros ? ? (g' & ? & ?). exists cm, g'. split_and!; [done..|by apply conv_step_refl]. Qed.

Definition request_row (actor : Actor) (request : Value) (prompt : RoomEvent) : RequestRow :=
  {| rq_request_fingerprint := pg_json (turn_fingerprint actor request);
     rq_event_ids := [ev_event_id prompt] |}.

(** The four writes of a new turn, from the database the transaction started with. *)
Lemma reserve_writes cm room rid prompt rq d3 task row now u d4 :
  db_ok cm → conv_ok cm → room_requests cm !! (room, rid) = None →
  let d2 := with_requests <[(room, rid) := rq]> (add_row prompt cm) in
  db_ok d2 → booked (tn_room_id (tn_turn row)) (tn_conversation_id (tn_turn row))
    (tn_generation (tn_turn row)) task d2 d3 →
  tn_agent_id (tn_turn row) = CODEX_AGENT_ID → tn_state row = TnReserved → tn_lease_token row = None →
  insert_turn task row now d3 = Ok (u, d4) →
  conv_step cm d4 ∧ room_events d4 = room_events cm ++ [prompt] ∧
  room_requests d4 = <[(room, rid) := rq]> (room_requests cm) ∧
  turns_of cm !! task = None ∧ turns_of d4 = <[task := row]> (turns_of cm) ∧
  requests_of d4 = requests_of cm.
Proof.
  intros Hok Hc Hnew d2 Hok2 Hbook Hag Hs Htok Hins.
  assert (extends cm d2) as Hx.
  { split; [by exists [prompt]|]. intros key Hkey. simpl. destruct (decide (key = (room, rid))) as [->|Hne].
    - by rewrite lookup_insert_eq.
    - by rewrite lookup_insert_ne. }
  assert (conv_ok d2) as Hc2 by (by eapply conv_ok_extends).
  destruct (booked_turn_ok d2 d3 task row now u d4) as (Hc4 & [t Hd4] & Hnone & Hts & Hqs); try done.
  subst d4. split_and!; try done. split; try done; [by apply db_ok_set_tables|].
  split; [|by rewrite Hqs]. intros k r Hk. exists r. rewrite Hts. rewrite lookup_insert_ne; [done|].
  intros <-. simpl in Hnone. congruence.
Qed.

Lemma owned_row room prompt d :
  ev_room_id prompt = room → [prompt] `sublist_of` room_log room (add_row prompt d).
Proof.
  intros Hr. unfold room_log, add_row. simpl. rewrite List.filter_app. simpl. unfold in_room at 2.
  rewrite bool_decide_true by done. by apply sublist_inserts_l.
Qed.

(** What is decided before the turn is written. *)
Record decided (policy : ConversationPolicy) (actor : Actor) (request : Value) (room rid : Uuid) (d : Db)
    (conversation : Uuid) (generation base : Z) (settings : Value) (auth now : DateTime) : Prop := {
  dd_new : room_requests d !! (room, rid) = None;
  dd_idle : match current_conversation room d with Some (_, c) => busy (cv_state c) | None => false end = false;
  dd_chosen : chosen policy (turn_mode request (current_conversation room d)) room d conversation generation base;
  dd_offers : offers policy (index settings "model") (index settings "reasoningEffort") = true;
  dd_token : ∃ token, from_timestamp (actor_expires_at actor) = Some token ∧ auth ≤ token;
  dd_lasts : now + turn_minimum policy ≤ auth;
}.

Lemma reserve_turn_spec policy actor request room rid conversation generation base settings auth now cm g tnow w :
  tx_state cm g tnow cm w → db_ok cm → conv_ok cm →
  decided policy actor request room rid cm conversation generation base settings auth now →
  let current := current_conversation room cm in
  wp (reserve_turn policy actor request room rid current (turn_mode request current) conversation generation
        base settings auth now)
    (λ o w', ∃ d, settled d g w' ∧ conv_step cm d ∧ reserved policy actor request room rid cm d o)
    (λ _ w', ∃ d, settled d g w' ∧ conv_step cm d) w.
Proof.
  intros Hw7 Hok Hc [Hrow Hbusy Hch Hoff (token & Htok & Hlt) Hmin] current.
  assert (∀ w, settled cm g w → ∃ d, settled d g w ∧ conv_step cm d) as Hq.
  { intros w' Hw'. exists cm. split; [done|by apply conv_step_refl]. }
  assert (∀ d w, tx_state cm g tnow d w → ∃ d, settled d g w ∧ conv_step cm d) as Hqt
    by (intros; by eapply Hq, tx_state_settled).
  unfold reserve_turn.
  wp_step. eapply wp_new_v4; [done|]. intros task w8 Hw8. wp_step. wp_step; [|by eapply Hqt].
  wp_step. unfold unavailable at 1. wp_step. wp_use wp_append; [done|done| |naive_solver].
  intros prompt w9 (id & _ & Hprompt & Hok1 & Hw9). wp_step; [wp_step; by eapply Hqt|]. wp_step.
  wp_use build_context_spec; [done| |naive_solver]. intros context w10 [Hw10 Hctx]. wp_step.
  wp_step; [|by eapply Hqt]. wp_step. wp_step; [|by eapply Hqt]. wp_step.
  unfold unavailable at 1. wp_step.
  assert (ev_room_id prompt = room) as Hpr by (by rewrite Hprompt).
  wp_use wp_record_request; [done|done| | |naive_solver].
  { apply owned_row. done. }
  intros [] w11 (_ & Hok2 & Hw11). wp_step.
  set (d2 := with_requests <[(room, rid) := request_row actor request prompt]> (add_row prompt cm)) in *.
  assert (extends cm d2) as Hx.
  { split; [by exists [prompt]|]. intros key Hkey. simpl. rewrite lookup_insert_is_Some.
    destruct (decide ((room, rid) = key)); auto. }
  assert (conv_ok d2) as Hc2 by (by eapply conv_ok_extends).
  wp_use (reserve_conversation_spec _ _ room _ _ base _ _ _ _ _ _ d2); [exact Hw11|done|exact Hbusy|exact Hch| |naive_solver].
  intros [] w12 (d3 & Hw12 & Hbook). wp_step. wp_step; [|by eapply Hqt].
  match goal with Hz : uuid_field _ "triggerEventId" = Ok _ |- _ => apply accepted_trigger in Hz as -> end.
  wp_step. wp_step; [|by eapply Hqt].
  match goal with Hz : ok_or RuntimeUnavailable _ = Ok _ |- _ => apply accepted_revision in Hz as -> end.
  wp_step. unfold unavailable at 1. wp_step. wp_use wp_tx_query; [done| |naive_solver].
  intros [] w13 (d4 & Hins & Hw13). wp_step. eapply wp_now; [done|]. intros after w14 Hw14. wp_step.
  wp_step; [|by eapply Hqt]. wp_step.
  match type of Hins with insert_turn _ ?turn _ _ = _ =>
    destruct (reserve_writes cm room rid prompt (request_row actor request prompt) d3 task turn _ _ _
      Hok Hc Hrow Hok2 Hbook eq_refl eq_refl eq_refl Hins) as (Hst & Hev & Hrq & Hnone & Hts & Hqs) end.
  wp_use wp_commit_step; [done|done|done|done| |].
  - intros [] w15 Hw15. wp_step. exists d4. split_and!; try done. split; [by apply idle_room|].
    eexists id, _, task, conversation, generation, base, context, settings, auth, now, token.
    cbv zeta. rewrite <-Hprompt. split_and!; [exact Hch|exact Hctx|done|done|done|done|done|done|done|exact Hts|done|done].
  - intros e w15 (d & Hw15 & Hstd). by exists d.
Qed.

Lemma reserve_inner_spec policy actor request requested catalog mediated cm g w :
  (∀ c, catalog = Some c → catalog_frame c) → settled cm g w → db_ok cm → conv_ok cm →
  wp (reserve_inner policy actor request requested catalog mediated)
    (λ o w', ∃ d g', same_but_cursors g g' ∧ settled d g' w' ∧ conv_step cm d ∧
       actor_role actor = Human ∧ cp_enabled policy = true ∧
       reserve_answer policy actor request cm d o)
    (λ _, stepped_about cm g) w.
Proof.
  intros Hcat Hw Hok Hc. pose proof (λ w, quiet_stepped cm g w Hok Hc) as Hquiet.
  assert (∀ w, settled cm g w → stepped_about cm g w) as Hq by (intros; by apply Hquiet, settled_quiet).
  assert (∀ now d w, tx_about cm g now d w → stepped_about cm g w) as Hqa
    by (intros; by eapply Hquiet, tx_about_quiet).
  assert (∀ now d w, tx_state cm g now d w → stepped_about cm g w) as Hqt
    by (intros; by eapply Hq, tx_state_settled).
  unfold reserve_inner. wp_step. apply wp_intro; [|done]. intros before w0 [= <- <-].
  assert (settled cm g (next_tick w)) as Hw0 by done. wp_step. wp_step; [|by apply Hq].
  destruct (cp_enabled policy) eqn:Hen; simpl; [|wp_step; by apply Hq]. wp_step.
  wp_step; [|by apply Hq].
  assert (a0 = request) as ->.
  { unfold validate_turn_request in *. repeat match goal with
      | Hz : _ ≫= _ = Ok _ |- _ => apply rbind_Ok in Hz as (? & ? & Hz) end. congruence. }
  wp_step. wp_step; [|by apply Hq].
  match goal with Hz : uuid_field request "roomId" = Ok ?r |- _ => rename r into room, Hz into Hroom end.
  wp_step. wp_step; [|by apply Hq].
  match goal with Hz : uuid_field request "requestId" = Ok ?r |- _ => rename r into rid, Hz into Hrid end.
  wp_step. eapply wp_start; [done| |naive_solver]. intros tnow w1 Hw1. wp_step.
  wp_use wp_lock; [done| |naive_solver]. intros [] w2 Hw2. wp_step.
  eapply wp_now; [done|]. clear w2 Hw2. intros now w2 Hw2. wp_step. wp_step; [|by eapply Hqt].
  match goal with Hz : authorize_conversation_turn _ _ now _ = Ok ?r |- _ =>
    rename r into auth; apply authorize_Ok in Hz as (Hhuman & Hmin & _ & token & Htok & Hlt) end.
  wp_step. unfold unavailable at 1. wp_step. wp_use wp_prior_request; [done|done| |naive_solver].
  intros prior w3 [Hw3 Hprior].
  destruct (room_requests cm !! (room, rid)) as [row|] eqn:Hrow.
  { destruct Hprior as (evs & _ & ->). case_bool_decide as Hfp; simpl; [|wp_step; by eapply Hqt].
    wp_step. unfold unavailable at 1. wp_step. wp_use wp_tx_select; [done| |naive_solver].
    intros accepted w4 [-> Hw4]. wp_step. wp_step; [|by eapply Hqt]. wp_step. exists cm, g.
    split_and!; [done|by eapply tx_state_settled|by apply conv_step_refl|done|done|].
    exists room, rid. rewrite Hrow. split_and!; try done. by eapply ok_or_Ok. }
  subst prior. wp_step. eapply wp_mono with (Q := λ _, tx_state cm g tnow cm) (F := λ _, settled cm g);
    [destruct mediated; [by apply validate_conversation_mentions_frame|by wp_step]|cbv beta|naive_solver].
  intros [] w4 Hw4. wp_step. unfold unavailable at 1. wp_step. wp_use wp_tx_select; [done| |naive_solver].
  intros current w5 [-> Hw5]. wp_step; [wp_step; by eapply Hqt|].
  match goal with Hz : _ = false |- _ => rename Hz into Hbusy end. wp_step.
  wp_use turn_conversation_spec; [done| |naive_solver]. intros [[conversation generation] base] w6 [Hw6 Hch].
  simpl in Hch. wp_step. wp_step; [|by eapply Hqt].
  match goal with Hz : resolve_settings _ _ = Ok ?v |- _ =>
    rename v into settings; apply resolve_settings_Ok in Hz as (_ & _ & Hoff) end.
  wp_step. eapply wp_mono with (Q := λ _, tx_about cm g tnow cm) (F := λ _, tx_about cm g tnow cm);
    [|cbv beta|naive_solver].
  { destruct catalog as [catalog|]; [|wp_step; by exists g].
    apply scan_pages_frame; [apply timed_frame; by apply Hcat|by exists g]. }
  intros [] w7 (g' & Hg & Hw7).
  wp_use reserve_turn_spec; [exact Hw7|done|done|split; try done; by exists token| |].
  - intros o w8 (d & Hw8 & Hst & Hres). exists d, g'. split_and!; try done. exists room, rid. by rewrite Hrow.
  - intros e w8 (d & Hw8 & Hst). by exists d, g'.
Qed.
End reservation.
