(* ===== verification/CatalogBridge.v ===== *)
(** * The catalogue bridge (src/src/catalog_bridge.rs)

    The one implementation of [CatalogQuery]: every page is cut from a document fetched anew from
    the agent gateway, under a cursor that is bound to the digest of the document it was cut from.
    The HTTP client is a parameter; a document may arrive in any chunks and break off anywhere. *)

From S2P Require Import Prelude Json Text Crates Types ConversationProtocol StrictJson ConversationTables Protocol MemoryEngine World Store StoreInvariant ConversationContext Catalog ConversationReserve.
From Stdlib Require Import Ascii.
Local Open Scope string_scope.
Local Open Scope list_scope.
Local Open Scope Z_scope.

Definition ENDPOINT : string :=
  "http://thought-khoral-agent-gateway:9092/internal/agent-conversations/v1/models".

(** ** The credential *)

Record CatalogBridgeSecret := { secret_value : string }.

Definition secret_byte (b : ascii) : bool :=
  is_ascii_alphanumeric b
  || existsb (Ascii.eqb b) ["-"; "."; "_"; "~"; "+"; "/"; "="]%char.

(** [CatalogBridgeSecret::new]. *)
Definition secret_new (value : string) : result ConversationError CatalogBridgeSecret :=
  let len := Z.of_nat (String.length value) in
  if negb ((32 <=? len) && (len <=? 4096)) || negb (forall_bytes secret_byte value)
  then Err RuntimeUnavailable else Ok {| secret_value := value |}.

(** ** The HTTP client *)

(** A reply as reqwest gives it: the status, the announced length, and the chunks of the body,
    [None] where reading fails (a broken connection or the deadline of five seconds). *)
Record HttpReply := {
  hr_status : Z;
  hr_content_length : option Z;
  hr_chunks : list (option string);
}.

(** [reqwest] and the header values of [http]: building a client, turning a text into a header
    value, and a GET with an Authorization header, as it goes at an instant. *)
Class HttpClient := {
  header_value : string → option string;
  client_builds : bool;
  http_get : nat → string → string → option HttpReply;
}.

Definition visible_byte (b : ascii) : bool := (32 <=? nat_of_ascii b)%nat && (nat_of_ascii b <? 127)%nat.

(** A header value may hold any visible ASCII character and the space. *)
Class HttpClientLaws `{HttpClient} : Prop := {
  header_value_visible s : forall_bytes visible_byte s = true → header_value s = Some s;
}.

(** [HashMap::keys().next()]: the iteration order is the map's own; [first_key] is where it
    starts. *)
Class HashOrder := { first_key : nat → nat }.

Definition some_key {A} `{HashOrder} (t : nat) (m : gmap string A) : option string :=
  (map_to_list m).*1 !! (first_key t mod size m)%nat.

(** ** The bridge *)

(** Its cursors are kept in the integration it is installed in. *)
Record CatalogBridge := { br_authorization : string }.

Definition CURSOR_LIMIT : nat := 1024.

(** At most [CURSOR_LIMIT] cursors: one of them makes room for the next. *)
Definition remember_cursor {A} `{HashOrder} (t : nat) (cursor : string) (v : A)
    (m : gmap string A) : gmap string A :=
  let kept := if (CURSOR_LIMIT <=? size m)%nat
              then match some_key t m with Some old => delete old m | None => m end
              else m in
  <[cursor := v]> kept.

Definition set_bridge_cursors (f : gmap string (string * Z) → gmap string (string * Z)) (w : World) :
    World :=
  let g := gateway w in
  let i := integration g in
  with_gateway
    {| channels := channels g; presence := presence g; memory_engine := memory_engine g;
       integration :=
         {| ci_policy := ci_policy i; ci_catalog := ci_catalog i; ci_cursors := ci_cursors i;
            ci_bridge_cursors := f (ci_bridge_cursors i) |} |} w.

(** The loop over the chunks of the body. *)
Fixpoint read_chunks (received : string) (chunks : list (option string)) :
    result ConversationError string :=
  match chunks with
  | [] => Ok received
  | None :: _ => Err RuntimeUnavailable
  | Some chunk :: rest =>
      _ ← reject_if
            (MAX_CATALOG_BYTES - Z.of_nat (String.length received) <? Z.of_nat (String.length chunk))
            RuntimeUnavailable;
      read_chunks (String.append received chunk) rest
  end.

Section bridge.
Context `{UuidCrate, SerdeJson, Sha2, Schemas, JsonText, HttpClient, HashOrder, Oracle}.

(** [CatalogBridge::new], that is [build] without the address the tests use. *)
Definition bridge_new (secret : CatalogBridgeSecret) : result ConversationError CatalogBridge :=
  authorization ← ok_or RuntimeUnavailable
    (header_value (String.append "Bearer " (secret_value secret)));
  _ ← reject_if (negb client_builds) RuntimeUnavailable;
  Ok {| br_authorization := authorization |}.

(** The GET. *)
Definition send (bridge : CatalogBridge) : Conv HttpReply := λ w,
  (ok_or RuntimeUnavailable (http_get (tick w) ENDPOINT (br_authorization bridge)), next_tick w).

(** From a reply to the document: an OK within the limit, strict JSON of the catalogue schema
    that is complete in itself. *)
Definition document_of (response : HttpReply) : result ConversationError Value :=
  _ ← reject_if
        (negb (hr_status response =? 200)
         || match hr_content_length response with Some n => MAX_CATALOG_BYTES <? n | None => false end)
        RuntimeUnavailable;
  bytes ← read_chunks "" (hr_chunks response);
  page ← rmap_err (λ _, RuntimeUnavailable) (parse_strict_json bytes);
  _ ← rmap_err (λ _, RuntimeUnavailable) (validate_profile_value "catalog" page);
  _ ← reject_if (negb (is_null (index page "nextCursor"))) RuntimeUnavailable;
  Ok page.

Definition page_digest (page : Value) : string := sha256_hex (json_to_string page).

(** Where the page starts: a cursor is only good for the document it was cut from. *)
Definition page_offset (digest : string) (resume : option (string * Z)) : result ConversationError Z :=
  match resume with
  | None => Ok 0
  | Some (bound, offset) =>
      if negb (String.eqb bound digest) then Err ConversationStale else Ok offset
  end.

(** The binding of a cursor, which must be known. *)
Definition resume_at (cursor : option string) : Conv (option (string * Z)) :=
  match cursor with
  | Some cursor =>
      known ← gets (λ w, ci_bridge_cursors (integration (gateway w)) !! cursor);
      bound ← lift (ok_or RuntimeUnavailable known);
      mret (Some bound)
  | None => mret None
  end.

(** The page of the document at that position, with a new cursor when more follows. *)
Definition cut_page (page : Value) (resume : option (string * Z)) (limit : Z) : Conv Value :=
  let digest := page_digest page in
  offset ← lift (page_offset digest resume);
  data ← lift (ok_or RuntimeUnavailable (as_array (index page "data")));
  let len := Z.of_nat (length data) in
  if len <? offset then throw RuntimeUnavailable
  else
    let end_ := Z.min (offset + limit) len in
    let page := set_member page "data"
                  (Array (take (Z.to_nat (end_ - offset)) (drop (Z.to_nat offset) data))) in
    if end_ <? len then
      id ← new_v4;
      let cursor := uuid_to_string id in
      _ ← modify (λ w, set_bridge_cursors (remember_cursor (tick w) cursor (digest, end_)) w);
      mret (set_member page "nextCursor" (Str cursor))
    else mret page.

(** [CatalogBridge::page]. *)
Definition bridge_page (bridge : CatalogBridge) : CatalogQuery := λ agent cursor limit,
  if negb (bool_decide (agent = CODEX_AGENT_ID)) || negb ((1 <=? limit) && (limit <=? 100))
  then throw RuntimeUnavailable
  else
    resume ← resume_at cursor;
    response ← send bridge;
    page ← lift (document_of response);
    cut_page page resume limit.

(** ** Cursors are bounded *)

Lemma some_key_lookup {A} t (m : gmap string A) :
  m ≠ ∅ → ∃ k, some_key t m = Some k ∧ is_Some (m !! k).
Proof.
  intros Hm. unfold some_key. assert (size m ≠ 0%nat) as Hs by by rewrite map_size_empty_iff.
  destruct (lookup_lt_is_Some_2 (map_to_list m).*1 (first_key t mod size m)) as [k Hk].
  { rewrite length_fmap, length_map_to_list. by apply Nat.mod_upper_bound. }
  exists k. split; [done|]. apply list_elem_of_lookup_2, list_elem_of_fmap in Hk as ([k' x] & -> & Hin).
  apply elem_of_map_to_list in Hin. by exists x.
Qed.

Lemma remember_cursor_size {A} t cursor (v : A) (m : gmap string A) :
  (size m ≤ CURSOR_LIMIT)%nat → (size (remember_cursor t cursor v m) ≤ CURSOR_LIMIT)%nat.
Proof.
  intros Hm. unfold remember_cursor. assert (1 ≤ CURSOR_LIMIT)%nat by (unfold CURSOR_LIMIT; lia).
  destruct (Nat.leb_spec CURSOR_LIMIT (size m)) as [Hfull|Hless].
  - assert (m ≠ ∅) as Hne. { intros ->. rewrite map_size_empty in Hfull. lia. }
    destruct (some_key_lookup t m Hne) as (k & -> & Hk).
    rewrite map_size_insert, map_size_delete. destruct Hk as [x ->]. case_match; simpl; lia.
  - rewrite map_size_insert. case_match; simpl; lia.
Qed.

Lemma remember_cursor_lookup {A} t cursor (v : A) (m : gmap string A) :
  remember_cursor t cursor v m !! cursor = Some v.
Proof. unfold remember_cursor. by rewrite lookup_insert_eq. Qed.

(** ** What a page is *)

(** A call of the catalogue keeps all but its cursors. *)
Definition keeps (w w' : World) : Prop :=
  committed w' = committed w ∧ working w' = working w ∧ tx_now w' = tx_now w ∧
  same_but_cursors (gateway w) (gateway w').

Global Instance keeps_preorder : PreOrder keeps.
Proof.
  split; [by intros w|]. intros w1 w2 w3 (?&?&?&?) (?&?&?&?). split_and!; try congruence. by etrans.
Qed.

Lemma bridge_frame bridge : catalog_frame (bridge_page bridge).
Proof.
  intros agent cursor limit. change (Pres keeps (bridge_page bridge agent cursor limit)).
  assert (Pres keeps (send bridge)) by (intros w; by unfold send).
  assert (Pres (E := ConversationError) keeps new_v4) by (by intros w).
  assert (∀ f, Pres (E := ConversationError) keeps (modify (λ w, set_bridge_cursors (f w) w))) by (by intros f w).
  unfold bridge_page, resume_at, cut_page. cbv zeta. solve_pres.
Qed.

(** ** Walking the pages *)

(** The agent gateway answers with the same document, whenever it is asked. *)
Definition serves (bridge : CatalogBridge) (doc : Value) : Prop :=
  ∀ t, ∃ reply, http_get t ENDPOINT (br_authorization bridge) = Some reply ∧ document_of reply = Ok doc.

(** The position in [doc] that a cursor stands for. *)
Definition stands_for (w : World) (doc : Value) (cursor : option string) (offset : Z) : Prop :=
  match cursor with
  | None => offset = 0
  | Some c => ci_bridge_cursors (integration (gateway w)) !! c = Some (page_digest doc, offset)
  end.

(** How many cursors are kept. *)
Definition known_cursors (w : World) : nat := size (ci_bridge_cursors (integration (gateway w))).

Lemma document_of_complete reply doc :
  document_of reply = Ok doc → as_str (index doc "nextCursor") = None.
Proof.
  unfold document_of. rewrite rbind_Ok. intros (? & _ & H'). rewrite rbind_Ok in H'.
  destruct H' as (? & _ & H'). rewrite rbind_Ok in H'. destruct H' as (page & _ & H').
  rewrite rbind_Ok in H'. destruct H' as (? & _ & H'). rewrite rbind_Ok in H'.
  destruct H' as (? & Hn & [= <-]). rewrite reject_if_Ok, negb_false_iff in Hn.
  by destruct (index page "nextCursor").
Qed.

Lemma index_set_eq v k x : is_Some (as_object v) → index (set_member v k x) k = x.
Proof. intros [fs Hfs]. destruct v; try done. unfold index. simpl. by rewrite obj_get_insert_eq. Qed.

Lemma index_set_ne v k j x : is_Some (as_object v) → k ≠ j → index (set_member v k x) j = index v j.
Proof.
  intros [fs Hfs] Hne. destruct v; try done. unfold index. simpl. by rewrite obj_get_insert_ne by congruence.
Qed.

Lemma set_member_object v k x : is_Some (as_object v) → is_Some (as_object (set_member v k x)).
Proof. intros [fs Hfs]. by destruct v. Qed.

Lemma index_array_object v k l : as_array (index v k) = Some l → is_Some (as_object v).
Proof. by destruct v. Qed.

(** What a page at a position holds, and the cursor of the next one. *)
Definition page_at (doc : Value) (data : list Value) (offset limit : Z) (page : Value) (w' : World) :
    Prop :=
  as_array (index page "data") = Some (take (Z.to_nat limit) (drop (Z.to_nat offset) data)) ∧
  if offset + limit <? Z.of_nat (length data)
  then ∃ next, as_str (index page "nextCursor") = Some next ∧
               stands_for w' doc (Some next) (offset + limit)
  else as_str (index page "nextCursor") = None.

Lemma cut_page_at doc data resume offset limit w :
  as_str (index doc "nextCursor") = None → as_array (index doc "data") = Some data →
  offset ≤ Z.of_nat (length data) → page_offset (page_digest doc) resume = Ok offset →
  wp (cut_page doc resume limit) (page_at doc data offset limit) (λ _ _, False) w.
Proof.
  intros Hlast Hdata Hoff Hresume. pose proof (index_array_object _ _ _ Hdata) as Hobj.
  unfold cut_page, page_at. rewrite Hresume, Hdata. cbv zeta. wp_step. apply wp_ret. wp_step. apply wp_ret.
  replace (Z.of_nat (length data) <? offset) with false by lia.
  destruct (Z.ltb_spec (offset + limit) (Z.of_nat (length data))) as [Hmore|Hend].
  - rewrite Z.min_l by lia. replace (offset + limit <? Z.of_nat (length data)) with true by lia.
    replace (offset + limit - offset) with limit by lia.
    wp_step. unfold wp at 1, new_v4. cbv beta iota. wp_step. unfold wp at 1, modify. wp_step.
    pose proof (set_member_object doc "data" (Array (take (Z.to_nat limit) (drop (Z.to_nat offset) data))) Hobj).
    split; [by rewrite index_set_ne, index_set_eq|]. eexists. rewrite index_set_eq by done.
    split; [done|]. simpl. apply remember_cursor_lookup.
  - rewrite Z.min_r by lia. rewrite Z.ltb_irrefl. wp_step. rewrite index_set_eq, index_set_ne by done.
    split; [|done]. simpl. f_equal. rewrite !take_ge; [done|rewrite length_drop; lia..].
Qed.

Lemma bridge_page_at bridge doc data cursor offset limit w :
  serves bridge doc → as_array (index doc "data") = Some data →
  1 ≤ limit ≤ 100 → 0 ≤ offset ≤ Z.of_nat (length data) → stands_for w doc cursor offset →
  wp (bridge_page bridge CODEX_AGENT_ID cursor limit) (page_at doc data offset limit) (λ _ _, False) w.
Proof.
  intros Hs Hdata Hlimit Hoff Hcur. destruct (Hs (tick w)) as (reply & Hget & Hdoc).
  pose proof (document_of_complete _ _ Hdoc) as Hlast.
  unfold bridge_page. rewrite bool_decide_true by done.
  replace ((1 <=? limit) && (limit <=? 100)) with true by lia. cbn [negb orb].
  assert (∃ resume, resume_at cursor w = (Ok resume, w) ∧ page_offset (page_digest doc) resume = Ok offset)
    as (resume & Hr & Hoffset).
  { destruct cursor as [c|]; simpl in Hcur; [|subst; by exists None].
    exists (Some (page_digest doc, offset)). unfold resume_at, mbind, M_bind, gets. rewrite Hcur. simpl.
    by rewrite String.eqb_refl. }
  wp_step. unfold wp at 1. rewrite Hr. wp_step. unfold wp at 1, send. rewrite Hget. simpl ok_or. cbv iota.
  wp_step. rewrite Hdoc. apply wp_ret. apply cut_page_at; [done..|lia|done].
Qed.

Lemma resume_at_Ok cursor resume w w1 :
  resume_at cursor w = (Ok resume, w1) →
  w1 = w ∧ ∀ doc offset, page_offset (page_digest doc) resume = Ok offset → stands_for w doc cursor offset.
Proof.
  destruct cursor as [c|]; simpl; intros Hr.
  - apply bind_Ok_inv in Hr as (known & w2 & [= <- <-] & Hr).
    apply bind_Ok_inv in Hr as ([bound o] & w2 & Hk & Hr). apply lift_Ok_inv in Hk as [Hk ->].
    apply ret_Ok_inv in Hr as [<- <-]. rewrite ok_or_Ok in Hk. split; [done|]. intros doc offset.
    simpl. destruct (String.eqb_spec bound (page_digest doc)) as [->|]; simpl; [|done]. by intros [= ->].
  - apply ret_Ok_inv in Hr as [<- <-]. split; [done|]. by intros doc offset [= <-].
Qed.

(** C33: whatever the agent gateway answers and in whatever state it is, a page is cut from the
    document fetched for this very request, starting where the cursor said; a cursor answers for
    no other document than the one it was cut from, and the cursors kept stay within their
    limit. *)
Theorem bridge_page_sound bridge agent cursor limit w page w' :
  bridge_page bridge agent cursor limit w = (Ok page, w') →
  agent = CODEX_AGENT_ID ∧ 1 ≤ limit ≤ 100 ∧
  ∃ reply doc data offset,
    http_get (tick w) ENDPOINT (br_authorization bridge) = Some reply ∧ document_of reply = Ok doc ∧
    as_array (index doc "data") = Some data ∧ stands_for w doc cursor offset ∧
    offset ≤ Z.of_nat (length data) ∧ page_at doc data offset limit page w' ∧
    (known_cursors w ≤ CURSOR_LIMIT → known_cursors w' ≤ CURSOR_LIMIT)%nat.
Proof.
  unfold bridge_page. destruct (negb _ || negb _) eqn:Hguard; [done|].
  rewrite orb_false_iff, !negb_false_iff, bool_decide_eq_true in Hguard. destruct Hguard as [-> Hlimit].
  intros Hrun. split; [done|]. split; [lia|].
  apply bind_Ok_inv in Hrun as (resume & w1 & Hresume & Hrun).
  apply bind_Ok_inv in Hrun as (reply & w2 & Hsend & Hrun).
  apply bind_Ok_inv in Hrun as (doc & w3 & Hdoc & Hrun). apply lift_Ok_inv in Hdoc as [Hdoc ->].
  apply resume_at_Ok in Hresume as [-> Hstands].
  unfold send in Hsend. destruct (http_get _ _ _) as [reply'|] eqn:Hget; simplify_eq/=.
  exists reply, doc. pose proof Hrun as Hcut. unfold cut_page in Hrun.
  apply bind_Ok_inv in Hrun as (offset & w4 & Hoffset & Hrun). apply lift_Ok_inv in Hoffset as [Hoffset ->].
  apply bind_Ok_inv in Hrun as (data & w5 & Hdata & Hrun). apply lift_Ok_inv in Hdata as [Hdata ->].
  rewrite ok_or_Ok in Hdata. cbv zeta in Hrun. destruct (_ <? offset) eqn:Hlen; [done|]. exists data, offset.
  split_and!; [done..|by apply Hstands|lia| |].
  - eapply wp_Ok; [|exact Hcut]. apply cut_page_at; [by eapply document_of_complete|done|lia|done].
  - destruct (_ <? _) in Hrun; [|by apply ret_Ok_inv in Hrun as [_ <-]].
    unfold mbind, M_bind, new_v4, modify in Hrun. simpl in Hrun. apply ret_Ok_inv in Hrun as [_ <-].
    unfold known_cursors. simpl. apply remember_cursor_size.
Qed.

(** A client that follows the cursors and collects the models, with the turns it may take. *)
Fixpoint walk (turns : nat) (catalog : CatalogQuery) (limit : Z) (cursor : option string) :
    Conv (list Value) :=
  match turns with
  | O => throw RuntimeUnavailable
  | S turns' =>
      page ← catalog CODEX_AGENT_ID cursor limit;
      data ← lift (ok_or RuntimeUnavailable (as_array (index page "data")));
      match as_str (index page "nextCursor") with
      | None => mret data
      | Some next => rest ← walk turns' catalog limit (Some next); mret (data ++ rest)
      end
  end.

Lemma walk_from bridge doc data limit turns cursor offset w :
  serves bridge doc → as_array (index doc "data") = Some data →
  1 ≤ limit ≤ 100 → 0 ≤ offset ≤ Z.of_nat (length data) → stands_for w doc cursor offset →
  Z.of_nat (length data) - offset < Z.of_nat turns →
  wp (walk turns (bridge_page bridge) limit cursor) (λ l _, l = drop (Z.to_nat offset) data)
    (λ _ _, False) w.
Proof.
  intros Hs Hdata Hlimit. revert cursor offset w.
  induction turns as [|turns IH]; intros cursor offset w Hoff Hcur Hturns; [lia|].
  simpl. wp_step. wp_use bridge_page_at; [done..| |done]. intros page w1 [Hpage Hnext].
  wp_step. rewrite Hpage. apply wp_ret. destruct (Z.ltb_spec (offset + limit) (Z.of_nat (length data))).
  - destruct Hnext as (next & -> & Hw1). wp_step. wp_use (IH (Some next) (offset + limit)); [lia|done|lia| |done].
    intros rest w2 ->. wp_step. rewrite Z2Nat.inj_add by lia. rewrite <-drop_drop. by rewrite take_drop.
  - rewrite Hnext. wp_step. apply take_ge. rewrite length_drop. lia.
Qed.

(** C32: as long as the agent gateway serves the same document, a client that follows the bridge's
    cursors with any page size finishes within one page per model and has read exactly the
    document's models, each once and in order. *)
Theorem bridge_walk_complete bridge doc data limit w :
  serves bridge doc → as_array (index doc "data") = Some data → 1 ≤ limit ≤ 100 →
  ∃ w', walk (S (length data)) (bridge_page bridge) limit None w = (Ok data, w').
Proof.
  intros Hs Hdata Hlimit. pose proof (walk_from bridge doc data limit (S (length data)) None 0 w) as Hw.
  destruct (wp_total _ _ _ (Hw Hs Hdata Hlimit ltac:(lia) eq_refl ltac:(lia))) as (l & w' & Hrun & ->).
  by exists w'.
Qed.
End bridge.
