(* ===== verification/RoomsInvariant.v ===== *)
(** * What a request does to a room

    Specifications of the request handlers of Rooms.v: every handler appends events of its
    own room and request and leaves the rest of the database alone, on every path, and an
    error commits nothing. The theorems on [process] follow. *)

From S2P Require Import Prelude Json Text Crates Types Protocol Mentions ActionItems MemoryEngine World Store StoreInvariant Rooms.
Local Open Scope string_scope.
Local Open Scope list_scope.
Local Open Scope Z_scope.

(** ** The effect of one request on the database *)

(** [effect room request d d' evs]: from [d] to [d'] the events [evs] of this room and
    request were appended; rows of other rooms, the records of requests and task updates, and
    the conversation tables are as they were. *)
Record effect (room request : Uuid) (d d' : Db) (evs : list RoomEvent) : Prop := {
  ef_ok : db_ok d';
  ef_events : room_events d' = room_events d ++ evs;
  ef_owned : Forall (λ e, ev_room_id e = room ∧ ev_request_id e = request) evs;
  ef_requests : room_requests d' = room_requests d;
  ef_updates : agent_task_updates d' = agent_task_updates d;
  ef_decisions id row :
    dc_room_id row ≠ room → decisions d' !! id = Some row ↔ decisions d !! id = Some row;
  ef_tasks id row :
    tr_room_id row ≠ room → agent_tasks d' !! id = Some row ↔ agent_tasks d !! id = Some row;
  ef_tasks_kept id row : agent_tasks d !! id = Some row → agent_tasks d' !! id = Some row;
  ef_conversations : conversation_tables d' = conversation_tables d;
}.

Lemma effect_refl room request d : db_ok d → effect room request d d [].
Proof. split; try done. by rewrite app_nil_r. Qed.

Lemma effect_trans room request d1 d2 d3 evs evs' :
  effect room request d1 d2 evs → effect room request d2 d3 evs' →
  effect room request d1 d3 (evs ++ evs').
Proof.
  intros [? He Ho Hr Hu Hd Ht Hk Hc] [? He' Ho' Hr' Hu' Hd' Ht' Hk' Hc']. split; [done|..].
  - by rewrite He', He, app_assoc.
  - by apply Forall_app.
  - congruence.
  - congruence.
  - intros. by rewrite Hd', Hd.
  - intros. by rewrite Ht', Ht.
  - auto.
  - congruence.
Qed.

Lemma effect_add_row `{Postgres} d row :
  db_ok (add_row row d) → effect (ev_room_id row) (ev_request_id row) d (add_row row d) [row].
Proof. split; try done. by repeat constructor. Qed.

(** A statement on decisions touches nothing else. *)
Lemma effect_decisions room request d f :
  db_ok d →
  (∀ id row, dc_room_id row ≠ room →
     f (decisions d) !! id = Some row ↔ decisions d !! id = Some row) →
  effect room request d (with_decisions f d) [].
Proof.
  intros [Hi Hg Hq Ht Hu] Hf. split; [|by rewrite app_nil_r|done|done|done|exact Hf|done|done|done].
  split; [exact Hi|exact Hg|exact Hq|exact Ht|exact Hu].
Qed.

Lemma effect_tasks room request d task row :
  db_ok d → task_row_ok d row → tr_room_id row = room → agent_tasks d !! task = None →
  effect room request d (with_tasks <[task := row]> d) [].
Proof.
  intros Hok Hrow Hroom Hnone. split; [| |done|done|done|done| | |done].
  - apply set_task_ok; [done|done|]. intros old Hold. congruence.
  - by rewrite app_nil_r.
  - intros id r Hr. simpl. rewrite lookup_insert_Some. split; [naive_solver|].
    intros Hl. right. split; [|done]. intros <-. congruence.
  - intros id r Hr. simpl. rewrite lookup_insert_ne; [done|congruence].
Qed.

Lemma owned_sublist room rid d d' evs :
  effect room rid d d' evs → evs `sublist_of` room_log room d'.
Proof.
  intros Heff. unfold room_log. rewrite (ef_events _ _ _ _ _ Heff), List.filter_app.
  apply sublist_inserts_l. pose proof (ef_owned _ _ _ _ _ Heff) as Ho. clear Heff.
  induction Ho as [|e es [Hr _] Ho IH]; simpl; [done|].
  unfold in_room at 1. rewrite bool_decide_true by done. by constructor.
Qed.

Section handlers.
Context `{UuidCrate, Chrono, Schemas, Postgres, Unicode, Oracle}.

(** The specification all handlers share: from [d] inside a transaction, success is an effect
    with at least one event, failure leaves what is committed and the memory alone. *)
Definition handler_spec (room request : Uuid) (m : M World RpcError (list RoomEvent)) : Prop :=
  ∀ c g now d w, tx_state c g now d w → db_ok c → db_ok d →
    wp m (λ evs w', ∃ d', tx_state c g now d' w' ∧ effect room request d d' evs ∧ evs ≠ [])
      (λ _, settled c g) w.

Lemma wp_append_effect e c g now d w :
  tx_state c g now d w → db_ok d →
  wp (internal (append_event_in_transaction e))
    (λ row w', (∃ id, is_valid_room_event id e = true ∧ row = next_row d id e) ∧
       effect (ne_room_id e) (ne_request_id e) d (add_row row d) [row] ∧
       tx_state c g now (add_row row d) w')
    (λ _, settled c g) w.
Proof.
  intros Hw Hok. unfold internal. wp_step. wp_use wp_append; [done|done| |done].
  intros row w' (id & Hv & -> & Hok' & Hw'). split_and!; [by exists id| |done].
  by apply (effect_add_row _ _ Hok').
Qed.

Lemma wp_snapshot room c g now d w :
  tx_state c g now d w → db_ok c →
  wp (participant_snapshot room)
    (λ ps w', ps = sorted_roster (roster (room_log room c) (default ∅ (presence g !! room))
                                    (conversations_enabled g)) ∧
              tx_state c g now d w')
    (λ _, settled c g) w.
Proof.
  intros Hw Hok. unfold participant_snapshot, replay, events_after. wp_step. wp_step. wp_step.
  wp_use wp_pool_select; [done| |done]. intros evs w1 [[t ->] Hw1].
  wp_step. unfold wp, gets; cbn. split; [|done].
  destruct Hw1 as [_ -> _ _]. do 2 f_equal. by rewrite (select_after c Hok room 0).
Qed.

Lemma run_action_items_effect actor r message c g now d w :
  tx_state c g now d w → db_ok d →
  wp (run_action_items actor r message)
    (λ evs w', ∃ d', tx_state c g now d' w' ∧
       effect (cs_room_id r) (cs_request_id r) d d' evs)
    (λ _, settled c g) w.
Proof.
  intros Hw Hok. unfold run_action_items. wp_step. eapply wp_new_v4; [done|]. intros task w1 Hw1.
  cbn [for_each]. wp_step. wp_step.
  wp_use wp_append_effect; [done|done| |done]. intros e1 w2 (_ & He1 & Hw2). wp_step. wp_step.
  wp_use wp_append_effect; [done|apply He1| |done]. intros e2 w3 (_ & He2 & Hw3).
  do 4 wp_step. destruct (action_items_outcome _ _) as [event_type payload]. wp_step.
  wp_use wp_append_effect; [done|apply He2| |done]. intros e3 w4 (_ & He3 & Hw4). wp_step.
  eexists. split; [done|]. eapply effect_trans; [|exact He3]. eapply (effect_trans _ _ _ _ _ [_] [_]); eauto.
Qed.

Lemma chat_send_spec actor r : handler_spec (cs_room_id r) (cs_request_id r) (chat_send actor r).
Proof.
  intros c g now d w Hc Hok Hw. unfold chat_send. wp_step.
  wp_use wp_snapshot; [done|done| |done]. intros ps w1 [_ Hw1]. wp_step. wp_step.
  2: by eapply tx_state_settled. wp_step.
  wp_use wp_append_effect; [done|done| |done]. intros message w2 (_ & He & Hw2). wp_step. wp_step.
  - wp_use run_action_items_effect; [done|apply He| |done]. intros evs w3 (d' & Hw3 & He3).
    wp_step. exists d'. split_and!; [done| |done]. by eapply (effect_trans _ _ _ _ _ [_]).
  - wp_step. wp_step. eexists. split_and!; [done|done|done].
Qed.

Lemma decision_propose_spec actor r :
  handler_spec (dp_room_id r) (dp_request_id r) (decision_propose actor r).
Proof.
  intros c g now d w Hc Hok Hw. unfold decision_propose. wp_step.
  eapply wp_new_v4; [done|]. intros id w1 Hw1. wp_step. unfold internal at 1. wp_step.
  wp_use wp_tx_query; [done| |done]. intros [] w2 (d2 & Hins & Hw2).
  unfold insert_decision in Hins. destruct (decisions d !! id) eqn:Hid; [done|].
  injection Hins as <-. set (row := Build_DecisionRow _ _ _ _ _ _ _ _) in *.
  assert (effect (dp_room_id r) (dp_request_id r) d (with_decisions <[id := row]> d) []) as Hd.
  { apply effect_decisions; [done|]. intros id' row' Hne. rewrite lookup_insert_Some.
    split; [naive_solver|]. intros Hl. right. split; [congruence|done]. }
  wp_step. wp_use wp_append_effect; [done|apply Hd| |done]. intros e w3 (_ & He & Hw3). wp_step.
  eexists. split_and!; [done| |done]. by eapply (effect_trans _ _ _ _ _ []).
Qed.

(** A found decision belongs to the room of the request. *)
Lemma select_decision_Some id room now d row :
  select_decision id room now d = Some row ↔ decisions d !! id = Some row ∧ dc_room_id row = room.
Proof.
  unfold select_decision. rewrite bind_Some. split.
  - intros (r & Hr & Hif). case_bool_decide; by simplify_eq.
  - intros [Hr Hroom]. exists row. by rewrite bool_decide_true.
Qed.

Lemma delete_decision_spec actor r :
  handler_spec (dd_room_id r) (dd_request_id r) (delete_decision_in_transaction actor r).
Proof.
  intros c g now d w Hc Hok Hw. unfold delete_decision_in_transaction. wp_step. unfold internal at 1.
  wp_step. wp_use wp_tx_select; [done| |done]. intros found w1 [-> Hw1]. wp_step. wp_step.
  2: by eapply tx_state_settled.
  match goal with Hf : ok_or _ _ = Ok ?r |- _ => rename r into row; apply ok_or_Ok in Hf end.
  wp_step. wp_use wp_append_effect; [done|done| |done]. intros e w2 (_ & He & Hw2). wp_step.
  unfold internal. wp_step. wp_use wp_tx_query; [done| |done]. intros [] w3 (d3 & Hq & Hw3).
  injection Hq as <-. wp_step. eexists. split_and!; [done| |done].
  apply (effect_trans _ _ _ _ _ [_] [] He). apply effect_decisions; [apply He|].
  intros id' row' Hne. destruct (decisions _ !! dd_decision_id r) as [row0|] eqn:Hl; [|done].
  case_bool_decide as Hr0; [|done]. rewrite lookup_delete_Some. split; [naive_solver|].
  intros Hl'. split; [|done]. intros <-. rewrite Hl in Hl'. by simplify_eq.
Qed.

Lemma update_decision_effect room request id status at_ now d u d' row :
  db_ok d → decisions d !! id = Some row → dc_room_id row = room →
  update_decision id status at_ now d = Ok (u, d') → effect room request d d' [].
Proof.
  intros Hok Hrow Hroom [= _ <-]. apply effect_decisions; [done|]. intros id' row' Hne.
  destruct (decide (id = id')) as [<-|Hid]; [|by rewrite lookup_alter_ne].
  rewrite lookup_alter_eq, Hrow. simpl. split; [|naive_solver]. intros [= <-]. done.
Qed.

Lemma settle_decision_spec actor r row status event_type c g now d w :
  tx_state c g now d w → db_ok d →
  decisions d !! dt_decision_id r = Some row → dc_room_id row = dt_room_id r →
  wp (settle_decision actor r row status event_type)
    (λ evs w', ∃ d', tx_state c g now d' w' ∧
       effect (dt_room_id r) (dt_request_id r) d d' evs ∧ evs ≠ [])
    (λ _, settled c g) w.
Proof.
  intros Hw Hok Hrow Hroom. unfold settle_decision. wp_step. unfold internal at 1. wp_step.
  wp_use wp_tx_query; [done| |done]. intros [] w1 (d1 & Hq & Hw1).
  apply (update_decision_effect (dt_room_id r) (dt_request_id r) _ _ _ _ _ _ _ row) in Hq; [|done..].
  wp_step. wp_use wp_append_effect; [done|apply Hq| |done]. intros e w2 (_ & He & Hw2). wp_step.
  eexists. split_and!; [done| |done]. by eapply (effect_trans _ _ _ _ _ []).
Qed.

Lemma replace_decision_spec actor r row c g now d w :
  tx_state c g now d w → db_ok d →
  decisions d !! dt_decision_id r = Some row → dc_room_id row = dt_room_id r →
  wp (replace_decision actor r row)
    (λ evs w', ∃ d', tx_state c g now d' w' ∧
       effect (dt_room_id r) (dt_request_id r) d d' evs ∧ evs ≠ [])
    (λ _, settled c g) w.
Proof.
  intros Hw Hok Hrow Hroom. unfold replace_decision.
  wp_step. wp_step; [|by eapply tx_state_settled]. wp_step. wp_step; [|by eapply tx_state_settled].
  wp_step. eapply wp_new_v4; [done|]. intros id w1 Hw1. wp_step. unfold internal at 1. wp_step.
  wp_use wp_tx_query; [done| |done]. intros [] w2 (d2 & Hq & Hw2).
  apply (update_decision_effect (dt_room_id r) (dt_request_id r) _ _ _ _ _ _ _ row) in Hq; [|done..].
  wp_step. unfold internal at 1. wp_step. wp_use wp_tx_query; [done| |done].
  intros [] w3 (d3 & Hins & Hw3).
  unfold insert_decision in Hins. destruct (decisions d2 !! id) eqn:Hid; [done|].
  injection Hins as <-. set (new := Build_DecisionRow _ _ _ _ _ _ _ _) in *.
  assert (effect (dt_room_id r) (dt_request_id r) d2 (with_decisions <[id := new]> d2) []) as Hd.
  { apply effect_decisions; [apply Hq|]. intros id' row' Hne. rewrite lookup_insert_Some.
    split; [naive_solver|]. intros Hl. right. split; [congruence|done]. }
  wp_step. wp_use wp_append_effect; [done|apply Hd| |done]. intros e1 w4 (_ & He1 & Hw4).
  wp_step. wp_use wp_append_effect; [done|apply He1| |done]. intros e2 w5 (_ & He2 & Hw5).
  wp_step. eexists. split_and!; [done| |done].
  eapply (effect_trans _ _ _ _ _ [] _ Hq), (effect_trans _ _ _ _ _ [] _ Hd),
    (effect_trans _ _ _ _ _ [_] [_]); eauto.
Qed.

Lemma transition_decision_spec actor r :
  handler_spec (dt_room_id r) (dt_request_id r) (transition_decision_in_transaction actor r).
Proof.
  intros c g now d w Hc Hok Hw. unfold transition_decision_in_transaction. wp_step.
  unfold internal at 1. wp_step. wp_use wp_tx_select; [done| |done]. intros found w1 [-> Hw1].
  wp_step. wp_step. 2: by eapply tx_state_settled.
  match goal with Hf : ok_or _ _ = Ok ?r |- _ => rename r into row; apply ok_or_Ok in Hf as Hrow end.
  apply select_decision_Some in Hrow as [Hrow Hroom].
  wp_step; [wp_step; by eapply tx_state_settled|]. wp_step.
  - by apply (settle_decision_spec _ _ _ _ _ _ _ _ d).
  - by apply (replace_decision_spec _ _ _ _ _ _ d).
  - by apply (settle_decision_spec _ _ _ _ _ _ _ _ d).
Qed.
End handlers.

(** ** Starting a task *)

Section start.
Context `{UuidCrate, Chrono, Schemas, Postgres, Oracle}.

(** The row of a freshly requested task. *)
Definition queued_task (requester : Uuid) (start : AgentTaskStart) (revision : Z) (now : DateTime) :
    TaskRow :=
  {| tr_room_id := ts_room_id start; tr_request_id := ts_request_id start;
     tr_requester_id := requester; tr_agent_id := ts_agent_id start;
     tr_skill_id := skill_str (ts_skill_id start); tr_input := ts_input start;
     tr_context_revision := revision; tr_state := "queued";
     tr_lease_owner := None; tr_lease_expires_at := None;
     tr_created_at := now; tr_updated_at := now |}.

(** The record a request leaves. *)
Definition request_record (fp : Value) (evs : list RoomEvent) : RequestRow :=
  {| rq_request_fingerprint := pg_json fp; rq_event_ids := ev_event_id <$> evs |}.

(** Its context ends at the event that requested it. *)
Lemma queued_task_ok requester start now d row :
  ev_room_id row = ts_room_id start →
  ev_sequence row = Z.of_nat (length (room_log (ts_room_id start) d)) + 1 →
  task_row_ok (add_row row d) (queued_task requester start (ev_sequence row) now).
Proof.
  intros Hroom Hseq. unfold task_row_ok. simpl. unfold add_row.
  rewrite room_log_app, length_app. simpl. unfold in_room. rewrite bool_decide_true by done.
  split_and!; [by eexists|by exists Queued|lia|simpl; lia|]. split; by intros [? [=]].
Qed.

Lemma insert_task_Ok task row now d u d' :
  insert_task task row now d = Ok (u, d') →
  agent_tasks d !! task = None ∧
  task_of_request (tr_room_id (row now)) (tr_request_id (row now)) d = None ∧
  d' = with_tasks <[task := row now]> d.
Proof. unfold insert_task. repeat case_match; intros; by simplify_eq. Qed.

(** A request not yet recorded: the requested event and the queued task, whose context ends
    at that event. *)
Lemma wp_start_new requester name start record c g now d w :
  tx_state c g now d w → db_ok d →
  room_requests d !! (ts_room_id start, ts_request_id start) = None →
  wp (start_agent_task_in_transaction requester name start record)
    (λ r w', ∃ d' e, sr_events r = [e] ∧
       (let recorded :=
          if record
          then with_requests <[(ts_room_id start, ts_request_id start) :=
                                 request_record (agent_task_fingerprint start) [e]]> d'
          else d' in
        tx_state c g now recorded w' ∧ db_ok recorded) ∧
       effect (ts_room_id start) (ts_request_id start) d d' [e] ∧
       ev_event_type e = "agent.task.requested" ∧ decisions d' = decisions d ∧
       agent_tasks d !! sr_task_id r = None ∧
       agent_tasks d' = <[sr_task_id r := queued_task requester start (ev_sequence e) now]>
                          (agent_tasks d))
    (λ _, settled c g) w.
Proof.
  intros Hw Hok Hnone. unfold start_agent_task_in_transaction. wp_step.
  wp_use wp_lock_room; [done| |done]. intros [] w1 Hw1. wp_step.
  wp_use wp_prior_request; [done|done| |done]. intros prior w2 [Hw2 Hprior].
  rewrite Hnone in Hprior. subst prior. wp_step. eapply wp_new_v4; [done|]. intros task w3 Hw3.
  wp_step. wp_step. wp_use wp_tx_query; [done| |done]. intros rev w4 (d4 & Hq & Hw4).
  unfold select_next_sequence in Hq. apply rbind_Ok in Hq as (n & _ & [= -> <-]). wp_step.
  wp_use wp_append; [done|done| |done]. intros e w5 (id & _ & -> & Hok5 & Hw5).
  wp_step; [wp_step; by eapply tx_state_settled|].
  match goal with Hs : negb (_ =? _) = false |- _ => apply negb_false_iff, Z.eqb_eq in Hs as Hseq end.
  wp_step. wp_step. wp_use wp_tx_query; [done| |done]. intros [] w6 (d6 & Hins & Hw6).
  apply insert_task_Ok in Hins as (Hfree & _ & ->).
  set (row := next_row d id _) in *. rewrite <-Hseq in Hw6.
  fold (queued_task requester start (ev_sequence row) now) in Hw6.
  set (d' := with_tasks <[task := _]> (add_row row d)) in Hw6.
  assert (effect (ts_room_id start) (ts_request_id start) d d' [row]) as Heff.
  { eapply (effect_trans _ _ _ _ _ [row] []); [by apply (effect_add_row _ row)|].
    apply effect_tasks; [done|by apply queued_task_ok|done|done]. }
  wp_step. destruct record.
  - wp_use wp_record_request; [done|apply Heff|by eapply owned_sublist| |done].
    intros [] w7 (_ & Hok7 & Hw7). wp_step. exists d', row. done.
  - wp_step. wp_step. exists d', row. split_and!; try done. apply Heff.
Qed.
End start.

(** ** Every request *)

Section process_specs.
Context `{UuidCrate, Chrono, Schemas, Postgres, Unicode, Oracle}.

Lemma handle_request_spec actor request room rid c g now d w :
  room_id request = Some room → Protocol.request_id request = Some rid →
  tx_state c g now d w → db_ok c → db_ok d → room_requests d !! (room, rid) = None →
  wp (handle_request actor request)
    (λ evs w', ∃ d', tx_state c g now d' w' ∧ effect room rid d d' evs ∧ evs ≠ [])
    (λ _, settled c g) w.
Proof.
  intros Hroom Hrid Hw Hc Hok Hnone. destruct request as [r|r|r|r|r|r|r]; simplify_eq/=.
  - by eapply tx_state_settled.
  - by apply (chat_send_spec actor r _ _ _ d).
  - by apply (decision_propose_spec actor r _ _ _ d).
  - by apply (transition_decision_spec actor r _ _ _ d).
  - by apply (delete_decision_spec actor r _ _ _ d).
  - wp_step. unfold internal. wp_step. wp_use wp_start_new; [done|done|done| |done].
    intros res w' (d' & e & He & [Hw' _] & Heff & _). wp_step. rewrite He. by exists d'.
Qed.

(** [d'] is [d] with a whole request applied: its effect, of which [K] holds, and its record. *)
Definition applied_with (K : Db → list RoomEvent → Prop) (room rid : Uuid) (fp : Value)
    (d d' : Db) (evs : list RoomEvent) : Prop :=
  ∃ body, effect room rid d body evs ∧ evs ≠ [] ∧ room_requests d !! (room, rid) = None ∧
    db_ok d' ∧ d' = with_requests <[(room, rid) := request_record fp evs]> body ∧ K body evs.
Definition applied := applied_with (λ _ _, True).

Definition memory_after (evs : list RoomEvent) (g : Gateway) : Gateway :=
  match memory_engine g with
  | None => g
  | Some client =>
      with_memory_engine (Some (foldl (λ c e, (enqueue_committed_event e c).2) client evs)) g
  end.

(** [K] holds of the database and the events whenever the handler of the request succeeds. *)
Definition ensures (K : Db → list RoomEvent → Prop) (actor : Actor) (request : ValidatedRequest)
    (c : Db) (g : Gateway) : Prop :=
  ∀ room rid now w, room_id request = Some room → Protocol.request_id request = Some rid →
    tx_state c g now c w → room_requests c !! (room, rid) = None →
    wp (handle_request actor request) (λ evs w', K (working w') evs) (λ _ _, True) w.

Lemma ensures_True actor request c g : ensures (λ _ _, True) actor request c g.
Proof. intros room rid now w _ _ _ _. unfold wp. by destruct (handle_request _ _ _) as [[]]. Qed.

Lemma applied_weaken K room rid fp d d' evs :
  applied_with K room rid fp d d' evs → applied room rid fp d d' evs.
Proof. intros (body & ? & ? & ? & ? & ? & _). by exists body. Qed.

(** Both outcomes of a request for a room. *)
Lemma process_in_room_spec K actor request room rid fp c g w :
  room_id request = Some room → Protocol.request_id request = Some rid →
  settled c g w → db_ok c → ensures K actor request c g →
  wp (process_in_room actor request room rid fp)
    (λ p w',
       match room_requests c !! (room, rid) with
       | Some row => refers_to c room (rq_event_ids row) (pr_events p) ∧
                     rq_request_fingerprint row = fp ∧ pr_duplicate p = true ∧ settled c g w'
       | None => pr_duplicate p = false ∧ ∃ d', applied_with K room rid fp c d' (pr_events p) ∧
                   settled d' (memory_after (pr_events p) g) w'
       end)
    (λ e w', settled c g w' ∨
             e = internal_error ∧ ∃ d' evs, applied_with K room rid fp c d' evs ∧ settled d' g w') w.
Proof.
  intros Hroom Hrid Hw Hc HK. unfold process_in_room, internal. wp_step. wp_step.
  wp_use wp_begin; [done| |by left]. intros [] w1 [now Hw1]. wp_step. wp_step.
  wp_use wp_lock_room; [done| |by left]. intros [] w2 Hw2. wp_step. wp_step.
  wp_use wp_prior_request; [done|done| |by left]. intros prior w3 [Hw3 Hprior].
  destruct (room_requests c !! (room, rid)) as [row|] eqn:Hrow.
  - destruct Hprior as (evs & Hevs & ->). wp_step. wp_step.
    wp_use wp_rollback; [done| |by left]. intros [] w4 Hw4. wp_step; wp_step; [|by left].
    match goal with Hd : bool_decide _ = true |- _ => apply bool_decide_eq_true in Hd end. done.
  - subst prior. wp_step.
    wp_use (wp_conj _ _ _ _ _ _ (handle_request_spec _ _ _ _ _ _ _ _ _ Hroom Hrid Hw3 Hc Hc Hrow)
              (HK _ _ _ _ Hroom Hrid Hw3 Hrow)); [|intros ? ? [? _]; by left].
    intros evs w4 [(d4 & Hw4 & Heff & Hne) HK4]. rewrite (tx_working _ _ _ _ _ Hw4) in HK4.
    wp_step. wp_step.
    wp_use wp_record_request; [done|apply Heff|by eapply owned_sublist| |by left].
    intros [] w5 (_ & Hok5 & Hw5). wp_step. wp_step.
    assert (applied_with K room rid fp c (with_requests <[(room, rid) := request_record fp evs]> d4) evs)
      as Happ by (by exists d4).
    wp_use wp_commit; [done| |].
    + intros [] w6 [Hc6 Hg6]. wp_step. unfold offer_to_memory_engine, modify_gateway, modify, wp; simpl.
      split; [done|]. eexists. split; [done|]. split; simpl; [done|]. by rewrite Hg6.
    + intros e w6 [Hs|Hs]; [by left|right]. split; [done|]. eauto.
Qed.
End process_specs.
