(* ===== verification/RoomTheorems.v ===== *)
(** * What clients can rely on

    The guarantees of [process]: a request is applied whole or not at all, a retry is answered
    with the events of the first attempt, a reused request identifier is refused, only humans
    decide, and a request touches no room but its own. *)

From S2P Require Import Prelude Json Text Crates Types Protocol Mentions ActionItems MemoryEngine World Store StoreInvariant Rooms RoomsInvariant.
Local Open Scope string_scope.
Local Open Scope list_scope.
Local Open Scope Z_scope.

Section process_facts.
Context `{UuidCrate, Chrono, Schemas, Postgres, Unicode, Oracle}.

(** A request that reaches the database names its room, its identifier and its content. *)
Lemma process_cases actor request w :
  (∃ e, process actor request w = (Err e, w)) ∨
  (∃ room rid fp, room_id request = Some room ∧ Protocol.request_id request = Some rid ∧
     fingerprint request = Some fp ∧
     process actor request w = process_in_room actor request room rid fp w).
Proof.
  unfold process. case_match; [left; by eexists|].
  destruct request; simpl; first [left; by eexists|right; by eexists _, _, _].
Qed.

Lemma process_spec K actor request c g w :
  settled c g w → db_ok c → ensures K actor request c g →
  wp (process actor request)
    (λ p w', ∃ room rid fp, room_id request = Some room ∧ Protocol.request_id request = Some rid ∧
       fingerprint request = Some fp ∧
       match room_requests c !! (room, rid) with
       | Some row => refers_to c room (rq_event_ids row) (pr_events p) ∧
                     rq_request_fingerprint row = fp ∧ pr_duplicate p = true ∧ settled c g w'
       | None => pr_duplicate p = false ∧ ∃ d', applied_with K room rid fp c d' (pr_events p) ∧
                   settled d' (memory_after (pr_events p) g) w'
       end)
    (λ e w', settled c g w' ∨ e = internal_error ∧
       ∃ room rid fp, room_id request = Some room ∧ Protocol.request_id request = Some rid ∧
         fingerprint request = Some fp ∧
         ∃ d' evs, applied_with K room rid fp c d' evs ∧ settled d' g w') w.
Proof.
  intros Hw Hc HK. destruct (process_cases actor request w) as
    [[e He]|(room & rid & fp & Hroom & Hrid & Hfp & Heq)].
  - unfold wp. rewrite He. by left.
  - unfold wp. rewrite Heq. apply wp_mono with
      (1 := process_in_room_spec K actor request room rid fp c g w Hroom Hrid Hw Hc HK).
    + intros p w' Hp. exists room, rid, fp. done.
    + intros e w' [?|[? Hd]]; [by left|right]. split; [done|]. by exists room, rid, fp.
Qed.

Lemma settled_self w : settled (committed w) (gateway w) w.
Proof. done. Qed.

Lemma applied_grows K room rid fp d d' evs :
  applied_with K room rid fp d d' evs → room_events d' = room_events d ++ evs.
Proof. intros (body & Heff & _ & _ & _ & -> & _). simpl. by apply Heff. Qed.

Lemma applied_record K room rid fp d d' evs :
  applied_with K room rid fp d d' evs →
  room_requests d' !! (room, rid) = Some (request_record fp evs) ∧
  refers_to d' room (ev_event_id <$> evs) evs.
Proof.
  intros (body & Heff & _ & _ & _ & -> & _). split; [simpl; by rewrite lookup_insert_eq|].
  split; [|done]. by apply (owned_sublist _ _ _ _ _ Heff).
Qed.


(** A change of the database is the whole effect of the request. *)
Lemma process_changed K actor request w r w' :
  db_ok (committed w) → ensures K actor request (committed w) (gateway w) →
  process actor request w = (r, w') →
  committed w' = committed w ∨
  ∃ room rid fp evs, room_id request = Some room ∧ Protocol.request_id request = Some rid ∧
    fingerprint request = Some fp ∧
    applied_with K room rid fp (committed w) (committed w') evs ∧ db_ok (committed w') ∧
    ∀ p, r = Ok p → pr_events p = evs.
Proof.
  intros Hok HK Hp.
  pose proof (process_spec K actor request _ _ w (settled_self w) Hok HK) as Hspec.
  unfold wp in Hspec. rewrite Hp in Hspec. destruct r as [p|e].
  - destruct Hspec as (room & rid & fp & Hroom & Hrid & Hfp & Hm). case_match.
    + left. by destruct Hm as (_ & _ & _ & [? _]).
    + right. destruct Hm as (_ & d' & Happ & [Hd' _]). rewrite Hd'. exists room, rid, fp, (pr_events p).
      split_and!; try done; [|naive_solver]. by destruct Happ as (? & _ & _ & _ & ? & _).
  - destruct Hspec as [[? _]|(_ & room & rid & fp & Hroom & Hrid & Hfp & d' & evs & Happ & [Hd' _])];
      [by left|right].
    rewrite Hd'. exists room, rid, fp, evs. split_and!; try done.
    by destruct Happ as (? & _ & _ & _ & ? & _).
Qed.
End process_facts.

(** ** Retries *)

Section retries.
Context `{UuidLaws, ChronoLaws, Schemas, PostgresLaws, Unicode, Oracle}.

(** A request already recorded is answered from the record: same content, same events;
    other content, a conflict. Nothing is written. *)
Lemma process_recorded actor request w room rid fp row evs :
  (∀ t, outage t = Up) → db_ok (committed w) →
  (human_only request = true → actor_role actor = Human) →
  (∀ r, request ≠ RJoin r) →
  room_id request = Some room → Protocol.request_id request = Some rid →
  fingerprint request = Some fp →
  room_requests (committed w) !! (room, rid) = Some row →
  refers_to (committed w) room (rq_event_ids row) evs →
  ∃ w', committed w' = committed w ∧ process actor request w =
    (if bool_decide (rq_request_fingerprint row = fp)
     then Ok {| pr_events := evs; pr_duplicate := true |} else Err conflicting_duplicate, w').
Proof.
  intros Hup Hok Hrole Hjoin Hroom Hrid Hfp Hrow Hevs.
  assert (process actor request w = process_in_room actor request room rid fp w) as ->.
  { unfold process. rewrite Hroom, Hrid, Hfp.
    assert (human_only request && negb (bool_decide (actor_role actor = Human)) = false) as ->.
    { destruct (human_only request); [|done]. by rewrite bool_decide_true by auto. }
    destruct request; try done. by specialize (Hjoin r). }
  unfold process_in_room, internal, lock_room, prior_request, events_by_id, map_err, mbind, M_bind,
    begin_tx, advisory_lock, tx_query, select, rollback_tx.
  rewrite Hup. simpl. rewrite Hup. simpl. rewrite Hup. simpl. rewrite Hrow.
  rewrite Hup. simpl. rewrite Hup. simpl.
  rewrite (select_by_id_refers _ Hok room _ evs) by done.
  case_bool_decide; eexists; (split; [|reflexivity]); done.
Qed.

(** An authorised sender of a request that changes a room. *)
Definition authorized (actor : Actor) (request : ValidatedRequest) : Prop :=
  human_only request = true → actor_role actor = Human.

Lemma fingerprint_stored request fp :
  fingerprint request = Some fp → pg_json fp = fp.
Proof. intros Hfp. by eapply pg_json_float_free, fingerprint_float_free. Qed.

Lemma same_request request request' :
  erase_id request = erase_id request' →
  fingerprint request = fingerprint request' ∧ room_id request = room_id request' ∧
  Protocol.request_id request = Protocol.request_id request' ∧
  human_only request = human_only request'.
Proof.
  intros He. split.
  - rewrite <-(fingerprint_erase request), <-(fingerprint_erase request'). by f_equal.
  - destruct request, request'; simplify_eq/=; split_and!; congruence.
Qed.

Lemma applied_not_join actor request w r w' :
  process actor request w = (r, w') → committed w' ≠ committed w → ∀ j, request ≠ RJoin j.
Proof. intros Hp Hne j ->. unfold process in Hp. injection Hp as _ <-. done. Qed.


(** C3: A request identifier cannot be reused. After a request changed the database, any
    other request for the same room under the same request identifier, whatever field differs,
    is refused as a conflicting duplicate and changes nothing. *)
Theorem process_conflict actor request w r w1 actor' request' :
  (∀ t, outage t = Up) → db_ok (committed w) →
  process actor request w = (r, w1) → committed w1 ≠ committed w →
  room_id request' = room_id request → Protocol.request_id request' = Protocol.request_id request →
  erase_id request' ≠ erase_id request → authorized actor' request' →
  (∀ j, request' ≠ RJoin j) →
  ∃ w2, process actor' request' w1 = (Err conflicting_duplicate, w2) ∧
        committed w2 = committed w1.
Proof.
  intros Hup Hok Hp Hne Hroom' Hrid' He Hauth Hj.
  destruct (process_changed _ _ _ _ _ _ Hok (ensures_True _ _ _ _) Hp) as [|(room & rid & fp & evs & Hroom & Hrid & Hfp & Happ & Hok1 & Hres)];
    [done|].
  destruct (applied_record _ _ _ _ _ _ _ Happ) as [Hrow Hrefs].
  assert (∃ fp', fingerprint request' = Some fp') as [fp' Hfp'].
  { rewrite Hroom in Hroom'. destruct request'; try done; by eexists. }
  destruct (process_recorded actor' request' w1 room rid fp' (request_record fp evs) evs Hup Hok1 Hauth)
    as (w2 & Hc & Hp2); try done; [congruence..|].
  exists w2. split; [|done]. rewrite Hp2. simpl. rewrite bool_decide_false; [done|].
  rewrite (fingerprint_stored request fp) by done. intros <-. apply He.
  apply fingerprint_inj; [by eexists|congruence].
Qed.
End retries.

(** ** Authority and isolation *)

Section isolation.
Context `{UuidCrate, Chrono, Schemas, Postgres, Unicode, Oracle}.

(** Only humans decide: an agent that asks to confirm, edit, dismiss or delete a decision
    or to start a task gets a refusal before the database is even contacted, and no request
    can authenticate or join through this entry point. *)
Theorem process_authority actor request w :
  (actor_role actor = Agent → human_only request = true →
   process actor request w = (Err forbidden, w)) ∧
  (∀ r, request = RJoin r ∨ (∃ s, request = RSessionAuthenticate s) →
   process actor request w = (Err invalid_request, w)).
Proof.
  unfold process. split.
  - intros Ha Hh. by rewrite Hh, Ha.
  - intros r [->|[s ->]]; done.
Qed.

Lemma filter_other_room room0 rid room evs :
  Forall (λ e, ev_room_id e = room0 ∧ ev_request_id e = rid) evs → room0 ≠ room →
  List.filter (in_room room) evs = [].
Proof.
  intros Ho Hne. induction Ho as [|e es [Hr _] _ IH]; simpl; [done|].
  unfold in_room at 1. by rewrite bool_decide_false by congruence.
Qed.

(** C26: Rooms are isolated: whatever a request for one room does, every other room keeps its
    log, its decisions, its request records and its tasks. *)
Theorem process_isolation actor request w r w' room :
  db_ok (committed w) → process actor request w = (r, w') → room_id request ≠ Some room →
  let d := committed w in let d' := committed w' in
  room_log room d' = room_log room d ∧
  (∀ id row, dc_room_id row = room → decisions d' !! id = Some row ↔ decisions d !! id = Some row) ∧
  (∀ rid, room_requests d' !! (room, rid) = room_requests d !! (room, rid)) ∧
  (∀ id row, tr_room_id row = room → agent_tasks d' !! id = Some row ↔ agent_tasks d !! id = Some row).
Proof.
  intros Hok Hp Hne d d'. subst d d'. destruct (process_changed _ _ _ _ _ _ Hok (ensures_True _ _ _ _) Hp)
    as [->|(room0 & rid & fp & evs & Hroom & _ & _ & (body & Heff & _ & _ & _ & -> & _) & _)]; [done|].
  assert (room0 ≠ room) as Hr by congruence. simpl. split_and!.
  - unfold room_log. simpl. rewrite (ef_events _ _ _ _ _ Heff), List.filter_app.
    rewrite (filter_other_room room0 rid room evs), app_nil_r; [done|apply Heff|done].
  - intros id row Hrow. apply Heff. congruence.
  - intros rid'. rewrite lookup_insert_ne by congruence. by rewrite (ef_requests _ _ _ _ _ Heff).
  - intros id row Hrow. apply Heff. congruence.
Qed.
End isolation.
