(* ===== verification/Chat.v ===== *)
(** * Sending a message, from end to end

    Total correctness of the most common request: while the database answers, a chat message
    whose mentions resolve is committed, with the events of the built-in agent when it is
    addressed, and refused with the resolver's error otherwise. *)

From S2P Require Import Prelude Json Text Crates Types Protocol Mentions ActionItems MemoryEngine World Store StoreInvariant Rooms RoomsInvariant RoomTheorems.
Local Open Scope string_scope.
Local Open Scope list_scope.
Local Open Scope Z_scope.

Section total.
Context `{UuidCrate, Chrono, Schemas, Postgres, Unicode, Oracle}.
(** The database answers. *)
Context (Hup : ∀ t, outage t = Up).

(** The identifiers generated in the [n] steps from [t] on are new and differ. *)
Definition unused (n t : nat) (d : Db) : Prop :=
  NoDup ((ev_event_id <$> room_events d) ++ (fresh_uuid <$> seq t n)).

Lemma unused_fresh n t d : unused (S n) t d → fresh_uuid t ∉ ev_event_id <$> room_events d.
Proof. intros (_ & Hd & _)%NoDup_app Hin. apply (Hd _ Hin). by left. Qed.

Lemma unused_skip n t d : unused (S n) t d → unused n (S t) d.
Proof.
  unfold unused. simpl. intros Hn. eapply sublist_NoDup; [exact Hn|].
  apply sublist_app; [done|]. by constructor.
Qed.

Lemma unused_take n t d row :
  ev_event_id row = fresh_uuid t → unused (S n) t d → unused n (S t) (add_row row d).
Proof.
  unfold unused. intros Hid. simpl. rewrite fmap_app, <-app_assoc. simpl. by rewrite Hid.
Qed.

(** Inside a transaction, with [n] more steps whose identifiers are new. *)
Record open_tx (n : nat) (c : Db) (g : Gateway) (d : Db) (w : World) : Prop := {
  ot_state : ∃ now, tx_state c g now d w;
  ot_ok : db_ok d;
  ot_unused : unused n (tick w) d;
}.

Lemma insert_event_total id e now d :
  db_ok d → id ∉ ev_event_id <$> room_events d →
  Z.of_nat (length (room_log (ne_room_id e) d)) < i64_max →
  insert_event id e now d = Ok (next_row d id e, add_row (next_row d id e) d).
Proof.
  intros Hok Hid Hlen. unfold insert_event, next_sequence. rewrite max_sequence_ok by done.
  destruct (Z.ltb_spec i64_max (Z.of_nat (length (room_log (ne_room_id e) d)) + 1)); [lia|].
  simpl. fold (next_row d id e). destruct (event_conflict _ d) eqn:Hc; [|done].
  unfold event_conflict in Hc. apply existsb_exists in Hc as (e' & Hin & Hc%orb_true_iff).
  destruct Hc as [Heq%bool_decide_eq_true|[Hroom Hseq%Z.eqb_eq]%andb_true_iff].
  - destruct Hid. simpl in Heq. rewrite <-Heq. apply list_elem_of_fmap_2, list_elem_of_In, Hin.
  - assert (e' ∈ room_log (ne_room_id e) d) as (k & Hk)%list_elem_of_lookup.
    { by apply list_elem_of_In, List.filter_In. }
    pose proof (numbered_from_lookup _ _ _ _ (room_log_numbered _ Hok _) Hk).
    apply lookup_lt_Some in Hk. simpl in Hseq. lia.
Qed.

Lemma total_append n e c g d w :
  open_tx (2 + n) c g d w → Z.of_nat (length (room_log (ne_room_id e) d)) < i64_max →
  (∀ id, is_valid_room_event id e = true) →
  wp (internal (append_event_in_transaction e))
    (λ row w', row = next_row d (ev_event_id row) e ∧ open_tx n c g (add_row row d) w')
    (λ _ _, False) w.
Proof.
  intros [[now Hw] Hok Hun] Hlen Hv. pose proof (unused_fresh _ _ _ Hun) as Hid.
  assert (db_ok (add_row (next_row d (fresh_uuid (tick w)) e) d)) as Hok'.
  { eapply insert_event_Ok; [done|]. by apply (insert_event_total _ _ now). }
  unfold internal, append_event_in_transaction. wp_step. wp_step. unfold wp at 1, new_v4.
  rewrite Hv. cbn [negb]. wp_step. unfold wp, tx_query. rewrite Hup.
  destruct Hw as [Hc Hg Hn Hwk]. cbn [next_tick working tx_now]. rewrite Hn, Hwk.
  rewrite insert_event_total by done. split; [done|].
  split; [by exists now|done|]. by apply unused_skip, unused_take.
Qed.

(** ** The answer of the built-in agent *)

(** Its three events, for a task and a source message, all in the room of the request. *)
Definition answer_events (actor : Actor) (request : ChatSend) (task source : Uuid) : list NewEvent :=
  let core := action_items_task_payload task source (actor_id actor) in
  let '(event_type, payload) := action_items_outcome core (cs_text request) in
  [action_items_event request "agent.task.queued" core;
   action_items_event request "agent.task.running" core;
   action_items_event request event_type payload].

(** The rows that a list of events becomes, appended one by one. *)
Inductive appended : Db → list NewEvent → list RoomEvent → Db → Prop :=
| appended_nil d : appended d [] [] d
| appended_cons d e es row rows d' :
    row = next_row d (ev_event_id row) e → appended (add_row row d) es rows d' →
    appended d (e :: es) (row :: rows) d'.

Lemma appended_events d es rows d' :
  appended d es rows d' → room_events d' = room_events d ++ rows ∧ room_requests d' = room_requests d.
Proof.
  induction 1 as [|d e es row rows d' _ _ [IH IHr]]; [by rewrite app_nil_r|].
  rewrite IH, IHr. simpl. by rewrite <-app_assoc.
Qed.

Lemma appended_rows d es rows d' :
  appended d es rows d' →
  Forall2 (λ e row, ∃ n, row = event_row (ev_event_id row) e n) es rows.
Proof. induction 1; constructor; [by eexists|done]. Qed.

Lemma next_row_room d id e : ev_room_id (next_row d id e) = ne_room_id e.
Proof. done. Qed.

Lemma length_room_log_add room d row :
  (length (room_log room (add_row row d)) ≤ S (length (room_log room d)))%nat.
Proof.
  unfold add_row. rewrite room_log_app, length_app. simpl. destruct (in_room room row); simpl; lia.
Qed.

Definition valid_event (e : NewEvent) : Prop := ∀ id, is_valid_room_event id e = true.

Lemma total_answer n actor r message c g d w :
  open_tx (7 + n) c g d w → Z.of_nat (length (room_log (cs_room_id r) d)) + 3 ≤ i64_max →
  (∀ task, Forall valid_event (answer_events actor r task (ev_event_id message))) →
  wp (run_action_items actor r message)
    (λ rows w', ∃ task d', appended d (answer_events actor r task (ev_event_id message)) rows d' ∧
       open_tx n c g d' w')
    (λ _ _, False) w.
Proof.
  intros Hw Hlen Hv. unfold run_action_items. wp_step. unfold wp at 1, new_v4.
  set (task := fresh_uuid (tick w)). specialize (Hv task). unfold answer_events in *.
  assert (open_tx (6 + n) c g d (next_tick w)) as Hw1.
  { destruct Hw as [[now [? ? ? ?]] Hok Hun]. split; [by exists now|done|]. by apply unused_skip. }
  destruct (action_items_outcome _ _) as [event_type payload] eqn:Hout.
  apply Forall_cons in Hv as [Hv1 [Hv2 [Hv3 _]%Forall_cons]%Forall_cons].
  cbn [for_each]. wp_step. wp_step. wp_use (total_append (4 + n)); [done|simpl; lia|done| |done].
  intros e1 w2 [He1 Hw2]. pose proof (length_room_log_add (cs_room_id r) d e1).
  wp_step. wp_step. wp_use (total_append (2 + n)); [done|simpl; lia|done| |done].
  intros e2 w3 [He2 Hw3]. pose proof (length_room_log_add (cs_room_id r) (add_row e1 d) e2).
  do 4 wp_step. wp_step. wp_use (total_append n); [done|simpl; lia|done| |done].
  intros e3 w4 [He3 Hw4]. wp_step. exists task, (add_row e3 (add_row e2 (add_row e1 d))). split; [|done].
  rewrite Hout. by repeat (constructor; [done|]); constructor.
Qed.

(** ** The message *)

(** Who is in a room. *)
Definition room_roster (room : Uuid) (w : World) : list RoomParticipant :=
  sorted_roster (roster (room_log room (committed w)) (default ∅ (presence (gateway w) !! room))
                   (conversations_enabled (gateway w))).

Lemma total_snapshot n room d w :
  open_tx (S n) (committed w) (gateway w) d w → db_ok (committed w) →
  wp (participant_snapshot room)
    (λ ps w', ps = room_roster room w ∧ open_tx n (committed w) (gateway w) d w') (λ _ _, False) w.
Proof.
  intros Hw Hok. unfold participant_snapshot, replay, events_after. wp_step. wp_step. wp_step.
  unfold wp at 1, pool_query, select. rewrite Hup. rewrite (select_after _ Hok).
  unfold wp, gets; cbn. split; [done|]. destruct Hw as [[now [? ? ? ?]] Hd Hun].
  split; [by exists now|done|by apply unused_skip].
Qed.

(** The events a message becomes. *)
Definition chat_events (actor : Actor) (r : ChatSend) (audience : list Uuid) (task source : Uuid) :
    list NewEvent :=
  chat_event actor r audience ::
  (if invokes_action_items actor r then answer_events actor r task source else []).

Lemma total_chat_send actor r audience d w :
  open_tx 10 (committed w) (gateway w) d w → db_ok (committed w) →
  resolve_chat_audience actor (room_roster (cs_room_id r) w) r = Ok audience →
  Z.of_nat (length (room_log (cs_room_id r) d)) + 4 ≤ i64_max →
  (∀ task source, Forall valid_event (chat_events actor r audience task source)) →
  wp (chat_send actor r)
    (λ rows w', ∃ message answers task d', rows = message :: answers ∧
       appended d (chat_events actor r audience task (ev_event_id message)) rows d' ∧
       ∃ n, open_tx n (committed w) (gateway w) d' w')
    (λ _ _, False) w.
Proof.
  intros Hw Hok Hres Hlen Hv. unfold chat_send, chat_events in *. wp_step.
  wp_use (total_snapshot 9); [done|done| |done]. intros ps w1 [-> Hw1]. rewrite Hres. wp_step. wp_step.
  2: done. match goal with Ha : Ok _ = Ok _ |- _ => injection Ha as <- end. wp_step.
  assert (valid_event (chat_event actor r audience)) as Hv0 by (by specialize (Hv (cs_room_id r) (cs_room_id r)); inv Hv).
  wp_use (total_append 7); [done|simpl; lia|done| |done].
  intros message w2 [He Hw2]. pose proof (length_room_log_add (cs_room_id r) d message). wp_step.
  destruct (invokes_action_items actor r).
  - wp_use (total_answer 0); [done|lia| | |done].
    { intros task. by specialize (Hv task (ev_event_id message)); inv Hv. }
    intros rows w3 (task & d' & Happ & Hw3). wp_step. exists message, rows, task, d'.
    split_and!; [done|by constructor|by exists O].
  - wp_step. wp_step. exists message, [], (cs_room_id r), (add_row message d).
    split_and!; [done|constructor; [done|constructor]|by eexists].
Qed.

Lemma refused_chat_send n actor r e d w :
  open_tx (S n) (committed w) (gateway w) d w → db_ok (committed w) →
  resolve_chat_audience actor (room_roster (cs_room_id r) w) r = Err e →
  wp (chat_send actor r) (λ _ _, False)
    (λ e' w', e' = e ∧ settled (committed w) (gateway w) w') w.
Proof.
  intros Hw Hok Hres. unfold chat_send. wp_step. wp_use (total_snapshot n); [done|done| |done].
  intros ps w1 [-> [[now Hw1] _ _]]. rewrite Hres. wp_step. wp_step; [done|]. simplify_eq.
  split; [done|]. by eapply tx_state_settled.
Qed.

Lemma bind_run {S E A B} (m : M S E A) (f : A → M S E B) s a s' :
  m s = (Ok a, s') → (m ≫= f) s = f a s'.
Proof. intros Hm. unfold mbind, M_bind. by rewrite Hm. Qed.

Lemma chat_in_transaction n actor r w :
  db_ok (committed w) → unused (3 + n) (tick w) (committed w) →
  room_requests (committed w) !! (cs_room_id r, cs_request_id r) = None →
  ∃ w1 fp, open_tx n (committed w) (gateway w) (committed w) w1 ∧
    committed w1 = committed w ∧ gateway w1 = gateway w ∧
    process actor (RChatSend r) w =
      (events ← chat_send actor r;
       _ ← internal (record_request (cs_room_id r) (cs_request_id r) fp events);
       _ ← internal commit_tx;
       _ ← offer_to_memory_engine events;
       mret {| pr_events := events; pr_duplicate := false |}) w1.
Proof.
  intros Hok Hun Hnone. unfold process. cbn [human_only andb room_id Protocol.request_id fingerprint].
  unfold process_in_room. eexists _, _. split_and!.
  4: { erewrite bind_run by (unfold internal, map_err, begin_tx; by rewrite Hup).
       erewrite bind_run by (unfold internal, lock_room, map_err, advisory_lock; by rewrite Hup).
       erewrite bind_run by (unfold internal, prior_request, map_err, mbind, M_bind, tx_query, select;
                             rewrite Hup; simpl; by rewrite Hnone).
       reflexivity. }
  all: try done. split; [by eexists|done|]. by do 3 apply unused_skip in Hun.
Qed.

(** Recording and committing what a handler did. *)
Lemma total_finish n room rid fp rows d g c w :
  open_tx n c g d w → room_requests d !! (room, rid) = None →
  wp (_ ← internal (record_request room rid fp rows);
      _ ← internal commit_tx;
      _ ← offer_to_memory_engine rows;
      mret {| pr_events := rows; pr_duplicate := false |})
    (λ p w', p = {| pr_events := rows; pr_duplicate := false |} ∧
       committed w' = with_requests <[(room, rid) := request_record fp rows]> d)
    (λ _ _, False) w.
Proof.
  intros [[now [Hc Hg Hn Hd]] _ _] Hnone. wp_step. unfold internal at 1, record_request. wp_step. wp_step.
  unfold wp at 1, tx_query, insert_request. rewrite Hup, Hd, Hnone. wp_step. unfold internal. wp_step.
  unfold wp at 1, commit_tx. rewrite Hup. done.
Qed.

End total.
