(* ===== verification/Presence.v ===== *)
(** * Who is in a room

    Presence counts connections; the roster lists everyone once, in order. *)

From S2P Require Import Prelude Json Text Crates Types Protocol Mentions ActionItems MemoryEngine World Store Rooms.
Local Open Scope string_scope.
Local Open Scope list_scope.
Local Open Scope nat_scope.

(** ** Connections *)

(** Sessions come and go. *)
Inductive PresenceStep := Enter (room : Uuid) (actor : Actor) | Leave (room actor : Uuid).

Definition presence_step (s : PresenceStep) : M World Empty_set () :=
  match s with
  | Enter room actor => register_participant room actor
  | Leave room actor => unregister_participant room actor
  end.

(** Open connections of an actor in a room. *)
Definition connections (room actor : Uuid) (g : Gateway) : nat :=
  match presence g !! room ≫= lookup actor with Some q => pp_connections q | None => 0 end.

(** The same, counted from the steps. *)
Definition counted (room actor : Uuid) (s : PresenceStep) (n : nat) : nat :=
  match s with
  | Enter room' a => if bool_decide (room' = room ∧ actor_id a = actor) then S n else n
  | Leave room' a => if bool_decide (room' = room ∧ a = actor) then Nat.pred n else n
  end.

Lemma presence_step_spec s room actor w :
  wp (presence_step s)
    (λ _ w', connections room actor (gateway w') = counted room actor s (connections room actor (gateway w)))
    (λ _ _, False) w.
Proof.
  unfold wp. destruct s as [room' a|room' a]; simpl; unfold connections; simpl.
  - case_bool_decide as Heq.
    + destruct Heq as [-> ->]. rewrite lookup_insert_eq. simpl. rewrite lookup_insert_eq. simpl.
      destruct (presence (gateway w) !! room) as [q|]; simpl; [done|]. by rewrite lookup_empty.
    + destruct (decide (room' = room)) as [->|Hr]; [|by rewrite lookup_insert_ne].
      rewrite lookup_insert_eq. simpl. rewrite lookup_insert_ne by naive_solver.
      destruct (presence (gateway w) !! room); simpl; [done|]. by rewrite lookup_empty.
  - destruct (presence (gateway w) !! room') as [m|] eqn:Hm.
    2: { case_bool_decide as Heq; [|done]. destruct Heq as [-> ->]. by rewrite Hm. }
    destruct (m !! a) as [q|] eqn:Hq.
    2: { case_bool_decide as Heq; [|done]. destruct Heq as [-> ->]. rewrite Hm. simpl. by rewrite Hq. }
    simpl. case_bool_decide as Heq.
    + destruct Heq as [-> ->]. rewrite lookup_insert_eq, Hm. simpl. rewrite lookup_insert_eq, Hq. simpl.
      destruct (Nat.ltb_spec 1 (pp_connections q)); lia.
    + destruct (decide (room' = room)) as [->|Hr]; [|by rewrite lookup_insert_ne].
      rewrite lookup_insert_eq, Hm. simpl. by rewrite lookup_insert_ne by naive_solver.
Qed.

(** A participant is online exactly while a connection of theirs is open: after any sequence
    of sessions entering and leaving rooms, from an empty gateway, the connections the gateway
    counts for an actor in a room are those entered and not yet left, no other actor's or room's
    steps matter, and leaving more often than entering never goes below zero. *)
Theorem presence_counts steps room actor w :
  presence (gateway w) = ∅ →
  ∃ bs w', for_each presence_step steps w = (Ok bs, w') ∧
    connections room actor (gateway w') = foldl (λ n s, counted room actor s n) 0 steps.
Proof.
  intros Hempty. apply wp_total. assert (connections room actor (gateway w) = 0) as <-.
  { unfold connections. by rewrite Hempty, lookup_empty. }
  clear Hempty. revert w. induction steps as [|s steps IH]; intros w; cbn [for_each]; [by wp_step|].
  wp_step. wp_use (presence_step_spec s room actor); [|done]. intros [] w1 Hw1. wp_step.
  wp_use IH; [|done]. intros bs' w2 Hw2. wp_step. simpl. by rewrite Hw2, Hw1.
Qed.

(** ** The roster *)

Global Instance participant_le_total : Total participant_le.
Proof.
  intros a b. unfold participant_le.
  rewrite (String.compare_antisym (rp_role b)), (String.compare_antisym (rp_display_name b)).
  destruct (String.compare (rp_role a) (rp_role b)); simpl; try by auto.
  destruct (String.compare (rp_display_name a) (rp_display_name b)); simpl; try by auto.
  apply (total uuid_le).
Qed.

Section roster.
Context `{UuidCrate}.

Definition keyed (m : gmap Uuid RoomParticipant) : Prop :=
  ∀ id p, m !! id = Some p → rp_id p = id.

Lemma keyed_insert m id p : rp_id p = id → keyed m → keyed (<[id := p]> m).
Proof. intros Hp Hm id' p'. rewrite lookup_insert_Some. naive_solver. Qed.

Definition authors (events : list RoomEvent) (m : gmap Uuid RoomParticipant) :
    gmap Uuid RoomParticipant :=
  foldl (λ m e, <[ev_actor_id e := event_author e]> m) m events.

Lemma authors_spec events m :
  keyed m → keyed (authors events m) ∧
  ∀ id, is_Some (authors events m !! id) ↔ is_Some (m !! id) ∨ id ∈ ev_actor_id <$> events.
Proof.
  revert m. induction events as [|e events IH]; intros m Hm; simpl.
  - split; [done|]. intros id. rewrite elem_of_nil. naive_solver.
  - destruct (IH (<[ev_actor_id e := event_author e]> m)) as [Hk Hd]; [by apply keyed_insert|].
    split; [done|]. intros id. rewrite Hd, lookup_insert_is_Some, elem_of_cons.
    destruct (decide (ev_actor_id e = id)); naive_solver.
Qed.

Lemma keyed_builtin : keyed {[ACTION_ITEMS_AGENT_ID := action_items_participant]}.
Proof. intros id p. rewrite lookup_singleton_Some. by intros [<- <-]. Qed.

Lemma roster_keyed events room_presence codex : keyed (roster events room_presence codex).
Proof.
  unfold roster. fold (authors events {[ACTION_ITEMS_AGENT_ID := action_items_participant]}).
  assert (keyed (map_imap (λ id q, Some (present id q)) room_presence ∪
                 authors events {[ACTION_ITEMS_AGENT_ID := action_items_participant]})) as Hk.
  { intros id p [Hl|[_ Hl]]%lookup_union_Some_raw.
    - rewrite map_lookup_imap in Hl. destruct (room_presence !! id); by simplify_eq/=.
    - revert id p Hl. apply authors_spec, keyed_builtin. }
  destruct codex; [|done]. by apply keyed_insert.
Qed.

Lemma roster_ids events room_presence codex id :
  is_Some (roster events room_presence codex !! id) ↔
  id = ACTION_ITEMS_AGENT_ID ∨ id ∈ ev_actor_id <$> events ∨ is_Some (room_presence !! id) ∨
  codex = true ∧ id = CODEX_AGENT_ID.
Proof.
  unfold roster. fold (authors events {[ACTION_ITEMS_AGENT_ID := action_items_participant]}).
  assert (∀ id, is_Some ((map_imap (λ id q, Some (present id q)) room_presence ∪
     authors events {[ACTION_ITEMS_AGENT_ID := action_items_participant]}) !! id) ↔
     id = ACTION_ITEMS_AGENT_ID ∨ id ∈ ev_actor_id <$> events ∨ is_Some (room_presence !! id)) as Hd.
  { intros id'. rewrite lookup_union_is_Some, map_lookup_imap.
    rewrite (proj2 (authors_spec events _ keyed_builtin)), lookup_singleton_is_Some.
    destruct (room_presence !! id'); simpl; rewrite ?is_Some_alt; naive_solver. }
  destruct codex.
  - rewrite lookup_insert_is_Some, Hd. destruct (decide (CODEX_AGENT_ID = id)); naive_solver.
  - rewrite Hd. naive_solver.
Qed.

Lemma sorted_roster_elem m p : p ∈ sorted_roster m ↔ ∃ id, m !! id = Some p.
Proof.
  unfold sorted_roster. rewrite merge_sort_Permutation, list_elem_of_fmap. split.
  - intros ([id q] & -> & Hin%elem_of_map_to_list). by exists id.
  - intros [id Hl]. exists (id, p). by rewrite elem_of_map_to_list.
Qed.

(** The roster lists everyone who wrote in the room, everyone who is or was connected, and
    the built-in agents the gateway runs, each exactly once, ordered by role, name and
    identifier; whoever has connected is shown online exactly when a connection is open, under
    the name and role of that connection. *)
Theorem roster_exact events room_presence codex :
  let people := sorted_roster (roster events room_presence codex) in
  NoDup (rp_id <$> people) ∧ Sorted participant_le people ∧
  (∀ id, id ∈ rp_id <$> people ↔
     id = ACTION_ITEMS_AGENT_ID ∨ id ∈ ev_actor_id <$> events ∨ is_Some (room_presence !! id) ∨
     codex = true ∧ id = CODEX_AGENT_ID) ∧
  (∀ p q, p ∈ people → room_presence !! rp_id p = Some q → rp_id p ≠ CODEX_AGENT_ID →
     rp_online p = (0 <? pp_connections q) ∧ rp_display_name p = pp_display_name q ∧
     rp_role p = pp_role q).
Proof.
  intros people. pose proof (roster_keyed events room_presence codex) as Hk.
  set (m := roster events room_presence codex) in *. split_and!.
  - unfold people, sorted_roster. rewrite merge_sort_Permutation.
    assert (rp_id <$> (map_to_list m).*2 = (map_to_list m).*1) as ->; [|apply NoDup_fst_map_to_list].
    rewrite <-list_fmap_compose. apply list_fmap_ext. intros i [id p] Hi. simpl. apply Hk.
    by eapply elem_of_map_to_list, list_elem_of_lookup_2.
  - apply Sorted_merge_sort, _.
  - intros id. rewrite <-roster_ids, list_elem_of_fmap. fold m. split.
    + intros (p & -> & [id' Hl]%sorted_roster_elem). rewrite (Hk _ _ Hl). by eexists.
    + intros [p Hl]. exists p. split; [by rewrite (Hk _ _ Hl)|]. apply sorted_roster_elem. by exists id.
  - intros p q [id Hl]%sorted_roster_elem Hq Hc. rewrite (Hk _ _ Hl) in Hq, Hc. revert Hl.
    unfold m, roster. assert (∀ base, (map_imap (λ id q, Some (present id q)) room_presence ∪ base) !! id =
      Some p → p = present id q) as Hp.
    { intros base. rewrite lookup_union, map_lookup_imap, Hq. simpl. rewrite union_Some. naive_solver. }
    destruct codex; [rewrite lookup_insert_ne by done|]; by intros ->%Hp.
Qed.
End roster.
