(* ===== verification/Decisions.v ===== *)
(** * The life of a decision

    An abstract machine on the decision table (propose, confirm, dismiss, replace, delete) and
    the proof that every committed request is one of its moves; from it, that a decision which
    left the draft state never changes again, except by being deleted. *)

From S2P Require Import Prelude Json Text Crates Types Protocol Mentions ActionItems MemoryEngine World Store StoreInvariant Rooms RoomsInvariant RoomTheorems.
Local Open Scope string_scope.
Local Open Scope list_scope.
Local Open Scope Z_scope.

Abbreviation Table := (gmap Uuid DecisionRow).

Section machine.
Context `{Postgres}.

Definition draft_row (r : DecisionPropose) : DecisionRow :=
  {| dc_room_id := dp_room_id r; dc_status := "draft"; dc_title := dp_title r;
     dc_summary := dp_summary r; dc_derived_from_decision_id := None;
     dc_source_event_ids := dp_source_event_ids r; dc_created_at := pg_time (dp_occurred_at r);
     dc_updated_at := pg_time (dp_occurred_at r) |}.

Definition replacement_row (r : DecisionTransition) (row : DecisionRow) (title summary : string) :
    DecisionRow :=
  {| dc_room_id := dt_room_id r; dc_status := "active"; dc_title := title; dc_summary := summary;
     dc_derived_from_decision_id := Some (dt_decision_id r);
     dc_source_event_ids := dc_source_event_ids row;
     dc_created_at := pg_time (dt_occurred_at r); dc_updated_at := pg_time (dt_occurred_at r) |}.

(** What each request may do to the table, with the types of the events that report it. *)
Inductive move : ValidatedRequest → Table → Table → list string → Prop :=
| Move_propose r t id :
    t !! id = None →
    move (RDecisionPropose r) t (<[id := draft_row r]> t) ["decision.proposed"]
| Move_confirm r t row :
    dt_action r = Confirm → t !! dt_decision_id r = Some row → dc_room_id row = dt_room_id r →
    dc_status row = "draft" →
    move (RDecisionTransition r) t
      (<[dt_decision_id r := set_decision_status "active" (pg_time (dt_occurred_at r)) row]> t)
      ["decision.confirmed"]
| Move_dismiss r t row :
    dt_action r = Dismiss → t !! dt_decision_id r = Some row → dc_room_id row = dt_room_id r →
    dc_status row = "draft" →
    move (RDecisionTransition r) t
      (<[dt_decision_id r := set_decision_status "dismissed" (pg_time (dt_occurred_at r)) row]> t)
      ["decision.dismissed"]
| Move_edit r t row new title summary :
    dt_action r = Edit → t !! dt_decision_id r = Some row → dc_room_id row = dt_room_id r →
    dc_status row = "draft" → dt_edited_title r = Some title → dt_edited_summary r = Some summary →
    t !! new = None →
    move (RDecisionTransition r) t
      (<[new := replacement_row r row title summary]>
        (<[dt_decision_id r :=
             set_decision_status "superseded" (pg_time (dt_occurred_at r)) row]> t))
      ["decision.edited"; "decision.confirmed"]
| Move_delete r t row :
    t !! dd_decision_id r = Some row → dc_room_id row = dd_room_id r →
    move (RDecisionDelete r) t (delete (dd_decision_id r) t) ["decision.deleted"]
| Move_chat r t types : move (RChatSend r) t t types
| Move_start r t types : move (RAgentTaskStart r) t t types.
End machine.

Section refinement.
Context `{UuidCrate, Chrono, Schemas, Postgres, Unicode, Oracle}.

(** What appending an event keeps. *)
Lemma wp_append_tables e c g now d w :
  tx_state c g now d w →
  wp (internal (append_event_in_transaction e))
    (λ row w', ∃ d', tx_state c g now d' w' ∧ decisions d' = decisions d ∧
       ev_event_type row = ne_event_type e) (λ _ _, True) w.
Proof.
  intros Hw. unfold internal, append_event_in_transaction. wp_step. wp_step.
  eapply wp_new_v4; [done|]. intros id w1 Hw1. wp_step; [done|]. wp_step.
  wp_use wp_tx_query; [done| |done]. intros row w2 (d' & Hq & Hw2). exists d'.
  unfold insert_event in Hq. apply rbind_Ok in Hq as (n & _ & Hq).
  destruct (event_conflict _ d); [done|]. injection Hq as <- <-. done.
Qed.

(** The outcome of a handler on the decision table. *)
Definition refines (request : ValidatedRequest) (m : M World RpcError (list RoomEvent)) : Prop :=
  ∀ c g now d w, tx_state c g now d w → db_ok c →
    wp m (λ evs w', move request (decisions d) (decisions (working w')) (ev_event_type <$> evs))
      (λ _ _, True) w.

Lemma run_action_items_tables actor r message c g now d w :
  tx_state c g now d w →
  wp (run_action_items actor r message)
    (λ _ w', decisions (working w') = decisions d) (λ _ _, True) w.
Proof.
  intros Hw. unfold run_action_items. wp_step. eapply wp_new_v4; [done|]. intros task w1 Hw1.
  cbn [for_each]. wp_step. wp_step.
  wp_use wp_append_tables; [done| |done]. intros e1 w2 (d2 & Hw2 & Hd2 & _). wp_step. wp_step.
  wp_use wp_append_tables; [done| |done]. intros e2 w3 (d3 & Hw3 & Hd3 & _).
  do 4 wp_step. destruct (action_items_outcome _ _) as [event_type payload]. wp_step.
  wp_use wp_append_tables; [done| |done]. intros e3 w4 (d4 & Hw4 & Hd4 & _). wp_step.
  destruct Hw4 as [_ _ _ ->]. congruence.
Qed.

Lemma chat_send_refines actor r : refines (RChatSend r) (chat_send actor r).
Proof.
  intros c g now d w Hw Hc. unfold chat_send. wp_step.
  wp_use wp_snapshot; [done|done| |done]. intros ps w1 [_ Hw1]. wp_step. wp_step; [|done]. wp_step.
  wp_use wp_append_tables; [done| |done]. intros e w2 (d2 & Hw2 & Hd2 & _). wp_step. wp_step.
  - wp_use run_action_items_tables; [done| |done]. intros evs w3 Hw3. wp_step.
    rewrite Hw3, Hd2. constructor.
  - wp_step. wp_step. destruct Hw2 as [_ _ _ ->]. rewrite Hd2. constructor.
Qed.

Lemma insert_decision_Ok id row now d u d' :
  insert_decision id row now d = Ok (u, d') →
  decisions d !! id = None ∧ d' = with_decisions <[id := row]> d.
Proof. unfold insert_decision. case_match; intros; by simplify_eq. Qed.

Lemma decision_propose_refines actor r : refines (RDecisionPropose r) (decision_propose actor r).
Proof.
  intros c g now d w Hw Hc. unfold decision_propose. wp_step.
  eapply wp_new_v4; [done|]. intros id w1 Hw1. wp_step. unfold internal at 1. wp_step.
  wp_use wp_tx_query; [done| |done]. intros [] w2 (d2 & Hins & Hw2).
  apply insert_decision_Ok in Hins as [Hid ->]. wp_step.
  wp_use wp_append_tables; [done| |done]. intros e w3 (d3 & Hw3 & Hd3 & Hty). wp_step.
  destruct Hw3 as [_ _ _ ->]. rewrite Hd3. simpl. rewrite Hty. by apply Move_propose.
Qed.

Lemma delete_decision_refines actor r :
  refines (RDecisionDelete r) (delete_decision_in_transaction actor r).
Proof.
  intros c g now d w Hw Hc. unfold delete_decision_in_transaction. wp_step. unfold internal at 1.
  wp_step. wp_use wp_tx_select; [done| |done]. intros found w1 [-> Hw1]. wp_step. wp_step; [|done].
  match goal with Hf : ok_or _ _ = Ok ?r |- _ => rename r into row; apply ok_or_Ok in Hf as Hrow end.
  apply select_decision_Some in Hrow as [Hrow Hroom]. wp_step.
  wp_use wp_append_tables; [done| |done]. intros e w2 (d2 & Hw2 & Hd2 & Hty). wp_step.
  unfold internal. wp_step. wp_use wp_tx_query; [done| |done]. intros [] w3 (d3 & Hq & Hw3).
  injection Hq as <-. wp_step. destruct Hw3 as [_ _ _ ->]. simpl. rewrite Hd2, Hrow, Hty.
  rewrite bool_decide_true by done. by eapply Move_delete.
Qed.

Lemma settle_decision_tables actor r row status event_type c g now d w :
  tx_state c g now d w → decisions d !! dt_decision_id r = Some row →
  wp (settle_decision actor r row status event_type)
    (λ evs w', decisions (working w') =
         <[dt_decision_id r := set_decision_status status (pg_time (dt_occurred_at r)) row]>
           (decisions d) ∧
       ev_event_type <$> evs = [event_type]) (λ _ _, True) w.
Proof.
  intros Hw Hrow. unfold settle_decision. wp_step. unfold internal at 1. wp_step.
  wp_use wp_tx_query; [done| |done]. intros [] w1 (d1 & [= <-] & Hw1). wp_step.
  wp_use wp_append_tables; [done| |done]. intros e w2 (d2 & Hw2 & Hd2 & Hty). wp_step.
  destruct Hw2 as [_ _ _ ->]. rewrite Hd2. simpl. rewrite Hty.
  by rewrite (alter_insert_Some _ _ _ row).
Qed.

Lemma replace_decision_refines actor r row c g now d w :
  dt_action r = Edit → dc_status row = "draft" → dc_room_id row = dt_room_id r →
  tx_state c g now d w → decisions d !! dt_decision_id r = Some row →
  wp (replace_decision actor r row)
    (λ evs w', move (RDecisionTransition r) (decisions d) (decisions (working w'))
                 (ev_event_type <$> evs)) (λ _ _, True) w.
Proof.
  intros Hact Hst Hroom Hw Hrow. unfold replace_decision. wp_step. wp_step; [|done].
  wp_step. wp_step; [|done].
  wp_step. eapply wp_new_v4; [done|]. intros id w1 Hw1. wp_step. unfold internal at 1. wp_step.
  wp_use wp_tx_query; [done| |done]. intros [] w2 (d2 & [= <-] & Hw2).
  wp_step. unfold internal at 1. wp_step. wp_use wp_tx_query; [done| |done].
  intros [] w3 (d3 & Hins & Hw3). apply insert_decision_Ok in Hins as [Hid ->]. simpl in Hid, Hw3.
  rewrite (alter_insert_Some _ _ _ row) in Hid by done.
  wp_step. wp_use wp_append_tables; [done| |done]. intros e1 w4 (d4 & Hw4 & Hd4 & Hty1).
  wp_step. wp_use wp_append_tables; [done| |done]. intros e2 w5 (d5 & Hw5 & Hd5 & Hty2). wp_step.
  destruct Hw5 as [_ _ _ ->]. rewrite Hd5, Hd4. simpl. rewrite Hty1, Hty2.
  rewrite (alter_insert_Some _ _ _ row) by done.
  apply lookup_insert_None in Hid as [Hid _].
  apply Move_edit; try done; by eapply ok_or_Ok.
Qed.

Lemma transition_decision_refines actor r :
  refines (RDecisionTransition r) (transition_decision_in_transaction actor r).
Proof.
  intros c g now d w Hw Hc. unfold transition_decision_in_transaction. wp_step.
  unfold internal at 1. wp_step. wp_use wp_tx_select; [done| |done]. intros found w1 [-> Hw1].
  wp_step. wp_step; [|done].
  match goal with Hf : ok_or _ _ = Ok ?r |- _ => rename r into row; apply ok_or_Ok in Hf as Hrow end.
  apply select_decision_Some in Hrow as [Hrow Hroom]. wp_step; [done|].
  match goal with Hs : negb _ = false |- _ => apply negb_false_iff, String.eqb_eq in Hs end.
  wp_step; [|by apply (replace_decision_refines actor r row c g now d)|];
    (wp_use settle_decision_tables; [done|done| |done]); intros evs w2 [-> ->].
  - by apply Move_confirm.
  - by apply Move_dismiss.
Qed.

Lemma handle_request_refines actor request c g :
  db_ok c →
  ensures (λ d evs, move request (decisions c) (decisions d) (ev_event_type <$> evs))
    actor request c g.
Proof.
  intros Hc room rid now w Hroom Hrid Hw Hnone. destruct request as [r|r|r|r|r|r|r]; simplify_eq/=.
  - done.
  - by apply (chat_send_refines actor r c g now c).
  - by apply (decision_propose_refines actor r c g now c).
  - by apply (transition_decision_refines actor r c g now c).
  - by apply (delete_decision_refines actor r c g now c).
  - wp_step. unfold internal. wp_step. wp_use wp_start_new; [done|done|done| |done].
    intros res w' (d' & e & He & [Hw' _] & _ & _ & Hd & _). wp_step.
    rewrite (tx_working _ _ _ _ _ Hw'), Hd. constructor.
Qed.

(** The table after a request: as before, or one move of the machine away. *)
Lemma process_move actor request w r w' :
  db_ok (committed w) → process actor request w = (r, w') →
  committed w' = committed w ∨
  ∃ evs, room_events (committed w') = room_events (committed w) ++ evs ∧
    move request (decisions (committed w)) (decisions (committed w')) (ev_event_type <$> evs).
Proof.
  intros Hok Hp. destruct (process_changed _ _ _ _ _ _ Hok (handle_request_refines _ _ _ _ Hok) Hp)
    as [|(room & rid & fp & evs & _ & _ & _ & Happ & _)]; [by left|right].
  exists evs. split; [by eapply applied_grows|]. destruct Happ as (body & _ & _ & _ & _ & -> & Hm). done.
Qed.

(** C11: The decision table is a refinement of the abstract machine [move]: whatever request is
    processed, with whatever failures, either nothing is committed or the table makes exactly
    one move that the machine allows for that request, reported by events of the types the
    machine names. Confirming, dismissing and editing apply only to a draft of the request's
    room; an edit supersedes the draft and activates one replacement that names it as its
    origin and keeps its sources. *)
Theorem process_refines_decision_machine actor request w r w' :
  db_ok (committed w) → process actor request w = (r, w') →
  committed w' = committed w ∨
  ∃ evs, room_events (committed w') = room_events (committed w) ++ evs ∧
    move request (decisions (committed w)) (decisions (committed w')) (ev_event_type <$> evs).
Proof. apply process_move. Qed.

Lemma move_settled request t t' types id row :
  move request t t' types → t !! id = Some row → dc_status row ≠ "draft" →
  t' !! id = Some row ∨
  t' !! id = None ∧ ∃ r, request = RDecisionDelete r ∧ dd_decision_id r = id.
Proof.
  intros Hm Hrow Hst. destruct Hm as [r t new Hnew|r t row' _ Hr _ Hd|r t row' _ Hr _ Hd
    |r t row' new title summary _ Hr _ Hd _ _ Hnew|r t row' Hr _|r t|r t]; try by left.
  - left. rewrite lookup_insert_ne; [done|congruence].
  - left. rewrite lookup_insert_ne; [done|congruence].
  - left. rewrite lookup_insert_ne; [done|congruence].
  - left. rewrite !lookup_insert_ne; [done|congruence|congruence].
  - destruct (decide (dd_decision_id r = id)) as [<-|Hne].
    + right. rewrite lookup_delete_eq. eauto.
    + left. by rewrite lookup_delete_ne.
Qed.

(** The requests of a run, with whatever each was answered. *)
Inductive run : list (Actor * ValidatedRequest) → World → World → Prop :=
| run_nil w : run [] w w
| run_cons actor request rest w r w1 w2 :
    process actor request w = (r, w1) → run rest w1 w2 → run ((actor, request) :: rest) w w2.

Lemma run_ok requests w w' :
  run requests w w' → db_ok (committed w) → db_ok (committed w').
Proof.
  induction 1 as [|actor request rest w r w1 w2 Hp _ IH]; [done|]. intros Hok. apply IH.
  destruct (process_changed _ _ _ _ _ _ Hok (ensures_True _ _ _ _) Hp)
    as [->|(? & ? & ? & ? & _ & _ & _ & _ & ? & _)]; done.
Qed.

Lemma run_settled requests w w' id row :
  run requests w w' → db_ok (committed w) →
  decisions (committed w) !! id = Some row → dc_status row ≠ "draft" →
  (∀ actor r, (actor, RDecisionDelete r) ∈ requests → dd_decision_id r ≠ id) →
  decisions (committed w') !! id = Some row.
Proof.
  intros Hrun. induction Hrun as [|actor request rest w r w1 w2 Hp Hrest IH]; [done|].
  intros Hok Hrow Hst Hdel. apply IH; [|..|done|].
  - eapply run_ok; [|done]. econstructor; [done|constructor].
  - destruct (process_move _ _ _ _ _ Hok Hp) as [->|(evs & _ & Hm)]; [done|].
    destruct (move_settled _ _ _ _ _ _ Hm Hrow Hst) as [?|(_ & rd & -> & Hid)]; [done|].
    exfalso. by eapply (Hdel actor rd); [constructor|].
  - intros actor' rd Hin. apply (Hdel actor' rd). by constructor.
Qed.

(** A decision that has been confirmed, dismissed or superseded is immutable: through any
    sequence of requests by anyone, in any order and with any failures, its row stays exactly
    as it is (title, summary, sources, status, times) unless a request deletes that decision. *)
Theorem settled_decision_immutable requests w w' id row :
  run requests w w' → db_ok (committed w) →
  decisions (committed w) !! id = Some row → dc_status row ≠ "draft" →
  (∀ actor r, (actor, RDecisionDelete r) ∈ requests → dd_decision_id r ≠ id) →
  decisions (committed w') !! id = Some row.
Proof. apply run_settled. Qed.
End refinement.

(** ** Refusals *)

Section refusals.
Context `{UuidCrate, Chrono, Schemas, Postgres, Unicode, Oracle}.

(** The answer to a transition the machine does not allow. *)
Definition transition_refusal (r : DecisionTransition) (t : Table) : option RpcError :=
  match t !! dt_decision_id r with
  | None => Some not_found
  | Some row =>
      if negb (bool_decide (dc_room_id row = dt_room_id r)) then Some not_found
      else if negb (String.eqb (dc_status row) "draft") then Some invalid_transition
      else match dt_action r, dt_edited_title r, dt_edited_summary r with
           | Edit, None, _ | Edit, _, None => Some invalid_request
           | _, _, _ => None
           end
  end.

(** While the database answers, a human's transition request that is new to the room is
    refused with the error its defect calls for, and nothing is committed: [not_found] for a
    decision that does not exist or belongs to another room, [invalid_transition] for one that
    is no longer a draft, [invalid_request] for an edit without its title or its summary. *)
Theorem transition_refused actor r w e :
  (∀ t, outage t = Up) → actor_role actor = Human →
  room_requests (committed w) !! (dt_room_id r, dt_request_id r) = None →
  transition_refusal r (decisions (committed w)) = Some e →
  ∃ w', process actor (RDecisionTransition r) w = (Err e, w') ∧ committed w' = committed w.
Proof.
  intros Hup Hrole Hnone Href.
  unfold process. simpl. rewrite Hrole. simpl.
  unfold process_in_room, internal, lock_room, prior_request, map_err, mbind, M_bind,
    begin_tx, advisory_lock, tx_query, select.
  rewrite Hup. simpl. rewrite Hup. simpl. rewrite Hup. simpl. rewrite Hnone.
  unfold transition_decision_in_transaction, internal, map_err, mbind, M_bind, tx_query, select, lift.
  simpl. rewrite Hup. simpl. unfold transition_refusal in Href.
  unfold select_decision. destruct (decisions (committed w) !! dt_decision_id r) as [row|]; simpl.
  2: { simplify_eq. by eexists. }
  destruct (bool_decide (dc_room_id row = dt_room_id r)); simpl in *; [|simplify_eq; by eexists].
  destruct (String.eqb (dc_status row) "draft"); simpl in *; [|simplify_eq; by eexists].
  destruct (dt_action r); try done.
  unfold replace_decision, mbind, M_bind, lift.
  destruct (dt_edited_title r), (dt_edited_summary r); simplify_eq/=; by eexists.
Qed.
End refusals.
