(* ===== verification/Tasks.v ===== *)
(** * Agent tasks: leases and updates

    Theorems on the task operations of Store.v: who may hold a task and for how long, in
    which order tasks are handed out, what an update does and what a repeated one gets. *)

From S2P Require Import Prelude Json Text Crates Types Protocol MemoryEngine World Store StoreInvariant.
Local Open Scope string_scope.
Local Open Scope list_scope.
Local Open Scope Z_scope.

(** ** Rows *)

Lemma skill_str_decode skill :
  (if String.eqb (skill_str skill) "summarize-context" then Ok SummarizeContext
   else if String.eqb (skill_str skill) "extract-action-items" then Ok ExtractActionItems
   else Err InvalidAgentTask) = Ok (E := StoreError) skill.
Proof. by destruct skill. Qed.

Lemma parse_task_state_str state : parse_task_state (task_state_str state) = Ok state.
Proof. by destruct state. Qed.

(** A well-formed row is decoded, and to a record with the same columns. *)
Lemma agent_task_from_row_Ok task row r :
  agent_task_from_row task row = Ok r →
  tk_task_id r = task ∧ tk_room_id r = tr_room_id row ∧ tk_agent_id r = tr_agent_id row ∧
  tk_requester_id r = tr_requester_id row ∧ tk_context_revision r = tr_context_revision row ∧
  tr_state row = task_state_str (tk_state r) ∧ tr_skill_id row = skill_str (tk_skill_id r).
Proof.
  unfold agent_task_from_row. intros (skill & Hsk & (state & Hst & [= <-])%rbind_Ok)%rbind_Ok.
  simpl. split_and!; try done.
  - unfold parse_task_state in Hst. repeat case_match; simplify_eq;
      by match goal with Hb : String.eqb _ _ = true |- _ => apply String.eqb_eq in Hb end.
  - repeat case_match; simplify_eq;
      by match goal with Hb : String.eqb _ _ = true |- _ => apply String.eqb_eq in Hb end.
Qed.

Lemma agent_task_from_row_total d task row :
  task_row_ok d row → is_Some (ok (agent_task_from_row task row)).
Proof.
  intros ([skill Hsk] & [state Hst] & _). unfold agent_task_from_row.
  rewrite Hsk, skill_str_decode. simpl. rewrite Hst, parse_task_state_str. simpl. by eexists.
Qed.

(** ** Claims *)

Section claims.
Context `{Postgres}.

Global Instance older_total : Total older.
Proof.
  intros a b. unfold older, uuid_le. destruct (decide (tr_created_at a.2 = tr_created_at b.2)); lia.
Qed.
Global Instance older_trans : Transitive older.
Proof. intros a b c. unfold older, uuid_le. lia. Qed.

Lemma claim_queue_elem agent now d task row :
  (task, row) ∈ claim_queue agent now d ↔
  agent_tasks d !! task = Some row ∧ tr_agent_id row = agent ∧ claimable now row = true.
Proof.
  unfold claim_queue. rewrite merge_sort_Permutation, list_elem_of_In, filter_In,
    <-list_elem_of_In, elem_of_map_to_list, andb_true_iff, bool_decide_eq_true. done.
Qed.

Lemma claim_queue_head agent now d task row :
  head (claim_queue agent now d) = Some (task, row) →
  ∀ task' row', (task', row') ∈ claim_queue agent now d → older (task, row) (task', row').
Proof.
  intros Hh task' row' Hin.
  assert (StronglySorted older (claim_queue agent now d)) as Hs
    by (apply StronglySorted_merge_sort; apply _).
  destruct (claim_queue agent now d) as [|x l]; [done|]. simplify_eq/=.
  apply StronglySorted_inv in Hs as [_ Hall]. apply elem_of_cons in Hin as [->|Hin].
  - right. split; [done|]. unfold uuid_le. lia.
  - rewrite Forall_forall in Hall. by apply Hall.
Qed.

Lemma leased_row_ok d state owner expires_at now row :
  task_row_ok d row → task_row_ok d (leased (task_state_str state) owner expires_at now row).
Proof.
  intros (Hsk & _ & Hrev & _). unfold task_row_ok. simpl. split_and!; [done|by eexists|lia|lia|].
  split; intros _; by eexists.
Qed.

(** The lease a claim grants and the table it leaves. *)
Definition granted (task owner : Uuid) (now : DateTime) : AgentTaskLease :=
  {| ls_task_id := task; ls_owner_id := owner;
     ls_expires_at := pg_time (now + AGENT_TASK_LEASE_DURATION) |}.

Lemma claim_oldest_Ok agent owner now t d lease d' :
  db_ok d →
  claim_oldest agent owner now (now + AGENT_TASK_LEASE_DURATION) t d = Ok (lease, d') →
  db_ok d' ∧
  match lease with
  | None => claim_queue agent (pg_time now) d = [] ∧ d' = d
  | Some lease => ∃ task row, lease = granted task owner now ∧
      head (claim_queue agent (pg_time now) d) = Some (task, row) ∧
      d' = with_tasks <[task := leased "running" owner (ls_expires_at lease) (pg_time now) row]> d
  end.
Proof.
  intros Hok. unfold claim_oldest. destruct (head _) as [[task row]|] eqn:Hh; intros [= <- <-].
  - split; [|by eauto]. assert ((task, row) ∈ claim_queue agent (pg_time now) d) as Hin.
    { destruct (claim_queue _ _ _); [done|]. simplify_eq/=. by constructor. }
    apply claim_queue_elem in Hin as (Hrow & _ & _).
    apply set_task_ok; [done| |naive_solver].
    apply (leased_row_ok d Running). by eapply ok_tasks.
  - split; [done|]. by destruct (claim_queue agent (pg_time now) d).
Qed.

Lemma update_lease_Ok task owner now t d lease d' :
  db_ok d →
  update_lease task owner now (now + AGENT_TASK_LEASE_DURATION) t d = Ok (lease, d') →
  db_ok d' ∧
  match lease with
  | None => d' = d
  | Some lease => ∃ row state, lease = granted task owner now ∧
      agent_tasks d !! task = Some row ∧ claimable (pg_time now) row = true ∧
      d' = with_tasks <[task := leased state owner (ls_expires_at lease) (pg_time now) row]> d
  end.
Proof.
  intros Hok. unfold update_lease. destruct (agent_tasks d !! task) as [row|] eqn:Hrow;
    [|by intros [= <- <-]].
  destruct (claimable (pg_time now) row) eqn:Hcl; intros [= <- <-]; [|done].
  split; [|by eauto 10]. apply set_task_ok; [done| |naive_solver].
  destruct (ok_tasks _ Hok _ _ Hrow) as (Hsk & [state Hst] & Hrest).
  assert (∃ state', (if String.eqb (tr_state row) "queued" then "running" else tr_state row) =
                    task_state_str state') as [state' ->].
  { rewrite Hst. case_match; [by exists Running|by eexists]. }
  apply leased_row_ok. by eapply ok_tasks.
Qed.

Lemma claimable_expired now row :
  claimable now row = true → ∀ t, tr_lease_expires_at row = Some t → t ≤ now.
Proof.
  unfold claimable. intros [_ Hl]%andb_true_iff t Ht. rewrite Ht in Hl. by apply Z.leb_le.
Qed.
End claims.

Section claim_theorems.
Context `{Postgres, Oracle}.

Lemma wp_claim_oldest agent owner now c g w :
  settled c g w → db_ok c →
  wp (claim_oldest_queued_agent_task agent owner now)
    (λ lease w', ∃ d', settled d' g w' ∧ db_ok d' ∧ ∃ t,
       claim_oldest agent owner now (now + AGENT_TASK_LEASE_DURATION) t c = Ok (lease, d'))
    (λ _ w', settled c g w' ∨ ∃ d' lease t, settled d' g w' ∧ db_ok d' ∧
       claim_oldest agent owner now (now + AGENT_TASK_LEASE_DURATION) t c = Ok (lease, d')) w.
Proof.
  intros Hw Hc. unfold claim_oldest_queued_agent_task. wp_step. wp_step.
  wp_use wp_begin; [done| |by left]. intros [] w1 [t Hw1]. wp_step. wp_step.
  wp_use wp_advisory_lock; [done| |by left]. intros [] w2 Hw2. wp_step. wp_step.
  wp_use wp_tx_query; [done| |by left]. intros lease w3 (d' & Hq & Hw3). wp_step. wp_step.
  destruct (claim_oldest_Ok _ _ _ _ _ _ _ Hc Hq) as [Hok _].
  wp_use wp_commit; [done| |].
  - intros [] w4 Hw4. wp_step. by eauto 10.
  - intros e w4 [?|?]; [by left|right; by eauto 10].
Qed.

(** C15: Tasks are handed out first come, first served. A worker asking for work gets the
    claimable task of its agent that was created first (ties by identifier): queued, running
    or waiting, and not under a lease that is still running. The lease lasts five minutes from
    the claim at the database's precision, the task is then running under that owner, and no
    other row changes. While the database answers there is always an answer, and it is "none"
    only when no task of the agent is claimable, and
    then nothing changes. *)
Theorem claim_first_come agent owner now w :
  db_ok (committed w) →
  ((∀ t, outage t = Up) →
   ∃ lease w', claim_oldest_queued_agent_task agent owner now w = (Ok lease, w')) ∧
  ∀ lease w', claim_oldest_queued_agent_task agent owner now w = (Ok lease, w') →
  match lease with
  | Some lease => ∃ task row,
      lease = granted task owner now ∧
      agent_tasks (committed w) !! task = Some row ∧
      tr_agent_id row = agent ∧ claimable (pg_time now) row = true ∧
      (∀ task' row', agent_tasks (committed w) !! task' = Some row' → tr_agent_id row' = agent →
         claimable (pg_time now) row' = true → older (task, row) (task', row')) ∧
      committed w' = with_tasks
        <[task := leased "running" owner (ls_expires_at lease) (pg_time now) row]> (committed w)
  | None =>
      (∀ task row, agent_tasks (committed w) !! task = Some row → tr_agent_id row = agent →
         claimable (pg_time now) row = false) ∧
      committed w' = committed w
  end.
Proof.
  intros Hok. split.
  { intros Hup. unfold claim_oldest_queued_agent_task, claim_oldest, map_err, mbind, M_bind,
      begin_tx, advisory_lock, tx_query, commit_tx.
    rewrite Hup. simpl. rewrite Hup. simpl. rewrite Hup. simpl.
    destruct (head _) as [[task row]|]; rewrite Hup; by eexists _, _. }
  intros lease w' Hrun.
  pose proof (wp_Ok _ _ _ _ _ _ (wp_claim_oldest agent owner now _ _ w (conj eq_refl eq_refl) Hok) Hrun)
    as (d' & [-> _] & _ & t & Hq). clear Hrun.
  apply claim_oldest_Ok in Hq as [_ Hl]; [|done]. destruct lease as [lease|].
  - destruct Hl as (task & row & -> & Hh & ->). exists task, row.
    assert ((task, row) ∈ claim_queue agent (pg_time now) (committed w)) as Hin.
    { destruct (claim_queue _ _ _); [done|]. simplify_eq/=. by constructor. }
    apply claim_queue_elem in Hin as (? & ? & ?). split_and!; try done.
    intros task' row' Hr Ha Hc. eapply claim_queue_head; [done|]. by apply claim_queue_elem.
  - destruct Hl as [Hnil ->]. split; [|done]. intros task row Hr Ha.
    destruct (claimable (pg_time now) row) eqn:Hc; [|done]. exfalso.
    assert ((task, row) ∈ claim_queue agent (pg_time now) (committed w)) as Hin
      by (by apply claim_queue_elem). rewrite Hnil in Hin. by apply elem_of_nil in Hin.
Qed.

(** The claims of a worker, by task or by queue. *)
Inductive Claim := ClaimTask (task owner : Uuid) | ClaimQueue (agent owner : Uuid).

Definition run_claim (c : Claim) (now : DateTime) : M World StoreError (option AgentTaskLease) :=
  match c with
  | ClaimTask task owner => claim_agent_task task owner now
  | ClaimQueue agent owner => claim_oldest_queued_agent_task agent owner now
  end.

(** What any claim does: nothing, or one claimable row gets a lease. *)
Definition claims_one (now : DateTime) (d d' : Db) (lease : option AgentTaskLease) : Prop :=
  (lease = None ∧ d' = d) ∨
  ∃ task owner row state, lease = Some (granted task owner now) ∧
    agent_tasks d !! task = Some row ∧ claimable (pg_time now) row = true ∧
    d' = with_tasks <[task := leased state owner (pg_time (now + AGENT_TASK_LEASE_DURATION))
                                (pg_time now) row]> d.

Lemma claim_oldest_one agent owner now t d lease d' :
  db_ok d → claim_oldest agent owner now (now + AGENT_TASK_LEASE_DURATION) t d = Ok (lease, d') →
  claims_one now d d' lease.
Proof.
  intros Hok Hq. apply claim_oldest_Ok in Hq as [_ Hl]; [|done]. destruct lease as [lease|].
  - destruct Hl as (task & row & -> & Hh & ->). right. exists task, owner, row, "running".
    assert ((task, row) ∈ claim_queue agent (pg_time now) d) as Hin.
    { destruct (claim_queue _ _ _); [done|]. simplify_eq/=. by constructor. }
    by apply claim_queue_elem in Hin as (? & ? & ?).
  - left. by destruct Hl as [_ ->].
Qed.

Lemma run_claim_spec claim now c g w :
  settled c g w → db_ok c →
  wp (run_claim claim now)
    (λ lease w', ∃ d', settled d' g w' ∧ db_ok d' ∧ claims_one now c d' lease)
    (λ _ w', settled c g w' ∨ ∃ d' lease, settled d' g w' ∧ db_ok d' ∧ claims_one now c d' lease) w.
Proof.
  intros Hw Hc. destruct claim as [task owner|agent owner]; simpl.
  - unfold claim_agent_task. wp_step. destruct Hw as [<- <-]. unfold wp, pool_query.
    destruct (update_lease _ _ _ _ _ _) as [[lease d']|e] eqn:Hq.
    + destruct (update_lease_Ok _ _ _ _ _ _ _ Hc Hq) as [Hok Hl].
      assert (claims_one now (committed w) d' lease) as Hone.
      { destruct lease; [|by left]. destruct Hl as (row & state & -> & ? & ? & ->). right.
        by exists task, owner, row, state. }
      destruct (outage (tick w)); simpl; [by exists d'|by left|right; by exists d', lease].
    + destruct (outage (tick w)); simpl; by left.
  - wp_use wp_claim_oldest; [done|done|..].
    + intros lease w' (d' & ? & ? & t & Hq). exists d'. split_and!; [done..|].
      by eapply claim_oldest_one.
    + intros e w' [?|(d' & lease & t & ? & ? & Hq)]; [by left|right]. exists d', lease.
      split_and!; [done..|]. by eapply claim_oldest_one.
Qed.

(** A live lease keeps its row out of every claim. *)
Lemma claims_one_live now d d' lease task row expires_at :
  claims_one now d d' lease → agent_tasks d !! task = Some row →
  tr_lease_expires_at row = Some expires_at → pg_time now < expires_at →
  agent_tasks d' !! task = Some row ∧ ∀ l, lease = Some l → ls_task_id l ≠ task.
Proof.
  intros [[-> ->]|(task' & owner & row' & state & -> & Hrow' & Hcl & ->)] Hrow Hexp Hlive; [done|].
  assert (task' ≠ task) as Hne.
  { intros ->. assert (row' = row) as -> by congruence.
    pose proof (claimable_expired _ _ Hcl _ Hexp). lia. }
  split; [|naive_solver]. simpl. by rewrite lookup_insert_ne.
Qed.

(** C16: Leases are exclusive. While a task's lease has not expired at the instant of a claim,
    no claim of any kind, by any owner, with any failures, changes that task's row or returns
    a lease on it. *)
Theorem lease_exclusive claim now w r w' task row expires_at :
  db_ok (committed w) → run_claim claim now w = (r, w') →
  agent_tasks (committed w) !! task = Some row →
  tr_lease_expires_at row = Some expires_at → pg_time now < expires_at →
  agent_tasks (committed w') !! task = Some row ∧
  (∀ lease, r = Ok (Some lease) → ls_task_id lease ≠ task).
Proof.
  intros Hok Hrun Hrow Hexp Hlive.
  pose proof (run_claim_spec claim now _ _ w (conj eq_refl eq_refl) Hok) as Hspec.
  unfold wp in Hspec. rewrite Hrun in Hspec. destruct r as [lease|e].
  - destruct Hspec as (d' & [-> _] & _ & Hone).
    destruct (claims_one_live _ _ _ _ _ _ _ Hone Hrow Hexp Hlive) as [? Hl].
    split; [done|]. intros l [= ->]. by apply Hl.
  - destruct Hspec as [[-> _]|(d' & lease & [-> _] & _ & Hone)]; [done|].
    destruct (claims_one_live _ _ _ _ _ _ _ Hone Hrow Hexp Hlive) as [? _]. done.
Qed.
End claim_theorems.

(** ** Updates *)

Section updates.
Context `{UuidCrate, Chrono, Schemas, Postgres, UrlCrate, Oracle}.

(** [d'] is [d] after the update of a task: one event of the task's agent in the task's room,
    the record of the update, and the task's new state; nothing else. *)
Record updated (lease : AgentTaskLease) (update : AgentTaskUpdate) (payload : Value)
    (d d' : Db) (e : RoomEvent) : Prop := {
  upd_ok : db_ok d';
  upd_events : room_events d' = room_events d ++ [e];
  upd_row : ∃ row state,
    agent_tasks d !! ls_task_id lease = Some row ∧
    (∃ s, is_open s = true ∧ tr_state row = task_state_str s) ∧
    state_for_update (up_event_type update) = Ok state ∧
    agent_tasks d' = <[ls_task_id lease :=
      set_task_state (task_state_str state) (pg_time (up_occurred_at update)) row]>
      (agent_tasks d) ∧
    ev_room_id e = tr_room_id row ∧ ev_actor_id e = tr_agent_id row;
  upd_event : ev_event_type e = up_event_type update ∧ ev_payload e = pg_json payload ∧
    ev_occurred_at e = pg_time (up_occurred_at update);
  upd_record : agent_task_updates d !! (ls_task_id lease, up_update_id update) = None ∧
    agent_task_updates d' =
    <[(ls_task_id lease, up_update_id update) := [ev_event_id e]]> (agent_task_updates d);
  upd_rest : decisions d' = decisions d ∧ room_requests d' = room_requests d;
  upd_conversations : conversation_tables d' = conversation_tables d;
}.

Lemma set_state_row_ok d state now row :
  task_row_ok d row → task_row_ok d (set_task_state (task_state_str state) now row).
Proof.
  intros (Hsk & _ & Hrev & Hl). unfold task_row_ok. simpl. split_and!; [done|by eexists|lia|lia|apply Hl..].
Qed.

Lemma handoff_quiet task lease payload c g now d w :
  tx_state c g now d w →
  wp (validate_agent_handoff task lease payload) (λ _, tx_state c g now d) (λ _, settled c g) w.
Proof.
  intros Hw. pose proof (tx_state_settled _ _ _ _ _ Hw). unfold validate_agent_handoff.
  do 6 (wp_step; try done). wp_step. eapply wp_now; [done|]. intros t w' Hw'.
  wp_step; wp_step; [by eapply tx_state_settled|done].
Qed.

(** Recording the update of a task that exists, on top of its event. *)
Lemma insert_task_update_ok d task update row e :
  db_ok d → agent_tasks d !! task = Some row → e ∈ room_log (tr_room_id row) d →
  db_ok (with_task_updates <[(task, update) := [ev_event_id e]]> d).
Proof.
  intros [Hi Hg Hq Ht Hu] Hrow He. split; [exact Hi|exact Hg|exact Hq|exact Ht|].
  intros task' update' ids. simpl. rewrite lookup_insert_Some.
  intros [[[= <- <-] <-]|[_ Hl]].
  - exists row, e. split; [done|]. split; [|done]. by apply singleton_sublist_l.
  - destruct (Hu _ _ _ Hl) as (r & e' & ? & ?). by exists r, e'.
Qed.

(** The three statements of an update, together. *)
Definition persisted (lease : AgentTaskLease) (update : AgentTaskUpdate) (state : AgentTaskState)
    (e : RoomEvent) (d : Db) : Db :=
  with_tasks (alter (set_task_state (task_state_str state) (pg_time (up_occurred_at update)))
                (ls_task_id lease))
    (with_task_updates <[(ls_task_id lease, up_update_id update) := [ev_event_id e]]> (add_row e d)).

(** The event of an update. *)
Definition update_event (task : AgentTaskRecord) (update : AgentTaskUpdate) (payload : Value)
    (request_id : Uuid) : NewEvent :=
  {| ne_room_id := tk_room_id task; ne_request_id := request_id;
     ne_event_type := up_event_type update; ne_actor_id := tk_agent_id task;
     ne_actor_role := "agent"; ne_actor_display_name := None; ne_payload := payload;
     ne_occurred_at := up_occurred_at update |}.

Lemma updated_intro task row lease update payload state rid id d e :
  agent_tasks d !! ls_task_id lease = Some row → agent_task_from_row (ls_task_id lease) row = Ok task →
  is_open (tk_state task) = true →
  agent_task_updates d !! (ls_task_id lease, up_update_id update) = None →
  state_for_update (up_event_type update) = Ok state →
  e = next_row d id (update_event task update payload rid) → db_ok (add_row e d) →
  updated lease update payload d (persisted lease update state e d) e.
Proof.
  intros Hrow Htask Hopen Hnone Hstate He Hok.
  destruct (agent_task_from_row_Ok _ _ _ Htask) as (Hid & Hroom & Hagent & _ & _ & Hst & _).
  pose proof (f_equal ev_room_id He) as Her. simpl in Her. rewrite Hroom in Her.
  assert (e ∈ room_log (tr_room_id row) (add_row e d)) as Hlog.
  { apply room_log_elem. split; [|done]. simpl. set_solver. }
  assert (persisted lease update state e d =
    with_tasks <[ls_task_id lease :=
        set_task_state (task_state_str state) (pg_time (up_occurred_at update)) row]>
      (with_task_updates <[(ls_task_id lease, up_update_id update) := [ev_event_id e]]> (add_row e d)))
    as ->.
  { unfold persisted, with_tasks. simpl. by rewrite (alter_insert_Some _ _ _ row). }
  split; [| | | | |done|done].
  - apply set_task_ok.
    + by eapply insert_task_update_ok.
    + apply set_state_row_ok. by eapply (ok_tasks (add_row e d)).
    + simpl. intros old Hold. by simplify_eq.
  - done.
  - exists row, state. split_and!; try done; [by eexists|]. rewrite He. done.
  - rewrite He. done.
  - done.
Qed.

Lemma persist_update_spec task row lease update payload c g now d w :
  tx_state c g now d w → db_ok d →
  agent_tasks d !! ls_task_id lease = Some row → agent_task_from_row (ls_task_id lease) row = Ok task →
  is_open (tk_state task) = true →
  agent_task_updates d !! (ls_task_id lease, up_update_id update) = None →
  wp (persist_update task lease update payload)
    (λ r w', ∃ d' e, updated lease update payload d d' e ∧ settled d' g w' ∧
       r = {| ur_task_id := ls_task_id lease; ur_events := [e]; ur_duplicate := false |})
    (λ _ w', settled c g w' ∨ ∃ d' e, updated lease update payload d d' e ∧ settled d' g w') w.
Proof.
  intros Hw Hok Hrow Htask Hopen Hnone.
  destruct (agent_task_from_row_Ok _ _ _ Htask) as (Hid & Hroom & Hagent & _ & _ & Hst & _).
  unfold persist_update. rewrite Hid. wp_step.
  assert (wp (if String.eqb (up_event_type update) "agent.task.awaiting_external_input"
              then validate_agent_handoff task lease payload else mret ())
            (λ _, tx_state c g now d) (λ _ w', settled c g w') w) as Hh.
  { wp_step; [by apply handoff_quiet|by wp_step]. }
  wp_use Hh; [|by left]. intros [] w1 Hw1. pose proof (tx_state_settled _ _ _ _ _ Hw1).
  wp_step. wp_step; [|by left]. wp_step. eapply wp_new_v4; [done|]. intros rid w2 Hw2. wp_step.
  wp_use wp_append; [done|done| |by left]. intros e w3 (id & _ & Hrow3 & Hok3 & Hw3).
  wp_step. wp_step. wp_use wp_tx_query; [done| |by left]. intros [] w4 (d4 & Hins & Hw4).
  unfold insert_task_update in Hins. simpl in Hins. rewrite Hrow, Hnone in Hins. injection Hins as <-.
  wp_step. wp_step. wp_use wp_tx_query; [done| |by left]. intros [] w5 (d5 & [= <-] & Hw5).
  match goal with Hs : state_for_update _ = Ok ?s |- _ => rename s into state, Hs into Hstate end.
  assert (updated lease update payload d (persisted lease update state e d) e) as Hup
    by (by eapply updated_intro).
  wp_step. wp_step. wp_use wp_commit; [done| |].
  - intros [] w6 Hw6. wp_step. by eauto.
  - intros err w6 [?|?]; [by left|right; by eauto].
Qed.
End updates.

Section update_theorems.
Context `{UuidCrate, Chrono, Schemas, Postgres, UrlCrate, Oracle}.

Lemma leased_task_Some lease now d row :
  leased_task lease now d = Some row ↔
  agent_tasks d !! ls_task_id lease = Some row ∧ holds_lease lease now row = true.
Proof.
  unfold leased_task. rewrite bind_Some. split.
  - intros (r & Hr & Hif). destruct (holds_lease lease now r) eqn:Hh; by simplify_eq.
  - intros [Hr Hh]. exists row. by rewrite Hh.
Qed.

(** What a successful update was: a repetition of a recorded one, or a new one. *)
Definition update_outcome (lease : AgentTaskLease) (update : AgentTaskUpdate) (c : Db)
    (r : AgentTaskUpdateResult) (d' : Db) : Prop :=
  ∃ row task payload now,
    agent_tasks c !! ls_task_id lease = Some row ∧ holds_lease lease now row = true ∧
    agent_task_from_row (ls_task_id lease) row = Ok task ∧
    normalized_agent_task_update_payload task (up_payload update) = Ok payload ∧
    ur_task_id r = ls_task_id lease ∧
    match agent_task_updates c !! (ls_task_id lease, up_update_id update) with
    | Some ids => ur_duplicate r = true ∧ d' = c ∧
        refers_to c (tr_room_id row) ids (ur_events r) ∧
        is_matching_agent_task_update (ur_events r) update payload = true
    | None => ur_duplicate r = false ∧
        ∃ e, ur_events r = [e] ∧ updated lease update payload c d' e
    end.

Lemma record_update_spec lease update c g w :
  settled c g w → db_ok c →
  wp (record_agent_task_update_with_outcome lease update)
    (λ r w', ∃ d', settled d' g w' ∧ update_outcome lease update c r d')
    (λ _ w', settled c g w' ∨ ∃ d' res, settled d' g w' ∧ ur_duplicate res = false ∧
       update_outcome lease update c res d') w.
Proof.
  intros Hw Hc. unfold record_agent_task_update_with_outcome. wp_step. wp_step.
  wp_use wp_begin; [done| |by left]. intros [] w1 [now Hw1]. wp_step. wp_step.
  wp_use wp_tx_select; [done| |by left]. intros found w2 [-> Hw2].
  pose proof (tx_state_settled _ _ _ _ _ Hw2). wp_step.
  destruct (leased_task lease now c) as [row|] eqn:Hl; simpl.
  2: { wp_step; [simplify_eq|done]. wp_step. wp_step. wp_use wp_rollback; [done| |by left]. intros [] w3 Hw3. wp_step. by left. }
  apply leased_task_Some in Hl as [Hrow Hh]. wp_step; [|by left].
  match goal with Ht : _ = Ok _ |- _ => apply rbind_Ok in Ht as (task & Htask & [= <-]) end.
  destruct (agent_task_from_row_Ok _ _ _ Htask) as (Hid & Hroom & _). wp_step.
  wp_use wp_lock_room; [done| |by left]. intros [] w3 Hw3.
  pose proof (tx_state_settled _ _ _ _ _ Hw3). wp_step. wp_step; [|by left].
  match goal with Hp : normalized_agent_task_update_payload _ _ = Ok ?p |- _ => rename p into payload end.
  wp_step. wp_step. wp_use wp_tx_select; [done| |by left]. intros recorded w4 [-> Hw4].
  rewrite Hid. destruct (agent_task_updates c !! _) as [ids|] eqn:Hu.
  - destruct (ok_updates _ Hc _ _ _ Hu) as (row' & e & Hrow' & Hrefs).
    assert (row' = row) as -> by congruence. wp_step. unfold events_by_id. wp_step.
    wp_use wp_tx_select; [done| |by left]. intros evs w5 [-> Hw5].
    rewrite (select_by_id_refers c Hc (tr_room_id row) ids [e]) by done. wp_step. wp_step.
    wp_use wp_rollback; [done| |by left]. intros [] w6 Hw6. wp_step; wp_step; [by left|].
    exists c. split; [done|]. exists row, task, payload, now. rewrite Hu. split_and!; try done.
    by apply negb_false_iff.
  - wp_step.
    + wp_step. wp_step. wp_use wp_rollback; [done| |by left]. intros [] w5 Hw5. wp_step. by left.
    + wp_use persist_update_spec; [done|done|done|done|by apply negb_false_iff|done|..].
      * intros r w5 (d' & e & Hup & Hs & ->). exists d'. split; [done|].
        exists row, task, payload, now. rewrite Hu. split_and!; try done. by exists e.
      * intros err w5 [?|(d' & e & Hup & Hs)]; [by left|right].
        exists d', {| ur_task_id := ls_task_id lease; ur_events := [e]; ur_duplicate := false |}.
        split_and!; [done..|]. exists row, task, payload, now. rewrite Hu. split_and!; try done.
        by exists e.
Qed.


Lemma holds_lease_dead lease now row :
  tr_lease_owner row ≠ Some (ls_owner_id lease) ∨
  (∀ t, tr_lease_expires_at row = Some t → t ≤ now) →
  holds_lease lease now row = false.
Proof.
  unfold holds_lease. intros [Ho|He].
  - by rewrite bool_decide_false.
  - destruct (tr_lease_expires_at row) as [t|]; [|apply andb_false_r].
    specialize (He t eq_refl). destruct (Z.ltb_spec now t); [lia|]. by rewrite !andb_false_r.
Qed.
End update_theorems.

(** ** Repeating an update *)

Section update_retry.
Context `{UuidCrate, Chrono, Schemas, PostgresLaws, UrlCrate, Oracle}.

Lemma merge_core_float_free core fs merged :
  float_free (Object core) = true → float_free (Object fs) = true →
  merge_core core fs = Ok merged → float_free (Object merged) = true.
Proof.
  revert fs. induction core as [|[k v] core IH]; intros fs Hcore Hfs; simpl merge_core.
  - by intros [= <-].
  - assert (float_free v = true ∧ float_free (Object core) = true) as [Hv Hrest]
      by (simpl in Hcore |- *; by apply andb_true_iff in Hcore).
    pose proof (float_free_insert k v fs Hv Hfs). repeat case_match; intros; simplify_eq; eauto.
Qed.

Lemma task_core_float_free task : float_free (Object (task_core task)) = true.
Proof. unfold task_core. apply (float_free_json_object [_;_;_;_;_]). done. Qed.

Lemma normalized_float_free task v payload :
  float_free v = true → normalized_agent_task_update_payload task v = Ok payload →
  float_free payload = true.
Proof.
  intros Hv. unfold normalized_agent_task_update_payload.
  intros (fs & Hfs%ok_or_Ok & (merged & Hm & [= <-])%rbind_Ok)%rbind_Ok.
  destruct v; try discriminate Hfs. injection Hfs as ->.
  eapply merge_core_float_free; [apply task_core_float_free| |]; eassumption.
Qed.

Lemma updated_matches lease update payload d d' e :
  updated lease update payload d d' e → float_free payload = true →
  PG_EPOCH ≤ up_occurred_at update →
  is_matching_agent_task_update [e] update payload = true.
Proof.
  intros Hup Hff Hat. destruct (upd_event _ _ _ _ _ _ Hup) as (Hty & Hpay & Htime).
  unfold is_matching_agent_task_update. rewrite Hty, Hpay, Htime, String.eqb_refl.
  rewrite pg_json_float_free by done. rewrite bool_decide_true by done. simpl.
  rewrite pg_time_micros by done. apply Z.eqb_refl.
Qed.

(** The columns that decide a repetition are as they were. *)
Lemma updated_row lease update payload d d' e row :
  updated lease update payload d d' e → agent_tasks d !! ls_task_id lease = Some row →
  ∃ row', agent_tasks d' !! ls_task_id lease = Some row' ∧
    tr_lease_owner row' = tr_lease_owner row ∧
    tr_lease_expires_at row' = tr_lease_expires_at row ∧ tr_room_id row' = tr_room_id row ∧
    ∀ task, agent_task_from_row (ls_task_id lease) row = Ok task →
      ∃ task', agent_task_from_row (ls_task_id lease) row' = Ok task' ∧
        task_core task' = task_core task.
Proof.
  intros Hup Hrow. destruct (upd_row _ _ _ _ _ _ Hup) as (row0 & state & Hrow0 & _ & _ & Ht & _).
  assert (row0 = row) as -> by congruence. eexists. split; [rewrite Ht; apply lookup_insert_eq|].
  split_and!; [done..|]. intros task. unfold agent_task_from_row. simpl tr_skill_id.
  intros (skill & -> & (s & _ & [= <-])%rbind_Ok)%rbind_Ok. simpl tr_state.
  rewrite parse_task_state_str. by eexists.
Qed.

Lemma holds_lease_iff lease now row :
  holds_lease lease now row = true ↔
  tr_lease_owner row = Some (ls_owner_id lease) ∧
  tr_lease_expires_at row = Some (pg_time (ls_expires_at lease)) ∧
  now < pg_time (ls_expires_at lease).
Proof.
  unfold holds_lease. rewrite andb_true_iff, bool_decide_eq_true.
  destruct (tr_lease_expires_at row) as [t|]; [|naive_solver].
  rewrite andb_true_iff, Z.eqb_eq, Z.ltb_lt. split; [intros (? & -> & ?)|intros (? & [= ->] & ?)]; done.
Qed.

(** The answer to an update that is already recorded, while the database answers. *)
Lemma record_update_recorded lease update w row task payload ids e :
  (∀ t, outage t = Up) → db_ok (committed w) →
  agent_tasks (committed w) !! ls_task_id lease = Some row →
  (∀ t, holds_lease lease (db_now t) row = true) →
  agent_task_from_row (ls_task_id lease) row = Ok task →
  normalized_agent_task_update_payload task (up_payload update) = Ok payload →
  agent_task_updates (committed w) !! (ls_task_id lease, up_update_id update) = Some ids →
  refers_to (committed w) (tr_room_id row) ids [e] →
  ∃ w', committed w' = committed w ∧ record_agent_task_update_with_outcome lease update w =
    (if is_matching_agent_task_update [e] update payload
     then Ok {| ur_task_id := ls_task_id lease; ur_events := [e]; ur_duplicate := true |}
     else Err ConflictingDuplicate, w').
Proof.
  intros Hup Hok Hrow Hh Htask Hp Hu He.
  destruct (agent_task_from_row_Ok _ _ _ Htask) as (Hid & _).
  unfold record_agent_task_update_with_outcome, events_by_id, lock_room, map_err, mbind, M_bind, lift,
    begin_tx, tx_query, select, advisory_lock, rollback_tx.
  rewrite Hup. cbn -[is_matching_agent_task_update leased_task]. rewrite Hup.
  cbn -[is_matching_agent_task_update leased_task].
  rewrite (proj2 (leased_task_Some lease (db_now (tick w)) (committed w) row)) by done.
  cbn -[is_matching_agent_task_update]. rewrite Htask. cbn -[is_matching_agent_task_update].
  rewrite Hup. cbn -[is_matching_agent_task_update]. rewrite Hp, Hup.
  cbn -[is_matching_agent_task_update]. rewrite Hid, Hu, Hup. cbn -[is_matching_agent_task_update].
  rewrite (select_by_id_refers _ Hok _ ids [e]), Hup by done.
  destruct (is_matching_agent_task_update [e] update payload);
    eexists; (split; [|reflexivity]); done.
Qed.

End update_retry.
