(* ===== verification/System.v ===== *)
(** * The system as a whole

    Every operation that writes to the database, run in any order with any failures: the
    room logs stay gapless and append-only, finished tasks stay finished, and a replay returns
    exactly the events after the client's position. *)

From S2P Require Import Prelude Json Text Crates Types ConversationProtocol ConversationTables Protocol Mentions ActionItems MemoryEngine World Store StoreInvariant ConversationContext Catalog Rooms ConversationStore ConversationTurns ConversationUpdates ConversationInvariant ConversationSteps ConversationClaims ConversationReports ConversationReserve RoomsInvariant RoomTheorems Tasks.
Local Open Scope string_scope.
Local Open Scope list_scope.
Local Open Scope Z_scope.

Section system.
Context `{UuidCrate, !UuidLaws, Chrono, SerdeJson, Sha2, Schemas, Postgres, Unicode, UrlCrate, Timer,
  Oracle}.

(** The operations that write; those on conversations under any policy, and a turn is reserved
    with or without a catalogue. *)
Inductive Operation :=
| OpProcess (actor : Actor) (request : ValidatedRequest)
| OpAppend (event : NewEvent)
| OpStart (requester : Uuid) (name : string) (start : AgentTaskStart)
| OpClaim (claim : Claim) (now : DateTime)
| OpUpdate (lease : AgentTaskLease) (update : AgentTaskUpdate)
| OpReserve (policy : ConversationPolicy) (actor : Actor) (request : Value) (expiry : DateTime)
    (catalog : option CatalogQuery) (frame : ∀ c, catalog = Some c → catalog_frame c) (mediated : bool)
| OpTurnClaim (policy : ConversationPolicy) (owner : string)
| OpTurnPacket (policy : ConversationPolicy) (task lease : Uuid)
| OpTurnUpdate (policy : ConversationPolicy) (task lease : Uuid) (request : Value).

(** The world an operation leaves, whatever it answers. *)
Definition perform (op : Operation) (w : World) : World :=
  match op with
  | OpProcess actor request => (process actor request w).2
  | OpAppend event => (append_event event w).2
  | OpStart requester name start => (start_agent_task requester name start w).2
  | OpClaim claim now => (run_claim claim now w).2
  | OpUpdate lease update => (record_agent_task_update_with_outcome lease update w).2
  | OpReserve policy actor request expiry catalog _ mediated =>
      (reserve_inner policy actor request expiry catalog mediated w).2
  | OpTurnClaim policy owner => (ConversationTurns.claim policy owner w).2
  | OpTurnPacket policy task lease => (packet policy task lease w).2
  | OpTurnUpdate policy task lease request => (record_update policy task lease request w).2
  end.

(** The worlds reached from [w]. *)
Inductive reaches (w : World) : World → Prop :=
| reaches_refl : reaches w w
| reaches_step w1 op : reaches w w1 → reaches w (perform op w1).

(** A task whose row can never change again. *)
Definition finished (row : TaskRow) : Prop :=
  tr_state row = task_state_str Succeeded ∨ tr_state row = task_state_str Failed.

(** What one operation may do to the committed database. *)
Record evolves (d d' : Db) : Prop := {
  ev_ok : db_ok d';
  ev_grows : grows d d';
  ev_finished task row :
    agent_tasks d !! task = Some row → finished row → agent_tasks d' !! task = Some row;
  ev_conversations : conv_ok d → conv_ok d';
  ev_turns : turns_evolve d d';
}.

Lemma evolves_refl d : db_ok d → evolves d d.
Proof. by split. Qed.

(** An operation that leaves the conversation tables alone. *)
Lemma evolves_apart d d' :
  db_ok d' → extends d d' → conversation_tables d' = conversation_tables d →
  (∀ task row, agent_tasks d !! task = Some row → finished row → agent_tasks d' !! task = Some row) →
  evolves d d'.
Proof.
  intros Hok Hx Hc Hf. split; [done|apply Hx|done| |by apply turns_evolve_same].
  by apply conv_ok_extends.
Qed.

Lemma evolves_conv d d' : conv_step d d' → evolves d d'.
Proof.
  intros [Hok Hc Hx Ht _ [Ha _]]. split; [done|apply Hx|by rewrite Ha|done|done].
Qed.

Lemma evolves_trans d1 d2 d3 : evolves d1 d2 → evolves d2 d3 → evolves d1 d3.
Proof.
  intros [_ Hg Hf Hc Ht] [Hok Hg' Hf' Hc' Ht']. split; [done|by etrans|auto|auto|by etrans].
Qed.

Lemma evolves_effect room rid d d' evs : effect room rid d d' evs → evolves d d'.
Proof.
  intros Heff. apply evolves_apart; [apply Heff| |apply Heff|].
  - split; [exists evs; apply Heff|]. by rewrite (ef_requests _ _ _ _ _ Heff).
  - intros task row Hrow _. by apply (ef_tasks_kept _ _ _ _ _ Heff).
Qed.

(** A request record added to what [d] became. *)
Lemma evolves_request d body key row :
  evolves d body → db_ok (with_requests <[key := row]> body) →
  room_requests body = room_requests d → conversation_tables body = conversation_tables d →
  evolves d (with_requests <[key := row]> body).
Proof.
  intros [_ Hg Hf _ _] Hok Hr Hc. apply evolves_apart; [done| |done|done]. split; [done|].
  intros k Hk. simpl. rewrite Hr. rewrite lookup_insert_is_Some. destruct (decide (key = k)); auto.
Qed.

Lemma evolves_applied K room rid fp d d' evs : applied_with K room rid fp d d' evs → evolves d d'.
Proof.
  intros (body & Heff & _ & Hnew & Hok & -> & _).
  apply (evolves_request d body); [by eapply evolves_effect|done|apply Heff|apply Heff].
Qed.

Lemma claimable_not_finished now row : claimable now row = true → ¬ finished row.
Proof.
  unfold claimable, finished. rewrite andb_true_iff, bool_decide_eq_true. intros [Hin _] [Hf|Hf];
    rewrite Hf in Hin; simpl in Hin; repeat (apply elem_of_cons in Hin as [?|Hin]; [done|]);
    by apply elem_of_nil in Hin.
Qed.

Lemma evolves_claim now d d' lease : db_ok d' → claims_one now d d' lease → evolves d d'.
Proof.
  intros Hok [[_ ->]|(task & owner & row & state & _ & Hrow & Hcl & ->)]; [by apply evolves_refl|].
  apply evolves_apart; [done|split; [exists []; by rewrite app_nil_r|done]|done|].
  intros task' row' Hrow' Hf. simpl. rewrite lookup_insert_ne; [done|]. intros <-. assert (row' = row) as -> by congruence.
  by apply claimable_not_finished in Hcl.
Qed.

Lemma open_not_finished row s : is_open s = true → tr_state row = task_state_str s → ¬ finished row.
Proof. unfold finished. intros Ho ->. destruct s; simpl; intros [|]; done. Qed.

Lemma evolves_update lease update payload d d' e :
  updated lease update payload d d' e → evolves d d'.
Proof.
  intros Hup. destruct (upd_rest _ _ _ _ _ _ Hup) as [_ Hr].
  apply evolves_apart; [apply Hup|split; [exists [e]; apply Hup|by rewrite Hr]|apply Hup|]. intros task row Hrow Hf.
  destruct (upd_row _ _ _ _ _ _ Hup) as (row0 & state & Hrow0 & (s & Ho & Hs) & _ & -> & _).
  rewrite lookup_insert_ne; [done|]. intros <-. assert (row0 = row) as -> by congruence.
  by eapply open_not_finished.
Qed.

Lemma evolves_outcome lease update c res d' :
  db_ok c → update_outcome lease update c res d' → evolves c d'.
Proof.
  intros Hok (row & task & payload & now & _ & _ & _ & _ & _ & Hcase).
  destruct (agent_task_updates _ !! _).
  - destruct Hcase as (_ & -> & _). by apply evolves_refl.
  - destruct Hcase as (_ & e & _ & Hup). by eapply evolves_update.
Qed.

(** [evolved c w]: the world has a database [c] may evolve to. *)
Definition evolved (c : Db) (w : World) : Prop := evolves c (committed w).

Lemma settled_evolved c g w : db_ok c → settled c g w → evolved c w.
Proof. intros Hok [Hc _]. unfold evolved. rewrite Hc. by apply evolves_refl. Qed.

Lemma settled_evolves c d g w : evolves c d → settled d g w → evolved c w.
Proof. intros Hev [Hc _]. unfold evolved. by rewrite Hc. Qed.

Lemma append_event_evolves event c g w :
  settled c g w → db_ok c →
  wp (append_event event) (λ _, evolved c) (λ _, evolved c) w.
Proof.
  intros Hw Hc. pose proof (λ w, settled_evolved c g w Hc) as Hquiet.
  unfold append_event. wp_step. wp_step.
  wp_use wp_begin; [done| |naive_solver]. intros [] w1 [now Hw1]. wp_step.
  wp_use wp_lock_room; [done| |naive_solver]. intros [] w2 Hw2. wp_step.
  wp_use wp_append; [done|done| |naive_solver]. intros row w3 (id & _ & -> & Hok & Hw3).
  assert (evolves c (add_row (next_row c id event) c)) as Hev
    by (by eapply evolves_effect, (effect_add_row _ _ Hok)).
  wp_step. wp_step. wp_use wp_commit; [done| |].
  - intros [] w4 Hw4. wp_step. by eapply settled_evolves.
  - intros e w4 [?|?]; [by apply Hquiet|by eapply settled_evolves].
Qed.

Lemma start_agent_task_evolves requester name start c g w :
  settled c g w → db_ok c →
  wp (start_agent_task requester name start) (λ _, evolved c) (λ _, evolved c) w.
Proof.
  intros Hw Hc. pose proof (λ w, settled_evolved c g w Hc) as Hquiet.
  unfold start_agent_task. wp_step. wp_step.
  wp_use wp_begin; [done| |naive_solver]. intros [] w1 [now Hw1]. wp_step.
  destruct (room_requests c !! (ts_room_id start, ts_request_id start)) as [row|] eqn:Hrow.
  - eapply wp_mono with (Q := λ _ w', tx_state c g now c w') (F := λ _, settled c g); [|..].
    + unfold start_agent_task_in_transaction. wp_step.
      wp_use wp_lock_room; [done| |done]. intros [] w2 Hw2. wp_step.
      wp_use wp_prior_request; [done|done| |done]. intros prior w3 [Hw3 Hp]. rewrite Hrow in Hp.
      destruct Hp as (evs & _ & ->). wp_step; [wp_step; by eapply tx_state_settled|].
      wp_step. wp_step. wp_use wp_tx_query; [done| |done]. intros task w4 (d4 & Hq & Hw4).
      unfold fetch_task_of_request in Hq. case_match; simplify_eq. by wp_step.
    + intros r w2 Hw2. wp_step. wp_step. wp_use wp_commit; [done| |].
      * intros [] w3 Hw3. wp_step. by apply Hquiet.
      * intros e w3 [?|?]; by apply Hquiet.
    + intros e w2 ?. by apply Hquiet.
  - wp_use wp_start_new; [done|done|done| |naive_solver].
    intros r w2 (d' & e & _ & [Hw2 Hok2] & Heff & _). wp_step. wp_step.
    match type of Hw2 with tx_state _ _ _ ?d2 _ => assert (evolves c d2) as Hev end.
    { apply (evolves_request c d'); [by eapply evolves_effect|done|apply Heff|apply Heff]. }
    wp_use wp_commit; [done| |].
    + intros [] w3 Hw3. wp_step. by eapply settled_evolves.
    + intros err w3 [?|?]; [by apply Hquiet|by eapply settled_evolves].
Qed.

Lemma wp_run {E A} (m : M World E A) (P : World → Prop) w :
  wp m (λ _, P) (λ _, P) w → P (m w).2.
Proof. unfold wp. by destruct (m w) as [[]]. Qed.

(** The invariants of the whole database. *)
Definition store_ok (d : Db) : Prop := db_ok d ∧ conv_ok d.

Lemma empty_store_ok : store_ok empty_db.
Proof. split; [apply empty_db_ok|apply empty_conv_ok]. Qed.

Lemma stepped_evolved c g w : stepped c g w → evolved c w.
Proof. intros (d & [Hd _] & Hst). unfold evolved. rewrite Hd. by apply evolves_conv. Qed.

Lemma perform_evolves op w :
  store_ok (committed w) → evolves (committed w) (committed (perform op w)).
Proof.
  intros [Hok Hconv]. destruct op as [actor request|event|requester name start|claim now|lease update
    |policy actor request expiry catalog frame mediated|policy owner|policy task lease
    |policy task lease request]; simpl.
  - destruct (process actor request w) as [r w'] eqn:Hp. simpl.
    destruct (process_changed _ _ _ _ _ _ Hok (ensures_True _ _ _ _) Hp)
      as [->|(room & rid & fp & evs & _ & _ & _ & Happ & _)].
    + by apply evolves_refl.
    + by eapply evolves_applied.
  - by apply (wp_run _ (evolved _)), (append_event_evolves _ _ (gateway w)).
  - by apply (wp_run _ (evolved _)), (start_agent_task_evolves _ _ _ _ (gateway w)).
  - apply (wp_run _ (evolved _)). wp_use (run_claim_spec _ _ _ (gateway w)); [done|done|..].
    + intros lease w' (d' & [Hc _] & Hok' & Hone). unfold evolved. rewrite Hc. by eapply evolves_claim.
    + intros e w' [?|(d' & lease & [Hc _] & Hok' & Hone)]; [by eapply settled_evolved|].
      unfold evolved. rewrite Hc. by eapply evolves_claim.
  - apply (wp_run _ (evolved _)). wp_use (record_update_spec _ _ _ (gateway w)); [done|done|..].
    + intros res w' (d' & [Hc _] & Hout). unfold evolved. rewrite Hc. by eapply evolves_outcome.
    + intros e w' [?|(d' & res & [Hc _] & _ & Hout)]; [by eapply settled_evolved|].
      unfold evolved. rewrite Hc. by eapply evolves_outcome.
  - apply (wp_run _ (evolved _)).
    wp_use (reserve_inner_spec _ _ _ _ _ _ (committed w) (gateway w)); [exact frame|done|done|done|..].
    + intros o w' (d & g' & _ & [Hd _] & Hst & _). unfold evolved. rewrite Hd. by apply evolves_conv.
    + intros e w' (d & g' & _ & [Hd _] & Hst). unfold evolved. rewrite Hd. by apply evolves_conv.
  - apply (wp_run _ (evolved _)). wp_use (turn_claim_spec _ _ (committed w) (gateway w)); [done..| |].
    + intros r w' (d & Hd & Hst & _). apply (stepped_evolved _ (gateway w)). by exists d.
    + intros e w' ?. by eapply stepped_evolved.
  - apply (wp_run _ (evolved _)). wp_use (packet_steps _ _ _ (committed w) (gateway w)); [done..| |].
    + intros v w' ?. by eapply settled_evolved.
    + intros e w' ?. by eapply stepped_evolved.
  - apply (wp_run _ (evolved _)). wp_use (conversation_update_spec _ _ _ _ (committed w) (gateway w)); [done..| |].
    + intros o w' (d & Hd & Hst & _). apply (stepped_evolved _ (gateway w)). by exists d.
    + intros e w' ?. by eapply stepped_evolved.
Qed.

Lemma evolves_store_ok d d' : conv_ok d → evolves d d' → store_ok d'.
Proof. intros Hc Hev. split; apply Hev; done. Qed.

Lemma reaches_evolves w w' :
  store_ok (committed w) → reaches w w' → evolves (committed w) (committed w').
Proof.
  intros [Hok Hc]. induction 1 as [|w1 op Hr IH]; [by apply evolves_refl|].
  eapply evolves_trans; [done|]. by eapply perform_evolves, evolves_store_ok.
Qed.

(** C6: In every state the system can reach from an empty database, through any operations in
    any order and with any failures, the events of each room are numbered 1, 2, 3, .. without a
    gap or a repetition, in the order they were appended, and no two events of the whole
    database share an identifier. *)
Theorem room_logs_gapless w w' room :
  committed w = empty_db → reaches w w' →
  ev_sequence <$> room_log room (committed w') =
    seqZ 1 (Z.of_nat (length (room_log room (committed w')))) ∧
  NoDup (ev_event_id <$> room_events (committed w')).
Proof.
  intros Hempty Hr. assert (store_ok (committed w)) as Hok by (rewrite Hempty; apply empty_store_ok).
  pose proof (ev_ok _ _ (reaches_evolves _ _ Hok Hr)) as Hok'. split; apply Hok'.
Qed.

(** C12: History is never rewritten: whatever the system does, each room's log keeps every
    event it had, unchanged and in its place, and new events come after them. *)
Theorem room_logs_append_only w w' room :
  store_ok (committed w) → reaches w w' →
  room_log room (committed w) `prefix_of` room_log room (committed w').
Proof.
  intros Hok Hr. pose proof (ev_grows _ _ (reaches_evolves _ _ Hok Hr)) as Hg.
  destruct (room_log_grows room _ _ Hg) as [new Hnew]. by exists new.
Qed.

(** C25: A task that has succeeded or failed is final: no claim, update, retry or any other
    operation changes its row again. *)
Theorem finished_task_final w w' task row :
  store_ok (committed w) → reaches w w' →
  agent_tasks (committed w) !! task = Some row → finished row →
  agent_tasks (committed w') !! task = Some row.
Proof. intros Hok Hr. by apply (reaches_evolves _ _ Hok Hr). Qed.

(** A replay is exact: while the database answers, asking for the events of a room after a
    sequence number returns all events of the room but the first so many, in order, once each;
    a client that holds the first [n] events and asks for those after [n] ends with the whole
    log. *)
Theorem events_after_exact room after w :
  db_ok (committed w) → outage (tick w) = Up →
  ∃ w', events_after room after w =
    (Ok (drop (Z.to_nat after) (room_log room (committed w))), w') ∧
    committed w' = committed w ∧
    take (Z.to_nat after) (room_log room (committed w)) ++
      drop (Z.to_nat after) (room_log room (committed w)) = room_log room (committed w).
Proof.
  intros Hok Hup. unfold events_after, map_err, pool_query, select. rewrite Hup.
  rewrite (select_after _ Hok). eexists. split_and!; [reflexivity|done|apply take_drop].
Qed.
End system.
