(* ===== verification/ConversationTheorems.v ===== *)
(** * Properties of conversations

    What the conversation store promises over any run of the whole system: one turn at a time in a
    room, a history that is kept, claims that drain the queue, and requests that may be repeated;
    and what a frozen context discloses. *)

From S2P Require Import Prelude Json Text Crates Types ConversationProtocol ConversationTables Protocol Mentions ActionItems MemoryEngine World Store StoreInvariant ConversationContext Catalog Rooms ConversationStore ConversationTurns ConversationUpdates ConversationInvariant ConversationSteps ConversationClaims ConversationReports ConversationReserve RoomsInvariant RoomTheorems Tasks System.
Local Open Scope string_scope.
Local Open Scope list_scope.
Local Open Scope Z_scope.

Section runs.
Context `{UuidCrate, !UuidLaws, Chrono, SerdeJson, Sha2, Schemas, Postgres, Unicode, UrlCrate, Timer,
  Oracle}.

(** ** One turn at a time *)

Lemma in_flight_unique d t1 r1 t2 r2 :
  conv_ok d → turns_of d !! t1 = Some r1 → turns_of d !! t2 = Some r2 →
  in_flight (tn_state r1) = true → in_flight (tn_state r2) = true →
  tn_room_id (tn_turn r1) = tn_room_id (tn_turn r2) → t1 = t2.
Proof.
  intros [Hk Hl] Ht1 Ht2 Hf1 Hf2 Hroom.
  destruct (lo_turn _ Hl _ _ Ht1) as (c1 & Hc1 & (Hr1 & _) & Ha1).
  destruct (lo_turn _ Hl _ _ Ht2) as (c2 & Hc2 & (Hr2 & _) & Ha2).
  destruct (Ha1 Hf1) as [Ha1' Hs1], (Ha2 Hf2) as [Ha2' Hs2].
  assert (tn_conversation_id (tn_turn r1) = tn_conversation_id (tn_turn r2)) as Heq.
  { eapply (ko_current _ Hk); [done|done|congruence|by rewrite Hs1; destruct (tn_state r1)|].
    by rewrite Hs2; destruct (tn_state r2). }
  rewrite Heq in Hc1. assert (c1 = c2) as -> by congruence. congruence.
Qed.

(** C7: in every state the system can reach from an empty database, a room has at most one turn
    that waits or runs, and it is the active turn of the one conversation of the room that is not
    superseded; a turn that runs has a lease, and a completed one has its reply in the room. *)
Theorem one_turn_in_flight w w' room :
  committed w = empty_db → reaches w w' →
  let d := committed w' in
  (∀ t1 r1 t2 r2, turns_of d !! t1 = Some r1 → turns_of d !! t2 = Some r2 →
     in_flight (tn_state r1) = true → in_flight (tn_state r2) = true →
     tn_room_id (tn_turn r1) = room → tn_room_id (tn_turn r2) = room → t1 = t2) ∧
  (∀ task row, turns_of d !! task = Some row → tn_room_id (tn_turn row) = room →
     lease_ok row ∧ reply_ok d row ∧
     (in_flight (tn_state row) = true → ∃ c,
        conversations_of d !! tn_conversation_id (tn_turn row) = Some c ∧
        cv_active_task_id c = Some task ∧ cv_state c ≠ CvSuperseded)).
Proof.
  intros Hempty Hr d. assert (store_ok (committed w)) as Hok by (rewrite Hempty; apply empty_store_ok).
  assert (conv_ok d) as Hc by (by apply (ev_conversations _ _ (reaches_evolves _ _ Hok Hr)), Hok). split.
  - intros. eapply in_flight_unique; [exact Hc|done..|congruence].
  - intros task row Hrow _. destruct Hc as [_ [Ht _ Hl _ Hreply _]].
    split_and!; [by eapply Hl|by eapply Hreply|]. intros Hf. destruct (Ht _ _ Hrow) as (c & Hc & _ & Ha).
    exists c. destruct (Ha Hf) as [? Hs]. split_and!; [done..|]. rewrite Hs. by destruct (tn_state row).
Qed.

(** C23: a turn is never lost or rewritten. Whatever the system does, a reserved turn keeps the
    input, context and authorisation it was reserved with; once leased, its token, owner and expiry
    stand for good, so no two workers ever hold it; it never goes back from running to waiting; a
    finished turn does not change at all; its ordinal never falls; and the answer given to an
    update stays on record. *)
Theorem turn_history_kept w w' :
  store_ok (committed w) → reaches w w' → turns_evolve (committed w) (committed w').
Proof. intros Hok Hr. apply (reaches_evolves _ _ Hok Hr). Qed.

(** ** Claims *)


(** ** Updates *)


(** The answer on record after a successful update. *)
Lemma update_answer_record task lease request d d' o :
  update_answer task lease request d d' o → ∃ uid q,
  uuid_field request "updateId" = Ok uid ∧ requests_of d' !! (task, uid) = Some q ∧
  (uq_response q = uo_response o ∨ uq_response q = pg_json (uo_response o)).
Proof.
  intros (view & uid & Hview & _ & Huid & Hans). exists uid.
  destruct (requests_of d !! (task, uid)) as [prior|] eqn:Hq.
  - destruct Hans as (-> & _ & ->). exists prior. by auto.
  - destruct Hans as (_ & [_ (kind & ordinal & evs & row & c & at_ & _ & _ & _ & _ & _ & Hat)]).
    apply joined_task_Some in Hview as [<- _]. rewrite (ta_requests _ _ _ _ _ _ _ Hat), lookup_insert_eq.
    eexists. split_and!; [done..|]. by right.
Qed.

(** C36: an update may be sent again at any later time. Once it was accepted, a repetition that is
    answered at all, after anything else has happened, gets the answer on record and changes and
    publishes nothing. *)
Theorem turn_update_retry policy policy' task lease request w o w1 w2 o' w' :
  store_ok (committed w) → record_update policy task lease request w = (Ok o, w1) →
  reaches w1 w2 → record_update policy' task lease request w2 = (Ok o', w') →
  committed w' = committed w2 ∧ uo_event o' = None ∧
  (uo_response o' = uo_response o ∨ uo_response o' = pg_json (uo_response o)).
Proof.
  intros [Hok Hc] Hfirst Hr Hagain.
  pose proof (conversation_update_spec policy task lease request (committed w) (gateway w) w) as Hspec.
  unfold wp in Hspec. rewrite Hfirst in Hspec. destruct Hspec as (d & [<- _] & Hst & Hans); [done..|].
  destruct (update_answer_record _ _ _ _ _ _ Hans) as (uid & q & Huid & Hq & Hresp).
  assert (store_ok (committed w1)) as Hok1 by (split; apply Hst).
  pose proof (reaches_evolves _ _ Hok1 Hr) as Hev. apply (proj2 (ev_turns _ _ Hev)) in Hq.
  assert (store_ok (committed w2)) as [Hok2 Hc2] by (eapply evolves_store_ok; [apply Hok1|done]).
  pose proof (conversation_update_spec policy' task lease request (committed w2) (gateway w2) w2) as Hspec2.
  unfold wp in Hspec2. rewrite Hagain in Hspec2. destruct Hspec2 as (d2 & [<- _] & _ & Hans2); [done..|].
  destruct Hans2 as (view & uid' & _ & _ & Huid' & Hans2). assert (uid' = uid) as -> by congruence.
  rewrite Hq in Hans2. destruct Hans2 as (-> & _ & ->). done.
Qed.

(** ** Reservations *)


(** The turn of a request is the one its record answers with. *)
Lemma accepted_turn_Some room rid requester d task row :
  keys_ok (conversation_tables d) → turns_of d !! task = Some row → tn_room_id (tn_turn row) = room →
  tn_request_id (tn_turn row) = rid → tn_requester_id (tn_turn row) = requester →
  accepted_turn room rid requester d = Some (tn_accepted_turn (tn_turn row)).
Proof.
  intros Hk Hrow <- <- <-. unfold accepted_turn. set (p := λ kv : Uuid * TurnRow, bool_decide _).
  assert ((task, row) ∈ List.filter p (map_to_list (turns_of d))) as Hin.
  { apply list_elem_of_In, filter_In. split; [by apply list_elem_of_In, elem_of_map_to_list|].
    by apply bool_decide_eq_true. }
  destruct (List.filter p _) as [|[t r] rest] eqn:Hfl; [by apply elem_of_nil in Hin|]. simpl. f_equal.
  assert ((t, r) ∈ List.filter p (map_to_list (turns_of d))) as Htr by (rewrite Hfl; by left).
  apply list_elem_of_In, filter_In in Htr as [Htr Hp]. apply list_elem_of_In, elem_of_map_to_list in Htr.
  apply bool_decide_eq_true in Hp as (Hr & Hq & _). simpl in Hr, Hq.
  assert (t = task) as -> by (by eapply (ko_request _ Hk)). congruence.
Qed.

Lemma accepted_turn_inv room rid requester d v :
  accepted_turn room rid requester d = Some v → ∃ task row,
  turns_of d !! task = Some row ∧ tn_room_id (tn_turn row) = room ∧
  tn_request_id (tn_turn row) = rid ∧ tn_requester_id (tn_turn row) = requester ∧
  tn_accepted_turn (tn_turn row) = v.
Proof.
  unfold accepted_turn. set (p := λ kv : Uuid * TurnRow, bool_decide _).
  destruct (List.filter p _) as [|[t r] rest] eqn:Hfl; [done|]. intros [= <-].
  assert ((t, r) ∈ List.filter p (map_to_list (turns_of d))) as Htr by (rewrite Hfl; by left).
  apply list_elem_of_In, filter_In in Htr as [Htr Hp]. apply list_elem_of_In, elem_of_map_to_list in Htr.
  apply bool_decide_eq_true in Hp as (Hr & Hq & Hu). by exists t, r.
Qed.

(** The turn a successful reservation stands for. *)
Lemma reserve_answer_turn policy actor request d d' o :
  reserve_answer policy actor request d d' o → ∃ room rid task row,
  uuid_field request "roomId" = Ok room ∧ uuid_field request "requestId" = Ok rid ∧
  turns_of d' !! task = Some row ∧ tn_room_id (tn_turn row) = room ∧ tn_request_id (tn_turn row) = rid ∧
  tn_requester_id (tn_turn row) = actor_id actor ∧
  (tn_accepted_turn (tn_turn row) = cr_accepted o ∨ tn_accepted_turn (tn_turn row) = pg_json (cr_accepted o)).
Proof.
  intros (room & rid & Hroom & Hrid & Hans). destruct (room_requests d !! (room, rid)).
  - destruct Hans as (-> & _ & Hacc & _). apply accepted_turn_inv in Hacc as (task & row & ? & ? & ? & ? & ?).
    exists room, rid, task, row. split_and!; auto.
  - destruct (rv_turn _ _ _ _ _ _ _ _ Hans) as (id & at_ & task & cv & gen & base & ctx & st & auth & now & tok &
      _ & _ & _ & _ & _ & _ & _ & _ & _ & Hts & _ & ->).
    eexists room, rid, task, _. rewrite Hts, lookup_insert_eq. split_and!; [done..|]. by right.
Qed.

(** C37: a turn may be requested again at any later time. Once a request was answered, the same
    request of the same actor, whatever happened in between and under whatever policy and
    catalogue, gets the turn on record if it is answered, and changes and publishes nothing. *)
Theorem reserve_retry policy policy' actor request expiry expiry' catalog catalog' mediated mediated'
    w o w1 w2 o' w' :
  (∀ c, catalog = Some c → catalog_frame c) → (∀ c, catalog' = Some c → catalog_frame c) →
  store_ok (committed w) →
  reserve_inner policy actor request expiry catalog mediated w = (Ok o, w1) → reaches w1 w2 →
  reserve_inner policy' actor request expiry' catalog' mediated' w2 = (Ok o', w') →
  committed w' = committed w2 ∧ cr_prompt o' = None ∧
  (cr_accepted o' = cr_accepted o ∨ cr_accepted o' = pg_json (cr_accepted o)).
Proof.
  intros Hf Hf' [Hok Hc] Hfirst Hr Hagain.
  pose proof (reserve_inner_spec policy actor request expiry catalog mediated (committed w) (gateway w) w) as Hspec.
  unfold wp in Hspec. rewrite Hfirst in Hspec. destruct Hspec as (d & g & _ & [<- _] & Hst & _ & _ & Hans); [done..|].
  destruct (reserve_answer_turn _ _ _ _ _ _ Hans) as (room & rid & task & row & Hroom & Hrid & Hrow & H1' & H2' & H3' & Hacc).
  assert (store_ok (committed w1)) as Hok1 by (split; apply Hst).
  pose proof (reaches_evolves _ _ Hok1 Hr) as Hev.
  destruct (proj1 (ev_turns _ _ Hev) _ _ Hrow) as (row2 & Hrow2 & (Ht & _)).
  assert (store_ok (committed w2)) as [Hok2 Hc2] by (eapply evolves_store_ok; [apply Hok1|done]).
  pose proof (reserve_inner_spec policy' actor request expiry' catalog' mediated' (committed w2) (gateway w2) w2) as Hspec2.
  unfold wp in Hspec2. rewrite Hagain in Hspec2. destruct Hspec2 as (d2 & g2 & _ & [<- _] & _ & _ & _ & Hans2); [done..|].
  destruct Hans2 as (room' & rid' & Hroom' & Hrid' & Hans2).
  assert (room' = room) as -> by congruence. assert (rid' = rid) as -> by congruence.
  destruct (lo_trigger _ (co_links _ Hc2) _ _ Hrow2) as [_ [rq Hrq]]. rewrite Ht, H1', H2' in Hrq.
  rewrite Hrq in Hans2. destruct Hans2 as (Hsame & _ & Hacc2 & Hp). split_and!; [done..|].
  rewrite (accepted_turn_Some room rid (actor_id actor) _ task row2) in Hacc2; rewrite ?Ht; try done; [|apply Hc2].
  rewrite Ht in Hacc2. injection Hacc2 as <-. done.
Qed.
End runs.

(** ** What a context discloses *)

Section disclosure.
Context `{UuidCrate, Chrono, SerdeJson, Sha2, Schemas, Postgres, Oracle}.

(** A public message of the room in the window of the context. *)
Definition in_window (room : Uuid) (base revision : Z) (d : Db) (e : RoomEvent) : Prop :=
  e ∈ room_events d ∧ ev_room_id e = room ∧ base < ev_sequence e ≤ revision ∧
  ev_event_type e = "message.created" ∧ is_public e = true.

(** An item of the context, an entry or a reply of the agent, stands for such a message. *)
Definition stands_for_message (room : Uuid) (base revision : Z) (d : Db) (item : Value) : Prop :=
  ∃ e, in_window room base revision d e ∧ index item "eventId" = json_uuid (ev_event_id e) ∧
    (index item "text" = Null ∨ ∃ text, member_text (ev_payload e) "text" = Some text ∧ index item "text" = Str text).

(** A decision that is in force in the room and rests on public messages only. *)
Definition public_decision (room : Uuid) (revision : Z) (d : Db) (v : Value) : Prop :=
  ∃ id row, decisions d !! id = Some row ∧ dc_room_id row = room ∧ dc_status row = "active" ∧
    v = json_decision (id, row) ∧
    ∀ source, source ∈ dc_source_event_ids row → ∃ e, e ∈ room_events d ∧ ev_event_id e = source ∧
      ev_room_id e = room ∧ ev_sequence e ≤ revision ∧ is_public e = true.

Lemma select_events_elem p d e : e ∈ select_events p d ↔ e ∈ room_events d ∧ p e = true.
Proof.
  unfold select_events. by rewrite merge_sort_Permutation, list_elem_of_In, filter_In, <-list_elem_of_In.
Qed.

Lemma context_events_elem room base revision d e :
  e ∈ context_events room base revision d ↔ in_window room base revision d e.
Proof.
  unfold context_events, in_window. rewrite select_events_elem. rewrite !andb_true_iff, String.eqb_eq.
  unfold in_room. rewrite bool_decide_eq_true, Z.ltb_lt, Z.leb_le. tauto.
Qed.

Lemma join_reply_fst conversation generation d e row :
  row ∈ join_reply conversation generation d e → row.1 = e.
Proof.
  unfold join_reply. destruct (List.filter _ _) as [|t ts].
  - by intros ->%list_elem_of_singleton.
  - intros (x & -> & _)%list_elem_of_fmap. done.
Qed.

Lemma join_reply_nonempty conversation generation d e :
  ∃ row, row ∈ join_reply conversation generation d e.
Proof. unfold join_reply. destruct (List.filter _ _); eexists; by left. Qed.

Lemma context_rows_elem room conversation generation base revision d row :
  row ∈ context_rows room conversation generation base revision d →
  in_window room base revision d row.1.
Proof.
  unfold context_rows. rewrite list_elem_of_In, in_flat_map. intros (e & He & Hrow).
  apply list_elem_of_In in He, Hrow. apply join_reply_fst in Hrow as ->. by apply context_events_elem.
Qed.

Lemma context_rows_covers room conversation generation base revision d e :
  in_window room base revision d e →
  ∃ row, row ∈ context_rows room conversation generation base revision d ∧ row.1 = e.
Proof.
  intros He. destruct (join_reply_nonempty conversation generation d e) as [row Hrow]. exists row.
  split; [|by eapply join_reply_fst]. unfold context_rows. apply list_elem_of_In, in_flat_map. exists e.
  split; apply list_elem_of_In; [by apply context_events_elem|done].
Qed.

(** The value of a record, on either side. *)
Definition item (r : Value + Value) : Value := match r with inl v | inr v => v end.

Lemma context_record_item conversation generation base row r :
  context_record conversation generation base row = Ok r →
  index (item r) "eventId" = json_uuid (ev_event_id row.1) ∧
  (index (item r) "text" = Null ∨
   ∃ text, member_text (ev_payload row.1) "text" = Some text ∧ index (item r) "text" = Str text).
Proof.
  unfold context_record. intros (text & Ht%ok_or_Ok & Hr)%rbind_Ok. apply rbind_Ok in Hr as (u & _ & Hr).
  destruct (native_reply base row) as [[[task turn] ack]|].
  - apply rbind_Ok in Hr as (? & _ & Hr). apply rbind_Ok in Hr as (? & _ & Hr).
    apply rbind_Ok in Hr as (? & _ & [= <-]). split; [done|by left].
  - injection Hr as <-. simpl. destruct (ev_actor_display_name row.1) as [name|]; simpl.
    + split; [by json_get|]. right. exists text. split; [done|by json_get].
    + split; [by json_get|]. right. exists text. split; [done|by json_get].
Qed.

Lemma elem_of_sides r l : r ∈ l ↔ match r with inl v => v ∈ lefts l | inr v => v ∈ rights l end.
Proof.
  destruct r as [v|v]; unfold lefts, rights; rewrite list_elem_of_omap; split.
  - intros Hin. by exists (inl v).
  - intros ([x|x] & Hin & [= <-]). done.
  - intros Hin. by exists (inr v).
  - intros ([x|x] & Hin & [= <-]). done.
Qed.

Lemma sides_items v l : v ∈ lefts l ++ rights l ↔ ∃ r, r ∈ l ∧ item r = v.
Proof.
  rewrite elem_of_app. split.
  - intros [Hin|Hin]; [exists (inl v)|exists (inr v)]; (split; [|done]); by apply elem_of_sides.
  - intros ([x|x] & Hin & <-); apply elem_of_sides in Hin; auto.
Qed.

Lemma disclosable_elem room revision d id row :
  (id, row) ∈ disclosable_decisions room revision d → public_decision room revision d (json_decision (id, row)).
Proof.
  unfold disclosable_decisions. rewrite merge_sort_Permutation, list_elem_of_In, filter_In, <-list_elem_of_In.
  intros [Hin Hp]. apply elem_of_map_to_list in Hin. rewrite !andb_true_iff, bool_decide_eq_true, String.eqb_eq in Hp.
  destruct Hp as [[Hr Hs] Hall]. exists id, row. split_and!; [done..|]. intros source Hsrc.
  rewrite forallb_elem_of in Hall. apply Hall in Hsrc. unfold public_source in Hsrc.
  apply list_find_exists in Hsrc as (e & He & Hp). unfold in_room in Hp.
  rewrite !andb_true_iff, !bool_decide_eq_true, Z.leb_le in Hp. exists e. naive_solver.
Qed.

(** What [freeze_in] puts into the members of a context. *)
Lemma freeze_in_Ok room conversation generation base revision policy d v :
  freeze_in room conversation generation base revision policy d = Ok v → ∃ records,
  let rows := context_rows room conversation generation base revision d in
  collect (context_record conversation generation base) rows = Ok records ∧
  Z.of_nat (length rows) ≤ cp_max_records policy ∧ is_Some (as_object v) ∧
  array_of v "entries" = lefts records ∧ array_of v "nativeReplyBindings" = rights records ∧
  array_of v "activeDecisions" = json_decision <$> disclosable_decisions room revision d.
Proof.
  unfold freeze_in. cbv zeta. intros ([] & _ & Hv)%rbind_Ok. apply rbind_Ok in Hv as ([] & Hmax%reject_if_Ok & Hv).
  apply rbind_Ok in Hv as (records & Hrec & Hv). apply rbind_Ok in Hv as ([] & _ & [= <-]).
  exists records. apply orb_false_iff in Hmax as [Hmax _]. split_and!; [done|lia|by eexists|..];
    unfold array_of; by json_get.
Qed.

Lemma collect_elem {E A B} (f : A → result E B) l bs b :
  collect f l = Ok bs → b ∈ bs → ∃ a, a ∈ l ∧ f a = Ok b.
Proof.
  rewrite collect_Forall2. intros Hall. induction Hall; [by intros ?%elem_of_nil|]. set_solver.
Qed.

Lemma collect_elem_inv {E A B} (f : A → result E B) l bs a :
  collect f l = Ok bs → a ∈ l → ∃ b, b ∈ bs ∧ f a = Ok b.
Proof.
  rewrite collect_Forall2. intros Hall. induction Hall; [by intros ?%elem_of_nil|]. set_solver.
Qed.

(** What the context of a turn may hold. *)
Record discloses_public (room base_trigger : Uuid) (base : Z) (policy : ConversationPolicy) (d : Db)
    (revision : Z) (v : Value) : Prop := {
  dp_trigger : trigger_revision room base_trigger d = Some revision ∧ base < revision;
  dp_messages x :
    x ∈ array_of v "entries" ++ array_of v "nativeReplyBindings" → stands_for_message room base revision d x;
  dp_complete e :
    in_window room base revision d e → ∃ x,
    x ∈ array_of v "entries" ++ array_of v "nativeReplyBindings" ∧
    index x "eventId" = json_uuid (ev_event_id e);
  dp_decisions x : x ∈ array_of v "activeDecisions" → public_decision room revision d x;
  dp_bound : Z.of_nat (length (array_of v "entries" ++ array_of v "nativeReplyBindings")) ≤ cp_max_records policy;
}.

Lemma sides_length l : length (lefts l ++ rights l) = length l.
Proof.
  rewrite length_app. unfold lefts, rights. induction l as [|[v|v] l IH]; csimpl; [done|lia|lia].
Qed.

Lemma array_of_set v k x j : is_Some (as_object v) → k ≠ j → array_of (set_member v k x) j = array_of v j.
Proof.
  intros [fs Hfs] Hne. destruct v; try done. unfold array_of, index. simpl. by rewrite obj_get_insert_ne by congruence.
Qed.

Lemma build_in_discloses room conversation generation base trigger policy d v :
  build_in room conversation generation base trigger policy d = Ok v →
  ∃ revision, discloses_public room trigger base policy d revision v.
Proof.
  unfold build_in. intros (revision & Hrev%ok_or_Ok & Hv)%rbind_Ok. exists revision.
  apply rbind_Ok in Hv as ([] & Hguard%reject_if_Ok & Hv). apply rbind_Ok in Hv as (context & Hctx & Hv).
  apply rbind_Ok in Hv as (bytes & _ & Hv). apply rbind_Ok in Hv as ([] & _ & [= <-]).
  destruct (freeze_in_Ok _ _ _ _ _ _ _ _ Hctx) as (records & Hrec & Hmax & Hobj & He & Hb & Ha).
  rewrite !orb_false_iff in Hguard. destruct Hguard as ((((_ & Hlt) & _) & _) & _).
  split; rewrite ?array_of_set, ?He, ?Hb, ?Ha by done.
  - split; [done|lia].
  - intros x (r & Hr & <-)%sides_items. destruct (collect_elem _ _ _ _ Hrec Hr) as (row & Hrow & Hcr).
    apply context_record_item in Hcr as [Hid Htext]. exists row.1. split; [|done]. by eapply context_rows_elem.
  - intros e Hw. destruct (context_rows_covers _ conversation generation _ _ _ _ Hw) as (row & Hrow & <-).
    destruct (collect_elem_inv _ _ _ _ Hrec Hrow) as (r & Hr & Hcr). exists (item r).
    split; [apply sides_items; by exists r|]. by apply context_record_item in Hcr as [? _].
  - intros x ([id row] & -> & Hin)%list_elem_of_fmap. by apply disclosable_elem.
  - rewrite sides_length. apply collect_Forall2, Forall2_length in Hrec. lia.
Qed.

(** C17: the context frozen for a turn shows the agent the public part of the room, all of it and
    nothing else. Built inside a transaction on [d], it holds an entry, or the binding of a reply
    the agent gave itself, for every public message between the base revision and the triggering
    message, and every item stands for such a message with its own text; private messages and
    other event types never appear, a decision appears only while it is active in this room and
    rests on public messages only, and the items are within the policy's limit. *)
Theorem context_discloses_public room conversation generation base trigger policy cm g now d w v w' :
  tx_state cm g now d w →
  build_context room conversation generation base trigger policy w = (Ok v, w') →
  build_in room conversation generation base trigger policy d = Ok v ∧ tx_state cm g now d w' ∧
  ∃ revision, discloses_public room trigger base policy d revision v.
Proof.
  intros Hw Hrun. destruct (wp_Ok _ _ _ _ _ _ (build_context_spec _ _ _ _ _ _ _ _ _ _ _ Hw) Hrun) as [Hw' Hv].
  split_and!; [done..|]. by eapply build_in_discloses.
Qed.
End disclosure.

(** ** The manifest *)

Lemma index_source kind id : index (json_source kind id) "sourceId" = id.
Proof. unfold json_source. by json_get. Qed.

Lemma distinct_sources_spec ids candidates :
  (∀ v, v ∈ distinct_sources ids candidates → ∃ kind s, v = json_source kind (Str s) ∧
     (kind, Str s) ∈ candidates ∧ s ∉ ids) ∧
  (∀ kind s, (kind, Str s) ∈ candidates → s ∉ ids → ∃ kind', json_source kind' (Str s) ∈ distinct_sources ids candidates) ∧
  NoDup ((λ v, index v "sourceId") <$> distinct_sources ids candidates).
Proof.
  revert ids. induction candidates as [|[kind id] rest IH]; intros ids; simpl.
  { split_and!; [by intros ? ?%elem_of_nil|by intros ?? ?%elem_of_nil|constructor]. }
  destruct (as_str id) as [s|] eqn:Hs; [|]; last first.
  { destruct (IH ids) as (Ha & Hb & Hc). split_and!; [|..|done].
    - intros v (k & t & ? & ? & ?)%Ha. exists k, t. split_and!; [done|by right|done].
    - intros k t [[= -> <-]|Hin]%elem_of_cons Ht; [done|eauto]. }
  assert (id = Str s) as -> by (by destruct id; simplify_eq/=).
  destruct (bool_decide_reflect (s ∈ ids)) as [Hin|Hnin].
  - destruct (IH ids) as (Ha & Hb & Hc). split_and!; [|..|done].
    + intros v (k & t & ? & ? & ?)%Ha. exists k, t. split_and!; [done|by right|done].
    + intros k t [[= -> ->]|Hk]%elem_of_cons Ht; [done|eauto].
  - destruct (IH (s :: ids)) as (Ha & Hb & Hc). split_and!.
    + intros v [->|Hv]%elem_of_cons; [exists kind, s; split_and!; [done|by left|done]|].
      apply Ha in Hv as (k & t & ? & ? & ?). exists k, t. set_solver.
    + intros k t [[= -> ->]|Hk]%elem_of_cons Ht; [exists kind; by left|].
      destruct (decide (t = s)) as [->|Hne]; [exists kind; by left|].
      destruct (Hb _ _ Hk) as [k' Hk']; [set_solver|]. exists k'. by right.
    + rewrite fmap_cons. constructor; [|done]. intros (v & Heq & Hv)%list_elem_of_fmap.
      apply Ha in Hv as (k & t & -> & _ & Hnot).
      rewrite !index_source in Heq. injection Heq as <-. set_solver.
Qed.

(** The manifest of a context, against which citations are checked later, names each disclosed
    message, reply, decision and source of a decision exactly once, and nothing else. *)
Theorem source_manifest_exact context :
  ∃ sources, source_manifest context = Array sources ∧
  NoDup ((λ v, index v "sourceId") <$> sources) ∧
  (∀ s, (∃ kind, json_source kind (Str s) ∈ sources) ↔ ∃ kind, (kind, Str s) ∈ source_candidates context) ∧
  (∀ v, v ∈ sources → ∃ kind s, v = json_source kind (Str s)).
Proof.
  destruct (distinct_sources_spec [] (source_candidates context)) as (Ha & Hb & Hc).
  eexists. split; [done|]. split_and!; [done| |].
  - intros s. split.
    + intros [kind Hin]. apply Ha in Hin as (k & t & Heq & Hin & _). exists k.
      apply (f_equal (λ v, index v "sourceId")) in Heq. rewrite !index_source in Heq. by injection Heq as ->.
    + intros [kind Hin]. eapply Hb; [exact Hin|]. by intros ?%elem_of_nil.
  - intros v (k & t & -> & _)%Ha. by exists k, t.
Qed.

(** ** Policies *)

Lemma reject_then {E A} b (e : E) (r : result E A) x :
  (_ ← reject_if b e; r) = Ok x ↔ b = false ∧ r = Ok x.
Proof. destruct b; simpl; naive_solver. Qed.

Definition model_ok (m : ConversationModel) : Prop :=
  valid_id (md_id m) = true ∧ md_reasoning_efforts m ≠ [] ∧ (length (md_reasoning_efforts m) ≤ 100)%nat ∧
  NoDup (md_reasoning_efforts m) ∧ Forall (λ e, valid_id e = true) (md_reasoning_efforts m).

Lemma check_efforts_iff seen efforts :
  check_efforts seen efforts = true ↔
  NoDup efforts ∧ Forall (λ e, valid_id e = true ∧ e ∉ seen) efforts.
Proof.
  revert seen. induction efforts as [|e efforts IH]; intros seen; simpl.
  { split; [|done]. by split; constructor. }
  rewrite !andb_true_iff, negb_true_iff, bool_decide_eq_false, IH, NoDup_cons, Forall_cons, !Forall_forall.
  set_solver.
Qed.

Lemma check_models_iff ids models :
  check_models ids models = Ok () ↔
  NoDup (md_id <$> models) ∧ Forall (λ m, model_ok m ∧ md_id m ∉ ids) models.
Proof.
  revert ids. induction models as [|m models IH]; intros ids; simpl.
  { split; [|done]. by split; constructor. }
  rewrite reject_then, NoDup_cons, Forall_cons.
  assert (check_models (md_id m :: ids) models = Ok () ↔
    NoDup (md_id <$> models) ∧ md_id m ∉ md_id <$> models ∧
    Forall (λ m, model_ok m ∧ md_id m ∉ ids) models) as Hrest.
  { rewrite IH, !Forall_forall. split.
    - intros [Hnd Hall]. split_and!; [done| |].
      + intros (m' & Heq & Hin)%list_elem_of_fmap. destruct (Hall _ Hin) as [_ Hn]. apply Hn. rewrite Heq. by left.
      + intros m' Hin. destruct (Hall _ Hin). split; [done|]. set_solver.
    - intros (Hnd & Hn & Hall). split; [done|]. intros m' Hin. destruct (Hall _ Hin). split; [done|].
      intros [Heq|Hin']%elem_of_cons; [|done]. apply Hn. rewrite <-Heq. by apply list_elem_of_fmap_2. }
  rewrite Hrest, !orb_false_iff, !negb_false_iff, !bool_decide_eq_false, Nat.ltb_ge, check_efforts_iff.
  unfold model_ok. rewrite !Forall_forall. split.
  - intros (((((? & ?) & ?) & ?) & ? & Hall) & ? & ? & Hr). split_and!; try done. intros e He. by apply Hall.
  - intros ((? & ?) & ((? & ? & ? & ? & Hall) & ?) & ?). split_and!; try done.
    intros e He. split; [by apply Hall|]. by intros ?%elem_of_nil.
Qed.

(** The policy's own default is on offer. *)
Lemma default_offered policy :
  resolve_settings policy None = Ok (default_settings policy) ↔
  ∃ m, m ∈ cp_models policy ∧ md_id m = cp_model policy ∧ cp_reasoning_effort policy ∈ md_reasoning_efforts m.
Proof.
  unfold resolve_settings. cbv zeta. simpl default. rewrite reject_then, orb_false_iff, !negb_false_iff.
  unfold default_settings. json_get. simpl. rewrite String.eqb_refl. unfold offers.
  rewrite list_find_exists. split.
  - intros ([_ (m & Hm & Hp)] & _). rewrite andb_true_iff in Hp. simpl in Hp. rewrite String.eqb_eq, list_find_exists in Hp.
    destruct Hp as [He (e & Hin & Heq)]. apply String.eqb_eq in Heq. subst. by exists m.
  - intros (m & Hm & Hid & Heff). split; [|done]. split; [done|]. exists m. split; [done|].
    rewrite andb_true_iff. simpl. rewrite String.eqb_eq, list_find_exists. split; [done|].
    exists (cp_reasoning_effort policy). split; [done|]. by apply String.eqb_eq.
Qed.

Definition limits_ok (policy : ConversationPolicy) : Prop :=
  cp_max_context_bytes policy ≠ 0 ∧ cp_max_context_bytes policy ≤ 1048576 ∧
  cp_max_records policy ≠ 0 ∧ cp_max_records policy ≤ 2000 ∧
  1 ≤ cp_turn_deadline_seconds policy ≤ 180 ∧ 1 ≤ cp_interrupt_grace_seconds policy ≤ 5.

(** C40: the type of a valid policy. A policy is accepted exactly when its limits are positive and
    bounded and, if it enables conversations, its revisions are identifiers, it lists between one
    and a hundred models under different identifiers, each with up to a hundred different efforts,
    and its default model and effort are among them, so that the default selection always
    resolves. *)
Theorem validate_policy_iff policy :
  validate_policy policy = Ok () ↔
  limits_ok policy ∧
  (cp_enabled policy = true →
   Forall (λ id, valid_id id = true)
     [cp_policy_revision policy; cp_guidance_revision policy; cp_catalog_revision policy;
      cp_model policy; cp_reasoning_effort policy] ∧
   (1 ≤ length (cp_models policy) ≤ 100)%nat ∧ NoDup (md_id <$> cp_models policy) ∧
   Forall model_ok (cp_models policy) ∧
   resolve_settings policy None = Ok (default_settings policy) ∧
   ∃ m, m ∈ cp_models policy ∧ md_id m = cp_model policy ∧ cp_reasoning_effort policy ∈ md_reasoning_efforts m).
Proof.
  unfold validate_policy. rewrite reject_then. apply Morphisms_Prop.and_iff_morphism.
  { unfold limits_ok. rewrite !orb_false_iff, !negb_false_iff, !andb_true_iff. lia. }
  destruct (cp_enabled policy); cbn [negb]; [|naive_solver].
  rewrite reject_then, !orb_false_iff, negb_false_iff, bool_decide_eq_false, Nat.ltb_ge, forallb_elem_of, <-Forall_forall.
  assert (Forall (λ m, model_ok m ∧ md_id m ∉ []) (cp_models policy) ↔ Forall model_ok (cp_models policy)) as Hids.
  { apply Forall_iff. intros m. split; [tauto|]. intros ?. split; [done|]. by intros ?%elem_of_nil. }
  split.
  - intros (((? & Hne) & ?) & Hm) _. apply rbind_Ok in Hm as ([] & [? Hall]%check_models_iff & Hm).
    apply rbind_Ok in Hm as (v & Hv & _). rewrite Hids in Hall.
    assert (resolve_settings policy None = Ok (default_settings policy)) as Hd.
    { rewrite Hv. f_equal. revert Hv. unfold resolve_settings. cbv zeta. by intros ([] & _ & [= <-])%rbind_Ok. }
    split_and!; try done; [..|by apply default_offered]. destruct (cp_models policy); simpl; [done|lia].
  - intros Hall. destruct (Hall eq_refl) as (Hv & Hlen & Hnd & Hm & Hd & _). split_and!; [done| |lia|].
    + intros Hnil. rewrite Hnil in Hlen. simpl in Hlen. lia.
    + rewrite (proj2 (check_models_iff [] (cp_models policy))) by (by rewrite Hids). simpl. by rewrite Hd.
Qed.

(** Failure codes are read back. A code a worker reports is understood exactly when it is the
    code of an error, and means that error; so codes never clash. *)
Theorem failure_code_roundtrip code e : failure_code code = Ok e ↔ code = error_code e.
Proof.
  split; [|intros ->; by destruct e]. unfold failure_code. intros Hf%ok_or_Ok.
  destruct (list_find _ FAILURES) as [[i e']|] eqn:Hfind; simpl in Hf; [|done]. injection Hf as ->.
  apply list_find_Some in Hfind as (_ & Heq & _). by apply String.eqb_eq in Heq.
Qed.
