(* ===== verification/AgentService.v ===== *)
(** * The agent gateway's HTTP interface (src/src/agent_service.rs)

    Claiming a task, reading its context packet and posting updates. The packet is the only
    view of a room an external agent gets. *)

From S2P Require Import Prelude Json Text Crates Types Protocol Mentions ActionItems MemoryEngine World Store Rooms.
From Stdlib Require Import Ascii.
Local Open Scope string_scope.
Local Open Scope list_scope.
Local Open Scope Z_scope.

Record NormalizedAgentTaskUpdate := {
  nu_event_type : string;
  nu_payload : Value;
  nu_occurred_at : DateTime;
}.

Record TaskUpdateRequest := {
  tu_update_id : Uuid;
  tu_context_revision : Z;
  tu_update : NormalizedAgentTaskUpdate;
}.

Record ActiveDecision := {
  ad_decision_id : Uuid;
  ad_title : string;
  ad_summary : string;
  ad_source_event_ids : list Uuid;
}.

Record RoomContextPacket := {
  pk_task_id : Uuid;
  pk_room_id : Uuid;
  pk_requester_id : Uuid;
  pk_agent_id : Uuid;
  pk_skill_id : AgentSkillId;
  pk_context_revision : Z;
  pk_issued_at : DateTime;
  pk_expires_at : DateTime;
  pk_input : string;
  pk_events : list Value;
  pk_active_decisions : list ActiveDecision;
  pk_canonical_sha256 : string;
}.

(** What a handler answers: a bare status, a context packet with its lease token, or events. *)
Inductive Response :=
| Status (code : Z)
| ContextBody (packet : RoomContextPacket) (lease_token : Uuid)
| EventsBody (events : list Value).

Definition NO_CONTENT := Status 204.
Definition NOT_FOUND := Status 404.
Definition CONFLICT := Status 409.
Definition UNPROCESSABLE_ENTITY := Status 422.
Definition INTERNAL_SERVER_ERROR := Status 500.

(** ** Text of a structure: members in the order of declaration *)

Definition quote : string := String (byte 34) "".

Section text.
Context `{UuidCrate, Chrono, SerdeJson}.

Definition struct_to_string (members : list (string * string)) : string :=
  String.append "{" (String.append
    (String.concat "," ((λ kv, String.concat "" [quote; kv.1; quote; ":"; kv.2]) <$> members)) "}").

Definition array_to_string (items : list string) : string :=
  String.append "[" (String.append (String.concat "," items) "]").

Definition active_decision_to_string (d : ActiveDecision) : string :=
  struct_to_string
    [("decisionId", json_to_string (json_uuid (ad_decision_id d)));
     ("title", json_to_string (Str (ad_title d)));
     ("summary", json_to_string (Str (ad_summary d)));
     ("sourceEventIds", json_to_string (json_uuids (ad_source_event_ids d)))].

(** [serde_json::to_vec] of [CanonicalRoomContextPacket]. *)
Definition canonical_bytes (task : AgentTaskRecord) (issued_at expires_at : DateTime)
    (events : list Value) (active : list ActiveDecision) : string :=
  struct_to_string
    [("taskId", json_to_string (json_uuid (tk_task_id task)));
     ("roomId", json_to_string (json_uuid (tk_room_id task)));
     ("requesterId", json_to_string (json_uuid (tk_requester_id task)));
     ("agentId", json_to_string (json_uuid (tk_agent_id task)));
     ("skillId", json_to_string (Str (skill_str (tk_skill_id task))));
     ("contextRevision", json_to_string (json_int (tk_context_revision task)));
     ("issuedAt", json_to_string (json_time issued_at));
     ("expiresAt", json_to_string (json_time expires_at));
     ("input", json_to_string (Str (tk_input task)));
     ("events", array_to_string (json_to_string <$> events));
     ("activeDecisions", array_to_string (active_decision_to_string <$> active))].
End text.

(** ** Active decisions *)

Section packet.
Context `{UuidCrate, Chrono, SerdeJson, Sha2}.

Definition source_ids (payload : Value) : list Uuid :=
  match get "sourceEventIds" payload ≫= as_array with
  | Some ids => omap (λ v, as_str v ≫= uuid_parse) ids
  | None => []
  end.

(** What one event says of a decision: it is active with this content, or no longer. *)
Definition decision_effect (event : RoomEvent) : option (Uuid * option ActiveDecision) :=
  let payload := ev_payload event in
  decision_id ← (get "decisionId" payload ≫= as_str) ≫= uuid_parse;
  if String.eqb (ev_event_type event) "decision.confirmed"
     && bool_decide ((get "status" payload ≫= as_str) = Some "active") then
    title ← get "title" payload ≫= as_str;
    summary ← get "summary" payload ≫= as_str;
    Some (decision_id, Some {| ad_decision_id := decision_id; ad_title := title;
                               ad_summary := summary; ad_source_event_ids := source_ids payload |})
  else if bool_decide (ev_event_type event ∈
                         ["decision.dismissed"; "decision.deleted"; "decision.edited"])
  then Some (decision_id, None)
  else None.

Definition apply_effect (m : gmap Uuid ActiveDecision) (event : RoomEvent) :
    gmap Uuid ActiveDecision :=
  match decision_effect event with
  | Some (id, Some d) => <[id := d]> m
  | Some (id, None) => delete id m
  | None => m
  end.

Definition key_le (a b : Uuid * ActiveDecision) : Prop := uuid_le a.1 b.1.
Global Instance key_le_dec a b : Decision (key_le a b).
Proof. unfold key_le. apply _. Defined.

(** The values of the [BTreeMap], in the order of their keys. *)
Definition active_decisions (events : list RoomEvent) : list ActiveDecision :=
  (merge_sort key_le (map_to_list (foldl apply_effect ∅ events))).*2.

(** ** The packet *)

Definition context_packet (context : AgentTaskContext) (lease : AgentTaskLease) :
    RoomContextPacket :=
  let task := cx_task context in
  let visible_events :=
    List.filter (λ e, event_visible_to e (tk_requester_id task)) (cx_events context) in
  let active := active_decisions visible_events in
  let events := event_to_wire_value <$> visible_events in
  let issued_at := ls_expires_at lease - AGENT_TASK_LEASE_DURATION in
  {| pk_task_id := tk_task_id task; pk_room_id := tk_room_id task;
     pk_requester_id := tk_requester_id task; pk_agent_id := tk_agent_id task;
     pk_skill_id := tk_skill_id task; pk_context_revision := tk_context_revision task;
     pk_issued_at := issued_at; pk_expires_at := ls_expires_at lease; pk_input := tk_input task;
     pk_events := events; pk_active_decisions := active;
     pk_canonical_sha256 :=
       sha256_hex (canonical_bytes task issued_at (ls_expires_at lease) events active) |}.

Definition visible_ids (packet : RoomContextPacket) : gset Uuid :=
  list_to_set (omap (λ e, (get "eventId" e ≫= as_str) ≫= uuid_parse) (pk_events packet)) ∪
  list_to_set (ad_decision_id <$> pk_active_decisions packet).

Definition terminal_citations_are_visible (packet : RoomContextPacket)
    (update : NormalizedAgentTaskUpdate) : bool :=
  if negb (String.eqb (nu_event_type update) "agent.task.succeeded") then true
  else match pointer ["result"; "citations"] (nu_payload update) with
       | None => true
       | Some citations =>
           match as_array citations with
           | None => false
           | Some citations =>
               forallb (λ c, match as_str c ≫= uuid_parse with
                             | Some id => bool_decide (id ∈ visible_ids packet)
                             | None => false
                             end) citations
           end
       end.
End packet.

(** ** Handlers *)

Section handlers.
Context `{UuidCrate, Chrono, SerdeJson, Sha2, Schemas, Postgres, UrlCrate, Oracle}.

(** A handler always answers. *)
Abbreviation Handler := (M World Empty_set).

Definition context_response (lease : AgentTaskLease) : Handler Response :=
  context ← attempt (context_for_lease lease);
  match context with
  | Ok (Some context) => mret (ContextBody (context_packet context lease) (ls_owner_id lease))
  | Ok None => mret NOT_FOUND
  | Err _ => mret INTERNAL_SERVER_ERROR
  end.

Definition claim : Handler Response :=
  owner ← new_v4;
  now ← now;
  lease ← attempt (claim_oldest_queued_agent_task REFERENCE_AGENT_ID owner now);
  match lease with
  | Ok (Some lease) => context_response lease
  | Ok None => mret NO_CONTENT
  | Err _ => mret INTERNAL_SERVER_ERROR
  end.

(** The header is the text of the lease token, if it has one. *)
Definition matching_live_lease (task_id : Uuid) (header : option string) :
    Handler (option AgentTaskLease) :=
  match header ≫= uuid_parse with
  | None => mret None
  | Some lease_token =>
      task ← attempt (agent_task task_id);
      match task with
      | Err _ => mret None
      | Ok task =>
          match tk_lease_expires_at task with
          | None => mret None
          | Some expires_at =>
              now ← now;
              mret (if bool_decide (tk_agent_id task = REFERENCE_AGENT_ID)
                       && bool_decide (tk_lease_owner task = Some lease_token)
                       && (now <? expires_at)
                    then Some {| ls_task_id := task_id; ls_owner_id := lease_token;
                                 ls_expires_at := expires_at |}
                    else None)
          end
      end
  end.

Definition context (task_id : Uuid) (header : option string) : Handler Response :=
  lease ← matching_live_lease task_id header;
  match lease with
  | None => mret NOT_FOUND
  | Some lease => context_response lease
  end.

(** The status of a failed update. *)
Definition update_error (e : StoreError) : Response :=
  match e with
  | ConflictingDuplicate => CONFLICT
  | InvalidAgentTask | InvalidEvent => UNPROCESSABLE_ENTITY
  | Database _ => INTERNAL_SERVER_ERROR
  end.

Definition update (task_id : Uuid) (header : option string) (request : TaskUpdateRequest) :
    Handler Response :=
  lease ← matching_live_lease task_id header;
  match lease with
  | None => mret NOT_FOUND
  | Some lease =>
      context ← attempt (context_for_lease lease);
      match context with
      | Ok None => mret NOT_FOUND
      | Err _ => mret INTERNAL_SERVER_ERROR
      | Ok (Some context) =>
          if negb (tu_context_revision request =? tk_context_revision (cx_task context))
          then mret CONFLICT
          else if negb (terminal_citations_are_visible (context_packet context lease)
                          (tu_update request))
          then mret UNPROCESSABLE_ENTITY
          else
            result ← attempt (record_agent_task_update_with_outcome lease
              {| up_update_id := tu_update_id request;
                 up_event_type := nu_event_type (tu_update request);
                 up_payload := nu_payload (tu_update request);
                 up_occurred_at := nu_occurred_at (tu_update request) |});
            match result with
            | Err e => mret (update_error e)
            | Ok result =>
                _ ← (if ur_duplicate result then mret []
                     else for_each (λ e, publish e) (ur_events result));
                mret (EventsBody (event_to_wire_value <$> ur_events result))
            end
      end
  end.
End handlers.
