(* ===== verification/AgentTheorems.v ===== *)
(** * What an external agent sees and may claim

    The context packet shows an agent exactly the events its requester may see, up to the
    request; its active decisions are those the visible log leaves active; and a result may
    cite only what the packet showed. *)

From S2P Require Import Prelude Json Text Crates Types Protocol Mentions ActionItems MemoryEngine World Store StoreInvariant Rooms RoomsInvariant Tasks AgentService.
Local Open Scope string_scope.
Local Open Scope list_scope.
Local Open Scope Z_scope.

Section reads.
Context `{Postgres, Oracle}.

Lemma wp_pool_read {A} (f : DateTime → Db → A) c g w :
  settled c g w →
  wp (pool_query (select f)) (λ a w', (∃ t, a = f t c) ∧ settled c g w') (λ _, settled c g) w.
Proof.
  intros [<- <-]. unfold wp, pool_query, select. destruct (outage (tick w)); [|done..].
  split; [by eexists|done].
Qed.

(** The context of a lease: the task and the room's log up to the task's revision. *)
Definition is_context (c : Db) (lease : AgentTaskLease) (ctx : AgentTaskContext) : Prop :=
  ∃ row now, agent_tasks c !! ls_task_id lease = Some row ∧ holds_lease lease now row = true ∧
    agent_task_from_row (ls_task_id lease) row = Ok (cx_task ctx) ∧
    cx_events ctx = take (Z.to_nat (tk_context_revision (cx_task ctx)))
                      (room_log (tk_room_id (cx_task ctx)) c).

Lemma wp_context_for_lease lease c g w :
  settled c g w → db_ok c →
  wp (context_for_lease lease)
    (λ r w', settled c g w' ∧ ∀ ctx, r = Some ctx → is_context c lease ctx)
    (λ _, settled c g) w.
Proof.
  intros Hw Hc. unfold context_for_lease. wp_step. wp_step.
  wp_use wp_pool_read; [done| |done]. intros found w1 [[now ->] Hw1]. wp_step.
  wp_step; [|done]. wp_step.
  2: { wp_step. split; [done|]. naive_solver. }
  match goal with Hd : decode_task _ _ = Ok _ |- _ => rename Hd into Hdec end. subst.
  unfold decode_task in Hdec. destruct (leased_task lease now c) as [row|] eqn:Hl; [|done].
  apply leased_task_Some in Hl as [Hrow Hh].
  apply rbind_Ok in Hdec as (task & Htask & [= ->]).
  wp_step. wp_step. wp_use wp_pool_read; [done| |done]. intros evs w2 [[t ->] Hw2]. wp_step.
  split; [done|]. intros ctx [= <-]. exists row, now. split_and!; try done. simpl.
  by rewrite (select_upto c Hc).
Qed.
End reads.

Section packets.
Context `{UuidCrate, Chrono, SerdeJson, Sha2, Schemas, Postgres, UrlCrate, Oracle}.

(** What the packet of a live lease must be. *)
Definition is_packet (c : Db) (task_id token : Uuid) (packet : RoomContextPacket) : Prop :=
  ∃ row, agent_tasks c !! task_id = Some row ∧ tr_lease_owner row = Some token ∧
    pk_task_id packet = task_id ∧ pk_room_id packet = tr_room_id row ∧
    pk_requester_id packet = tr_requester_id row ∧
    let visible := List.filter (λ e, event_visible_to e (tr_requester_id row))
                     (take (Z.to_nat (tr_context_revision row)) (room_log (tr_room_id row) c)) in
    pk_events packet = event_to_wire_value <$> visible ∧
    pk_active_decisions packet = active_decisions visible.

Lemma context_packet_spec c lease ctx :
  is_context c lease ctx →
  is_packet c (ls_task_id lease) (ls_owner_id lease) (context_packet ctx lease).
Proof.
  intros (row & now & Hrow & Hh & Htask & Hevs).
  destruct (agent_task_from_row_Ok _ _ _ Htask) as (Hid & Hroom & _ & Hreq & Hrev & _).
  apply holds_lease_iff in Hh as (Ho & _). exists row. unfold context_packet. simpl.
  rewrite Hevs, Hroom, Hreq, Hrev. done.
Qed.

Lemma wp_context_response lease c g w :
  settled c g w → db_ok c →
  wp (context_response lease)
    (λ r w', settled c g w' ∧ ∀ packet token, r = ContextBody packet token →
       token = ls_owner_id lease ∧ is_packet c (ls_task_id lease) token packet)
    (λ _ _, False) w.
Proof.
  intros Hw Hc. unfold context_response. wp_step. wp_step. wp_use wp_context_for_lease; [done|done|..].
  - intros [ctx|] w1 [Hw1 Hctx]; wp_step; (split; [done|]); intros packet token [= <- <-].
    split; [done|]. by apply context_packet_spec, Hctx.
  - intros e w1 Hw1. wp_step. split; [done|]. naive_solver.
Qed.

Lemma wp_matching_live_lease task_id header c g w :
  settled c g w →
  wp (matching_live_lease task_id header)
    (λ r w', settled c g w' ∧ ∀ lease, r = Some lease →
       ls_task_id lease = task_id ∧ header ≫= uuid_parse = Some (ls_owner_id lease))
    (λ _ _, False) w.
Proof.
  intros Hw. unfold matching_live_lease. wp_step; [|wp_step; split; [done|naive_solver]].
  wp_step. wp_step. unfold agent_task. wp_step. wp_step.
  eapply wp_mono with (Q := λ _ w', settled c g w') (F := λ _, settled c g).
  - destruct Hw as [<- <-]. unfold wp, pool_query, fetch_task.
    destruct (outage (tick w)), (agent_tasks (committed w) !! task_id); done.
  - intros row w1 Hw1. wp_step; [|wp_step; split; [done|naive_solver]].
    wp_step; [|wp_step; split; [done|naive_solver]]. wp_step.
    unfold now, wp. simpl. split; [done|]. intros lease Hl. by case_match; simplify_eq.
  - intros e w1 Hw1. wp_step. split; [done|naive_solver].
Qed.

(** C27: An agent sees what its requester may see, and nothing else. When the context endpoint
    answers with a packet, the request carried the token of the task's lease, and the packet
    holds exactly the events of the task's room up to its context revision that are visible to
    the human who requested the task, in order, and the decisions those events leave active;
    reading it changes nothing. *)
Theorem context_shows_requester_view task_id header w packet token w' :
  db_ok (committed w) → context task_id header w = (Ok (ContextBody packet token), w') →
  header ≫= uuid_parse = Some token ∧ is_packet (committed w) task_id token packet ∧
  committed w' = committed w.
Proof.
  intros Hok Hrun.
  assert (wp (context task_id header)
    (λ r w', settled (committed w) (gateway w) w' ∧ ∀ packet token, r = ContextBody packet token →
       header ≫= uuid_parse = Some token ∧ is_packet (committed w) task_id token packet)
    (λ _ _, False) w) as Hspec.
  { unfold context. wp_step. wp_use wp_matching_live_lease; [done| |done].
    intros [lease|] w1 [Hw1 Hl]; [|wp_step; split; [done|naive_solver]].
    destruct (Hl lease eq_refl) as [<- Hh]. wp_use wp_context_response; [done|done| |done].
    intros r w2 [Hw2 Hr]. split; [done|]. intros p t ->. destruct (Hr p t eq_refl) as [-> ?]. done. }
  unfold wp in Hspec. rewrite Hrun in Hspec. destruct Hspec as [[? _] Hp].
  destruct (Hp packet token eq_refl). done.
Qed.
End packets.

(** ** Active decisions *)

Section active.
Context `{UuidCrate}.

(** The effects of a list of events on one decision, oldest first. *)
Definition effects_on (id : Uuid) (events : list RoomEvent) : list (option ActiveDecision) :=
  omap (λ e, '(id', o) ← decision_effect e; if bool_decide (id' = id) then Some o else None) events.

Lemma fold_effects id events (m : gmap Uuid ActiveDecision) :
  foldl apply_effect m events !! id = default (m !! id) (last (effects_on id events)).
Proof.
  induction events as [|e events IH] using rev_ind; [done|].
  rewrite foldl_snoc. unfold effects_on. rewrite omap_app, last_app. simpl.
  unfold apply_effect at 1. destruct (decision_effect e) as [[id' [d|]]|]; simpl; [..|apply IH].
  - case_bool_decide as Hid; simpl.
    + subst id'. by rewrite lookup_insert_eq.
    + rewrite lookup_insert_ne by done. apply IH.
  - case_bool_decide as Hid; simpl.
    + subst id'. by rewrite lookup_delete_eq.
    + rewrite lookup_delete_ne by done. apply IH.
Qed.

Lemma effect_id e id d : decision_effect e = Some (id, Some d) → ad_decision_id d = id.
Proof.
  unfold decision_effect. intros (id' & _ & Hif)%bind_Some. case_match.
  - apply bind_Some in Hif as (t & _ & (s & _ & [= <- <-])%bind_Some). done.
  - by case_match; simplify_eq.
Qed.

Lemma active_entry events id d :
  foldl apply_effect ∅ events !! id = Some d → ad_decision_id d = id.
Proof.
  rewrite fold_effects. destruct (last (effects_on id events)) as [o|] eqn:Hl; simpl; [|done].
  intros ->. apply last_Some_elem_of in Hl. unfold effects_on in Hl.
  apply list_elem_of_omap in Hl as (e & _ & He). apply bind_Some in He as ([id' o] & He & Hif).
  case_bool_decide; simplify_eq. by eapply effect_id.
Qed.

Lemma sorted_keys l : Sorted key_le l → Sorted uuid_le l.*1.
Proof.
  induction 1 as [|x l Hl IH Hx]; [constructor|]. simpl. constructor; [done|].
  destruct Hx; by constructor.
Qed.

(** The active decisions of a packet are decided by the last word of the log: a decision is
    listed iff the last visible event that confirms, dismisses, edits or deletes it is a
    confirmation, and then with the content of that confirmation; each decision is listed once,
    in ascending order of identifiers. *)
Theorem active_decisions_last_word events d :
  (d ∈ active_decisions events ↔
   last (effects_on (ad_decision_id d) events) = Some (Some d)) ∧
  NoDup (ad_decision_id <$> active_decisions events) ∧
  Sorted uuid_le (ad_decision_id <$> active_decisions events).
Proof.
  set (m := foldl apply_effect ∅ events).
  assert (ad_decision_id <$> active_decisions events =
          (merge_sort key_le (map_to_list m)).*1) as Hkeys.
  { unfold active_decisions. fold m. rewrite <-list_fmap_compose. apply list_fmap_ext.
    intros i [k v] Hkv. simpl. apply (active_entry events). fold m. apply elem_of_map_to_list.
    apply list_elem_of_lookup_2 in Hkv. by rewrite merge_sort_Permutation in Hkv. }
  split_and!.
  - unfold active_decisions. fold m. rewrite list_elem_of_fmap. split.
    + intros ([k v] & -> & Hin). rewrite merge_sort_Permutation, elem_of_map_to_list in Hin.
      pose proof (active_entry _ _ _ Hin) as <-. simpl. unfold m in Hin. rewrite fold_effects in Hin.
      destruct (last _); simplify_eq/=; done.
    + intros Hl. exists (ad_decision_id d, d). split; [done|].
      rewrite merge_sort_Permutation, elem_of_map_to_list. unfold m. by rewrite fold_effects, Hl.
  - rewrite Hkeys. rewrite merge_sort_Permutation. apply NoDup_fst_map_to_list.
  - rewrite Hkeys. apply sorted_keys, Sorted_merge_sort.
    intros a b. unfold key_le. apply uuid_le_total.
Qed.
End active.

(** ** Citations *)

Section citations.
Context `{UuidLaws, Chrono, SerdeJson, Sha2}.

Lemma wire_event_id e : (get "eventId" (event_to_wire_value e) ≫= as_str) ≫= uuid_parse =
  Some (ev_event_id e).
Proof.
  unfold event_to_wire_value. json_get. cbn [mbind option_bind]. unfold json_uuid.
  cbn [as_str]. apply uuid_parse_to_string.
Qed.

Lemma visible_ids_elem ctx lease id :
  let visible := List.filter (λ e, event_visible_to e (tk_requester_id (cx_task ctx))) (cx_events ctx) in
  id ∈ visible_ids (context_packet ctx lease) ↔
  (∃ e, e ∈ cx_events ctx ∧ event_visible_to e (tk_requester_id (cx_task ctx)) = true ∧
        ev_event_id e = id) ∨
  (∃ d, d ∈ active_decisions visible ∧ ad_decision_id d = id).
Proof.
  intros visible. unfold visible_ids. rewrite elem_of_union, !elem_of_list_to_set. simpl.
  fold visible. f_equiv.
  - rewrite list_elem_of_omap. setoid_rewrite list_elem_of_fmap. split.
    + intros (v & (e & -> & He) & Hid). rewrite wire_event_id in Hid. simplify_eq.
      apply list_elem_of_In, filter_In in He as [He Hv]. apply list_elem_of_In in He. eauto.
    + intros (e & He & Hv & <-). exists (event_to_wire_value e). split; [|apply wire_event_id].
      exists e. split; [done|]. apply list_elem_of_In, filter_In. by rewrite <-list_elem_of_In.
  - rewrite list_elem_of_fmap. naive_solver.
Qed.

(** A task may cite only what its requester could see. A terminal success with citations
    passes the check exactly when the citations are a list of identifiers, each of an event of
    the packet's context that is visible to the requester or of a decision active in it. *)
Theorem citations_visible_iff ctx lease u citations :
  nu_event_type u = "agent.task.succeeded" →
  pointer ["result"; "citations"] (nu_payload u) = Some citations →
  let visible := List.filter (λ e, event_visible_to e (tk_requester_id (cx_task ctx))) (cx_events ctx) in
  terminal_citations_are_visible (context_packet ctx lease) u = true ↔
  ∃ l, citations = Array l ∧
    ∀ v, v ∈ l → ∃ id, as_str v ≫= uuid_parse = Some id ∧
      ((∃ e, e ∈ cx_events ctx ∧ event_visible_to e (tk_requester_id (cx_task ctx)) = true ∧
             ev_event_id e = id) ∨
       (∃ d, d ∈ active_decisions visible ∧ ad_decision_id d = id)).
Proof.
  intros Ht Hp visible. unfold terminal_citations_are_visible. rewrite Ht, Hp. simpl negb. cbn iota.
  destruct citations as [| | | |l|]; simpl as_array; try (split; [done|by intros (? & [=] & _)]).
  rewrite forallb_elem_of. split.
  - intros Hall. exists l. split; [done|]. intros v Hv. specialize (Hall v Hv).
    destruct (as_str v ≫= uuid_parse) as [id|]; [|done]. exists id. split; [done|].
    apply bool_decide_eq_true in Hall. by apply visible_ids_elem in Hall.
  - intros (l' & [= <-] & Hall) v Hv. destruct (Hall v Hv) as (id & -> & Hid).
    apply bool_decide_eq_true. by apply visible_ids_elem.
Qed.
End citations.
