(* ===== verification/Auth.v ===== *)
(** * Authentication (src/src/auth.rs)

    From an Authorization header or an access token to an actor of the room, and the separate
    check of the agent gateway's workload tokens. The signature check, with the claim checks it
    is configured for, is the jsonwebtoken crate's. *)

From S2P Require Import Prelude Json Text Crates Types Protocol.
From Stdlib Require Import Ascii.
Local Open Scope string_scope.
Local Open Scope list_scope.
Local Open Scope Z_scope.

Definition AGENT_GATEWAY_CLIENT_ID : string := "thought-khoral-agent-gateway".
Definition AGENT_GATEWAY_AUDIENCE : string := "thought-khoral-room-gateway".
Definition MAX_WORKLOAD_TOKEN_LIFETIME_SECONDS : Z := 300.

Record JwtHeader := { jh_alg : string; jh_kid : option string }.

(** [jsonwebtoken::Validation] as the gateway sets it. *)
Record Validation := {
  va_algorithm : string;
  va_issuer : string;
  va_audience : string;
  va_required : list string;
  va_leeway : Z;
  va_reject_expiring_in_less_than : Z;
  va_validate_nbf : bool;
}.

(** A key of a JWK set: the members the gateway looks at, and its key material if usable. *)
Record Jwk (Key : Type) := {
  jwk_use : option string;
  jwk_alg : option string;
  jwk_kid : option string;
  jwk_key : option Key;
}.
Arguments jwk_use {Key} _.
Arguments jwk_alg {Key} _.
Arguments jwk_kid {Key} _.
Arguments jwk_key {Key} _.

(** The crate: parsing of a key set and of a token's header, and verification of a token at an
    instant (seconds), which yields the claims. *)
Class Jwt := {
  Key : Type;
  parse_jwks : string → option (list (Jwk Key));
  decode_header : string → option JwtHeader;
  jwt_verify : string → Key → Validation → Z → option Value;
}.

(** Documented behaviour of [jsonwebtoken::decode]: what it returns has passed the checks it
    was configured for. *)
Class JwtLaws `{Jwt} : Prop := {
  jwt_exp token key v now claims exp :
    jwt_verify token key v now = Some claims → "exp" ∈ va_required v →
    get "exp" claims = Some (Number (Int exp)) →
    now + va_reject_expiring_in_less_than v - va_leeway v ≤ exp;
  jwt_iss token key v now claims :
    jwt_verify token key v now = Some claims → "iss" ∈ va_required v →
    get "iss" claims = Some (Str (va_issuer v));
}.

Inductive WorkloadAuthenticationError := Unauthenticated | Forbidden.

Inductive AuthConfigurationError := InvalidAuthConfiguration.

(** ** Display names *)

Definition short_id `{UuidCrate} (id : Uuid) : string := take_bytes 8 (uuid_to_string id).

Definition display_name_for `{UuidCrate} (role : ActorRole) (id : Uuid)
    (name preferred_username : option string) : string :=
  let role_label := match role with Human => "Human" | Agent => "Agent" end in
  let chosen := match name with Some n => Some n | None => preferred_username end in
  let display :=
    value ← chosen;
    let trimmed := trim value in
    if is_empty trimmed then None else Some (take_chars 128 trimmed) in
  match display with
  | Some d => d
  | None => String.append role_label (String.append " " (short_id id))
  end.

(** ** Bearer tokens *)

Definition bearer_token (authorization : option string) : option string :=
  header ← authorization;
  '(scheme, token) ← split_once " " header;
  if negb (eq_ignore_ascii_case scheme "Bearer") || is_empty token || contains_whitespace token
  then None else Some token.

Section validator.
Context `{UuidCrate, Jwt}.

Record AuthValidator := {
  av_issuer : string;
  av_audience : string;
  av_keys : gmap string Key;
}.

(** The loop over the key set: signature keys for RS256 with an identifier are kept, an
    unusable or repeated one refuses the configuration. *)
Fixpoint collect_keys (jwks : list (Jwk Key)) (keys : gmap string Key) :
    result AuthConfigurationError (gmap string Key) :=
  match jwks with
  | [] => Ok keys
  | jwk :: rest =>
      if negb (bool_decide (jwk_use jwk = Some "sig")) || negb (bool_decide (jwk_alg jwk = Some "RS256"))
      then collect_keys rest keys
      else match jwk_kid jwk with
           | None => collect_keys rest keys
           | Some key_id =>
               if is_empty key_id then collect_keys rest keys
               else
                 key ← ok_or InvalidAuthConfiguration (jwk_key jwk);
                 match keys !! key_id with
                 | Some _ => Err InvalidAuthConfiguration
                 | None => collect_keys rest (<[key_id := key]> keys)
                 end
           end
  end.

(** [AuthValidator::new]. *)
Definition auth_validator_new (issuer audience jwks_json : string) :
    result AuthConfigurationError AuthValidator :=
  _ ← reject_if (is_empty issuer || is_empty audience) InvalidAuthConfiguration;
  jwks ← ok_or InvalidAuthConfiguration (parse_jwks jwks_json);
  keys ← collect_keys jwks ∅;
  _ ← reject_if (bool_decide (keys = ∅)) InvalidAuthConfiguration;
  Ok {| av_issuer := issuer; av_audience := audience; av_keys := keys |}.

(** [Claims], as serde decodes them; other members are ignored. *)
Definition decode_role (v : Value) : option ActorRole :=
  if is_str v "human" then Some Human else if is_str v "agent" then Some Agent else None.

Definition optional_str (k : string) (claims : Value) : option (option string) :=
  match get k claims with
  | None => Some None
  | Some v => decode_option as_str v
  end.

Definition token_validation (issuer audience : string) (required : list string) : Validation :=
  {| va_algorithm := "RS256"; va_issuer := issuer; va_audience := audience;
     va_required := required; va_leeway := 0; va_reject_expiring_in_less_than := 1;
     va_validate_nbf := true |}.

Definition authenticate_access_token (auth : AuthValidator) (now : Z) (token : string) :
    option Actor :=
  if is_empty token || contains_whitespace token then None
  else
    header ← decode_header token;
    if negb (String.eqb (jh_alg header) "RS256") then None
    else
      kid ← jh_kid header;
      key ← av_keys auth !! kid;
      claims ← jwt_verify token key
        (token_validation (av_issuer auth) (av_audience auth) ["exp"; "iss"; "aud"; "sub"]) now;
      sub ← get "sub" claims ≫= as_str;
      role ← get "n2n_role" claims ≫= decode_role;
      exp ← get "exp" claims ≫= as_i64;
      name ← optional_str "name" claims;
      preferred_username ← optional_str "preferred_username" claims;
      id ← uuid_parse sub;
      Some {| actor_id := id; actor_role := role;
              actor_display_name := display_name_for role id name preferred_username;
              actor_expires_at := exp |}.

Definition authenticate_bearer (auth : AuthValidator) (now : Z) (authorization : option string) :
    option Actor :=
  token ← bearer_token authorization; authenticate_access_token auth now token.

(** [WorkloadAudience]: one audience or several. *)
Definition has_expected_audience (aud : Value) : option bool :=
  match aud with
  | Str audience => Some (String.eqb audience AGENT_GATEWAY_AUDIENCE)
  | Array l => audiences ← mapM as_str l;
               Some (existsb (λ a, String.eqb a AGENT_GATEWAY_AUDIENCE) audiences)
  | _ => None
  end.

Definition optional_i64 (k : string) (claims : Value) : option (option Z) :=
  match get k claims with
  | None => Some None
  | Some v => decode_option as_i64 v
  end.

(** [i64::saturating_sub]. *)
Definition saturating_sub (a b : Z) : Z := Z.max i64_min (Z.min i64_max (a - b)).

(** The claims checked once the token is verified; [None] where [WorkloadClaims] does not decode. *)
Definition check_workload_claims (claims : Value) (now : Z) :
    result WorkloadAuthenticationError () :=
  expected ← ok_or Unauthenticated (get "aud" claims ≫= has_expected_audience);
  azp ← ok_or Unauthenticated (optional_str "azp" claims);
  iat ← ok_or Unauthenticated (optional_i64 "iat" claims);
  exp ← ok_or Unauthenticated (get "exp" claims ≫= as_i64);
  _ ← reject_if (negb expected) Unauthenticated;
  _ ← reject_if (negb (bool_decide (azp = Some AGENT_GATEWAY_CLIENT_ID))) Forbidden;
  issued_at ← ok_or Forbidden iat;
  reject_if ((now <? issued_at) || (exp <=? issued_at)
             || (MAX_WORKLOAD_TOKEN_LIFETIME_SECONDS <? saturating_sub exp issued_at)) Forbidden.

Definition authenticate_agent_gateway_bearer (auth : AuthValidator) (now : Z)
    (authorization : option string) : result WorkloadAuthenticationError () :=
  token ← ok_or Unauthenticated (bearer_token authorization);
  header ← ok_or Unauthenticated (decode_header token);
  _ ← reject_if (negb (String.eqb (jh_alg header) "RS256")) Unauthenticated;
  kid ← ok_or Unauthenticated (jh_kid header);
  key ← ok_or Unauthenticated (av_keys auth !! kid);
  claims ← ok_or Unauthenticated (jwt_verify token key
    (token_validation (av_issuer auth) AGENT_GATEWAY_AUDIENCE ["exp"; "iss"; "aud"; "sub"; "iat"]) now);
  check_workload_claims claims now.
End validator.

(** ** Properties *)

Lemma take_chars_count n s : (chars_count (take_chars n s) ≤ n)%nat.
Proof.
  revert n. induction s as [|c s IH]; intros n; simpl; [lia|].
  destruct (is_lead c) eqn:Hc; [|simpl; rewrite Hc; apply IH].
  destruct n as [|n]; simpl; [lia|]. rewrite Hc. specialize (IH n). lia.
Qed.

Lemma chars_count_length s : (chars_count s ≤ String.length s)%nat.
Proof. induction s as [|c s IH]; simpl; [lia|]. destruct (is_lead c); lia. Qed.

Lemma take_bytes_length n s : (String.length (take_bytes n s) ≤ n)%nat.
Proof.
  revert s. induction n as [|n IH]; intros [|c s]; simpl; try lia. specialize (IH s). lia.
Qed.

Lemma string_length_append s t :
  String.length (String.append s t) = (String.length s + String.length t)%nat.
Proof. induction s as [|c s IH]; simpl; [done|]. by rewrite IH. Qed.

(** Every actor has a usable display name: whatever names the token claims, the display
    name is not empty and has at most 128 characters. *)
Theorem display_name_bounded `{UuidCrate} role id name preferred_username :
  display_name_for role id name preferred_username ≠ "" ∧
  (chars_count (display_name_for role id name preferred_username) ≤ 128)%nat.
Proof.
  assert (∀ s, s ≠ "" → take_chars 128 s ≠ "") as Hne.
  { intros [|c s] Hs; [done|]. simpl. by destruct (is_lead c). }
  assert (∀ label, (String.length label ≤ 5)%nat →
    (chars_count (String.append label (String.append " " (short_id id))) ≤ 128)%nat) as Hfallback.
  { intros label Hl. etrans; [apply chars_count_length|]. rewrite !string_length_append.
    pose proof (take_bytes_length 8 (uuid_to_string id)). unfold short_id.
    change (String.length " ") with 1%nat. lia. }
  unfold display_name_for. destruct (match name with Some n => Some n | None => _ end) as [v|]; simpl.
  - destruct (is_empty (trim v)) eqn:Hv.
    + split; [by destruct role|]. destruct role; apply Hfallback; simpl; lia.
    + split; [apply Hne; by apply is_empty_false|apply take_chars_count].
  - split; [by destruct role|]. destruct role; apply Hfallback; simpl; lia.
Qed.

Section authentication.
Context `{UuidCrate, JwtLaws}.

(** An actor is only ever made from a verified token: the token is one word, its header
    names RS256 and a configured key, the signature and the issuer, audience and expiry checks
    under that key succeeded, the identity is the token's subject, and the session ends with
    the token, which still has at least a second to live. *)
Theorem authenticated_actor_sound auth now token actor :
  authenticate_access_token auth now token = Some actor →
  token ≠ "" ∧ contains_whitespace token = false ∧
  ∃ header kid key claims,
    decode_header token = Some header ∧ jh_alg header = "RS256" ∧ jh_kid header = Some kid ∧
    av_keys auth !! kid = Some key ∧
    jwt_verify token key (token_validation (av_issuer auth) (av_audience auth)
      ["exp"; "iss"; "aud"; "sub"]) now = Some claims ∧
    get "iss" claims = Some (Str (av_issuer auth)) ∧
    (get "sub" claims ≫= as_str) ≫= uuid_parse = Some (actor_id actor) ∧
    get "n2n_role" claims ≫= decode_role = Some (actor_role actor) ∧
    get "exp" claims = Some (Number (Int (actor_expires_at actor))) ∧
    now + 1 ≤ actor_expires_at actor.
Proof.
  unfold authenticate_access_token. case_match eqn:Hword; [done|].
  apply orb_false_iff in Hword as [Hne%is_empty_false Hws].
  intros (header & Hh & Hrest)%bind_Some. case_match eqn:Halg; [done|].
  apply negb_false_iff, String.eqb_eq in Halg.
  apply bind_Some in Hrest as (kid & Hkid & (key & Hkey & (claims & Hc & Hrest)%bind_Some)%bind_Some).
  apply bind_Some in Hrest as (sub & Hsub & (role & Hrole & (exp & Hexp & Hrest)%bind_Some)%bind_Some).
  apply bind_Some in Hrest as (name & _ & (pref & _ & (id & Hid & [= <-])%bind_Some)%bind_Some). simpl.
  assert (get "exp" claims = Some (Number (Int exp))) as Hexp'.
  { apply bind_Some in Hexp as (v & -> & Hv). destruct v as [| |[z|z]| | |]; try discriminate Hv.
    unfold as_i64 in Hv. case_match; by simplify_eq. }
  split_and!; [done..|]. exists header, kid, key, claims. split_and!; try done.
  - eapply (jwt_iss _ _ _ _ _ Hc). simpl. set_solver.
  - by rewrite Hsub.
  - pose proof (jwt_exp _ _ _ _ _ _ Hc ltac:(simpl; set_solver) Hexp') as Hle. simpl in Hle. lia.
Qed.

Lemma rbind_reject {E A} b (e : E) (k : () → result E A) a :
  reject_if b e ≫= k = Ok a ↔ b = false ∧ k () = Ok a.
Proof. destruct b; simpl; naive_solver. Qed.

Lemma rbind_ok_or {E A B} (e : E) (o : option A) (k : A → result E B) b :
  ok_or e o ≫= k = Ok b ↔ ∃ a, o = Some a ∧ k a = Ok b.
Proof. destruct o; simpl; naive_solver. Qed.

(** The internal surface admits exactly the agent gateway's own short-lived tokens: a
    verified token is accepted iff it names this service among its audiences, was issued to
    the agent gateway's client, was not issued in the future, and lives more than zero and at
    most three hundred seconds. *)
Theorem workload_claims_accepted_iff claims now :
  check_workload_claims claims now = Ok () ↔
  get "aud" claims ≫= has_expected_audience = Some true ∧
  optional_str "azp" claims = Some (Some AGENT_GATEWAY_CLIENT_ID) ∧
  ∃ iat exp, optional_i64 "iat" claims = Some (Some iat) ∧
    get "exp" claims ≫= as_i64 = Some exp ∧
    iat ≤ now ∧ iat < exp ∧ exp - iat ≤ MAX_WORKLOAD_TOKEN_LIFETIME_SECONDS.
Proof.
  unfold check_workload_claims. split.
  - intros (expected & Haud & (azp & Hazp & (iat & Hiat & Hr)%rbind_ok_or)%rbind_ok_or)%rbind_ok_or.
    apply rbind_ok_or in Hr as (exp & Hexp & [He%negb_false_iff Hr]%rbind_reject).
    apply rbind_reject in Hr as [Hclient%negb_false_iff%bool_decide_eq_true Hr].
    apply rbind_ok_or in Hr as (issued_at & -> & Hr%reject_if_Ok). subst.
    split_and!; [done..|]. exists issued_at, exp.
    apply orb_false_iff in Hr as [[Hnow Hpos]%orb_false_iff Hlife].
    apply Z.ltb_ge in Hnow. apply Z.leb_gt in Hpos. apply Z.ltb_ge in Hlife.
    unfold saturating_sub, MAX_WORKLOAD_TOKEN_LIFETIME_SECONDS, i64_max, i64_min in *.
    split_and!; try done; lia.
  - intros (Haud & Hazp & iat & exp & Hiat & Hexp & Hnow & Hpos & Hlife).
    rewrite Haud, Hazp, Hiat, Hexp. simpl. apply reject_if_Ok.
    unfold saturating_sub, MAX_WORKLOAD_TOKEN_LIFETIME_SECONDS, i64_max, i64_min in *.
    rewrite !orb_false_iff, Z.ltb_ge, Z.leb_gt, Z.ltb_ge. lia.
Qed.
End authentication.
