(* ===== verification/WebSocket.v ===== *)
(** * The WebSocket session (src/src/ws.rs)

    One client's connection: authentication of a browser's first message, the handling of its
    requests, and the loop that forwards what is broadcast in the room it joined. *)

From S2P Require Import Prelude Json Text Crates Types Protocol Mentions ActionItems MemoryEngine World Store Rooms Auth.
Local Open Scope string_scope.
Local Open Scope list_scope.
Local Open Scope Z_scope.

(** ** Policy of the upgrade (src/src/rooms.rs) *)

Record Uri := { uri_scheme : option string; uri_authority : option string }.
(** [http::Uri], third party. *)
Class UriCrate := { uri_parse : string → option Uri }.

Record WebSocketPolicy := {
  wp_allowed_origins : gset string;
  wp_authentication_timeout : Z;
}.

Inductive WebSocketPolicyError := InvalidWebSocketPolicy.

Definition milliseconds (n : Z) : Z := n * 1000000.

(** The loop over the configured origins. *)
Fixpoint normalize_origins `{UriCrate} (origins : list string) (acc : gset string) :
    result WebSocketPolicyError (gset string) :=
  match origins with
  | [] => Ok acc
  | origin :: rest =>
      uri ← ok_or InvalidWebSocketPolicy (uri_parse origin);
      scheme ← ok_or InvalidWebSocketPolicy (uri_scheme uri);
      authority ← ok_or InvalidWebSocketPolicy (uri_authority uri);
      if negb (String.eqb scheme "http" || String.eqb scheme "https")
         || negb (String.eqb origin (String.append scheme (String.append "://" authority)))
      then Err InvalidWebSocketPolicy
      else normalize_origins rest ({[origin]} ∪ acc)
  end.

Definition websocket_policy_new `{UriCrate} (allowed_origins : list string)
    (authentication_timeout : Z) : result WebSocketPolicyError WebSocketPolicy :=
  _ ← reject_if ((authentication_timeout <? milliseconds 1) || (seconds 30 <? authentication_timeout))
        InvalidWebSocketPolicy;
  origins ← normalize_origins allowed_origins ∅;
  _ ← reject_if (bool_decide (origins = ∅)) InvalidWebSocketPolicy;
  Ok {| wp_allowed_origins := origins; wp_authentication_timeout := authentication_timeout |}.

Definition deny_all : WebSocketPolicy :=
  {| wp_allowed_origins := ∅; wp_authentication_timeout := seconds 5 |}.

Definition allows_origin (policy : WebSocketPolicy) (origin : string) : bool :=
  bool_decide (origin ∈ wp_allowed_origins policy).

(** ** The connection *)

Inductive Message := Text (text : string) | Binary | Ping | Pong | CloseMessage.

Inductive Frame := FValue (v : Value) | FClose (reason : string).

(** The local variables of [websocket_session] and what was sent on the socket so far. *)
Record Session := {
  se_joined_room : option Uuid;
  se_receiver : option nat;
  se_last_sequence : Z;
  se_sent : list Frame;
}.

Definition fresh_session : Session :=
  {| se_joined_room := None; se_receiver := None; se_last_sequence := 0; se_sent := [] |}.

Record Conn := { cn_world : World; cn_session : Session }.

(** Whether the peer still takes what is sent. *)
Class Socket := { send_ok : nat → bool }.

(** [tokio::sync::broadcast], third party. A channel is everything sent on it, and a receiver a
    position; [recv] gives the value at the position, waits at the end, or, when the values at
    the position were overwritten, reports the lag and moves on to the oldest one retained. *)
Inductive Received := Pending | Got (b : RoomBroadcast) | Lagged.

Class BroadcastChannel := { recv : nat → list RoomBroadcast → nat → Received * nat }.

Class BroadcastLaws `{BroadcastChannel} : Prop := {
  recv_documented capacity log position :
    (position ≤ length log)%nat →
    match recv capacity log position with
    | (Got b, position') => log !! position = Some b ∧ position' = S position
    | (Pending, position') => position = length log ∧ position' = position
    | (Lagged, position') => (position < position' ≤ length log)%nat
    end;
}.

(** The capacity [room_channel] and [publish] give a channel. *)
Definition BROADCAST_CAPACITY : nat := 256.

Definition error_response (id : Value) (e : RpcError) : Value :=
  json_object
    [("jsonrpc", Str "2.0"); ("id", id);
     ("error", json_object [("code", json_int (rpc_code e)); ("message", Str (rpc_message e))])].

Definition with_session (f : Session → Session) (c : Conn) : Conn :=
  {| cn_world := cn_world c; cn_session := f (cn_session c) |}.
Definition push_frame (f : Frame) (s : Session) : Session :=
  {| se_joined_room := se_joined_room s; se_receiver := se_receiver s;
     se_last_sequence := se_last_sequence s; se_sent := se_sent s ++ [f] |}.
Definition set_last_sequence (n : Z) (s : Session) : Session :=
  {| se_joined_room := se_joined_room s; se_receiver := se_receiver s;
     se_last_sequence := n; se_sent := se_sent s |}.
Definition set_joined (room : option Uuid) (receiver : option nat) (n : Z) (s : Session) : Session :=
  {| se_joined_room := room; se_receiver := receiver; se_last_sequence := n; se_sent := se_sent s |}.
Definition set_receiver (receiver : option nat) (s : Session) : Session :=
  {| se_joined_room := se_joined_room s; se_receiver := receiver;
     se_last_sequence := se_last_sequence s; se_sent := se_sent s |}.

Section session.
Context `{UuidCrate, Chrono, Schemas, SerdeJson, Postgres, Unicode, Oracle, Socket, BroadcastChannel}.

(** A computation of the gateway, run from the session. *)
Definition on_world {E A} (m : M World E A) : M Conn E A := λ c,
  match m (cn_world c) with
  | (r, w) => (r, {| cn_world := w; cn_session := cn_session c |})
  end.

(** [socket.send]: the error of a broken socket carries nothing. *)
Definition send_frame (f : Frame) : M Conn () () := λ c,
  let c' := {| cn_world := next_tick (cn_world c); cn_session := cn_session c |} in
  if send_ok (tick (cn_world c)) then (Ok (), with_session (push_frame f) c')
  else (Err (), c').

Definition send_value (v : Value) : M Conn () () := send_frame (FValue v).

Definition send_error (id : Value) (e : RpcError) : M Conn () () := send_value (error_response id e).

(** [f().await.is_ok()]. *)
Definition is_ok {E A} (m : M Conn E A) : M Conn Empty_set bool :=
  r ← attempt m; mret (match r with Ok _ => true | Err _ => false end).

Definition close_with_error (id : Value) (e : RpcError) (reason : string) : M Conn Empty_set () :=
  _ ← attempt (send_error id e);
  _ ← attempt (send_frame (FClose reason));
  mret ().

Definition request_id_value (raw : string) : Value :=
  match json_from_str raw ≫= get "id" with
  | Some (Str s) => Str s
  | _ => Null
  end.

(** [chrono::Utc::now().timestamp()]. *)
Definition now_seconds : M Conn Empty_set Z := t ← on_world now; mret (t / 1000000000).

Definition join_response (id : string) (events : list RoomEvent) (actor : Uuid)
    (participants : list RoomParticipant) : Value :=
  json_object
    [("jsonrpc", Str "2.0"); ("id", Str id);
     ("result", json_object
        [("events", Array (event_to_wire_value <$> List.filter (λ e, event_visible_to e actor) events));
         ("participants", Array (participant_to_wire_value <$> participants))])].

(** The branch of [handle_message] for a join. *)
Definition handle_join (actor : Actor) (join : Join) : M Conn Empty_set bool :=
  joined ← gets (λ c, se_joined_room (cn_session c));
  let response_id := Str (jn_id join) in
  if match joined with Some room => negb (bool_decide (room = jn_room_id join)) | None => false end
  then is_ok (send_error response_id forbidden)
  else
    let is_new_join := bool_decide (joined = None) in
    receiver ← on_world (room_channel (jn_room_id join));
    let after_sequence := default 0 (jn_after_sequence join) in
    replayed ← attempt (on_world (replay (jn_room_id join) after_sequence));
    match replayed with
    | Err e => is_ok (send_error response_id e)
    | Ok events =>
        _ ← (if is_new_join then on_world (register_participant (jn_room_id join) actor) else mret ());
        snapshot ← attempt (on_world (participant_snapshot (jn_room_id join)));
        match snapshot with
        | Err e =>
            _ ← (if is_new_join
                 then on_world (unregister_participant (jn_room_id join) (actor_id actor))
                 else mret ());
            is_ok (send_error response_id e)
        | Ok participants =>
            let last_sequence :=
              match last events with Some e => ev_sequence e | None => after_sequence end in
            _ ← modify (with_session
                  (set_joined (Some (jn_room_id join)) (Some receiver) last_sequence));
            sent ← is_ok (send_value
                     (join_response (jn_id join) events (actor_id actor) participants));
            _ ← (if sent && is_new_join
                 then is_ok (on_world (publish_participant_snapshot (jn_room_id join)
                                         (Some (actor_id actor))))
                 else mret true);
            mret sent
        end
    end.

(** Answering a repeated request: its events, until the socket breaks. *)
Fixpoint send_events (events : list RoomEvent) : M Conn Empty_set bool :=
  match events with
  | [] => mret true
  | e :: rest =>
      sent ← is_ok (send_value (event_to_wire_value e));
      if (sent : bool) then send_events rest else mret false
  end.

(** The end of [handle_message]: a request for the joined room. *)
Definition handle_room_request (actor : Actor) (request : ValidatedRequest) : M Conn Empty_set bool :=
  processed ← attempt (on_world (process actor request));
  match processed with
  | Ok p =>
      if pr_duplicate p then send_events (pr_events p)
      else _ ← for_each (λ e, on_world (publish e)) (pr_events p); mret true
  | Err e => is_ok (send_error (Str (request_id_str request)) e)
  end.

Definition handle_message (actor : Actor) (message : Message) : M Conn Empty_set bool :=
  match message with
  | CloseMessage => mret false
  | Binary | Ping | Pong => mret true
  | Text raw =>
      let fallback_id := request_id_value raw in
      now ← now_seconds;
      if actor_expires_at actor <=? now then
        _ ← close_with_error fallback_id unauthenticated "authentication expired";
        mret false
      else
        match validate_request raw with
        | Err e => is_ok (send_error fallback_id e)
        | Ok (RSessionAuthenticate r) => is_ok (send_error (Str (sa_id r)) forbidden)
        | Ok (RJoin join) => handle_join actor join
        | Ok request =>
            joined ← gets (λ c, se_joined_room (cn_session c));
            if negb (bool_decide (joined = room_id request))
            then is_ok (send_error (Str (request_id_str request)) forbidden)
            else handle_room_request actor request
        end
  end.

(** ** Live delivery *)

(** [n + 1] on [i64], as the release build computes it. *)
Definition wrapping_succ (n : Z) : Z := if n =? i64_max then i64_min else n + 1.

(** The loop of [replay_in_order]. *)
Fixpoint replay_events (actor : Uuid) (events : list RoomEvent) : M Conn () () :=
  match events with
  | [] => mret ()
  | event :: rest =>
      last_sequence ← gets (λ c, se_last_sequence (cn_session c));
      if ev_sequence event <=? last_sequence then replay_events actor rest
      else if negb (ev_sequence event =? wrapping_succ last_sequence) then throw ()
      else
        _ ← (if event_visible_to event actor then send_value (event_to_wire_value event) else mret ());
        _ ← modify (with_session (set_last_sequence (ev_sequence event)));
        replay_events actor rest
  end.

Definition replay_in_order (actor room : Uuid) : M Conn () () :=
  last_sequence ← gets (λ c, se_last_sequence (cn_session c));
  events ← map_err (λ _, ()) (on_world (replay room last_sequence));
  replay_events actor events.

Definition participant_update_value (room : Uuid) (participants : list RoomParticipant) : Value :=
  json_object
    [("jsonrpc", Str "2.0"); ("method", Str "room.participants.updated");
     ("params", json_object
        [("contractVersion", Str "n2n.room.v1"); ("roomId", json_uuid room);
         ("participants", Array (participant_to_wire_value <$> participants))])].

(** A broadcast event reaches the session of [actor] in [room]. *)
Definition deliver_event (actor room : Uuid) (event : RoomEvent) : M Conn Empty_set bool :=
  last_sequence ← gets (λ c, se_last_sequence (cn_session c));
  if ev_sequence event =? wrapping_succ last_sequence then
    sent ← (if event_visible_to event actor then is_ok (send_value (event_to_wire_value event))
            else mret true);
    if (sent : bool) then _ ← modify (with_session (set_last_sequence (ev_sequence event))); mret true
    else mret false
  else if wrapping_succ last_sequence <? ev_sequence event then is_ok (replay_in_order actor room)
  else mret true.

(** The [room_receiver.recv()] branch of the loop. *)
Definition receive_broadcast (actor : Actor) : M Conn Empty_set bool :=
  s ← gets cn_session;
  match se_joined_room s, se_receiver s with
  | Some room, Some position =>
      log ← gets (λ c, channel_log room (gateway (cn_world c)));
      let '(received, position') := recv BROADCAST_CAPACITY log position in
      _ ← modify (with_session (set_receiver (Some position')));
      match received with
      | Pending => mret true
      | Got (BEvent event) => deliver_event (actor_id actor) room event
      | Got (BParticipants participants exclude_actor_id) =>
          if bool_decide (exclude_actor_id = Some (actor_id actor)) then mret true
          else is_ok (send_value (participant_update_value room participants))
      | Lagged => is_ok (replay_in_order (actor_id actor) room)
      end
  | _, _ => mret true
  end.

(** What the loop of [websocket_session] waits for. *)
Inductive Input := Expired | Incoming (message : option Message) | Broadcast.

(** One turn of the loop; [false] leaves it. *)
Definition session_turn (actor : Actor) (input : Input) : M Conn Empty_set bool :=
  match input with
  | Expired =>
      _ ← close_with_error Null unauthenticated "authentication expired"; mret false
  | Incoming None => mret false
  | Incoming (Some message) => handle_message actor message
  | Broadcast => receive_broadcast actor
  end.

Definition cleanup_presence (actor : Actor) : M Conn Empty_set () :=
  joined ← gets (λ c, se_joined_room (cn_session c));
  match joined with
  | None => mret ()
  | Some room =>
      _ ← modify (with_session (λ s,
            set_joined None (se_receiver s) (se_last_sequence s) s));
      _ ← on_world (unregister_participant room (actor_id actor));
      _ ← is_ok (on_world (publish_participant_snapshot room None));
      mret ()
  end.

(** [websocket_session] over the inputs it meets. *)
Fixpoint websocket_session (actor : Actor) (inputs : list Input) : M Conn Empty_set () :=
  match inputs with
  | [] => cleanup_presence actor
  | input :: rest =>
      continue ← session_turn actor input;
      if (continue : bool) then websocket_session actor rest else cleanup_presence actor
  end.

(** ** Before the session: a browser's first message *)

Inductive FirstInput := AuthTimeout | First (message : option Message).

Definition authenticated_response (id : string) (actor : Actor) : Value :=
  json_object
    [("jsonrpc", Str "2.0"); ("id", Str id);
     ("result", json_object
        [("actor", json_object
            [("id", json_uuid (actor_id actor)); ("role", Str (role_str (actor_role actor)));
             ("displayName", Str (actor_display_name actor))]);
         ("expiresAt", json_int (actor_expires_at actor))])].

(** [browser_authentication_session] up to the start of the session: the actor it starts with. *)
Fixpoint browser_authentication `{Jwt} (auth : AuthValidator) (inputs : list FirstInput) :
    M Conn Empty_set (option Actor) :=
  match inputs with
  | [] | First None :: _ | First (Some CloseMessage) :: _ => mret None
  | AuthTimeout :: _ =>
      _ ← close_with_error Null unauthenticated "authentication timeout"; mret None
  | First (Some (Ping | Pong)) :: rest => browser_authentication auth rest
  | First (Some Binary) :: _ =>
      _ ← close_with_error Null invalid_request "invalid authentication request"; mret None
  | First (Some (Text raw)) :: _ =>
      let fallback_id := request_id_value raw in
      match validate_request raw with
      | Ok (RSessionAuthenticate request) =>
          now ← now_seconds;
          match authenticate_access_token auth now (sa_access_token request) with
          | None =>
              _ ← close_with_error (Str (sa_id request)) unauthenticated "authentication failed";
              mret None
          | Some actor =>
              sent ← is_ok (send_value (authenticated_response (sa_id request) actor));
              mret (if (sent : bool) then Some actor else None)
          end
      | Ok _ => _ ← close_with_error fallback_id unauthenticated "authentication required"; mret None
      | Err e => _ ← close_with_error fallback_id e "invalid authentication request"; mret None
      end
  end.

(** ** The upgrade *)

(** A header: absent, not a string, or a string ([HeaderValue::to_str]). *)
Inductive Header := NoHeader | Opaque | Visible (text : string).

(** How a request for the socket is answered: refused with a status and an error body, or
    upgraded to a connection that must still authenticate, or to a session. *)
Inductive Upgrade :=
| Rejected (status : Z) (body : Value)
| AwaitAuthentication
| StartSession (actor : Actor).

Definition rejected_upgrade (status : Z) (e : RpcError) : Upgrade :=
  Rejected status (error_response Null e).

Definition websocket_upgrade `{Jwt} (policy : WebSocketPolicy) (auth : AuthValidator) (now : Z)
    (origin authorization : Header) : Upgrade :=
  match origin with
  | Opaque => rejected_upgrade 403 forbidden
  | Visible origin =>
      if negb (allows_origin policy origin) then rejected_upgrade 403 forbidden
      else AwaitAuthentication
  | NoHeader =>
      match authenticate_bearer auth now
              (match authorization with Visible v => Some v | _ => None end) with
      | None => rejected_upgrade 401 unauthenticated
      | Some actor => StartSession actor
      end
  end.
End session.
