(* ===== verification/Delivery.v ===== *)
(** * Live delivery

    A session that joined a room receives every later event it may see, once each and in
    order, whether it arrives by broadcast, out of order, or after the session fell behind. *)

From S2P Require Import Prelude Json Text Crates Types Protocol Mentions ActionItems MemoryEngine World Store StoreInvariant Rooms RoomsInvariant RoomTheorems Tasks System AgentService AgentTheorems Auth WebSocket.
Local Open Scope string_scope.
Local Open Scope list_scope.
Local Open Scope Z_scope.

(** Frames that carry a room event. *)
Definition is_event_frame (f : Frame) : bool :=
  match f with FValue v => bool_decide (is_Some (get "eventId" v)) | FClose _ => false end.
Definition event_frames (l : list Frame) : list Frame := List.filter is_event_frame l.

(** The events of a log after the first [n] and up to the [m]-th. *)
Definition segment {A} (n m : nat) (log : list A) : list A := drop n (take m log).

Section frames.
Context `{UuidCrate, Chrono}.

(** What an actor is sent of a list of events. *)
Definition frames_for (actor : Uuid) (events : list RoomEvent) : list Frame :=
  FValue ∘ event_to_wire_value <$> List.filter (λ e, event_visible_to e actor) events.

Lemma wire_is_event_frame e : is_event_frame (FValue (event_to_wire_value e)) = true.
Proof. unfold is_event_frame, event_to_wire_value. json_get. done. Qed.

Lemma event_frames_for actor events : event_frames (frames_for actor events) = frames_for actor events.
Proof.
  unfold event_frames, frames_for. induction (List.filter _ events) as [|e l IH]; [done|].
  cbn [fmap list_fmap List.filter compose]. rewrite wire_is_event_frame. f_equal. apply IH.
Qed.

Lemma event_frames_app l k : event_frames (l ++ k) = event_frames l ++ event_frames k.
Proof. apply List.filter_app. Qed.

Lemma frames_for_app actor l k : frames_for actor (l ++ k) = frames_for actor l ++ frames_for actor k.
Proof. unfold frames_for. by rewrite List.filter_app, fmap_app. Qed.
End frames.

Lemma segment_empty {A} n (l : list A) : segment n n l = [].
Proof. unfold segment. apply drop_ge. rewrite length_take. lia. Qed.

Lemma segment_app {A} n m k (l : list A) :
  (n ≤ m)%nat → (m ≤ k)%nat → segment n k l = segment n m l ++ segment m k l.
Proof.
  intros Hnm Hmk. unfold segment.
  rewrite <-(take_drop m (take k l)) at 1. rewrite take_take, Nat.min_l by lia.
  destruct (decide (n ≤ length (take m l))%nat) as [Hle|Hgt].
  - by rewrite drop_app_le by done.
  - rewrite length_take in Hgt. assert (length l < m)%nat by lia.
    rewrite (drop_ge (take k l) m) by (rewrite length_take; lia). by rewrite !app_nil_r.
Qed.

Lemma segment_cons {A} n m (l : list A) x :
  l !! n = Some x → (n < m)%nat → segment n m l = x :: segment (S n) m l.
Proof.
  intros Hx Hnm. unfold segment. apply drop_S. by rewrite lookup_take_lt.
Qed.

Lemma segment_prefix {A} n m (l k : list A) :
  (m ≤ length l)%nat → segment n m (l ++ k) = segment n m l.
Proof. intros Hm. unfold segment. by rewrite take_app_le. Qed.

Section replay.
Context `{UuidCrate, Chrono, Schemas, SerdeJson, Postgres, Unicode, Oracle, Socket}.

(** Two connections that differ only in how far one has been served. *)
Record served (actor : Uuid) (log : list RoomEvent) (n m : nat) (c c' : Conn) : Prop := {
  sv_order : (n ≤ m ≤ length log)%nat;
  sv_last : se_last_sequence (cn_session c') = Z.of_nat m;
  sv_sent : se_sent (cn_session c') = se_sent (cn_session c) ++ frames_for actor (segment n m log);
  sv_joined : se_joined_room (cn_session c') = se_joined_room (cn_session c);
  sv_receiver : se_receiver (cn_session c') = se_receiver (cn_session c);
  sv_committed : committed (cn_world c') = committed (cn_world c);
  sv_gateway : gateway (cn_world c') = gateway (cn_world c);
}.

Lemma served_refl actor log n c :
  (n ≤ length log)%nat → se_last_sequence (cn_session c) = Z.of_nat n → served actor log n n c c.
Proof. intros Hn Hl. split; try done. rewrite segment_empty. by rewrite app_nil_r. Qed.

Lemma served_trans actor log n m k c c1 c2 :
  served actor log n m c c1 → served actor log m k c1 c2 → served actor log n k c c2.
Proof.
  intros [Ho Hl Hs Hj Hr Hc Hg] [Ho' Hl' Hs' Hj' Hr' Hc' Hg'].
  split; [lia|done| |congruence..].
  rewrite Hs', Hs, (segment_app n m k) by lia. by rewrite frames_for_app, app_assoc.
Qed.

(** Sending one event that is next in line. *)
Definition send_next (actor : Uuid) (event : RoomEvent) : M Conn () () :=
  _ ← (if event_visible_to event actor then send_value (event_to_wire_value event) else mret ());
  modify (with_session (set_last_sequence (ev_sequence event))).

Lemma send_next_spec actor log n e c :
  numbered_from 1 log → log !! n = Some e → se_last_sequence (cn_session c) = Z.of_nat n →
  wp (send_next actor e) (λ _ c', served actor log n (S n) c c') (λ _ c', served actor log n n c c') c.
Proof.
  intros Hnum He Hl. pose proof (lookup_lt_Some _ _ _ He) as Hlt.
  pose proof (numbered_from_lookup _ _ _ _ Hnum He) as Hseq.
  assert (frames_for actor (segment n (S n) log) =
          if event_visible_to e actor then [FValue (event_to_wire_value e)] else []) as Hf.
  { rewrite (segment_cons n (S n) log e), segment_empty by (done || lia).
    unfold frames_for. simpl. by destruct (event_visible_to e actor). }
  unfold send_next. wp_step. destruct (event_visible_to e actor).
  - unfold wp, send_value, send_frame. destruct (send_ok _); simpl.
    + split; simpl; try done; [lia|lia|]. by rewrite Hf.
    + split; simpl; try done; [lia..|]. by rewrite segment_empty, app_nil_r.
  - wp_step. unfold wp, modify; simpl. split; simpl; try done; [lia|lia|]. by rewrite Hf, app_nil_r.
Qed.

Lemma wrapping_succ_nat n :
  wrapping_succ (Z.of_nat n) = Z.of_nat n + 1 ∨ wrapping_succ (Z.of_nat n) = i64_min.
Proof. unfold wrapping_succ. destruct (_ =? _); auto. Qed.

Lemma replay_events_spec actor log n c :
  numbered_from 1 log → (n ≤ length log)%nat → se_last_sequence (cn_session c) = Z.of_nat n →
  wp (replay_events actor (drop n log)) (λ _ c', served actor log n (length log) c c')
    (λ _ c', ∃ m, served actor log n m c c') c.
Proof.
  intros Hnum. remember (drop n log) as events eqn:Hev. revert n c Hev.
  induction events as [|e rest IH]; intros n c Hev Hn Hl; cbn [replay_events].
  - wp_step. assert (n = length log) as ->.
    { apply (f_equal length) in Hev. rewrite length_drop in Hev. simpl in Hev. lia. }
    by apply served_refl.
  - assert (log !! n = Some e) as He.
    { rewrite <-(Nat.add_0_r n), <-lookup_drop, <-Hev. done. }
    assert (rest = drop (S n) log) as Hrest.
    { rewrite (drop_S _ _ _ He) in Hev. by injection Hev. }
    pose proof (numbered_from_lookup _ _ _ _ Hnum He) as Hseq.
    pose proof (lookup_lt_Some _ _ _ He) as Hlt.
    wp_step. unfold wp at 1, gets. rewrite Hl.
    destruct (Z.leb_spec (ev_sequence e) (Z.of_nat n)); [lia|].
    destruct (Z.eqb_spec (ev_sequence e) (wrapping_succ (Z.of_nat n))); cbn [negb].
    2: { wp_step. exists n. by apply served_refl. }
    pose proof (send_next_spec actor log n e c Hnum He Hl) as Hsend. unfold send_next in Hsend.
    wp_step. apply wp_bind_inv in Hsend. wp_use Hsend; [|intros [] c1 Hc1; by exists n].
    intros [] c1 Hc1. wp_step. wp_use Hc1; [|intros [] c2 Hc2; by exists n]. intros [] c2 Hc2.
    wp_use (IH (S n)); [done|lia|rewrite (sv_last _ _ _ _ _ _ Hc2); lia|..].
    + intros [] c3 Hc3. by eapply served_trans.
    + intros [] c3 [m Hc3]. exists m. by eapply served_trans.
Qed.
End replay.

Section delivery.
Context `{UuidCrate, Chrono, Schemas, SerdeJson, Postgres, Unicode, Oracle, Socket, BroadcastLaws}.

Lemma wp_on_world {E A} (m : M World E A) Q F c :
  wp m (λ a w, Q a {| cn_world := w; cn_session := cn_session c |})
    (λ e w, F e {| cn_world := w; cn_session := cn_session c |}) (cn_world c) →
  wp (on_world m) Q F c.
Proof. unfold wp, on_world. by destruct (m (cn_world c)) as [[a|e] w]. Qed.

Lemma wp_is_ok {E A} (m : M Conn E A) (Q : bool → Conn → Prop) (F : Empty_set → Conn → Prop) c :
  wp m (λ _, Q true) (λ _, Q false) c → wp (is_ok m) Q F c.
Proof.
  intros Hm. unfold is_ok. wp_step. wp_step. wp_use Hm; intros ? c' Hc'; by wp_step.
Qed.

Lemma wp_gets {S E A} (f : S → A) (Q : A → S → Prop) (F : E → S → Prop) s :
  Q (f s) s → wp (gets f) Q F s.
Proof. done. Qed.

Lemma wp_replay room after c g w :
  settled c g w → db_ok c →
  wp (replay room after)
    (λ evs w', evs = drop (Z.to_nat after) (room_log room c) ∧ settled c g w')
    (λ _, settled c g) w.
Proof.
  intros [<- <-] Hok. unfold replay, events_after. wp_step. wp_step. unfold wp, pool_query, select.
  destruct (outage (tick w)); [|done..]. by rewrite (select_after _ Hok).
Qed.

(** From a position the session has reached, in a room whose log is [log]. *)
Record joined_at (room : Uuid) (log : list RoomEvent) (n : nat) (c : Conn) : Prop := {
  ja_ok : db_ok (committed (cn_world c));
  ja_log : room_log room (committed (cn_world c)) = log;
  ja_room : se_joined_room (cn_session c) = Some room;
  ja_last : se_last_sequence (cn_session c) = Z.of_nat n;
  ja_bound : (n ≤ length log)%nat;
}.

Lemma replay_in_order_spec actor room log n c :
  joined_at room log n c →
  wp (replay_in_order actor room) (λ _ c', served actor log n (length log) c c')
    (λ _ c', ∃ m, served actor log n m c c') c.
Proof.
  intros [Hok Hlog Hroom Hlast Hn]. unfold replay_in_order. wp_step. apply wp_gets. wp_step. wp_step.
  apply wp_on_world. wp_use wp_replay; [by split|done|..].
  - intros evs w [-> [Hc Hg]]. rewrite Hlast, Nat2Z.id, Hlog.
    set (c1 := {| cn_world := w; cn_session := cn_session c |}).
    assert (numbered_from 1 log) as Hnum by (rewrite <-Hlog; by apply room_log_numbered).
    wp_use (replay_events_spec actor log n c1); [done|done|done|..].
    + intros [] c2 [? ? Hs Hj Hr2 Hc2 Hg2]. split; simpl in *; congruence.
    + intros [] c2 (m & [? ? Hs Hj Hr2 Hc2 Hg2]). exists m. split; simpl in *; congruence.
  - intros e w [Hc Hg]. exists n. destruct (served_refl actor log n c Hn Hlast). split; simpl in *; try done; congruence.
Qed.

(** A broadcast event: the session catches up at least to it, or ends. *)
Lemma deliver_event_spec actor room log n event c :
  joined_at room log n c → event ∈ log →
  wp (deliver_event actor room event)
    (λ continue c', ∃ m, served actor log n m c c' ∧
       (continue = true → ev_sequence event ≤ Z.of_nat m)) (λ _ _, False) c.
Proof.
  intros Hj (k & Hk)%list_elem_of_lookup. pose proof Hj as [Hok Hlog Hroom Hlast Hn].
  assert (numbered_from 1 log) as Hnum by (rewrite <-Hlog; by apply room_log_numbered).
  pose proof (numbered_from_lookup _ _ _ _ Hnum Hk) as Hseq.
  pose proof (lookup_lt_Some _ _ _ Hk) as Hlt.
  unfold deliver_event. wp_step. apply wp_gets. rewrite Hlast.
  destruct (wrapping_succ_nat n) as [Hsucc|Hsucc]; rewrite Hsucc.
  2: { destruct (Z.eqb_spec (ev_sequence event) i64_min) as [Heq|Hne]; [unfold i64_min in *; lia|].
       destruct (Z.ltb_spec i64_min (ev_sequence event)); [|unfold i64_min in *; lia].
       apply wp_is_ok. wp_use replay_in_order_spec; [done|..].
       - intros [] c1 Hc1. exists (length log). split; [done|]. lia.
       - intros [] c1 [m Hc1]. by exists m. }
  destruct (Z.eqb_spec (ev_sequence event) (Z.of_nat n + 1)) as [Heq|Hne].
  - assert (k = n) as -> by lia.
    pose proof (send_next_spec actor log n event c Hnum Hk Hlast) as Hsend.
    unfold send_next in Hsend. apply wp_bind_inv in Hsend. wp_step.
    assert (∀ c1, wp (E := ()) (modify (with_session (set_last_sequence (ev_sequence event))))
        (λ _ c', served actor log n (S n) c c') (λ _ c', served actor log n n c c') c1 →
      wp (modify (with_session (set_last_sequence (ev_sequence event))) ≫= λ _, mret true)
        (λ continue c', ∃ m, served actor log n m c c' ∧
           (continue = true → ev_sequence event ≤ Z.of_nat m)) (λ _ : Empty_set, λ _, False) c1) as Hdone.
    { intros c1 Hc1. exists (S n). split; [exact Hc1|]. lia. }
    destruct (event_visible_to event actor).
    + apply wp_is_ok. wp_use Hsend; [|intros [] c1 Hc1; wp_step; by exists n].
      intros [] c1 Hc1. by apply Hdone.
    + wp_step. by apply Hdone.
  - destruct (Z.ltb_spec (Z.of_nat n + 1) (ev_sequence event)).
    + apply wp_is_ok. wp_use replay_in_order_spec; [done|..].
      * intros [] c1 Hc1. exists (length log). split; [done|]. lia.
      * intros [] c1 [m Hc1]. exists m. done.
    + wp_step. exists n. split; [by apply served_refl|]. lia.
Qed.

(** What is broadcast was committed before. *)
Definition channels_ok (w : World) : Prop :=
  ∀ room e, BEvent e ∈ channel_log room (gateway w) → e ∈ room_log room (committed w).

(** A session served further stays joined, further on. *)
Lemma served_joined actor room log n m c c' :
  joined_at room log n c → served actor log n m c c' → joined_at room log m c'.
Proof.
  intros [Hok Hlog Hroom Hlast Hn] [Ho Hl Hs Hj Hr Hc Hg]. split; [by rewrite Hc|by rewrite Hc| |done|lia].
  by rewrite Hj.
Qed.

(** What one turn of the loop on a broadcast does: from the [n]-th event to the
    [m]-th, with the receiver left at [position]. *)
Record turn_ok (actor room : Uuid) (log : list RoomEvent) (position n m : nat) (c c' : Conn) :
    Prop := {
  to_order : (n ≤ m)%nat;
  to_joined : joined_at room log m c';
  to_sent : event_frames (se_sent (cn_session c')) =
    event_frames (se_sent (cn_session c)) ++ frames_for actor (segment n m log);
  to_gateway : gateway (cn_world c') = gateway (cn_world c);
  to_committed : committed (cn_world c') = committed (cn_world c);
  to_receiver : se_receiver (cn_session c') = Some position;
}.

(** How far the turn had to bring the session: to the event received, or to the end of the log
    when it had fallen behind. *)
Definition caught_up (received : Received) (log : list RoomEvent) (m : nat) : Prop :=
  match received with
  | Got (BEvent e) => ev_sequence e ≤ Z.of_nat m
  | Lagged => m = length log
  | _ => True
  end.

Lemma served_turn actor room log position n m c c0 c' :
  joined_at room log n c0 → served actor log n m c0 c' →
  se_receiver (cn_session c0) = Some position →
  cn_world c0 = cn_world c → se_sent (cn_session c0) = se_sent (cn_session c) →
  turn_ok actor room log position n m c c'.
Proof.
  intros Hj Hs Hr Hw Hsent. split.
  - apply Hs.
  - by eapply served_joined.
  - rewrite (sv_sent _ _ _ _ _ _ Hs), Hsent, event_frames_app. by rewrite event_frames_for.
  - rewrite (sv_gateway _ _ _ _ _ _ Hs). by rewrite Hw.
  - rewrite (sv_committed _ _ _ _ _ _ Hs). by rewrite Hw.
  - by rewrite (sv_receiver _ _ _ _ _ _ Hs).
Qed.

Lemma participants_not_event room ps :
  is_event_frame (FValue (participant_update_value room ps)) = false.
Proof. unfold is_event_frame, participant_update_value. json_get. done. Qed.

Lemma recv_elem capacity log position b position' :
  (position ≤ length log)%nat → recv capacity log position = (Got b, position') → b ∈ log.
Proof.
  intros Hpos Hrecv. pose proof (recv_documented capacity log position Hpos) as Hl.
  rewrite Hrecv in Hl. by eapply list_elem_of_lookup_2, Hl.
Qed.

Lemma receive_broadcast_spec actor room log n position c :
  joined_at room log n c → channels_ok (cn_world c) → se_receiver (cn_session c) = Some position →
  (position ≤ length (channel_log room (gateway (cn_world c))))%nat →
  wp (receive_broadcast actor)
    (λ continue c', let r := recv BROADCAST_CAPACITY (channel_log room (gateway (cn_world c))) position in
       ∃ m, turn_ok (actor_id actor) room log r.2 n m c c' ∧
         (continue = true → caught_up r.1 log m))
    (λ _ _, False) c.
Proof.
  intros Hj Hch Hpos Hle. pose proof Hj as [Hok Hlog Hroom Hlast Hn].
  unfold receive_broadcast. wp_step. apply wp_gets. rewrite Hroom, Hpos. wp_step. apply wp_gets.
  destruct (recv _ _ position) as [received position'] eqn:Hrecv. wp_step.
  unfold wp at 1, modify. set (c0 := with_session _ c).
  assert (joined_at room log n c0) as Hj0 by (by split).
  assert (se_receiver (cn_session c0) = Some position') as Hr0 by done.
  pose proof (served_refl (actor_id actor) log n c0 Hn Hlast) as Hrefl.
  cbn [fst snd]. destruct received as [|b|]; [|destruct b as [event|ps exclude]|].
  - wp_step. exists n. split; [by eapply served_turn|done].
  - wp_use deliver_event_spec; [done| |..].
    { rewrite <-Hlog. apply Hch. by eapply recv_elem. }
    + intros continue c1 (m & Hs & Hup). exists m. split; [by eapply served_turn|done].
    + done.
  - destruct (bool_decide _); [wp_step; exists n; split; [by eapply served_turn|done]|].
    apply wp_is_ok. unfold wp, send_value, send_frame. destruct (send_ok _); cbn beta iota.
    + exists n. split; [|done]. split; [done|by split| |done|done|done].
      cbn [with_session cn_session push_frame se_sent cn_world].
      rewrite event_frames_app, segment_empty. unfold event_frames at 2. cbn [List.filter].
      by rewrite participants_not_event.
    + exists n. split; [|done]. split; [done|by split| |done|done|done]. cbn [cn_session].
      rewrite segment_empty. by rewrite app_nil_r.
  - apply wp_is_ok. wp_use replay_in_order_spec; [done|..].
    + intros [] c1 Hs. exists (length log). split; [by eapply served_turn|done].
    + intros [] c1 [m Hs]. exists m. split; [by eapply served_turn|done].
Qed.
End delivery.

(** ** Commit before broadcast *)

(** What other connections and agents may do to the world between two turns of a session. *)
Record advances (w w' : World) : Prop := {
  av_evolves : evolves (committed w) (committed w');
  av_channels room : channel_log room (gateway w) `prefix_of` channel_log room (gateway w');
  av_broadcast : channels_ok w';
}.

Section broadcasts.
Context `{UuidCrate, Chrono, Schemas, SerdeJson, Postgres, Unicode, Oracle}.

Lemma advances_trans w1 w2 w3 : advances w1 w2 → advances w2 w3 → advances w1 w3.
Proof.
  intros [He Hc _] [He' Hc' Hb']. split; [by eapply evolves_trans| |done].
  intros room. etrans; [apply Hc|apply Hc'].
Qed.

(** The database may grow while the channels stay as they are. *)
Lemma advances_quiet w w' :
  evolves (committed w) (committed w') → channels (gateway w') = channels (gateway w) →
  channels_ok w → advances w w'.
Proof.
  intros He Hch Hok. assert (∀ room, channel_log room (gateway w') = channel_log room (gateway w)) as Hlog.
  { intros room. unfold channel_log. by rewrite Hch. }
  split; [done|intros room; by rewrite Hlog|]. intros room e. rewrite Hlog. intros Hin%Hok.
  destruct (room_log_grows room _ _ (ev_grows _ _ He)) as [new ->]. apply elem_of_app. by left.
Qed.

Lemma channel_log_send room room' b g :
  channel_log room (send_to room' b g) =
  channel_log room g ++ (if bool_decide (room = room') then [b] else []).
Proof.
  unfold channel_log, send_to, with_channels; simpl. case_bool_decide as Hr.
  - subst. by rewrite lookup_insert_eq.
  - by rewrite lookup_insert_ne, app_nil_r by done.
Qed.

(** Publishing an event that is in the log. *)
Lemma publish_advances {E} e w :
  db_ok (committed w) → channels_ok w → e ∈ room_log (ev_room_id e) (committed w) →
  wp (publish (E := E) e) (λ _ w', advances w w' ∧ committed w' = committed w) (λ _ _, False) w.
Proof.
  intros Hok Hch He. unfold publish, modify_gateway, modify, wp. split; [|done].
  split; [by apply evolves_refl|intros room; simpl; rewrite channel_log_send; by eexists|].
  intros room e'. cbn [gateway with_gateway committed]. rewrite channel_log_send, elem_of_app.
  intros [Hin|Hin]; [by apply Hch|]. case_bool_decide as Hr; [|by apply elem_of_nil in Hin].
  apply list_elem_of_singleton in Hin as [= ->]. by subst.
Qed.

Lemma publish_all_advances {E} evs w :
  db_ok (committed w) → channels_ok w →
  Forall (λ e, e ∈ room_log (ev_room_id e) (committed w)) evs →
  wp (for_each (λ e, publish (E := E) e) evs) (λ _ w', advances w w' ∧ committed w' = committed w)
    (λ _ _, False) w.
Proof.
  intros Hok Hch Hevs. revert w Hok Hch Hevs.
  induction evs as [|e evs IH]; intros w Hok Hch Hevs; cbn [for_each].
  - wp_step. split; [|done]. by apply advances_quiet; [apply evolves_refl|..].
  - apply Forall_cons in Hevs as [He Hevs]. wp_step.
    wp_use (publish_advances (E := E) e w); [done|done|done| |done]. intros [] w1 [Hadv Hc]. wp_step.
    wp_use IH; [by rewrite Hc|apply Hadv|by rewrite Hc| |done]. intros bs w2 [Hadv2 Hc2]. wp_step.
    split; [by eapply advances_trans|congruence].
Qed.

Lemma refers_to_in_log d room ids evs :
  refers_to d room ids evs → Forall (λ e, e ∈ room_log (ev_room_id e) d) evs.
Proof.
  intros [Hs _]. apply Forall_forall. intros e He.
  assert (e ∈ room_log room d) as Hin by (by eapply elem_of_sublist).
  assert (ev_room_id e = room) as ->; [|done].
  unfold room_log in Hin. apply list_elem_of_In, List.filter_In in Hin as [_ Hr].
  unfold in_room in Hr. by apply bool_decide_eq_true in Hr.
Qed.

Lemma channels_memory_after evs g : channels (memory_after evs g) = channels g.
Proof. unfold memory_after. by destruct (memory_engine g). Qed.

(** [process] publishes nothing itself, and what it returns is committed. *)
Lemma process_returns_committed actor request w :
  db_ok (committed w) → channels_ok w →
  wp (process actor request)
    (λ p w', advances w w' ∧ Forall (λ e, e ∈ room_log (ev_room_id e) (committed w')) (pr_events p))
    (λ _ w', advances w w') w.
Proof.
  intros Hok Hch.
  wp_use (process_spec _ actor request _ _ w (settled_self w) Hok (ensures_True _ _ _ _)).
  - intros p w' (room & rid & fp & _ & _ & _ & Hm).
    destruct (room_requests (committed w) !! (room, rid)) as [row|].
    + destruct Hm as (Hrefs & _ & _ & [Hc Hg]). split.
      * apply advances_quiet; [rewrite Hc; by apply evolves_refl|by rewrite Hg|done].
      * rewrite Hc. by eapply refers_to_in_log.
    + destruct Hm as (_ & d' & Happ & [Hc Hg]). split.
      * apply advances_quiet; [rewrite Hc; by eapply evolves_applied| |done].
        by rewrite Hg, channels_memory_after.
      * rewrite Hc. eapply refers_to_in_log. by apply (applied_record _ _ _ _ _ _ _ Happ).
  - intros e w' [[Hc Hg]|(_ & room & rid & fp & _ & _ & _ & d' & evs & Happ & [Hc Hg])].
    + apply advances_quiet; [rewrite Hc; by apply evolves_refl|by rewrite Hg|done].
    + apply advances_quiet; [rewrite Hc; by eapply evolves_applied|by rewrite Hg|done].
Qed.
End broadcasts.

Section requests.
Context `{UuidCrate, Chrono, Schemas, SerdeJson, Sha2, Postgres, Unicode, UrlCrate, Oracle, Socket}.

(** Sending frames leaves the database and the gateway alone. *)
Record only_sends (frames : list Frame) (c c' : Conn) : Prop := {
  os_committed : committed (cn_world c') = committed (cn_world c);
  os_gateway : gateway (cn_world c') = gateway (cn_world c);
  os_session : cn_session c' = foldl (λ s f, push_frame f s) (cn_session c) frames;
}.

Lemma only_sends_app fs gs c1 c2 c3 :
  only_sends fs c1 c2 → only_sends gs c2 c3 → only_sends (fs ++ gs) c1 c3.
Proof.
  intros [Hc Hg Hs] [Hc' Hg' Hs']. split; [congruence|congruence|].
  by rewrite foldl_app, <-Hs.
Qed.

Lemma pushed_sent fs s :
  foldl (λ s f, push_frame f s) s fs =
  {| se_joined_room := se_joined_room s; se_receiver := se_receiver s;
     se_last_sequence := se_last_sequence s; se_sent := se_sent s ++ fs |}.
Proof.
  revert s. induction fs as [|f fs IH]; intros s; simpl.
  - rewrite app_nil_r. by destruct s.
  - rewrite IH. simpl. by rewrite <-app_assoc.
Qed.

Lemma wp_send_frame f c :
  wp (send_frame f) (λ _ c', only_sends [f] c c') (λ _ c', only_sends [] c c') c.
Proof. unfold wp, send_frame. by destruct (send_ok _). Qed.

Lemma wp_send_value v c :
  wp (send_value v) (λ _ c', only_sends [FValue v] c c') (λ _ c', only_sends [] c c') c.
Proof. exact (wp_send_frame (FValue v) c). Qed.

Lemma send_events_spec evs c :
  wp (send_events evs)
    (λ _ c', ∃ n, only_sends (FValue ∘ event_to_wire_value <$> take n evs) c c') (λ _ _, False) c.
Proof.
  revert c. induction evs as [|e evs IH]; intros c; cbn [send_events].
  - wp_step. by exists O.
  - wp_step. apply wp_is_ok. wp_use (wp_send_value (event_to_wire_value e) c).
    + intros ? c1 Hc1. wp_use (IH c1); [|done]. intros b c2 [n Hc2]. exists (S n).
      exact (only_sends_app _ _ _ _ _ Hc1 Hc2).
    + intros ? c1 Hc1. wp_step. by exists O.
Qed.

Lemma wp_publish_on_world evs c Q F :
  wp (for_each (λ e, publish (E := Empty_set) e) evs)
     (λ a w, Q a {| cn_world := w; cn_session := cn_session c |})
     (λ e w, F e {| cn_world := w; cn_session := cn_session c |}) (cn_world c) →
  wp (for_each (λ e, on_world (publish (E := Empty_set) e)) evs) Q F c.
Proof.
  revert Q c. induction evs as [|e evs IH]; intros Q c Hwp; cbn [for_each] in *; [by destruct c|].
  apply wp_bind_inv in Hwp. wp_step. apply wp_on_world. wp_use Hwp; [|done].
  intros [] w Hw. apply wp_bind_inv in Hw. wp_step. by apply IH.
Qed.

Lemma wp_run_eq {S E A} (m : M S E A) s :
  wp m (λ a s', m s = (Ok a, s')) (λ e s', m s = (Err e, s')) s.
Proof. unfold wp. by destruct (m s) as [[a|e] s']. Qed.

(** A request of the joined room. New events are broadcast, not sent back; a repeated request is
    answered from the record and broadcasts nothing. *)
Lemma handle_room_request_spec actor request c :
  db_ok (committed (cn_world c)) → channels_ok (cn_world c) →
  wp (handle_room_request actor request)
    (λ _ c', advances (cn_world c) (cn_world c') ∧
       ∃ fs, cn_session c' = foldl (λ s f, push_frame f s) (cn_session c) fs ∧
         (event_frames fs = [] ∨
          ∃ p, (process actor request (cn_world c)).1 = Ok p ∧ pr_duplicate p = true ∧
            fs `prefix_of` (FValue ∘ event_to_wire_value <$> pr_events p)))
    (λ _ _, False) c.
Proof.
  intros Hok Hch. unfold handle_room_request. wp_step. wp_step. apply wp_on_world.
  pose proof (process_returns_committed actor request (cn_world c) Hok Hch) as Hp.
  wp_use (wp_conj _ _ _ _ _ _ (wp_run_eq (process actor request) (cn_world c)) Hp).
  - intros p w1 [Hrun [Hadv Hevs]]. destruct (pr_duplicate p) eqn:Hdup.
    + wp_use (send_events_spec (pr_events p) {| cn_world := w1; cn_session := cn_session c |}); [|done].
      intros b c2 [n [Hc2 Hg2 Hs2]]. simpl in *. split.
      * eapply advances_trans; [exact Hadv|]. apply advances_quiet; [|by rewrite Hg2|apply Hadv].
        rewrite Hc2. apply evolves_refl, Hadv.
      * eexists. split; [exact Hs2|]. right. exists p. split_and!; [by rewrite Hrun|done|].
        rewrite fmap_take. apply prefix_take.
    + wp_step. apply wp_publish_on_world.
      wp_use (publish_all_advances (E := Empty_set) (pr_events p) w1); [apply Hadv|apply Hadv|done| |done].
      intros bs w2 [Hadv2 Hc2]. wp_step. simpl. split; [by eapply advances_trans|].
      exists []. split; [done|by left].
  - intros e w1 [_ Hp1]. apply wp_is_ok. unfold send_error.
    wp_use (wp_send_value (error_response (Str (request_id_str request)) e)
             {| cn_world := w1; cn_session := cn_session c |}).
    all: intros ? c2 [Hc2 Hg2 Hs2]; cbn [cn_world cn_session] in *; split;
      [eapply advances_trans; [exact Hp1|]; apply advances_quiet; [|by rewrite Hg2|apply Hp1];
       rewrite Hc2; apply evolves_refl, Hp1|eexists; split; [exact Hs2|]; left; done].
Qed.

Lemma outcome_committed lease update c res d' :
  update_outcome lease update c res d' →
  Forall (λ e, e ∈ room_log (ev_room_id e) d') (ur_events res).
Proof.
  intros (row & task & payload & now & _ & _ & _ & _ & _ & Hcase).
  destruct (agent_task_updates _ !! _).
  - destruct Hcase as (_ & -> & Hrefs & _). by eapply refers_to_in_log.
  - destruct Hcase as (_ & e & -> & Hup). apply Forall_singleton. unfold room_log.
    rewrite (upd_events _ _ _ _ _ _ Hup), List.filter_app. apply elem_of_app. right. simpl.
    unfold in_room. rewrite bool_decide_true by done. by apply list_elem_of_singleton.
Qed.

Lemma advances_settled w w' :
  db_ok (committed w) → channels_ok w → settled (committed w) (gateway w) w' → advances w w'.
Proof.
  intros Hok Hch [Hc Hg]. apply advances_quiet; [rewrite Hc; by apply evolves_refl|by rewrite Hg|done].
Qed.

(** The endpoint through which agents report: what it broadcasts was committed. *)
Lemma agent_update_advances task header request w :
  db_ok (committed w) → channels_ok w →
  wp (AgentService.update task header request) (λ _ w', advances w w') (λ _ _, False) w.
Proof.
  intros Hok Hch. pose proof (λ w', advances_settled w w' Hok Hch) as Hquiet.
  unfold AgentService.update. wp_step. wp_use wp_matching_live_lease; [done| |done].
  intros [lease|] w1 [Hw1 _]; [|wp_step; by apply Hquiet]. wp_step. wp_step.
  wp_use wp_context_for_lease; [done|done| |intros e w2 Hw2; wp_step; by apply Hquiet].
  intros [ctx|] w2 [Hw2 _]; [|wp_step; by apply Hquiet].
  destruct (negb _); [wp_step; by apply Hquiet|]. destruct (negb _); [wp_step; by apply Hquiet|].
  wp_step. wp_step. wp_use record_update_spec; [done|done|..].
  - intros res w3 (d' & [Hc Hg] & Hout).
    assert (advances w w3) as Hadv.
    { apply advances_quiet; [rewrite Hc; by eapply evolves_outcome|by rewrite Hg|done]. }
    wp_step. destruct (ur_duplicate res); [wp_step; by wp_step|].
    wp_use (publish_all_advances (E := Empty_set) (ur_events res) w3); [apply Hadv|apply Hadv| | |done].
    { rewrite Hc. by eapply outcome_committed. }
    intros bs w4 [Hadv4 _]. wp_step. by eapply advances_trans.
  - intros e w3 [Hw3|(d' & res & [Hc Hg] & _ & Hout)]; wp_step; [by apply Hquiet|].
    apply advances_quiet; [rewrite Hc; by eapply evolves_outcome|by rewrite Hg|done].
Qed.
End requests.

(** ** From joining to the end of the session *)

Section live.
Context `{UuidCrate, Chrono, Schemas, SerdeJson, Sha2, Postgres, Unicode, UrlCrate, Oracle, Socket, BroadcastLaws}.

(** Every event the receiver has taken from its channel is within the first [m]. *)
Definition read_ok (room : Uuid) (m position : nat) (g : Gateway) : Prop :=
  ∀ e, BEvent e ∈ take position (channel_log room g) → ev_sequence e ≤ Z.of_nat m.

(** A session that is up to the [m]-th event of its room. *)
Record following (room : Uuid) (m : nat) (c : Conn) : Prop := {
  fo_joined : joined_at room (room_log room (committed (cn_world c))) m c;
  fo_channels : channels_ok (cn_world c);
  fo_receiver : ∃ position, se_receiver (cn_session c) = Some position ∧
    (position ≤ length (channel_log room (gateway (cn_world c))))%nat ∧
    read_ok room m position (gateway (cn_world c));
}.

(** What happens around a session after it joined: others act, it receives, it asks. A repeated
    request, answered to its sender directly, is left out. *)
Inductive live (actor : Actor) (c : Conn) : Conn → Prop :=
| live_start : live actor c c
| live_world c1 w :
    live actor c c1 → advances (cn_world c1) w →
    live actor c {| cn_world := w; cn_session := cn_session c1 |}
| live_turn c1 c2 :
    live actor c c1 → session_turn actor Broadcast c1 = (Ok true, c2) → live actor c c2
| live_request c1 c2 request :
    live actor c c1 → handle_room_request actor request c1 = (Ok true, c2) →
    (∀ p, (process actor request (cn_world c1)).1 = Ok p → pr_duplicate p = false) →
    live actor c c2.

(** Broadcast events are numbered within the log. *)
Lemma broadcast_bound room w e :
  db_ok (committed w) → channels_ok w → BEvent e ∈ channel_log room (gateway w) →
  ev_sequence e ≤ Z.of_nat (length (room_log room (committed w))).
Proof.
  intros Hok Hch (k & Hk)%Hch%list_elem_of_lookup.
  pose proof (numbered_from_lookup _ _ _ _ (room_log_numbered _ Hok _) Hk).
  apply lookup_lt_Some in Hk. lia.
Qed.

Lemma joined_grows room m c w :
  advances (cn_world c) w → joined_at room (room_log room (committed (cn_world c))) m c →
  joined_at room (room_log room (committed w)) m {| cn_world := w; cn_session := cn_session c |}.
Proof.
  intros [Hev _ _] [Hok Hlog Hroom Hlast Hn]. split; try done; [apply Hev|].
  destruct (room_log_grows room _ _ (ev_grows _ _ Hev)) as [new ->]. rewrite length_app. lia.
Qed.

(** The world moves on: the session keeps its place, whatever non-event frames it gets. *)
Lemma following_advances room m c w fs :
  following room m c → advances (cn_world c) w →
  following room m
    {| cn_world := w; cn_session := foldl (λ s f, push_frame f s) (cn_session c) fs |}.
Proof.
  intros [Hj Hch (position & Hr & Hp & Hread)] Hadv. rewrite pushed_sent. split.
  - destruct (joined_grows _ _ _ _ Hadv Hj) as [Hok Hlog Hroom Hlast Hn]. by split.
  - apply Hadv.
  - exists position. split; [done|]. destruct (av_channels _ _ Hadv room) as [new Hnew].
    cbn [cn_world]. unfold read_ok. rewrite Hnew. split; [rewrite length_app; lia|].
    intros e. rewrite take_app_le by done. apply Hread.
Qed.

Lemma read_ok_step room m position b g :
  channel_log room g !! position = Some b → read_ok room m position g →
  (∀ e, b = BEvent e → ev_sequence e ≤ Z.of_nat m) → read_ok room m (S position) g.
Proof.
  intros Hb Hread He e. rewrite (take_S_r _ _ _ Hb), elem_of_app, list_elem_of_singleton.
  intros [?|?]; [by apply Hread|by apply He].
Qed.

Lemma read_ok_mono room n m position g :
  (n ≤ m)%nat → read_ok room n position g → read_ok room m position g.
Proof. intros Hnm Hread e He%Hread. lia. Qed.

Lemma recv_read_ok room log n m position w :
  db_ok (committed w) → channels_ok w → room_log room (committed w) = log →
  (position ≤ length (channel_log room (gateway w)))%nat → (n ≤ m)%nat →
  read_ok room n position (gateway w) →
  let r := recv BROADCAST_CAPACITY (channel_log room (gateway w)) position in
  caught_up r.1 log m →
  (r.2 ≤ length (channel_log room (gateway w)))%nat ∧ read_ok room m r.2 (gateway w).
Proof.
  intros Hok Hch Hlog Hpos Hnm Hread. apply (read_ok_mono _ _ m) in Hread; [|done].
  pose proof (recv_documented BROADCAST_CAPACITY _ _ Hpos) as Hdoc.
  destruct (recv _ _ position) as [[|b|] position']; cbn [fst snd caught_up].
  - destruct Hdoc as [_ ->]. done.
  - destruct Hdoc as [Hb ->]. intros Hup. split; [by apply lookup_lt_Some in Hb|].
    eapply read_ok_step; [done..|]. intros e ->. exact Hup.
  - intros ->. split; [lia|]. intros e He. rewrite <-Hlog.
    eapply broadcast_bound; [done|done|]. by eapply elem_of_sublist, sublist_take.
Qed.

Lemma live_turn_following actor room n c c' :
  following room n c → session_turn actor Broadcast c = (Ok true, c') →
  ∃ m, (n ≤ m)%nat ∧ following room m c' ∧
    committed (cn_world c') = committed (cn_world c) ∧
    event_frames (se_sent (cn_session c')) = event_frames (se_sent (cn_session c)) ++
      frames_for (actor_id actor) (segment n m (room_log room (committed (cn_world c)))).
Proof.
  intros [Hj Hch (position & Hr & Hp & Hread)] Hturn. cbn [session_turn] in Hturn.
  pose proof (receive_broadcast_spec actor room _ n position c Hj Hch Hr Hp) as Hspec.
  unfold wp in Hspec. rewrite Hturn in Hspec. destruct Hspec as (m & [Hnm Hj' Hs Hg Hc Hr'] & Hup).
  specialize (Hup eq_refl). exists m. split_and!; [done| |done|done].
  split.
  - by rewrite Hc.
  - intros room' e. rewrite Hg, Hc. apply Hch.
  - eexists. split; [exact Hr'|]. rewrite Hg. by eapply recv_read_ok; [apply Hj|..].
Qed.

Lemma following_drained room m c :
  following room m c →
  se_receiver (cn_session c) = Some (length (channel_log room (gateway (cn_world c)))) →
  ∀ e, BEvent e ∈ channel_log room (gateway (cn_world c)) → ev_sequence e ≤ Z.of_nat m.
Proof.
  intros [_ _ (position & Hr & _ & Hread)] Hd e He. rewrite Hr in Hd. injection Hd as ->.
  apply Hread. by rewrite firstn_all.
Qed.

Lemma live_following actor room n c c' :
  following room n c → live actor c c' →
  let log := room_log room (committed (cn_world c')) in
  ∃ m, (n ≤ m ≤ length log)%nat ∧ following room m c' ∧
    event_frames (se_sent (cn_session c')) = event_frames (se_sent (cn_session c)) ++
      frames_for (actor_id actor) (segment n m log).
Proof.
  intros Hfo Hlive log. subst log. induction Hlive as [|c1 w _ IH Hadv|c1 c2 _ IH Hturn|c1 c2 request _ IH Hreq Hdup].
  - exists n. pose proof (ja_bound _ _ _ _ (fo_joined _ _ _ Hfo)). split_and!; [done..|].
    rewrite segment_empty. by rewrite app_nil_r.
  - destruct IH as (m & Hm & Hfo1 & Hs). exists m. cbn [cn_world cn_session].
    destruct (room_log_grows room _ _ (ev_grows _ _ (av_evolves _ _ Hadv))) as [new Hnew].
    rewrite Hnew, length_app, segment_prefix by lia. split_and!; [lia|lia| |done].
    by apply (following_advances _ _ _ _ []).
  - destruct IH as (m & Hm & Hfo1 & Hs).
    destruct (live_turn_following _ _ _ _ _ Hfo1 Hturn) as (k & Hk & Hfo2 & Hc & Hs2).
    exists k. pose proof (ja_bound _ _ _ _ (fo_joined _ _ _ Hfo2)). split_and!; [lia|done|done|].
    rewrite Hs2, Hs, Hc, (segment_app n m k) by lia. by rewrite frames_for_app, app_assoc.
  - destruct IH as (m & Hm & Hfo1 & Hs).
    pose proof (handle_room_request_spec actor request c1
      (ja_ok _ _ _ _ (fo_joined _ _ _ Hfo1)) (fo_channels _ _ _ Hfo1)) as Hspec.
    unfold wp in Hspec. rewrite Hreq in Hspec.
    destruct Hspec as (Hadv & fs & Hsess & [Hfs|(p & Hp & Hd & _)]);
      [|by rewrite (Hdup p Hp) in Hd].
    exists m. destruct (room_log_grows room _ _ (ev_grows _ _ (av_evolves _ _ Hadv))) as [new Hnew].
    rewrite Hnew, length_app, segment_prefix by lia. split_and!; [lia|lia| |].
    + destruct c2 as [w2 s2]. simpl in *. subst s2. by apply following_advances.
    + rewrite Hsess, pushed_sent. cbn [se_sent]. by rewrite event_frames_app, Hfs, app_nil_r.
Qed.
(** C4: Delivery to a joined session is exact. However other connections and agents act, however
    broadcasts arrive, and even when the session falls so far behind that its channel drops
    messages, the event frames it is sent are precisely the events of its room after the position
    it joined at that it may see, each once, in log order, up to a position that never goes back;
    and once the session has read its channel to the end, that position is past every event that
    was broadcast. *)
Theorem live_delivery_exact actor room n c c' :
  following room n c → live actor c c' →
  let log := room_log room (committed (cn_world c')) in
  let channel := channel_log room (gateway (cn_world c')) in
  ∃ m, (n ≤ m ≤ length log)%nat ∧ se_last_sequence (cn_session c') = Z.of_nat m ∧
    event_frames (se_sent (cn_session c')) = event_frames (se_sent (cn_session c)) ++
      frames_for (actor_id actor) (segment n m log) ∧
    (se_receiver (cn_session c') = Some (length channel) →
     ∀ e, BEvent e ∈ channel → ev_sequence e ≤ Z.of_nat m).
Proof.
  intros Hfo Hlive log channel. destruct (live_following actor room n c c' Hfo Hlive) as (m & Hm & Hfo' & Hs).
  exists m. split_and!; [apply Hm|apply Hm|apply (fo_joined _ _ _ Hfo')|done|]. by apply following_drained.
Qed.

(** ** Joining *)

(** Steps of the join that leave the database and the events broadcast so far alone. *)
Record quiet (c c' : Conn) : Prop := {
  qu_committed : committed (cn_world c') = committed (cn_world c);
  qu_channels room : ∃ new, channel_log room (gateway (cn_world c')) =
    channel_log room (gateway (cn_world c)) ++ new ∧ ∀ e, BEvent e ∉ new;
  qu_session : cn_session c' = cn_session c;
}.

Global Instance quiet_preorder : PreOrder quiet.
Proof.
  split.
  - intros c. split; [done| |done]. intros room. exists []. rewrite app_nil_r. split; [done|]. set_solver.
  - intros c1 c2 c3 [Hc Hl Hs] [Hc' Hl' Hs']. split; [congruence| |congruence].
    intros room. destruct (Hl room) as (new & Hn & He), (Hl' room) as (new' & Hn' & He').
    exists (new ++ new'). rewrite Hn', Hn, app_assoc. split; [done|]. set_solver.
Qed.

Lemma quiet_gateway c w :
  committed w = committed (cn_world c) →
  (∀ room, channel_log room (gateway w) = channel_log room (gateway (cn_world c))) →
  quiet c {| cn_world := w; cn_session := cn_session c |}.
Proof.
  intros Hc Hl. split; [done| |done]. intros room. exists []. cbn [cn_world].
  rewrite Hl, app_nil_r. split; [done|]. set_solver.
Qed.

Lemma wp_room_channel room c :
  wp (on_world (E := Empty_set) (room_channel room))
    (λ receiver c', receiver = length (channel_log room (gateway (cn_world c))) ∧ quiet c c')
    (λ _ _, False) c.
Proof.
  apply wp_on_world. unfold wp. simpl. split; [|apply quiet_gateway; [done|]].
  - unfold channel_log. simpl. by rewrite lookup_insert_eq.
  - intros room'. unfold channel_log. simpl. destruct (decide (room = room')) as [<-|Hne].
    + by rewrite lookup_insert_eq.
    + by rewrite lookup_insert_ne.
Qed.

Lemma wp_participant_snapshot room w c g :
  settled c g w → db_ok c →
  wp (participant_snapshot room) (λ _, settled c g) (λ _, settled c g) w.
Proof.
  intros Hw Hok. unfold participant_snapshot. wp_step. wp_use wp_replay; [done|done| |done].
  intros evs w1 [_ Hw1]. wp_step. apply wp_gets. wp_step. apply wp_gets. by wp_step.
Qed.

Lemma wp_publish_snapshot room exclude c :
  db_ok (committed (cn_world c)) →
  wp (on_world (publish_participant_snapshot room exclude)) (λ _ c', quiet c c') (λ _ c', quiet c c') c.
Proof.
  intros Hok. apply wp_on_world. unfold publish_participant_snapshot. wp_step.
  wp_use wp_participant_snapshot; [done|done|..].
  - intros ps w [Hc Hg]. unfold modify_gateway, modify, wp. split; cbn [cn_world cn_session]; [done| |done].
    intros room'. cbn [gateway with_gateway]. rewrite Hg.
    destruct (channels (gateway (cn_world c)) !! room).
    + rewrite channel_log_send. eexists. split; [done|]. case_bool_decide; set_solver.
    + exists []. rewrite app_nil_r. split; [done|]. set_solver.
  - intros e w [Hc Hg]. apply quiet_gateway; [done|]. intros room'. by rewrite Hg.
Qed.

Lemma wp_presence (f : Gateway → Gateway) c :
  (∀ g, channels (f g) = channels g) →
  wp (on_world (E := Empty_set) (modify_gateway f)) (λ _ c', quiet c c') (λ _ _, False) c.
Proof.
  intros Hf. apply wp_on_world. unfold wp. apply quiet_gateway; [done|].
  intros room. unfold channel_log. simpl. by rewrite Hf.
Qed.

Lemma quiet_channels_ok c c' : quiet c c' → channels_ok (cn_world c) → channels_ok (cn_world c').
Proof.
  intros [Hc Hl _] Hch room e. destruct (Hl room) as (new & -> & He). rewrite Hc, elem_of_app.
  intros [?|Hin]; [by apply Hch|]. by apply He in Hin.
Qed.

(** The position after a replay of what follows the [n]-th event. *)
Lemma replayed_position room d n :
  db_ok d → 0 ≤ n ≤ Z.of_nat (length (room_log room d)) →
  match last (drop (Z.to_nat n) (room_log room d)) with
  | Some e => ev_sequence e
  | None => n
  end = Z.of_nat (length (room_log room d)).
Proof.
  intros Hok Hn. rewrite last_lookup, length_drop, lookup_drop.
  set (log := room_log room d) in *. destruct (log !! _) as [e|] eqn:He.
  - pose proof (numbered_from_lookup _ _ _ _ (room_log_numbered _ Hok _) He).
    apply lookup_lt_Some in He. lia.
  - apply lookup_ge_None in He. lia.
Qed.

(** What a successful first join of a room leaves. *)
Definition joined_from (actor : Actor) (join : Join) (c c' : Conn) : Prop :=
  let room := jn_room_id join in
  let log := room_log room (committed (cn_world c)) in
  let after := Z.to_nat (default 0 (jn_after_sequence join)) in
  (∃ participants, se_sent (cn_session c') = se_sent (cn_session c) ++
     [FValue (join_response (jn_id join) (drop after log) (actor_id actor) participants)]) ∧
  following room (length log) c' ∧ committed (cn_world c') = committed (cn_world c).

Lemma wp_register room actor c :
  wp (on_world (E := Empty_set) (register_participant room actor)) (λ _ c', quiet c c') (λ _ _, False) c.
Proof. by apply wp_presence. Qed.

Lemma wp_unregister room actor c :
  wp (on_world (E := Empty_set) (unregister_participant room actor)) (λ _ c', quiet c c') (λ _ _, False) c.
Proof. by apply wp_presence. Qed.

Lemma read_ok_prefix room m g g' new :
  channel_log room g' = channel_log room g ++ new →
  (∀ e, BEvent e ∈ channel_log room g → ev_sequence e ≤ Z.of_nat m) →
  read_ok room m (length (channel_log room g)) g'.
Proof. intros Hl Hb e. rewrite Hl, take_app_length. apply Hb. Qed.

Lemma send_error_unjoined id e c (P : Conn → Prop) :
  se_joined_room (cn_session c) = None →
  wp (is_ok (send_error id e))
    (λ continue c', continue = true → is_Some (se_joined_room (cn_session c')) → P c') (λ _ _, False) c.
Proof.
  intros Hnone. apply wp_is_ok. unfold send_error. wp_use (wp_send_value (error_response id e) c).
  all: intros ? c' [_ _ Hs] _; rewrite Hs, pushed_sent; simpl; rewrite Hnone; by intros [? ?].
Qed.

(** The response to a join, and the notice to the others. *)
Definition join_answer (actor : Actor) (join : Join) (receiver : nat) (events : list RoomEvent)
    (participants : list RoomParticipant) : M Conn Empty_set bool :=
  _ ← modify (with_session (set_joined (Some (jn_room_id join)) (Some receiver)
        (match last events with
         | Some e => ev_sequence e
         | None => default 0 (jn_after_sequence join)
         end)));
  sent ← is_ok (send_value (join_response (jn_id join) events (actor_id actor) participants));
  _ ← (if sent && true
       then is_ok (on_world (publish_participant_snapshot (jn_room_id join) (Some (actor_id actor))))
       else mret true);
  mret sent.

Lemma join_answer_spec actor join participants c c1 :
  let room := jn_room_id join in
  let log := room_log room (committed (cn_world c)) in
  db_ok (committed (cn_world c)) → channels_ok (cn_world c) →
  0 ≤ default 0 (jn_after_sequence join) ≤ Z.of_nat (length log) → quiet c c1 →
  wp (join_answer actor join (length (channel_log room (gateway (cn_world c))))
        (drop (Z.to_nat (default 0 (jn_after_sequence join))) log) participants)
    (λ continue c', continue = true → is_Some (se_joined_room (cn_session c')) →
       joined_from actor join c c') (λ _ _, False) c1.
Proof.
  intros room log Hok Hch Hafter Hq. subst log room. set (room := jn_room_id join) in *.
  unfold join_answer. rewrite (replayed_position _ _ _ Hok Hafter).
  wp_step. unfold wp at 1, modify. set (c2 := with_session _ c1).
  wp_step. apply wp_is_ok. set (v := join_response _ _ _ _).
  wp_use (wp_send_value v c2); [|intros [] c3 _; cbn [andb]; wp_step; wp_step; by wp_step].
  intros [] c3 [Hc3 Hg3 Hs3]. wp_step. apply wp_is_ok.
  assert (committed (cn_world c3) = committed (cn_world c)) as Hc by (rewrite Hc3; apply Hq).
  assert (∀ c4, quiet c3 c4 → joined_from actor join c c4) as Hdone.
  { intros c4 [Hc4 Hl4 Hs4]. assert (committed (cn_world c4) = committed (cn_world c)) as Hcc by congruence.
    unfold joined_from. fold room. split_and!; [|split|done].
    - exists participants. by rewrite Hs4, Hs3; cbn; rewrite (qu_session _ _ Hq).
    - rewrite Hcc. split; rewrite ?Hcc, ?Hs4, ?Hs3; done.
    - eapply (quiet_channels_ok c3 c4); [by split|]. intros r e. rewrite Hg3, Hc.
      destruct (qu_channels _ _ Hq r) as (new & Hn & He). cbn [c2 with_session cn_world].
      rewrite Hn, elem_of_app. intros [?|Hin]; [by apply Hch|]. by apply He in Hin.
    - exists (length (channel_log room (gateway (cn_world c)))). rewrite Hs4, Hs3.
      destruct (Hl4 room) as (new & Hn4 & _), (qu_channels _ _ Hq room) as (new' & Hn & _).
      rewrite Hg3 in Hn4. cbn [c2 with_session cn_world] in Hn4. rewrite Hn, <-app_assoc in Hn4.
      split_and!; [done|rewrite Hn4, !length_app; lia|].
      eapply read_ok_prefix; [exact Hn4|]. intros e He. by eapply broadcast_bound. }
  wp_use (wp_publish_snapshot room (Some (actor_id actor)) c3); [by rewrite Hc|..].
  all: intros ? c4 Hq4; wp_step; intros _ _; by apply Hdone.
Qed.

Lemma handle_join_spec actor join c :
  let room := jn_room_id join in
  let log := room_log room (committed (cn_world c)) in
  db_ok (committed (cn_world c)) → channels_ok (cn_world c) →
  se_joined_room (cn_session c) = None →
  0 ≤ default 0 (jn_after_sequence join) ≤ Z.of_nat (length log) →
  wp (handle_join actor join)
    (λ continue c', continue = true → is_Some (se_joined_room (cn_session c')) →
       joined_from actor join c c') (λ _ _, False) c.
Proof.
  intros room log Hok Hch Hnone Hafter. unfold handle_join. wp_step. apply wp_gets. rewrite Hnone.
  cbn [negb]. rewrite bool_decide_true by done. wp_step.
  wp_use (wp_room_channel room c); [|done]. intros receiver c1 [-> Hq1]. wp_step. wp_step.
  apply wp_on_world. wp_use wp_replay; [done|by rewrite (qu_committed _ _ Hq1)| |].
  - intros evs w [-> [Hc Hg]].
    assert (quiet c {| cn_world := w; cn_session := cn_session c1 |}) as Hq2.
    { etrans; [exact Hq1|]. apply quiet_gateway; [done|]. intros r. by rewrite Hg. }
    assert (committed (cn_world c1) = committed (cn_world c)) as Hc1 by apply Hq1.
    wp_step. wp_use wp_register; [|done].
    intros [] c3 Hq3. assert (quiet c c3) as Hq13 by (by etrans). wp_step. wp_step.
    apply wp_on_world. wp_use wp_participant_snapshot; [done|by rewrite (qu_committed _ _ Hq13)|..].
    + intros participants w4 [Hc4 Hg4].
      assert (quiet c {| cn_world := w4; cn_session := cn_session c3 |}) as Hq4.
      { etrans; [exact Hq13|]. apply quiet_gateway; [done|]. intros r. by rewrite Hg4. }
      rewrite Hc1. apply (join_answer_spec _ _ _ _ _ Hok Hch Hafter Hq4).
    + intros e w4 [Hc4 Hg4]. wp_step.
      wp_use wp_unregister; [|done].
      intros [] c5 Hq5. apply send_error_unjoined. rewrite (qu_session _ _ Hq5). simpl.
      by rewrite (qu_session _ _ Hq13).
  - intros e w [Hc Hg]. apply send_error_unjoined. simpl. by rewrite (qu_session _ _ Hq1).
Qed.


(** Nothing is broadcast that is not committed. Whatever a client's request or an agent's
    report does, and whatever it answers, the database only grows, channels only get longer, and
    every event in a channel is in its room's committed log; and a client is never sent the
    events of its own new request other than through the channel: directly it gets at most an
    error, or, for a repeated request, the events recorded for it. *)
Theorem broadcast_after_commit actor request task header update c :
  db_ok (committed (cn_world c)) → channels_ok (cn_world c) →
  advances (cn_world c) (AgentService.update task header update (cn_world c)).2 ∧
  let c' := (handle_room_request actor request c).2 in
  advances (cn_world c) (cn_world c') ∧
  ∃ fs, se_sent (cn_session c') = se_sent (cn_session c) ++ fs ∧
    (event_frames fs = [] ∨
     ∃ p, (process actor request (cn_world c)).1 = Ok p ∧ pr_duplicate p = true ∧
       fs `prefix_of` (FValue ∘ event_to_wire_value <$> pr_events p)).
Proof.
  intros Hok Hch. split.
  - apply (wp_run _ (advances _)). wp_use agent_update_advances; done.
  - pose proof (handle_room_request_spec actor request c Hok Hch) as Hspec. unfold wp in Hspec.
    destruct (handle_room_request actor request c) as [[b|[]] c']. simpl.
    destruct Hspec as (Hadv & fs & -> & Hfs). split; [done|]. exists fs. by rewrite pushed_sent.
Qed.
End live.
