(* ===== verification/Sessions.v ===== *)
(** * What a connection can reach

    A browser's connection becomes a session only through a verified token, and a message of a
    session reaches the rooms only while its actor's authentication lasts and only for the room
    it joined. *)

From S2P Require Import Prelude Json Text Crates Types Protocol Mentions ActionItems MemoryEngine World Store StoreInvariant Rooms RoomsInvariant RoomTheorems Tasks System AgentService AgentTheorems Auth WebSocket Delivery.
Local Open Scope string_scope.
Local Open Scope list_scope.
Local Open Scope Z_scope.

Section sessions.
Context `{UuidCrate, Chrono, Schemas, SerdeJson, Postgres, Unicode, Oracle, Socket, BroadcastChannel}.

(** The clock of the next step, in seconds. *)
Definition clock (c : Conn) : Z := utc_now (tick (cn_world c)) / 1000000000.

(** Frames that refuse: errors and the closing frame. *)
Definition refusal (f : Frame) : Prop :=
  match f with
  | FValue v => ∃ id e, v = error_response id e
  | FClose _ => True
  end.

(** The connection was only told off. *)
Definition refused (c c' : Conn) : Prop := ∃ fs, only_sends fs c c' ∧ Forall refusal fs.

Lemma refused_trans c1 c2 c3 : refused c1 c2 → refused c2 c3 → refused c1 c3.
Proof.
  intros (fs & Hs & Hr) (gs & Hs' & Hr'). exists (fs ++ gs). split; [by eapply only_sends_app|].
  by apply Forall_app.
Qed.

Lemma refused_ticks c w :
  committed w = committed (cn_world c) → gateway w = gateway (cn_world c) →
  refused c {| cn_world := w; cn_session := cn_session c |}.
Proof. intros Hc Hg. exists []. by split. Qed.

Lemma wp_now_seconds c :
  wp now_seconds
    (λ t c', t = clock c ∧ c' = {| cn_world := next_tick (cn_world c); cn_session := cn_session c |})
    (λ _ _, False) c.
Proof. done. Qed.

Lemma wp_refuse id e c :
  wp (is_ok (send_error id e)) (λ _ c', refused c c') (λ _ _, False) c.
Proof.
  apply wp_is_ok. unfold send_error. wp_use (wp_send_value (error_response id e) c).
  - intros ? c' Hs. exists [FValue (error_response id e)]. split; [done|].
    apply Forall_singleton. by eexists _, _.
  - intros ? c' Hs. by exists [].
Qed.

Lemma wp_close id e reason c :
  wp (close_with_error id e reason) (λ _ c', refused c c') (λ _ _, False) c.
Proof.
  unfold close_with_error. wp_step. wp_step.
  assert (∀ c1, refused c c1 →
    wp (_ ← attempt (F := Empty_set) (send_frame (FClose reason)); mret ())
      (λ _ c', refused c c') (λ _ _, False) c1) as Hclose.
  { intros c1 Hc1. wp_step. wp_step.
    wp_use (wp_send_frame (FClose reason) c1); intros ? c2 Hs; wp_step; (eapply refused_trans; [done|]).
    - exists [FClose reason]. split; [done|]. by apply Forall_singleton.
    - by exists []. }
  wp_use (wp_send_value (error_response id e) c); intros ? c1 Hs; apply Hclose.
  - exists [FValue (error_response id e)]. split; [done|]. apply Forall_singleton. by eexists _, _.
  - by exists [].
Qed.

(** When a message may act: the actor's time is not up, the message is valid, and it concerns
    the session's room or joins a first one. *)
Definition admitted (actor : Actor) (raw : string) (c : Conn) : Prop :=
  clock c < actor_expires_at actor ∧
  ∃ request room, validate_request raw = Ok request ∧ room_id request = Some room ∧
    (se_joined_room (cn_session c) = Some room ∨
     se_joined_room (cn_session c) = None ∧ ∃ j, request = RJoin j).

Lemma join_elsewhere actor j c room :
  se_joined_room (cn_session c) = Some room → room ≠ jn_room_id j →
  wp (handle_join actor j) (λ _ c', refused c c') (λ _ _, False) c.
Proof.
  intros Hj Hne. unfold handle_join. wp_step. apply wp_gets. rewrite Hj.
  rewrite bool_decide_false by done. apply wp_refuse.
Qed.

Lemma handle_message_spec actor raw c :
  ¬ admitted actor raw c →
  wp (handle_message actor (WebSocket.Text raw)) (λ _ c', refused c c') (λ _ _, False) c.
Proof.
  intros Hno. cbn [handle_message]. wp_step. wp_use wp_now_seconds; [|done]. intros t c1 [-> ->].
  set (c1 := Build_Conn _ _). assert (refused c c1) as Hc1 by (by apply refused_ticks).
  assert (∀ m : M Conn Empty_set bool, wp m (λ _ c', refused c1 c') (λ _ _, False) c1 →
    wp m (λ _ c', refused c c') (λ _ _, False) c1) as Hthen.
  { intros m Hm. wp_use Hm; [|done]. intros b c2. by apply refused_trans. }
  apply Hthen. destruct (Z.leb_spec (actor_expires_at actor) (clock c)) as [Hexp|Hexp].
  { wp_step. wp_use wp_close; [|done]. intros [] c2 Hc2. by wp_step. }
  destruct (validate_request raw) as [request|e] eqn:Hv; [|apply wp_refuse].
  assert (∀ room, room_id request = Some room → se_joined_room (cn_session c1) ≠ Some room) as Hroom.
  { intros room Hr Heq. apply Hno. split; [done|]. exists request, room. auto. }
  assert (∀ room m, room_id request = Some room →
    wp (joined ← gets (λ c, se_joined_room (cn_session c));
        if negb (bool_decide (joined = room_id request))
        then is_ok (send_error (Str (request_id_str request)) forbidden) else m)
      (λ _ c', refused c1 c') (λ _ _, False) c1) as Hother.
  { intros room m Hr. wp_step. apply wp_gets. rewrite Hr, bool_decide_false by auto. apply wp_refuse. }
  destruct request; try by eapply Hother.
  - apply wp_refuse.
  - destruct (se_joined_room (cn_session c1)) as [room|] eqn:Hj.
    + eapply join_elsewhere; [done|]. intros ->. by eapply Hroom.
    + destruct Hno. split; [done|]. eexists _, _. split_and!; [done|done|]. right. by eauto.
Qed.

(** A session's message acts only when it may. Whatever text arrives, unless the actor's
    authentication still lasts, the text is a valid request, and the request concerns the room
    the session has joined (or joins its first room), the database and the gateway are left
    exactly as they were, and all the client gets is an error, possibly a closed connection. *)
Theorem message_gate actor raw c :
  ¬ admitted actor raw c →
  ∃ continue c', handle_message actor (WebSocket.Text raw) c = (Ok continue, c') ∧
    committed (cn_world c') = committed (cn_world c) ∧
    gateway (cn_world c') = gateway (cn_world c) ∧
    ∃ fs, se_sent (cn_session c') = se_sent (cn_session c) ++ fs ∧ Forall refusal fs.
Proof.
  intros Hno. destruct (wp_total _ _ _ (handle_message_spec actor raw c Hno))
    as (b & c' & Hrun & fs & [Hc Hg Hs] & Hr).
  exists b, c'. split_and!; [done..|]. exists fs. by rewrite Hs, pushed_sent.
Qed.

(** ** Browsers *)

Definition is_ping (i : FirstInput) : Prop := i = First (Some Ping) ∨ i = First (Some Pong).

(** The inputs let [actor] in. *)
Definition lets_in `{Jwt} (auth : AuthValidator) (inputs : list FirstInput) (actor : Actor)
    (c c' : Conn) : Prop :=
  ∃ pings raw rest request,
    inputs = pings ++ First (Some (WebSocket.Text raw)) :: rest ∧ Forall is_ping pings ∧
    validate_request raw = Ok (RSessionAuthenticate request) ∧
    authenticate_access_token auth (clock c) (sa_access_token request) = Some actor ∧
    only_sends [FValue (authenticated_response (sa_id request) actor)] c c'.

Lemma lets_in_ping `{Jwt} auth i inputs actor c c' :
  is_ping i → lets_in auth inputs actor c c' → lets_in auth (i :: inputs) actor c c'.
Proof.
  intros Hi (pings & raw & rest & request & -> & Hp & Hrest).
  exists (i :: pings), raw, rest, request. split_and!; [done|by constructor|apply Hrest..].
Qed.

Lemma browser_authentication_spec `{Jwt} auth inputs c :
  wp (browser_authentication auth inputs)
    (λ r c', match r with
             | Some actor => lets_in auth inputs actor c c'
             | None => refused c c'
             end) (λ _ _, False) c.
Proof.
  assert (∀ id e reason c, wp (close_with_error id e reason ≫= λ _, mret (None : option Actor))
    (λ r c', r = None ∧ refused c c') (λ _ _, False) c) as Hclose.
  { intros id e reason c'. wp_step. wp_use wp_close; [|done]. intros [] c1 Hc1. by wp_step. }
  induction inputs as [|i inputs IH]; cbn [browser_authentication]; [by wp_step; exists []|].
  destruct i as [|[[raw| | | |]|]].
  1, 3: by wp_use Hclose; [intros ? ? [-> ?]|].
  2, 3: wp_use IH; [|done]; intros [actor|] c'; [apply lets_in_ping; unfold is_ping; auto|done].
  2, 3: by wp_step; exists [].
  destruct (validate_request raw) as [request|e] eqn:Hv; [|by wp_use Hclose; [intros ? ? [-> ?]|]].
  destruct request; try by (wp_use Hclose; [intros ? ? [-> ?]|]).
  wp_step. wp_use wp_now_seconds; [|done]. intros t c1 [-> ->]. set (c1 := Build_Conn _ _).
  assert (only_sends [] c c1) as Hc1 by done.
  destruct (authenticate_access_token auth (clock c) _) as [actor|] eqn:Ha.
  - wp_step. apply wp_is_ok. wp_use wp_send_value; intros ? c2 Hs; wp_step.
    + exists [], raw, inputs. eexists. split_and!; try done. by eapply (only_sends_app []).
    + exists []. split; [|done]. by eapply (only_sends_app []).
  - wp_use Hclose; [|done]. intros ? c2 [-> Hr]. eapply refused_trans; [|done]. by exists [].
Qed.

(** A browser gets a session only with a verified token. If its connection is given an
    actor, the first message other than pings was a valid authentication request whose access
    token the validator accepted, at the gateway's clock, for exactly that actor, and all that
    was sent is the confirmation naming it; otherwise the connection got no more than an error
    and a close. Either way database and gateway are untouched. *)
Theorem browser_authentication_sound `{Jwt} auth inputs c r c' :
  browser_authentication auth inputs c = (Ok r, c') →
  committed (cn_world c') = committed (cn_world c) ∧
  gateway (cn_world c') = gateway (cn_world c) ∧
  match r with
  | Some actor => ∃ pings raw rest request,
      inputs = pings ++ First (Some (WebSocket.Text raw)) :: rest ∧ Forall is_ping pings ∧
      validate_request raw = Ok (RSessionAuthenticate request) ∧
      authenticate_access_token auth (clock c) (sa_access_token request) = Some actor ∧
      se_sent (cn_session c') =
        se_sent (cn_session c) ++ [FValue (authenticated_response (sa_id request) actor)]
  | None => ∃ fs, se_sent (cn_session c') = se_sent (cn_session c) ++ fs ∧ Forall refusal fs
  end.
Proof.
  intros Hrun. pose proof (wp_Ok _ _ _ _ _ _ (browser_authentication_spec auth inputs c) Hrun) as Hspec.
  destruct r as [actor|].
  - destruct Hspec as (pings & raw & rest & request & ? & ? & ? & ? & [Hc Hg Hs]).
    split_and!; [done..|]. exists pings, raw, rest, request. split_and!; try done.
    by rewrite Hs, pushed_sent.
  - destruct Hspec as (fs & [Hc Hg Hs] & Hr). split_and!; [done..|]. exists fs.
    by rewrite Hs, pushed_sent.
Qed.

(** ** The upgrade *)

(** A configured origin: a scheme and an authority and nothing else. *)
Definition proper_origin `{UriCrate} (origin : string) : Prop :=
  ∃ uri scheme authority, uri_parse origin = Some uri ∧ uri_scheme uri = Some scheme ∧
    uri_authority uri = Some authority ∧ (scheme = "http" ∨ scheme = "https") ∧
    origin = String.append scheme (String.append "://" authority).

Lemma normalize_origins_spec `{UriCrate} origins acc policy :
  normalize_origins origins acc = Ok policy →
  policy = list_to_set origins ∪ acc ∧ Forall proper_origin origins.
Proof.
  revert acc. induction origins as [|o origins IH]; intros acc; cbn [normalize_origins].
  - intros [= <-]. split; [set_solver|done].
  - intros (uri & Huri%ok_or_Ok & Hrest)%rbind_Ok. apply rbind_Ok in Hrest as (scheme & Hs%ok_or_Ok & Hrest).
    apply rbind_Ok in Hrest as (authority & Ha%ok_or_Ok & Hrest). case_match eqn:Hb; [done|].
    apply orb_false_iff in Hb as [Hsch%negb_false_iff%orb_true_iff Ho%negb_false_iff%String.eqb_eq].
    destruct (IH _ Hrest) as [-> Hall]. split; [set_solver|]. constructor; [|done].
    exists uri, scheme, authority. split_and!; try done.
    destruct Hsch as [->%String.eqb_eq| ->%String.eqb_eq]; auto.
Qed.

Lemma policy_spec `{UriCrate} origins timeout policy :
  websocket_policy_new origins timeout = Ok policy →
  wp_allowed_origins policy = list_to_set origins ∧ Forall proper_origin origins.
Proof.
  unfold websocket_policy_new. intros (_ & _ & Hrest)%rbind_Ok.
  apply rbind_Ok in Hrest as (os & Hn & Hrest). apply rbind_Ok in Hrest as (_ & _ & [= <-]). simpl.
  destruct (normalize_origins_spec _ _ _ Hn) as [-> Hall]. split; [set_solver|done].
Qed.

(** A connection is opened only for a configured origin or a verified bearer token. Under
    a policy the configuration accepted, a request with an Origin header is upgraded, to an
    unauthenticated connection, only if that origin is listed, and listed origins are bare
    http or https origins; a request without one is upgraded only as the actor its bearer
    token authenticates; any other request is refused, with 403 or 401. *)
Theorem upgrade_gate `{UriCrate, Jwt} origins timeout policy auth now origin authorization :
  websocket_policy_new origins timeout = Ok policy →
  match websocket_upgrade policy auth now origin authorization with
  | AwaitAuthentication => ∃ o, origin = Visible o ∧ o ∈ origins ∧ proper_origin o
  | StartSession actor =>
      origin = NoHeader ∧
      ∃ v, authorization = Visible v ∧ authenticate_bearer auth now (Some v) = Some actor
  | Rejected status _ =>
      status = 401 ∧ origin = NoHeader ∨
      status = 403 ∧ origin ≠ NoHeader ∧ ∀ o, origin = Visible o → o ∉ origins
  end.
Proof.
  intros [Hset Hall]%policy_spec. rewrite Forall_forall in Hall.
  unfold websocket_upgrade, allows_origin. rewrite Hset. destruct origin as [| |o].
  - destruct authorization as [| |v]; simpl; [by left..|].
    destruct (authenticate_bearer auth now (Some v)) eqn:Ha; simpl; [|by left]. eauto.
  - simpl. right. by split_and!.
  - case_bool_decide as Ho; simpl.
    + apply elem_of_list_to_set in Ho. eauto.
    + right. split_and!; [done..|]. intros o' [= <-]. by rewrite <-(elem_of_list_to_set (C := gset string)).
Qed.
End sessions.
