(* ===== verification/Noninterference.v ===== *)
(** * Rooms do not learn of each other

    [process_isolation] says that a request leaves other rooms alone. Here is the converse: what a
    request or a session of a room does, answers and is sent depends on that room alone. Two
    gateways that agree on a room and differ in any way on all others behave alike towards the
    room's clients. The relation between the two runs is carried through every statement and
    handler, as the invariants are elsewhere. *)

From S2P Require Import Prelude Json Text Crates Types ConversationProtocol ConversationTables Protocol Mentions ActionItems MemoryEngine World Store StoreInvariant ConversationContext Catalog ConversationInvariant Rooms RoomsInvariant RoomTheorems Auth WebSocket.
Local Open Scope string_scope.
Local Open Scope list_scope.
Local Open Scope Z_scope.

(** ** Two runs *)

(** From states related by [P] the two runs of [m] give the same result, and leave states related
    by [Q] after a success and by [F] after an error. *)
Definition Sim {S E A} (P : relation S) (Q : A → relation S) (F : relation S) (m : M S E A) : Prop :=
  ∀ s t, P s t →
    match m s, m t with
    | (Ok a, s'), (Ok b, t') => a = b ∧ Q a s' t'
    | (Err e, s'), (Err e', t') => e = e' ∧ F s' t'
    | _, _ => False
    end.
Abbreviation Keeps R m := (Sim R (λ _, R) R m).

Create HintDb sim.

Section sim.
Context {S E : Type}.

Lemma sim_ret {A} (a : A) (Q : A → relation S) F : Sim (E := E) (Q a) Q F (mret a).
Proof. intros s t Hq. done. Qed.
Lemma sim_throw {A} (e : E) (Q : A → relation S) F : Sim F Q F (throw e).
Proof. intros s t Hf. done. Qed.
Lemma sim_lift {A} (r : result E A) (R : relation S) : Keeps R (lift r).
Proof. intros s t Hr. unfold lift. by destruct r. Qed.
Lemma sim_gets {A} (f : S → A) (R : relation S) :
  (∀ s t, R s t → f s = f t) → Sim (E := E) R (λ _, R) R (gets f).
Proof. intros Hf s t Hr. split; [by apply Hf|done]. Qed.
Lemma sim_modify (f : S → S) (R : relation S) :
  (∀ s t, R s t → R (f s) (f t)) → Sim (E := E) R (λ _, R) R (modify f).
Proof. intros Hf s t Hr. split; [done|by apply Hf]. Qed.

Lemma sim_bind {A B} (m : M S E A) (k : A → M S E B) (P : relation S) R Q F :
  Sim P R F m → (∀ a, Sim (R a) Q F (k a)) → Sim P Q F (m ≫= k).
Proof.
  intros Hm Hk s t Hp. specialize (Hm s t Hp). unfold mbind, M_bind.
  destruct (m s) as [[a|e] s'], (m t) as [[b|e'] t']; try done. destruct Hm as [<- Hr]. by apply Hk.
Qed.
Lemma sim_map_err {E' A} (f : E → E') (m : M S E A) (P : relation S) Q F :
  Sim P Q F m → Sim P Q F (map_err f m).
Proof.
  intros Hm s t Hp. specialize (Hm s t Hp). unfold map_err.
  destruct (m s) as [[a|e] s'], (m t) as [[b|e'] t']; try done. by destruct Hm as [-> ?].
Qed.
Lemma sim_attempt {E' A} (m : M S E A) (R : relation S) : Keeps R m → Sim (E := E') R (λ _, R) R (attempt m).
Proof.
  intros Hm s t Hr. specialize (Hm s t Hr). unfold attempt.
  destruct (m s) as [[a|e] s'], (m t) as [[b|e'] t']; try done; by destruct Hm as [-> ?].
Qed.
Lemma sim_for_each {A B} (body : A → M S E B) l (R : relation S) :
  (∀ a, Keeps R (body a)) → Keeps R (for_each body l).
Proof.
  intros Hb. induction l as [|a l IH]; simpl; [apply (sim_ret (@nil B) (λ _, R))|].
  eapply sim_bind; [apply Hb|]. intros b. eapply sim_bind; [exact IH|]. intros bs. apply (sim_ret (b :: bs) (λ _, R)).
Qed.
Lemma sim_pure {A} (m : M S E A) (φ : Prop) (P : relation S) Q F :
  (φ → Sim P Q F m) → Sim (λ s t, P s t ∧ φ) Q F m.
Proof. intros Hm s t [Hp Hφ]. by apply Hm. Qed.
Lemma sim_weaken {A} (m : M S E A) (P P' : relation S) Q Q' (F F' : relation S) :
  Sim P Q F m → (∀ s t, P' s t → P s t) → (∀ a s t, Q a s t → Q' a s t) → (∀ s t, F s t → F' s t) →
  Sim P' Q' F' m.
Proof.
  intros Hm HP HQ HF s t Hp. specialize (Hm s t (HP s t Hp)).
  destruct (m s) as [[a|e] s'], (m t) as [[b|e'] t']; try done; destruct Hm; eauto.
Qed.
End sim.

(** As [solve_pres]. *)
Ltac sim_step :=
  match goal with
  | |- Sim ?R _ _ (mret ?a) => exact (sim_ret a (λ _, R) R)
  | |- Sim ?R _ _ (throw ?e) => exact (sim_throw e (λ _, R) R)
  | |- Sim _ _ _ (lift _) => refine (sim_lift _ _)
  | |- Sim ?R _ _ (_ ≫= _) => refine (sim_bind _ _ R (λ _, R) _ R _ _); [|intros ?]
  | |- Sim _ _ _ (map_err _ _) => refine (sim_map_err _ _ _ _ _ _)
  | |- Sim _ _ _ (attempt _) => refine (sim_attempt _ _ _)
  | |- Sim _ _ _ (for_each _ _) => refine (sim_for_each _ _ _ _); intros ?
  | |- Sim _ _ _ (match ?x with _ => _ end) => destruct x eqn:?
  | |- Sim _ _ _ (let '(_, _) := ?x in _) => destruct x eqn:?
  end.
Ltac solve_sim := repeat first [ solve [eauto 3 with sim] | sim_step ].

(** ** What two databases share *)

(** They agree on what belongs to [room]. *)
Record local_eq (room : Uuid) (d d' : Db) : Prop := {
  lq_log : room_log room d = room_log room d';
  lq_decisions id row :
    dc_room_id row = room → decisions d !! id = Some row ↔ decisions d' !! id = Some row;
  lq_requests rid : room_requests d !! (room, rid) = room_requests d' !! (room, rid);
  lq_tasks id row : tr_room_id row = room → agent_tasks d !! id = Some row ↔ agent_tasks d' !! id = Some row;
}.
Global Instance local_eq_equivalence room : Equivalence (local_eq room).
Proof.
  split.
  - intros d. by split.
  - intros d d' [Hl Hd Hr Ht]. split; [done|..]; intros; symmetry; auto.
  - intros d1 d2 d3 [Hl Hd Hr Ht] [Hl' Hd' Hr' Ht']. split; [congruence|..]; intros.
    + by rewrite Hd, Hd'.
    + by rewrite Hr.
    + by rewrite Ht, Ht'.
Qed.

Section noninterference.
Context `{UuidCrate, Chrono, Schemas, Postgres, Unicode, Oracle}.

(** The random identifiers drawn are not in use in other rooms. *)
Record unforeseen (room : Uuid) (d : Db) : Prop := {
  uf_events n e : e ∈ room_events d → ev_event_id e = fresh_uuid n → ev_room_id e = room;
  uf_decisions n row : decisions d !! fresh_uuid n = Some row → dc_room_id row = room;
  uf_tasks n row : agent_tasks d !! fresh_uuid n = Some row → tr_room_id row = room;
}.

Record alike (room : Uuid) (d d' : Db) : Prop := {
  al_eq : local_eq room d d';
  al_left : unforeseen room d;
  al_right : unforeseen room d';
}.

(** A statement that answers and writes alike. *)
Definition local {A} (room : Uuid) (q : DateTime → Db → result SqlxError (A * Db)) : Prop :=
  ∀ now d d', alike room d d' →
    match q now d, q now d' with
    | Ok (a, d1), Ok (b, d2) => a = b ∧ alike room d1 d2 ∧
        room_requests d1 = room_requests d ∧ room_requests d2 = room_requests d'
    | Err e, Err e' => e = e'
    | _, _ => False
    end.

(** A query that only selects events of the room. *)
Definition selects_room (room : Uuid) (p : RoomEvent → bool) (d : Db) : Prop :=
  ∀ e, e ∈ room_events d → p e = true → ev_room_id e = room.

Lemma selects_room_log room p d :
  selects_room room p d → List.filter p (room_events d) = List.filter p (room_log room d).
Proof.
  unfold selects_room, room_log. induction (room_events d) as [|e l IH]; simpl; [done|]. intros Hp.
  unfold in_room at 1. rewrite IH by (intros; apply Hp; [by right|done]). destruct (p e) eqn:He.
  - rewrite bool_decide_true by (apply Hp; [left|done]). simpl. by rewrite He.
  - case_bool_decide; simpl; [|done]. by rewrite He.
Qed.

Lemma alike_select room p d d' :
  alike room d d' → selects_room room p d → selects_room room p d' → select_events p d = select_events p d'.
Proof.
  intros [Heq _ _] Hd Hd'. unfold select_events. rewrite (selects_room_log room _ d), (selects_room_log room _ d') by done. by rewrite (lq_log _ _ _ Heq).
Qed.

Lemma local_select {A} room (f : DateTime → Db → A) :
  (∀ now d d', alike room d d' → f now d = f now d') → local room (select f).
Proof. intros Hf now d d' Hd. simpl. by rewrite (Hf now d d'). Qed.

Lemma local_insert_event room n e : ne_room_id e = room → local room (insert_event (fresh_uuid n) e).
Proof.
  intros He now d d' [Heq Hl Hr]. unfold insert_event, next_sequence, max_sequence.
  rewrite He, (lq_log _ _ _ Heq). destruct (i64_max <? _); simpl; [done|]. set (row := event_row _ _ _).
  assert (event_conflict row d = event_conflict row d') as ->.
  { apply eq_true_iff_eq. rewrite !event_conflict_iff.
    change (ev_room_id row) with (ne_room_id e). rewrite He, (lq_log _ _ _ Heq).
    assert (∀ d1, unforeseen room d1 → ev_event_id row ∈ (ev_event_id <$> room_events d1) ↔
      ev_event_id row ∈ (ev_event_id <$> room_log room d1)) as Hids.
    { intros d1 Hu. rewrite !list_elem_of_fmap. split; intros (x & Hx & Hin); exists x; (split; [done|]).
      - apply room_log_elem. split; [done|]. by apply (uf_events _ _ Hu n x Hin).
      - by apply room_log_elem in Hin as [? _]. }
    by rewrite (Hids d), (Hids d'), (lq_log _ _ _ Heq). }
  destruct (event_conflict row d'); [done|]. split_and!; [done| |done..].
  assert (∀ d1, unforeseen room d1 → unforeseen room (with_events (λ es, es ++ [row]) d1)) as Hu.
  { intros d1 [Ue Ud Ut]. split; [|done..]. intros k x. simpl. rewrite elem_of_app, list_elem_of_singleton.
    intros [?| ->]; [by apply Ue|by intros _]. }
  split; [|by apply Hu..]. split; [|apply Heq..]. by rewrite !room_log_app, (lq_log _ _ _ Heq).
Qed.

(** Statements on decisions: a row of another room is not seen, and its change is not felt. *)
Lemma alike_decision room id d d' :
  alike room d d' →
  ∀ row, dc_room_id row = room → decisions d !! id = Some row ↔ decisions d' !! id = Some row.
Proof. intros [Heq _ _] row. apply Heq. Qed.

Lemma alike_with_decisions room f d d' :
  alike room d d' →
  (∀ id row, dc_room_id row = room → f (decisions d) !! id = Some row ↔ f (decisions d') !! id = Some row) →
  (∀ n row, f (decisions d) !! fresh_uuid n = Some row → dc_room_id row = room) →
  (∀ n row, f (decisions d') !! fresh_uuid n = Some row → dc_room_id row = room) →
  alike room (with_decisions f d) (with_decisions f d').
Proof.
  intros [[Hlog _ Hreq Htask] [Ue _ Ut] [Ue' _ Ut']] Hf Hu Hu'.
  split; [split; [exact Hlog|exact Hf|exact Hreq|exact Htask]|by split|by split].
Qed.

Lemma fresh_decision room n d d' :
  alike room d d' → decisions d !! fresh_uuid n = decisions d' !! fresh_uuid n.
Proof.
  intros Hd. apply option_eq. intros row. pose proof Hd as [_ Hl Hr]. split; intros Hrow.
  - by apply (alike_decision _ _ _ _ Hd row (uf_decisions _ _ Hl n row Hrow)).
  - by apply (alike_decision _ _ _ _ Hd row (uf_decisions _ _ Hr n row Hrow)).
Qed.

Lemma local_insert_decision room n row :
  dc_room_id row = room → local room (insert_decision (fresh_uuid n) row).
Proof.
  intros Hrow now d d' Hd. unfold insert_decision. rewrite (fresh_decision _ _ _ _ Hd).
  destruct (decisions d' !! fresh_uuid n); [done|]. split_and!; [done| |done..].
  pose proof Hd as [_ Hl Hr]. apply alike_with_decisions; [done|..]; intros *; rewrite !lookup_insert_Some.
  - intros Hr'. by rewrite (alike_decision _ _ _ _ Hd).
  - intros [[_ <-]|[_ ?]]; [done|by eapply Hl].
  - intros [[_ <-]|[_ ?]]; [done|by eapply Hr].
Qed.

Lemma local_update_decision room id status at_ : local room (update_decision id status at_).
Proof.
  intros now d d' Hd. simpl. split_and!; [done| |done..]. pose proof Hd as [_ Hl Hr].
  set (g := set_decision_status status (pg_time at_)).
  assert (∀ (m : gmap Uuid DecisionRow) k row, alter g id m !! k = Some row →
    ∃ row0, m !! k = Some row0 ∧ dc_room_id row0 = dc_room_id row) as Hroom.
  { intros m k row. rewrite lookup_alter_Some. intros [(_ & row0 & Hrow & ->)|[_ ?]]; by eauto. }
  apply alike_with_decisions; [done|..].
  - intros k row Hrow. rewrite !lookup_alter_Some.
    assert (∀ row0, row = g row0 → decisions d !! k = Some row0 ↔ decisions d' !! k = Some row0) as Hg.
    { intros row0 ->. by apply (alike_decision _ _ _ _ Hd). }
    pose proof (alike_decision _ k _ _ Hd row Hrow) as Hk.
    split; (intros [(-> & row0 & Hrow0 & Heq)|[Hne Hin]]; [left|right]).
    1, 3: split; [done|]; exists row0; split; [by apply (Hg row0)|done].
    all: split; [done|by apply Hk].
  - intros n row (row0 & Hrow0 & <-)%Hroom. by eapply Hl.
  - intros n row (row0 & Hrow0 & <-)%Hroom. by eapply Hr.
Qed.

Lemma local_delete_decision room id :
  local room (λ _ d, Ok ((), with_decisions (λ m,
    match m !! id with
    | Some row => if bool_decide (dc_room_id row = room) then delete id m else m
    | None => m
    end) d)).
Proof.
  intros now d d' Hd. split_and!; [done| |done..]. pose proof Hd as [_ Hl Hr].
  set (f := λ m : gmap Uuid DecisionRow, match m !! id with Some _ => _ | None => m end).
  assert (∀ m k row, dc_room_id row = room → f m !! k = Some row ↔ m !! k = Some row ∧ k ≠ id) as Hf.
  { intros m k row Hrow. unfold f. destruct (m !! id) as [row0|] eqn:Hid; [case_bool_decide|].
    - rewrite lookup_delete_Some. naive_solver.
    - split; [|by intros [? _]]. intros Hk. split; [done|]. intros ->. congruence.
    - split; [|by intros [? _]]. intros Hk. split; [done|]. intros ->. congruence. }
  assert (∀ m k row, f m !! k = Some row → m !! k = Some row) as Hsub.
  { intros m k row. unfold f. destruct (m !! id); [case_bool_decide|]; [|done..]. by intros [_ ?]%lookup_delete_Some. }
  apply alike_with_decisions; [done|..].
  - intros k row Hrow. by rewrite !Hf, (alike_decision _ _ _ _ Hd) by done.
  - intros n row ?%Hsub. by eapply Hl.
  - intros n row ?%Hsub. by eapply Hr.
Qed.

Lemma local_select_decision room id : local room (select (select_decision id room)).
Proof.
  apply local_select. intros now d d' Hd. unfold select_decision. apply option_eq. intros row.
  rewrite !bind_Some. pose proof (alike_decision _ id _ _ Hd) as Hrow.
  split; intros (row0 & Hl & Hb); (case_bool_decide; [|done]); simplify_eq; exists row; rewrite bool_decide_true by done;
    (split; [|done]); by apply Hrow.
Qed.

(** Statements on tasks. *)
Lemma alike_task_of_request room rid d d' :
  alike room d d' → task_of_request room rid d = None ↔ task_of_request room rid d' = None.
Proof.
  intros [Heq _ _].
  assert (∀ d1, task_of_request room rid d1 = None ↔
    ∀ id row, agent_tasks d1 !! id = Some row → tr_room_id row = room → tr_request_id row ≠ rid) as Hnone.
  { intros d1. unfold task_of_request. rewrite fmap_None, head_None. split.
    - intros Hnil id row Hrow Hr Hreq. assert ((id, row) ∈ List.filter
        (λ kv : Uuid * TaskRow, bool_decide (tr_room_id kv.2 = room ∧ tr_request_id kv.2 = rid))
        (map_to_list (agent_tasks d1))) as Hin.
      { apply list_elem_of_In, filter_In. rewrite <-list_elem_of_In, elem_of_map_to_list. split; [done|].
        by apply bool_decide_eq_true. }
      rewrite Hnil in Hin. by apply elem_of_nil in Hin.
    - intros Hall. apply filter_none. apply Forall_forall. intros [id row] Hin%elem_of_map_to_list.
      apply bool_decide_eq_false. intros [Hr Hreq]. by eapply Hall. }
  rewrite !Hnone. split; intros Hall id row Hrow Hr; (eapply Hall; [|done]); by apply Heq.
Qed.

Lemma local_insert_task room n row :
  (∀ now, tr_room_id (row now) = room) → local room (insert_task (fresh_uuid n) row).
Proof.
  intros Hrow now d d' Hd. unfold insert_task. rewrite Hrow. pose proof Hd as [Heq Hl Hr].
  assert (agent_tasks d !! fresh_uuid n = agent_tasks d' !! fresh_uuid n) as ->.
  { apply option_eq. intros r. split; intros Hin; (eapply Heq; [|exact Hin]); [by eapply Hl|by eapply Hr]. }
  pose proof (alike_task_of_request room (tr_request_id (row now)) d d' Hd) as Hnone.
  destruct (agent_tasks d' !! fresh_uuid n) as [|] eqn:Hn.
  { destruct (task_of_request _ _ d), (task_of_request _ _ d'); naive_solver. }
  destruct (task_of_request _ _ d), (task_of_request _ _ d'); try done; try naive_solver.
  split_and!; [done| |done..]. destruct Heq as [Hlog Hdec Hreq Htask], Hl as [Ue Ud Ut], Hr as [Ue' Ud' Ut'].
  assert (∀ d1, (∀ n r, agent_tasks d1 !! fresh_uuid n = Some r → tr_room_id r = room) →
    ∀ k r, <[fresh_uuid n := row now]> (agent_tasks d1) !! fresh_uuid k = Some r → tr_room_id r = room) as Hu.
  { intros d1 Hd1 k r. rewrite lookup_insert_Some. intros [[_ <-]|[_ ?]]; [done|by eapply Hd1]. }
  split; [|by split; [..|apply Hu]|by split; [..|apply Hu]]. split; [exact Hlog|exact Hdec|exact Hreq|].
  intros id r Hr. simpl. rewrite !lookup_insert_Some. by rewrite Htask.
Qed.

(** ** What two gateways share *)

Record same_outside (room : Uuid) (w w' : World) : Prop := {
  so_tick : tick w = tick w';
  so_presence : presence (gateway w) !! room = presence (gateway w') !! room;
  so_channel : channels (gateway w) !! room = channels (gateway w') !! room;
  so_enabled : conversations_enabled (gateway w) = conversations_enabled (gateway w');
}.
(** Between two requests. *)
Record agree0 (room : Uuid) (w w' : World) : Prop := {
  ag_outside : same_outside room w w';
  ag_committed : alike room (committed w) (committed w');
}.
(** Within a transaction for the request [rid], which is not on record. *)
Record in_tx (room rid : Uuid) (w w' : World) : Prop := {
  it_agree : agree0 room w w';
  it_working : alike room (working w) (working w');
  it_now : tx_now w = tx_now w';
  it_left : room_requests (working w) !! (room, rid) = None;
  it_right : room_requests (working w') !! (room, rid) = None;
}.

Lemma same_outside_tick room w w' : same_outside room w w' → same_outside room (next_tick w) (next_tick w').
Proof. intros [Ht Hp Hc He]. split; simpl; [by rewrite Ht|done..]. Qed.
Lemma agree0_tick room w w' : agree0 room w w' → agree0 room (next_tick w) (next_tick w').
Proof. intros [Ho Hc]. split; [by apply same_outside_tick|done]. Qed.
Lemma in_tx_tick room rid w w' : in_tx room rid w w' → in_tx room rid (next_tick w) (next_tick w').
Proof. intros [Ha Hw Hn Hl Hr]. split; [by apply agree0_tick|done..]. Qed.

(** Queries on the pool read what is committed. *)
Lemma replay_sim room after (R : relation World) :
  (∀ w w', R w w' → agree0 room w w') → (∀ w w', R w w' → R (next_tick w) (next_tick w')) →
  Keeps R (replay room after).
Proof.
  intros Hag Htick w w' Hw. destruct (Hag w w' Hw) as [[Ht _ _ _] Hcom]. apply Htick in Hw.
  unfold replay, events_after, map_err, pool_query, select. simpl. rewrite Ht.
  rewrite (alike_select room _ (committed w) (committed w')) by
    (try done; intros e _ [Hr' _]%andb_true_iff; by apply bool_decide_eq_true in Hr').
  destruct w, w'. by destruct (outage _).
Qed.
Lemma snapshot_sim room (R : relation World) :
  (∀ w w', R w w' → agree0 room w w') → (∀ w w', R w w' → R (next_tick w) (next_tick w')) →
  Keeps R (participant_snapshot room).
Proof.
  intros Hag Htick. unfold participant_snapshot. eapply sim_bind; [by apply replay_sim|]. intros events.
  eapply sim_bind; [apply sim_gets|intros present].
  { intros w w' Hw. by rewrite (so_presence _ _ _ (ag_outside _ _ _ (Hag w w' Hw))). }
  eapply sim_bind; [apply sim_gets|intros codex; sim_step].
  intros w w' Hw. apply (Hag w w' Hw).
Qed.

Section transaction.
Context (room rid : Uuid).
Abbreviation R := (in_tx room rid).

Lemma new_v4_sim {E} : Keeps R (new_v4 : M World E Uuid).
Proof.
  intros w w' Hw. unfold new_v4. rewrite (so_tick _ _ _ (ag_outside _ _ _ (it_agree _ _ _ _ Hw))).
  split; [done|by apply in_tx_tick].
Qed.

(** Where an identifier is drawn, it is one of the oracle's. *)
Lemma new_v4_bind_sim {E A} (k : Uuid → M World E A) :
  (∀ n, Keeps R (k (fresh_uuid n))) → Keeps R (new_v4 ≫= k).
Proof.
  intros Hk w w' Hw. unfold mbind, M_bind, new_v4.
  rewrite (so_tick _ _ _ (ag_outside _ _ _ (it_agree _ _ _ _ Hw))). apply Hk. by apply in_tx_tick.
Qed.

Lemma tx_query_sim {A} (q : DateTime → Db → result SqlxError (A * Db)) : local room q → Keeps R (tx_query q).
Proof.
  intros Hq w w' Hw. pose proof Hw as [[[Ht Hp Hc He] Hcom] Hwork Hnow Hl Hr]. unfold tx_query. rewrite Ht, Hnow.
  destruct (outage (tick w')); [|by split; [|apply in_tx_tick]..].
  specialize (Hq (tx_now w') _ _ Hwork).
  destruct (q _ (working w)) as [[a d1]|e], (q _ (working w')) as [[b d2]|e']; try done.
  - destruct Hq as (<- & Hd & Hr1 & Hr2). split; [done|].
    split; simpl; [split; [by split; simpl; [rewrite Ht|..]|done]|done|done|by rewrite Hr1|by rewrite Hr2].
  - subst. split; [done|by apply in_tx_tick].
Qed.

Lemma lock_room_sim r : Keeps R (lock_room r).
Proof.
  intros w w' Hw. pose proof Hw as [[[Ht Hp Hc He] Hcom] Hwork Hnow Hl Hr].
  unfold lock_room, map_err, advisory_lock. rewrite Ht. destruct (outage (tick w')); (split; [done|]); [|by apply in_tx_tick..].
  split; simpl; [split; [by split; simpl; [rewrite ?Ht|..]|done]|done..].
Qed.

Lemma append_sim e : ne_room_id e = room → Keeps R (append_event_in_transaction e).
Proof.
  intros He. unfold append_event_in_transaction. apply new_v4_bind_sim. intros n.
  destruct (negb _); [apply sim_throw|]. apply sim_map_err, tx_query_sim. by apply local_insert_event.
Qed.

#[local] Hint Resolve new_v4_sim tx_query_sim lock_room_sim append_sim : sim.
#[local] Hint Resolve local_update_decision local_delete_decision local_select_decision : sim.

Lemma replay_sim_tx after : Keeps R (replay room after).
Proof. apply replay_sim; [by intros w w' []|apply in_tx_tick]. Qed.
Lemma snapshot_sim_tx : Keeps R (participant_snapshot room).
Proof. apply snapshot_sim; [by intros w w' []|apply in_tx_tick]. Qed.

#[local] Hint Resolve replay_sim_tx snapshot_sim_tx local_insert_decision local_insert_task : sim.
Ltac tx_sim := unfold internal; repeat first
  [ solve [eauto 3 with sim]
  | match goal with |- Sim _ _ _ (new_v4 ≫= _) => refine (new_v4_bind_sim _ _); intros ? end
  | sim_step ].

Lemma chat_sim actor request : cs_room_id request = room → Keeps R (chat_send actor request).
Proof. intros Hr. unfold chat_send, run_action_items. rewrite Hr. tx_sim. Qed.
Lemma propose_sim actor request : dp_room_id request = room → Keeps R (decision_propose actor request).
Proof. intros Hr. unfold decision_propose. rewrite Hr. tx_sim. Qed.
Lemma transition_sim actor request :
  dt_room_id request = room → Keeps R (transition_decision_in_transaction actor request).
Proof.
  intros Hr. unfold transition_decision_in_transaction, settle_decision, replace_decision. rewrite Hr. tx_sim.
Qed.
Lemma delete_sim actor request :
  dd_room_id request = room → Keeps R (delete_decision_in_transaction actor request).
Proof. intros Hr. unfold delete_decision_in_transaction. rewrite Hr. tx_sim. Qed.

(** The request is known not to be on record. *)
Lemma local_record r : local room (select (λ _ d, room_requests d !! (room, r))).
Proof. apply local_select. intros _ d d' Hd. apply Hd. Qed.
Lemma prior_none_sim : Sim R (λ prior w w', R w w' ∧ prior = None) R (prior_request room rid).
Proof.
  unfold prior_request. apply sim_bind with (λ record w w', R w w' ∧ record = None).
  - apply sim_map_err. intros w w' Hw. pose proof (tx_query_sim _ (local_record rid) w w' Hw) as Hq.
    unfold tx_query, select in *. rewrite (it_left _ _ _ _ Hw), (it_right _ _ _ _ Hw) in *.
    by destruct (outage (tick w)), (outage (tick w')); try destruct Hq.
  - intros record. apply sim_pure. by intros -> w w' Hw.
Qed.
Lemma select_next_local : local room (select_next_sequence room).
Proof.
  intros now d d' Hd. unfold select_next_sequence, next_sequence, max_sequence.
  rewrite (lq_log _ _ _ (al_eq _ _ _ Hd)). by destruct (i64_max <? _).
Qed.

Lemma start_sim requester name start :
  ts_room_id start = room → ts_request_id start = rid →
  Keeps R (start_agent_task_in_transaction requester name start false).
Proof.
  intros Hr Hreq. unfold start_agent_task_in_transaction. rewrite Hr, Hreq. pose proof select_next_local.
  eapply sim_bind; [apply lock_room_sim|]. intros ?. cbv zeta.
  eapply sim_bind; [apply prior_none_sim|]. intros prior. apply sim_pure. intros ->. tx_sim.
Qed.

Lemma handle_request_sim actor request :
  room_id request = Some room → Protocol.request_id request = Some rid → Keeps R (handle_request actor request).
Proof.
  intros Hr Hreq. destruct request as [| |r|r|r|r|r]; try done; simpl in *; injection Hr as Hr; injection Hreq as Hreq.
  - by apply chat_sim.
  - by apply propose_sim.
  - by apply transition_sim.
  - by apply delete_sim.
  - pose proof (start_sim (actor_id actor) (actor_display_name actor) r Hr Hreq). tx_sim.
Qed.
End transaction.

(** ** A request *)

Record agree (room : Uuid) (w w' : World) : Prop := {
  ag_agree : agree0 room w w';
  ag_left : db_ok (committed w);
  ag_right : db_ok (committed w');
}.
(** Just after [begin_tx]. *)
Record just_begun (room : Uuid) (w w' : World) : Prop := {
  jb_agree : agree room w w';
  jb_now : tx_now w = tx_now w';
  jb_left : working w = committed w;
  jb_right : working w' = committed w';
}.

Lemma begin_sim room : Sim (agree room) (λ _, just_begun room) (agree0 room) begin_tx.
Proof.
  intros w w' Hw. pose proof Hw as [[[Ht Hp Hc He] Hcom] Hl Hr]. unfold begin_tx. rewrite Ht.
  destruct (outage (tick w')); [|by split; [|apply agree0_tick, Hw]..].
  split; [done|]. split; simpl; [|done..]. split; simpl; [|done..]. split; [|done]. by split.
Qed.

Lemma begun_agree0 room w w' : just_begun room w w' → agree0 room w w'.
Proof. by intros [[? _ _] _ _ _]. Qed.

Lemma lock_begun_sim room r : Sim (just_begun room) (λ _, just_begun room) (agree0 room) (lock_room r).
Proof.
  intros w w' Hw. pose proof Hw as [[[[Ht Hp Hc He] Hcom] Hl Hr] Hnow Hwl Hwr].
  unfold lock_room, map_err, advisory_lock. rewrite Ht.
  destruct (outage (tick w')); [|by split; [|apply agree0_tick, begun_agree0, Hw]..].
  split; [done|]. split; simpl; [|done..]. split; simpl; [|done..]. split; [|done]. split; simpl; [by rewrite ?Ht|done..].
Qed.

Lemma begun_query_sim {A} room (f : DateTime → Db → A) (φ : Db → Prop) :
  (∀ now d d', alike room d d' → db_ok d → db_ok d' → φ d → f now d = f now d') →
  Sim (λ w w', just_begun room w w' ∧ φ (working w))
    (λ a w w', just_begun room w w' ∧ ∃ now, a = f now (working w) ∧ a = f now (working w')) (agree0 room)
    (tx_query (select f)).
Proof.
  intros Hf w w' [Hw Hφ]. pose proof Hw as [[[[Ht Hp Hc He] Hcom] Hl Hr] Hnow Hwl Hwr].
  unfold tx_query, select. rewrite Ht, Hnow.
  destruct (outage (tick w')); [|by split; [|apply agree0_tick, begun_agree0, Hw]..].
  assert (f (tx_now w') (working w) = f (tx_now w') (working w')) as Heq.
  { apply Hf; [..|done]; by rewrite ?Hwl, ?Hwr. }
  split; [done|]. split; [|by exists (tx_now w')].
  split; simpl; [|done..]. split; simpl; [|done..]. split; [|done]. split; simpl; [by rewrite Ht|done..].
Qed.

Lemma recorded_selects_room room rid row d :
  db_ok d → room_requests d !! (room, rid) = Some row →
  selects_room room (λ e, bool_decide (ev_event_id e ∈ rq_event_ids row)) d.
Proof.
  intros Hok Hrow e He Hid%bool_decide_eq_true. destruct (ok_requests _ Hok _ _ _ Hrow) as (evs & Hsub & Hids).
  rewrite Hids in Hid. apply list_elem_of_fmap in Hid as (e' & Heq & He').
  eapply elem_of_sublist in He'; [|exact Hsub]. apply room_log_elem in He' as [He' Hr].
  assert (e = e') as ->; [|done].
  apply list_elem_of_lookup in He as [i Hi], He' as [j Hj].
  assert (i = j) as ->; [|congruence].
  eapply (NoDup_lookup _ i j (ev_event_id e) (ok_ids _ Hok)); rewrite list_lookup_fmap, ?Hi, ?Hj; simpl; congruence.
Qed.

Lemma prior_sim room rid :
  Sim (just_begun room)
    (λ prior w w', just_begun room w w' ∧
       (prior = None → room_requests (working w) !! (room, rid) = None ∧ room_requests (working w') !! (room, rid) = None))
    (agree0 room) (prior_request room rid).
Proof.
  unfold prior_request. eapply sim_bind.
  { apply sim_map_err. eapply sim_weaken;
      [apply (begun_query_sim room (λ _ d, room_requests d !! (room, rid)) (λ _, True))| | |].
    - intros _ d d' Hd _ _ _. apply Hd.
    - by intros w w' Hw.
    - intros a w w' Ha. exact Ha.
    - done. }
  intros record. simpl. destruct record as [row|].
  - eapply sim_bind.
    + apply sim_map_err. eapply sim_weaken;
        [apply (begun_query_sim room (λ _, select_by_id (rq_event_ids row))
                  (λ d, room_requests d !! (room, rid) = Some row))| | |].
      * intros _ d d' Hd Hok Hok' Hrow. apply (alike_select room); [done|by eapply recorded_selects_room|].
        eapply recorded_selects_room; [done|]. by rewrite <-(lq_requests _ _ _ (al_eq _ _ _ Hd)).
      * intros w w' [Hw (now & Hrow & _)]. by rewrite <-Hrow.
      * intros a w w' [Hw _]. exact Hw.
      * done.
    + intros events w w' Hw. by split.
  - intros w w' [Hw (now & Hl & Hr)]. split; [done|]. split; [done|]. intros _. by rewrite <-Hl, <-Hr.
Qed.

(** With the record of the request written. *)
Record written (room : Uuid) (w w' : World) : Prop := {
  wn_agree : agree0 room w w';
  wn_working : alike room (working w) (working w');
}.

Lemma record_sim room rid fp events :
  Sim (in_tx room rid) (λ _, written room) (agree0 room) (record_request room rid fp events).
Proof.
  unfold record_request. apply sim_map_err. intros w w' Hw. pose proof Hw as [[[Ht Hp Hc He] Hcom] Hwork Hnow Hl Hr].
  unfold tx_query, insert_request. rewrite Ht, Hl, Hr.
  destruct (outage (tick w')); [|by split; [|apply agree0_tick, Hw]..].
  split; [done|]. split; simpl; [split; [by split; simpl; [rewrite Ht|..]|done]|].
  destruct Hwork as [[Hlog Hdec Hreq Htask] [Ue Ud Ut] [Ue' Ud' Ut']]. split; [|by split..].
  split; [exact Hlog|exact Hdec| |exact Htask]. intros rid'. simpl.
  destruct (decide (rid = rid')) as [->|Hne]; [by rewrite !lookup_insert_eq|].
  by rewrite !lookup_insert_ne by congruence.
Qed.

Lemma commit_sim room : Sim (written room) (λ _, agree0 room) (agree0 room) commit_tx.
Proof.
  intros w w' [[[Ht Hp Hc He] Hcom] Hwork]. unfold commit_tx. rewrite Ht.
  by destruct (outage (tick w')); (split; [done|]); (split; [by split; simpl; [rewrite ?Ht|..]|]).
Qed.
Lemma rollback_sim room : Sim (just_begun room) (λ _, agree0 room) (agree0 room) rollback_tx.
Proof.
  intros w w' [[[[Ht Hp Hc He] Hcom] _ _] _ _ _]. unfold rollback_tx. rewrite Ht.
  by destruct (outage (tick w')); (split; [done|]); (split; [by split; simpl; [rewrite ?Ht|..]|]).
Qed.
Lemma offer_sim {E} room events : Keeps (agree0 room) (offer_to_memory_engine events : M World E ()).
Proof.
  apply sim_modify. intros w w' [[Ht Hp Hc He] Hcom]. split; [|done].
  by split; simpl; [done|destruct (memory_engine (gateway w)), (memory_engine (gateway w'))..].
Qed.

Lemma process_in_room_sim actor request room rid fp :
  room_id request = Some room → Protocol.request_id request = Some rid →
  Sim (agree room) (λ _, agree0 room) (agree0 room) (process_in_room actor request room rid fp).
Proof.
  intros Hroom Hrid. unfold process_in_room, internal.
  eapply sim_bind; [apply sim_map_err, begin_sim|]. intros ?.
  eapply sim_bind. { apply sim_map_err, lock_begun_sim. } intros ?.
  eapply sim_bind; [apply sim_map_err, (prior_sim room rid)|]. intros [[prior events]|].
  - eapply sim_bind; [apply sim_map_err; eapply sim_weaken; [apply rollback_sim|by intros ? ? [? _]|by intros|done]|].
    intros ?. case_bool_decide; sim_step.
  - eapply sim_bind with (R := λ _, in_tx room rid).
    { eapply sim_weaken; [by apply (handle_request_sim room rid)| |done|by intros ? ? []].
      intros w w' [[[Ha _ _] Hnow Hl Hr] Hnone]. destruct (Hnone eq_refl). split; [done| |done..].
      rewrite Hl, Hr. apply Ha. }
    intros events. eapply sim_bind; [apply sim_map_err, record_sim|]. intros ?.
    eapply sim_bind; [apply sim_map_err, commit_sim|]. intros ?.
    eapply sim_bind; [apply offer_sim|]. intros ?. sim_step.
Qed.

Lemma process_db_ok actor request w : db_ok (committed w) → db_ok (committed (process actor request w).2).
Proof.
  intros Hok. destruct (process actor request w) as [r w'] eqn:Hp. simpl.
  destruct (process_changed _ _ _ _ _ _ Hok (ensures_True _ _ _ _) Hp) as [->|(? & ? & ? & ? & _ & _ & _ & _ & ? & _)];
    done.
Qed.

Lemma process_sim actor request room : room_id request = Some room → Keeps (agree room) (process actor request).
Proof.
  intros Hroom.
  assert (Sim (agree room) (λ _, agree0 room) (agree0 room) (process actor request)) as Hsim.
  { unfold process. destruct (_ && _).
    { intros w w' [? _ _]. by split. }
    rewrite Hroom. destruct request; try done; simpl;
      first [by apply process_in_room_sim | intros w w' [? _ _]; by split]. }
  intros w w' Hw. specialize (Hsim w w' Hw). pose proof Hw as [_ Hl Hr].
  pose proof (process_db_ok actor request w Hl) as Hl'. pose proof (process_db_ok actor request w' Hr) as Hr'.
  destruct (process actor request w) as [[] ?], (process actor request w') as [[] ?]; try done; by destruct Hsim.
Qed.

(** ** A session *)

Lemma agree_tick room w w' : agree room w w' → agree room (next_tick w) (next_tick w').
Proof. intros [Ha Hl Hr]. split; [by apply agree0_tick|done..]. Qed.
Lemma agree_gateway room (f f' : Gateway → Gateway) w w' :
  agree room w w' → (let g := f (gateway w) in let g' := f' (gateway w') in
    presence g !! room = presence g' !! room ∧ channels g !! room = channels g' !! room ∧
    conversations_enabled g = conversations_enabled g') →
  agree room (with_gateway (f (gateway w)) w) (with_gateway (f' (gateway w')) w').
Proof. intros [[[Ht Hp Hc He] Hcom] Hl Hr] (Hp' & Hc' & He'). by split; [split; [split|]|..]. Qed.

(** Changes of the gateway's memory. *)
Lemma agree_modify {E} room f :
  (∀ g g', presence g !! room = presence g' !! room → channels g !! room = channels g' !! room →
     conversations_enabled g = conversations_enabled g' →
     presence (f g) !! room = presence (f g') !! room ∧ channels (f g) !! room = channels (f g') !! room ∧
     conversations_enabled (f g) = conversations_enabled (f g')) →
  Keeps (agree room) (modify_gateway f : M World E ()).
Proof.
  intros Hf. apply sim_modify. intros w w' Hw. apply agree_gateway; [done|]. destruct Hw as [[[_ Hp Hc He] _] _ _].
  by apply Hf.
Qed.

Lemma now_sim {E} room : Keeps (agree room) (now : M World E DateTime).
Proof.
  intros w w' Hw. unfold now. rewrite (so_tick _ _ _ (ag_outside _ _ _ (ag_agree _ _ _ Hw))).
  split; [done|by apply agree_tick].
Qed.
Lemma publish_sim {E} room event : Keeps (agree room) (publish event : M World E ()).
Proof.
  apply agree_modify. intros g g' Hp Hc He. split_and!; [done| |done]. simpl.
  destruct (decide (ev_room_id event = room)) as [->|]; [by rewrite !lookup_insert_eq, Hc|by rewrite !lookup_insert_ne].
Qed.
Lemma channel_sim {E} room : Keeps (agree room) (room_channel room : M World E nat).
Proof.
  unfold room_channel. eapply sim_bind with (R := λ _, agree room).
  - apply agree_modify. intros g g' Hp Hc He. split_and!; [done| |done]. simpl. by rewrite !lookup_insert_eq, Hc.
  - intros ?. apply sim_gets. intros w w' [[[_ _ Hc _] _] _ _]. unfold channel_log. by rewrite Hc.
Qed.

Lemma agree_agree0 room w w' : agree room w w' → agree0 room w w'.
Proof. by intros []. Qed.
End noninterference.

Section sessions.
Context `{UuidCrate, Chrono, Schemas, SerdeJson, Postgres, Unicode, Oracle, Socket, BroadcastChannel}.

(** Two connections of the same client, in the same room, at two gateways. *)
Record together (room : Uuid) (c c' : Conn) : Prop := {
  tg_session : cn_session c = cn_session c';
  tg_joined : se_joined_room (cn_session c) = Some room;
  tg_world : agree room (cn_world c) (cn_world c');
}.

Section in_room.
Context (room : Uuid).
Abbreviation T := (together room).

Lemma on_world_sim {E A} (m : M World E A) : Keeps (agree room) m → Keeps T (on_world m).
Proof.
  intros Hm c c' [Hs Hj Hw]. specialize (Hm _ _ Hw). unfold on_world.
  destruct (m (cn_world c)) as [[] w], (m (cn_world c')) as [[] w']; try done; destruct Hm as [-> ?]; by split.
Qed.
Lemma send_frame_sim f : Keeps T (send_frame f).
Proof.
  intros c c' [Hs Hj Hw]. unfold send_frame. rewrite (so_tick _ _ _ (ag_outside _ _ _ (ag_agree _ _ _ Hw))).
  destruct (send_ok _); (split; [done|]); split; simpl; rewrite ?Hs; try done; try (by apply agree_tick).
  - by rewrite <-Hs.
  - by rewrite <-Hs.
Qed.
Lemma set_session_sim {E} f :
  (∀ s, se_joined_room s = Some room → se_joined_room (f s) = Some room) →
  Keeps T (modify (with_session f) : M Conn E ()).
Proof. intros Hf. apply sim_modify. intros c c' [Hs Hj Hw]. split; simpl; [by rewrite Hs|by apply Hf|done]. Qed.
Lemma session_bind_sim {E A B} (g : Session → B) (k : B → M Conn E A) Q F :
  (∀ s, se_joined_room s = Some room → Sim T Q F (k (g s))) → Sim T Q F (gets (λ c, g (cn_session c)) ≫= k).
Proof. intros Hk c c' Hc. unfold mbind, M_bind, gets. rewrite <-(tg_session _ _ _ Hc). by apply Hk; [apply Hc|]. Qed.
Lemma channel_log_sim {E} :
  Keeps T (gets (λ c, channel_log room (gateway (cn_world c))) : M Conn E (list RoomBroadcast)).
Proof. apply sim_gets. intros c c' [_ _ [[[_ _ Hc _] _] _ _]]. unfold channel_log. by rewrite Hc. Qed.

Lemma is_ok_sim {E A} (m : M Conn E A) : Keeps T m → Keeps T (is_ok m).
Proof. intros Hm. unfold is_ok. solve_sim. Qed.
Lemma send_value_sim v : Keeps T (send_value v).
Proof. apply send_frame_sim. Qed.
Lemma send_error_sim id e : Keeps T (send_error id e).
Proof. apply send_frame_sim. Qed.
#[local] Hint Resolve on_world_sim send_frame_sim send_value_sim send_error_sim is_ok_sim channel_log_sim : sim.
#[local] Hint Resolve now_sim publish_sim channel_sim : sim.
Lemma close_sim id e reason : Keeps T (close_with_error id e reason).
Proof. unfold close_with_error. solve_sim. Qed.
Lemma replay_world_sim after : Keeps (agree room) (replay room after).
Proof. apply replay_sim; [apply agree_agree0|apply agree_tick]. Qed.
Lemma snapshot_world_sim : Keeps (agree room) (participant_snapshot room).
Proof. apply snapshot_sim; [apply agree_agree0|apply agree_tick]. Qed.
Lemma publish_snapshot_sim exclude : Keeps (agree room) (publish_participant_snapshot room exclude).
Proof.
  unfold publish_participant_snapshot. eapply sim_bind; [apply snapshot_world_sim|]. intros participants.
  apply agree_modify. intros g g' Hp Hc He. rewrite Hc. destruct (channels g' !! room) eqn:Hr; [|by rewrite Hc, Hr].
  split_and!; [done| |done]. simpl. by rewrite !lookup_insert_eq, Hc, Hr.
Qed.
Lemma send_events_sim events : Keeps T (send_events events).
Proof. induction events as [|e events IH]; simpl; solve_sim. Qed.
#[local] Hint Resolve close_sim replay_world_sim snapshot_world_sim publish_snapshot_sim send_events_sim : sim.

Lemma handle_join_sim actor join : Keeps T (handle_join actor join).
Proof.
  unfold handle_join. apply (session_bind_sim se_joined_room). intros s ->. cbv zeta.
  case_bool_decide as Hroom; simpl; [|solve_sim]. rewrite <-Hroom.
  pose proof (λ receiver n, set_session_sim (E := Empty_set) (set_joined (Some room) receiver n) (λ _ _, eq_refl)).
  solve_sim.
Qed.
Lemma handle_room_request_sim actor request :
  room_id request = Some room → Keeps T (handle_room_request actor request).
Proof. intros Hr. pose proof (process_sim actor request room Hr). unfold handle_room_request. solve_sim. Qed.
#[local] Hint Resolve handle_join_sim handle_room_request_sim : sim.

Lemma handle_message_sim actor message : Keeps T (handle_message actor message).
Proof.
  unfold handle_message, now_seconds. cbv zeta. destruct message as [raw| | | |]; [|solve_sim..].
  eapply sim_bind; [solve_sim|]. intros t. destruct (_ <=? _); [solve_sim|].
  destruct (validate_request raw) as [request|]; [|solve_sim].
  destruct request; try solve [solve_sim];
    (apply (session_bind_sim se_joined_room); intros s ->; case_bool_decide; simpl; [by apply handle_room_request_sim|solve_sim]).
Qed.

Lemma set_sequence_sim {E} k : Keeps T (modify (with_session (set_last_sequence k)) : M Conn E ()).
Proof. by apply set_session_sim. Qed.
Lemma set_receiver_sim {E} k : Keeps T (modify (with_session (set_receiver k)) : M Conn E ()).
Proof. by apply set_session_sim. Qed.
#[local] Hint Resolve set_sequence_sim set_receiver_sim : sim.
Lemma replay_events_sim actor events : Keeps T (replay_events actor events).
Proof.
  induction events as [|e events IH]; simpl; [sim_step|].
  apply (session_bind_sim se_last_sequence). intros s _. solve_sim.
Qed.
#[local] Hint Resolve replay_events_sim : sim.
Lemma replay_in_order_sim actor : Keeps T (replay_in_order actor room).
Proof. unfold replay_in_order. apply (session_bind_sim se_last_sequence). intros s _. solve_sim. Qed.
#[local] Hint Resolve replay_in_order_sim : sim.
Lemma receive_sim actor : Keeps T (receive_broadcast actor).
Proof.
  unfold receive_broadcast, deliver_event. apply (session_bind_sim id). unfold id. intros s ->.
  destruct (se_receiver s); [|sim_step]. eapply sim_bind; [apply channel_log_sim|]. intros log.
  destruct (recv _ _ _) as [[|[event|participants exclude]|] position]; try solve [solve_sim].
  eapply sim_bind; [solve_sim|]. intros ?. apply (session_bind_sim se_last_sequence). intros s' _. solve_sim.
Qed.

Lemma session_turn_sim actor input : Keeps T (session_turn actor input).
Proof.
  pose proof (handle_message_sim actor). pose proof (receive_sim actor). unfold session_turn. solve_sim.
Qed.

(** The end of a session: it has left the room. *)
Definition apart_from_room (c c' : Conn) : Prop :=
  cn_session c = cn_session c' ∧ agree room (cn_world c) (cn_world c').
Lemma unregister_sim {E} actor : Keeps (agree room) (unregister_participant room actor : M World E ()).
Proof.
  apply agree_modify. intros g g' Hp Hc He. split_and!; [|done..]. simpl. rewrite Hp.
  destruct (presence g' !! room) as [present|] eqn:Hr; [|by rewrite Hp].
  destruct (present !! actor); [by rewrite !lookup_insert_eq|by rewrite Hp].
Qed.
Lemma on_world_left_sim {E A} (m : M World E A) :
  Keeps (agree room) m → Keeps apart_from_room (on_world m).
Proof.
  intros Hm c c' [Hs Hw]. specialize (Hm _ _ Hw). unfold on_world.
  destruct (m (cn_world c)) as [[] w], (m (cn_world c')) as [[] w']; try done; destruct Hm as [-> ?]; by split.
Qed.
Lemma cleanup_sim actor : Sim T (λ _, apart_from_room) apart_from_room (cleanup_presence actor).
Proof.
  unfold cleanup_presence. apply (session_bind_sim se_joined_room). intros s ->.
  eapply sim_bind with (R := λ _, apart_from_room).
  { intros c c' [Hs _ Hw]. split; [done|]. split; simpl; [by rewrite Hs|done]. }
  intros ?. unfold is_ok. pose proof (@unregister_sim Empty_set (actor_id actor)).
  pose proof (publish_snapshot_sim None). pose proof @on_world_left_sim. solve_sim.
Qed.

Lemma websocket_session_sim actor inputs :
  Sim T (λ _, apart_from_room) apart_from_room (websocket_session actor inputs).
Proof.
  induction inputs as [|input inputs IH]; simpl; [apply cleanup_sim|].
  eapply sim_bind with (R := λ _, T).
  - eapply sim_weaken; [apply session_turn_sim|done|done|]. by intros c c' [].
  - intros []; [done|apply cleanup_sim].
Qed.
End in_room.

(** C18: what happens in a room does not depend on other rooms. Take two gateways that agree on one
    room: its log, its decisions, request records and tasks, its channel and presence. Whatever
    else is in their databases, a client in that room who goes through the same session with both
    (messages, requests, broadcasts, in any order and with any failures) is sent exactly the same
    frames by both, and the gateways agree on the room when the session has ended. The random
    identifiers drawn must not be in use in other rooms. *)
Theorem room_noninterference actor room inputs session w w' :
  se_joined_room session = Some room → agree room w w' →
  let after w := (websocket_session actor inputs {| cn_world := w; cn_session := session |}).2 in
  se_sent (cn_session (after w)) = se_sent (cn_session (after w')) ∧
  agree room (cn_world (after w)) (cn_world (after w')).
Proof.
  intros Hj Hw after. subst after. simpl.
  pose proof (websocket_session_sim room actor inputs {| cn_world := w; cn_session := session |}
    {| cn_world := w'; cn_session := session |} ltac:(by split)) as Hsim.
  destruct (websocket_session actor inputs {| cn_world := w |}) as [[[]|[]] c],
    (websocket_session actor inputs {| cn_world := w' |}) as [[[]|[]] c'].
  destruct Hsim as [_ [Hs ?]]. simpl. by rewrite Hs.
Qed.
End sessions.
