(* ===== verification/ConversationService.v ===== *)
(** * The conversation service (src/src/conversation_service.rs)

    The HTTP interface of conversations: one set of routes for browsers, one for the agent
    gateway, each behind its own authentication. Matching of paths, decoding of their parameters
    and of query strings are axum's and the url crate's. *)

From S2P Require Import Prelude Json Text Crates Types ConversationProtocol StrictJson ConversationTables Protocol Mentions ActionItems MemoryEngine World Store ConversationContext Catalog Rooms ConversationStore ConversationTurns ConversationUpdates ConversationReserve CatalogBridge Auth WebSocket.
From Stdlib Require Import Ascii.
Local Open Scope string_scope.
Local Open Scope list_scope.
Local Open Scope Z_scope.

(** ** Requests and replies *)

Inductive Method := Get | Head | Post | Options | OtherMethod.
Global Instance Method_eq_dec : EqDecision Method.
Proof. solve_decision. Defined.

(** The parts of a request the handlers look at; a body is [None] when it cannot be read. *)
Record HttpRequest := {
  hq_method : Method;
  hq_path : string;
  hq_query : option string;
  hq_origin : Header;
  hq_authorization : Header;
  hq_content_type : Header;
  hq_lease_token : Header;
  hq_request_method : Header;
  hq_request_headers : Header;
  hq_body : option string;
}.

(** [header.and_then(|value| value.to_str().ok())]. *)
Definition text_of (h : Header) : option string :=
  match h with Visible s => Some s | _ => None end.
Definition present (h : Header) : bool := match h with NoHeader => false | _ => true end.

Inductive Body := NoBody | TextBody | JsonBody (v : Value).

(** The headers are those the gateway's own code and axum's [Json] set; the server adds its own
    (Content-Length, and Allow on a refused method). *)
Record Reply := { re_status : Z; re_body : Body; re_headers : gmap string string }.

Definition bare (status : Z) : Reply := {| re_status := status; re_body := NoBody; re_headers := ∅ |}.
Definition json_reply (status : Z) (v : Value) : Reply :=
  {| re_status := status; re_body := JsonBody v;
     re_headers := {["content-type" := "application/json"]} |}.
Definition set_header (name value : string) (r : Reply) : Reply :=
  {| re_status := re_status r; re_body := re_body r; re_headers := <[name := value]> (re_headers r) |}.

(** Third party: percent-decoding of a path parameter, and [form_urlencoded::parse]. *)
Class UrlDecoding := {
  percent_decode : string → option string;
  form_parse : string → list (string * string);
}.

Definition error_status (e : ConversationError) : Z :=
  match e with
  | InvalidTaskInput => 400
  | AuthenticationRequired => 401
  | ConversationProtocol.Forbidden => 403
  | SessionUnavailable => 404
  | ContextTooLarge => 413
  | RuntimeUnavailable => 503
  | _ => 409
  end.

Definition profile_error (e : ConversationError) : Reply :=
  json_reply (error_status e)
    (json_object [("profileVersion", Str PROFILE_VERSION); ("code", Str (error_code e));
                  ("message", Str (error_code e)); ("requestId", Null)]).

Abbreviation Handler := (M World Empty_set).

Definition response (m : Conv Value) : Handler Reply :=
  r ← attempt m;
  mret (match r with Ok value => json_reply 200 value | Err e => profile_error e end).

Definition preflight : Handler Reply := mret (bare 204).
Definition not_found : Handler Reply := mret (profile_error SessionUnavailable).

(** ** Parts of a request *)

Section parts.
Context `{UuidCrate, JsonText}.

Definition canonical_uuid (value : string) : result ConversationError Uuid :=
  uuid ← ok_or InvalidTaskInput (uuid_parse value);
  if String.eqb (uuid_to_string uuid) value then Ok uuid else Err InvalidTaskInput.

Definition lease (request : HttpRequest) : result ConversationError Uuid :=
  value ← ok_or ConversationProtocol.Forbidden (text_of (hq_lease_token request));
  rmap_err (λ _, ConversationProtocol.Forbidden) (canonical_uuid value).

Definition no_query (request : HttpRequest) : result ConversationError () :=
  reject_if (bool_decide (is_Some (hq_query request))) InvalidTaskInput.

Definition MAX_BODY_BYTES : Z := 1048576.

(** [axum::body::to_bytes]. *)
Definition to_bytes (body : option string) (limit : Z) : option string :=
  bytes ← body; if limit <? Z.of_nat (String.length bytes) then None else Some bytes.

Definition is_json (content_type : string) : bool :=
  match split_on ";" content_type with
  | media :: _ => String.eqb (trim media) "application/json"
  | [] => false
  end.

Definition body (request : HttpRequest) : result ConversationError Value :=
  _ ← no_query request;
  _ ← reject_if match text_of (hq_content_type request) with
                | Some value => negb (is_json value)
                | None => true
                end InvalidTaskInput;
  bytes ← ok_or ContextTooLarge (to_bytes (hq_body request) MAX_BODY_BYTES);
  parse_strict_json bytes.
End parts.

(** ** Handlers *)

Section service.
Context `{UuidCrate, Chrono, SerdeJson, Sha2, Schemas, Postgres, Unicode, Timer, JsonText, UrlDecoding,
  HashOrder, Oracle}.

(** The catalogue the integration was configured with, if it has one. *)
Variable catalog : CatalogQuery.

Definition conversations {E} : M World E ConversationIntegration := gets (λ w, integration (gateway w)).
Definition configured (i : ConversationIntegration) : option CatalogQuery :=
  if ci_catalog i then Some catalog else None.

Definition publish_option {E} (event : option RoomEvent) : M World E () :=
  match event with Some event => publish event | None => mret () end.

Definition turn (actor : Actor) (request : HttpRequest) : Handler Reply :=
  match body request with
  | Err e => mret (profile_error e)
  | Ok value =>
      match validate_turn_request value with
      | Err e => mret (profile_error e)
      | Ok value =>
          integration ← conversations;
          expiry ← match from_timestamp (actor_expires_at actor) with
                   | Some expiry => mret expiry
                   | None => now
                   end;
          outcome ← attempt (reserve_mediated (ci_policy integration) actor value expiry
                      (default unavailable_catalog (configured integration)));
          match outcome with
          | Err e => mret (profile_error e)
          | Ok outcome =>
              _ ← publish_option (cr_prompt outcome);
              mret (json_reply 202 (cr_accepted outcome))
          end
      end
  end.

(** The body of [defaults], after the path. *)
Definition resolved_defaults (actor : Actor) (room agent : option string) (request : HttpRequest) :
    Conv Value :=
  room ← lift (ok_or InvalidTaskInput room);
  agent ← lift (ok_or InvalidTaskInput agent);
  _ ← lift (no_query request);
  room_id ← lift (canonical_uuid room);
  agent_id ← lift (canonical_uuid agent);
  if negb (bool_decide (agent_id = CODEX_AGENT_ID)) then throw SessionUnavailable
  else
    token_expiry ← lift (ok_or AuthenticationRequired (from_timestamp (actor_expires_at actor)));
    before ← now;
    _ ← lift (authorize_conversation_turn actor token_expiry before 0);
    integration ← conversations;
    let policy := ci_policy integration in
    if negb (cp_enabled policy) then throw RuntimeUnavailable
    else
      catalog ← lift (ok_or RuntimeUnavailable (configured integration));
      selected ← lift (rmap_err (λ _, RuntimeUnavailable) (resolve_settings policy None));
      _ ← map_err (λ _, RuntimeUnavailable)
            (validate_catalog_selection (timed catalog) policy selected);
      after ← now;
      _ ← lift (authorize_conversation_turn actor token_expiry after 0);
      let view := json_object
        [("profileVersion", Str PROFILE_VERSION); ("roomId", json_uuid room_id);
         ("agentId", json_uuid agent_id); ("selectedSettings", selected)] in
      _ ← lift (validate_profile_value "resolved-settings" view);
      mret view.

Definition defaults (actor : Actor) (room agent : option string) (request : HttpRequest) :
    Handler Reply := response (resolved_defaults actor room agent request).

Definition conversation (room agent : string) (request : HttpRequest) : Handler Reply :=
  response (
    _ ← lift (no_query request);
    integration ← conversations;
    room ← lift (canonical_uuid room);
    agent ← lift (canonical_uuid agent);
    conversation_view (ci_policy integration) room agent).

Definition task (room task : string) (request : HttpRequest) : Handler Reply :=
  response (
    _ ← lift (no_query request);
    integration ← conversations;
    room ← lift (canonical_uuid room);
    task ← lift (canonical_uuid task);
    task_view (ci_policy integration) room task).

(** The members of a claim: exactly the agent and the owner of the lease. *)
Definition claim_owner (request : Value) : result ConversationError string :=
  _ ← reject_if (match as_object request with
                 | Some members => negb (length members =? 2)%nat
                 | None => true
                 end || negb (bool_decide (index request "agentId" = json_uuid CODEX_AGENT_ID)))
        InvalidTaskInput;
  ok_or InvalidTaskInput (as_str (index request "leaseOwner")).

Definition claim (request : HttpRequest) : Handler Reply :=
  result ← attempt (
    value ← lift (body request);
    owner ← lift (claim_owner value);
    integration ← conversations;
    ConversationTurns.claim (ci_policy integration) owner);
  mret (match result with
        | Ok (Some value) => json_reply 200 value
        | Ok None => bare 204
        | Err e => profile_error e
        end).

(** The packet of a task for the lease the request presents. *)
Definition leased (task : string) (request : HttpRequest) : Conv Value :=
  _ ← lift (no_query request);
  integration ← conversations;
  task ← lift (canonical_uuid task);
  lease ← lift (lease request);
  packet (ci_policy integration) task lease.

Definition context (task : string) (request : HttpRequest) : Handler Reply :=
  response (leased task request).

Definition authority (task : string) (request : HttpRequest) : Handler Reply :=
  response (
    packet ← leased task request;
    mret (json_object
      [("profileVersion", Str PROFILE_VERSION); ("taskId", index packet "taskId");
       ("generation", index (index packet "conversation") "generation");
       ("contextDigest", index (index packet "context") "digest");
       ("expiresAt", index packet "expiresAt");
       ("authorizationExpiresAt", index packet "authorizationExpiresAt")])).

Definition receipt (task : string) (request : HttpRequest) : Handler Reply :=
  response (
    _ ← lift (no_query request);
    integration ← conversations;
    task ← lift (canonical_uuid task);
    ConversationTurns.receipt (ci_policy integration) task).

Definition update (task : string) (request : HttpRequest) : Handler Reply :=
  result ← attempt (
    lease ← lift (lease request);
    value ← lift (body request);
    integration ← conversations;
    task ← lift (canonical_uuid task);
    record_update (ci_policy integration) task lease value);
  match result with
  | Err e => mret (profile_error e)
  | Ok outcome =>
      _ ← publish_option (uo_event outcome);
      mret (json_reply 200 (uo_response outcome))
  end.

(** ** The models a browser may choose from *)

Record PageQuery := { pq_limit : Z; pq_cursor : option string }.

(** The loop over the pairs of the query string. *)
Fixpoint page_query (keys : list string) (q : PageQuery) (pairs : list (string * string)) :
    result ConversationError PageQuery :=
  match pairs with
  | [] => Ok q
  | (key, value) :: rest =>
      _ ← reject_if (bool_decide (key ∈ keys)) InvalidTaskInput;
      if String.eqb key "limit" then
        limit ← ok_or InvalidTaskInput (parse_u64 value);
        _ ← reject_if (negb ((1 <=? limit) && (limit <=? 100))) InvalidTaskInput;
        page_query (key :: keys) {| pq_limit := limit; pq_cursor := pq_cursor q |} rest
      else if String.eqb key "cursor" then
        _ ← reject_if (is_empty value || (256 <? chars_count value)%nat) InvalidTaskInput;
        page_query (key :: keys) {| pq_limit := pq_limit q; pq_cursor := Some value |} rest
      else Err InvalidTaskInput
  end.

(** What the policy leaves of a model: its allowed efforts, and nothing of a model that is not
    allowed or has no effort left. *)
Definition restrict_model (policy : ConversationPolicy) (model : Value) : option Value :=
  allowed ← List.find (λ allowed, is_str (index model "id") (md_id allowed)) (cp_models policy);
  let permitted v := existsb (is_str v) (md_reasoning_efforts allowed) in
  efforts ← as_array (index model "supportedReasoningEfforts");
  let kept := List.filter (λ effort, permitted (index effort "id")) efforts in
  let model := set_member model "supportedReasoningEfforts" (Array kept) in
  let model := if permitted (index model "defaultReasoningEffort") then model
               else set_member model "defaultReasoningEffort" Null in
  if bool_decide (kept = []) then None else Some model.

(** The provider's cursor behind one of ours, good for this revision of the catalogue only. *)
Definition provider_cursor (i : ConversationIntegration) (cursor : option string) :
    result ConversationError (option string) :=
  match cursor with
  | None => Ok None
  | Some cursor =>
      '(revision, provider) ← ok_or ConversationStale (ci_cursors i !! cursor);
      if String.eqb revision (cp_catalog_revision (ci_policy i)) then Ok (Some provider)
      else Err ConversationStale
  end.

Definition set_cursors (f : gmap string (string * string) → gmap string (string * string))
    (w : World) : World :=
  let g := gateway w in
  let i := integration g in
  with_gateway
    {| channels := channels g; presence := presence g; memory_engine := memory_engine g;
       integration :=
         {| ci_policy := ci_policy i; ci_catalog := ci_catalog i; ci_cursors := f (ci_cursors i);
            ci_bridge_cursors := ci_bridge_cursors i |} |} w.

(** The provider's cursor replaced by one of ours. *)
Definition own_cursor (policy : ConversationPolicy) (page : Value) : Conv Value :=
  match as_str (index page "nextCursor") with
  | None => mret page
  | Some next =>
      id ← new_v4;
      let cursor := uuid_to_string id in
      _ ← modify (λ w, set_cursors (remember_cursor (tick w) cursor
                                      (cp_catalog_revision policy, next)) w);
      mret (set_member page "nextCursor" (Str cursor))
  end.

Definition model_page (room agent : string) (request : HttpRequest) : Conv Value :=
  _ ← lift (canonical_uuid room);
  agent ← lift (canonical_uuid agent);
  if negb (bool_decide (agent = CODEX_AGENT_ID)) then throw ConversationProtocol.Forbidden
  else
    q ← lift (page_query [] {| pq_limit := 100; pq_cursor := None |}
                (form_parse (default "" (hq_query request))));
    integration ← conversations;
    let policy := ci_policy integration in
    if negb (cp_enabled policy) then throw RuntimeUnavailable
    else
      provider ← lift (provider_cursor integration (pq_cursor q));
      catalog ← lift (ok_or RuntimeUnavailable (configured integration));
      page ← timed catalog CODEX_AGENT_ID provider (pq_limit q);
      _ ← lift (validate_catalog page policy);
      data ← lift (ok_or RuntimeUnavailable (as_array (index page "data")));
      if pq_limit q <? Z.of_nat (length data) then throw RuntimeUnavailable
      else
        page ← own_cursor policy
                 (set_member page "data" (Array (omap (restrict_model policy) data)));
        _ ← lift (validate_profile_value "catalog" page);
        mret page.

Definition models (room agent : string) (request : HttpRequest) : Handler Reply :=
  response (model_page room agent request).

(** ** Routing *)

Definition METHOD_NOT_ALLOWED : Reply := bare 405.

(** axum serves HEAD with the handler of GET and drops the body. *)
Definition without_body (r : Reply) : Reply :=
  {| re_status := re_status r; re_body := NoBody; re_headers := re_headers r |}.
Definition on_get (request : HttpRequest) (handler : Handler Reply) : Handler Reply :=
  match hq_method request with
  | Get => handler
  | Head => r ← handler; mret (without_body r)
  | Options => preflight
  | _ => mret METHOD_NOT_ALLOWED
  end.

(** [Path]: a parameter that is not text once decoded is refused by the extractor. *)
Definition with_param (raw : string) (handler : string → Handler Reply) : Handler Reply :=
  match percent_decode raw with
  | Some s => handler s
  | None => mret {| re_status := 400; re_body := TextBody;
                    re_headers := {["content-type" := "text/plain; charset=utf-8"]} |}
  end.

(** A parameter is never empty: such a path matches no route. *)
Definition browser_routes (segments : list string) (actor : Actor) (request : HttpRequest) :
    Handler Reply :=
  if existsb is_empty segments then not_found else
  match segments with
  | ["turns"] =>
      match hq_method request with
      | Post => turn actor request
      | Options => preflight
      | _ => mret METHOD_NOT_ALLOWED
      end
  | ["rooms"; room; "agents"; agent] =>
      on_get request (with_param room (λ room, with_param agent (λ agent,
        conversation room agent request)))
  | ["rooms"; room; "agents"; agent; "models"] =>
      on_get request (with_param room (λ room, with_param agent (λ agent,
        models room agent request)))
  | ["rooms"; room; "agents"; agent; "defaults"] =>
      on_get request (defaults actor (percent_decode room) (percent_decode agent) request)
  | ["rooms"; room; "tasks"; id] =>
      on_get request (with_param room (λ room, with_param id (λ id, task room id request)))
  | _ => not_found
  end.

(** Without OPTIONS, an axum route refuses that method like any other. *)
Definition internal_get (request : HttpRequest) (handler : Handler Reply) : Handler Reply :=
  match hq_method request with
  | Options => mret METHOD_NOT_ALLOWED
  | _ => on_get request handler
  end.
Definition internal_post (request : HttpRequest) (handler : Handler Reply) : Handler Reply :=
  match hq_method request with Post => handler | _ => mret METHOD_NOT_ALLOWED end.

Definition internal_routes (segments : list string) (request : HttpRequest) : Handler Reply :=
  if existsb is_empty segments then not_found else
  match segments with
  | ["claim"] => internal_post request (claim request)
  | ["tasks"; id; "context"] => internal_get request (with_param id (λ id, context id request))
  | ["tasks"; id; "updates"] => internal_post request (with_param id (λ id, update id request))
  | ["tasks"; id; "authority"] => internal_get request (with_param id (λ id, authority id request))
  | ["tasks"; id; "receipt"] => internal_get request (with_param id (λ id, receipt id request))
  | _ => not_found
  end.
End service.

(** ** Authentication *)

Section authentication.
Context `{UuidCrate, Jwt, Oracle}.

Definition no_store (r : Reply) : Reply := set_header "cache-control" "no-store" r.

(** The header names a preflight may ask for. *)
Definition allowed_headers (headers : string) : bool :=
  forallb (λ header, let name := to_ascii_lowercase header in
                     String.eqb name "authorization" || String.eqb name "content-type")
    (List.filter (λ header, negb (is_empty header)) (trim <$> split_on "," headers)).

Definition preflight_reply (request : HttpRequest) : Reply :=
  let method := text_of (hq_request_method request) in
  if negb (bool_decide (is_Some (text_of (hq_origin request))))
     || negb (bool_decide (method = Some "GET") || bool_decide (method = Some "POST"))
     || negb (allowed_headers (default "" (text_of (hq_request_headers request))))
  then profile_error ConversationProtocol.Forbidden
  else set_header "access-control-allow-headers" "authorization, content-type"
         (set_header "access-control-allow-methods" "GET, POST, OPTIONS" (bare 204)).

Definition allow_origin (origin : option string) (r : Reply) : Reply :=
  match origin with
  | Some origin => set_header "vary" "Origin" (set_header "access-control-allow-origin" origin r)
  | None => r
  end.

Definition authenticate_browser (policy : WebSocketPolicy) (auth : AuthValidator)
    (next : Actor → HttpRequest → Handler Reply) (request : HttpRequest) : Handler Reply :=
  let origin := text_of (hq_origin request) in
  if present (hq_origin request)
     && match origin with Some origin => negb (allows_origin policy origin) | None => true end
  then mret (no_store (profile_error ConversationProtocol.Forbidden))
  else
    result ←
      match hq_method request with
      | Options => mret (preflight_reply request)
      | _ =>
          t ← now;
          match authenticate_bearer auth (t / 1000000000) (text_of (hq_authorization request)) with
          | None => mret (profile_error AuthenticationRequired)
          | Some actor =>
              if negb (bool_decide (actor_role actor = Human))
              then mret (profile_error ConversationProtocol.Forbidden)
              else next actor request
          end
      end;
    mret (allow_origin origin (no_store result)).

Definition authenticate_workload (auth : AuthValidator) (next : HttpRequest → Handler Reply)
    (request : HttpRequest) : Handler Reply :=
  if present (hq_origin request) then mret (profile_error ConversationProtocol.Forbidden)
  else
    t ← now;
    result ←
      match authenticate_agent_gateway_bearer auth (t / 1000000000)
              (text_of (hq_authorization request)) with
      | Ok _ => next request
      | Err Unauthenticated => mret (profile_error AuthenticationRequired)
      | Err Auth.Forbidden => mret (profile_error ConversationProtocol.Forbidden)
      end;
    mret (no_store result).
End authentication.

(** [routes]: the two nested routers; [None] where the path belongs to neither. *)
Definition BROWSER_PREFIX : list string := [""; "api"; "agent-conversations"; "v1"].
Definition INTERNAL_PREFIX : list string := [""; "internal"; "agent-conversations"; "v1"].
Definition under (prefix : list string) (request : HttpRequest) : bool :=
  bool_decide (take 4 (split_on "/" (hq_path request)) = prefix).

Definition routes `{UuidCrate, Chrono, SerdeJson, Sha2, Schemas, Postgres, Unicode, Timer, JsonText,
    UrlDecoding, HashOrder, Jwt, Oracle} (catalog : CatalogQuery) (policy : WebSocketPolicy)
    (auth : AuthValidator) (request : HttpRequest) : option (Handler Reply) :=
  let rest := drop 4 (split_on "/" (hq_path request)) in
  if under BROWSER_PREFIX request
  then Some (authenticate_browser policy auth (browser_routes catalog rest) request)
  else if under INTERNAL_PREFIX request
  then Some (authenticate_workload auth (internal_routes rest) request)
  else None.
