(* ===== verification/ServiceTheorems.v ===== *)
(** * Properties of the conversation service

    Whatever a request to the service does, the database evolves as the invariants allow and only
    committed events are broadcast; nothing happens without authentication; and a browser is only
    offered models the policy allows. *)

From S2P Require Import Prelude Json Text Crates Types ConversationProtocol StrictJson ConversationTables Protocol Mentions ActionItems MemoryEngine World Store StoreInvariant ConversationContext Catalog Rooms ConversationStore ConversationTurns ConversationUpdates ConversationInvariant ConversationSteps ConversationClaims ConversationReports ConversationReserve CatalogBridge RoomsInvariant System AgentTheorems Auth WebSocket Delivery ConversationService.
Local Open Scope string_scope.
Local Open Scope list_scope.
Local Open Scope Z_scope.

Section advances.
Context `{UuidCrate, !UuidLaws, Chrono, SerdeJson, Sha2, Schemas, Postgres, Unicode, Timer, JsonText,
  UrlDecoding, HashOrder, Oracle}.

(** ** Requests that only read *)

Lemma keeps_advances w w' : db_ok (committed w) → channels_ok w → keeps w w' → advances w w'.
Proof.
  intros Hok Hch (Hc & _ & _ & Hg). apply advances_quiet; [rewrite Hc; by apply evolves_refl|apply Hg|done].
Qed.

Lemma wp_keeps {E A} (m : M World E A) w :
  Pres keeps m → wp m (λ _ w', keeps w w') (λ _ w', keeps w w') w.
Proof. intros Hm. specialize (Hm w). unfold wp. by destruct (m w) as [[]]. Qed.

Lemma timed_keeps catalog agent cursor limit :
  catalog_frame catalog → Pres keeps (timed catalog agent cursor limit).
Proof. intros Hf w. apply (timed_frame _ Hf). Qed.

Lemma scan_pages_keeps turns catalog policy selected cursor cursors models found :
  catalog_frame catalog → Pres keeps (scan_pages turns catalog policy selected cursor cursors models found).
Proof.
  intros Hf. revert cursor cursors models found. induction turns as [|n IH]; intros; simpl; [pres_step|].
  pres_step; [intros w; apply Hf|]. solve_pres.
Qed.

Lemma now_keeps {E} : Pres (E := E) keeps now.
Proof. by intros w. Qed.
Lemma new_v4_keeps {E} : Pres (E := E) keeps new_v4.
Proof. by intros w. Qed.
Lemma cursors_keeps {E} f : Pres (E := E) keeps (modify (λ w, set_cursors (f w) w)).
Proof. by intros w. Qed.
#[local] Hint Resolve now_keeps new_v4_keeps cursors_keeps : pres.

Lemma configured_Ok catalog i c :
  ok_or (E := ConversationError) RuntimeUnavailable (configured catalog i) = Ok c → c = catalog.
Proof. unfold configured. destruct (ci_catalog i); simpl; congruence. Qed.

Lemma defaults_keeps catalog actor room agent request :
  catalog_frame catalog → Pres keeps (resolved_defaults catalog actor room agent request).
Proof.
  intros Hf. unfold resolved_defaults, conversations, validate_catalog_selection. cbv zeta.
  repeat (first [solve [auto with pres]|pres_step]).
  all: match goal with Hc : ok_or _ (configured _ _) = Ok _ |- _ => apply configured_Ok in Hc as -> end.
  apply scan_pages_keeps. intros ????. by apply timed_frame.
Qed.

Lemma model_page_keeps catalog room agent request :
  catalog_frame catalog → Pres keeps (model_page catalog room agent request).
Proof.
  intros Hf. unfold model_page, conversations, own_cursor. cbv zeta.
  repeat (first [solve [auto with pres]|pres_step]).
  all: match goal with Hc : ok_or _ (configured _ _) = Ok _ |- _ => apply configured_Ok in Hc as -> end.
  by apply timed_keeps.
Qed.

Lemma conversation_view_settled policy room agent c g w :
  settled c g w → wp (conversation_view policy room agent) (λ _, settled c g) (λ _, settled c g) w.
Proof.
  intros Hw. unfold conversation_view, unavailable. wp_step. wp_step; [|done]. wp_step. wp_step.
  wp_use wp_pool_read; [done| |done]. intros found w1 [_ Hw1]. cbv zeta. wp_step. wp_step; [|done]. by wp_step.
Qed.

Lemma receipt_settled policy task c g w :
  settled c g w → wp (ConversationTurns.receipt policy task) (λ _, settled c g) (λ _, settled c g) w.
Proof.
  intros Hw. unfold ConversationTurns.receipt, unavailable. wp_step. wp_step; [|done]. wp_step. wp_step.
  wp_use wp_pool_read; [done| |done]. intros found w1 [_ Hw1]. wp_step. wp_step; [|done]. by wp_step.
Qed.

Lemma task_view_settled policy room task c g w :
  settled c g w → wp (task_view policy room task) (λ _, settled c g) (λ _, settled c g) w.
Proof.
  intros Hw. unfold task_view. wp_step. wp_step; [|done]. wp_step. eapply wp_start; [done| |done].
  intros now w1 Hw1. unfold unavailable. wp_step. wp_step. wp_use wp_tx_select; [done| |done].
  intros [] w2 [_ Hw2]. wp_step. wp_step. wp_use wp_tx_select; [done| |done]. intros found w3 [_ Hw3].
  wp_step. wp_step; [|by eapply tx_state_settled]. wp_step. wp_step. wp_use wp_tx_select; [done| |done].
  intros updates w4 [_ Hw4]. cbv zeta. wp_step. wp_step; [|by eapply tx_state_settled]. wp_step. wp_step.
  wp_use wp_commit; [done| |intros e w5 [?|?]; done]. intros [] w5 Hw5. by wp_step.
Qed.

(** ** Every handler *)

(** The world before a request, and what a handler may do to it. *)
Definition serving (w : World) : Prop := store_ok (committed w) ∧ channels_ok w.
Definition moves (w : World) (m : Handler Reply) : Prop := wp m (λ _ w', advances w w') (λ _ _, False) w.

Lemma advances_refl w : serving w → advances w w.
Proof. intros [[Hok _] Hch]. by apply advances_settled. Qed.

Lemma wp_response (m : Conv Value) (P : World → Prop) w :
  wp m (λ _, P) (λ _, P) w → wp (response m) (λ _, P) (λ _ _, False) w.
Proof. intros Hm. unfold response. wp_step. wp_step. wp_use Hm; intros ? w' ?; by wp_step. Qed.

Lemma settled_moves (m : Conv Value) w :
  serving w → wp m (λ _, settled (committed w) (gateway w)) (λ _, settled (committed w) (gateway w)) w →
  moves w (response m).
Proof.
  intros [[Hok _] Hch] Hm. apply wp_response. wp_use Hm; intros ? w' ?; by apply advances_settled.
Qed.

Lemma keeps_moves (m : Conv Value) w : serving w → Pres keeps m → moves w (response m).
Proof.
  intros [[Hok _] Hch] Hm. apply wp_response. wp_use (wp_keeps m w Hm); intros ? w' ?; by apply keeps_advances.
Qed.

Lemma stepped_advances w w' : channels_ok w → stepped (committed w) (gateway w) w' → advances w w'.
Proof.
  intros Hch (d & [Hc Hg] & Hst). apply advances_quiet; [rewrite Hc; by apply evolves_conv|by rewrite Hg|done].
Qed.

Lemma stepped_moves (m : Conv Value) w :
  serving w → wp m (λ _, stepped (committed w) (gateway w)) (λ _, stepped (committed w) (gateway w)) w →
  moves w (response m).
Proof. intros [_ Hch] Hm. apply wp_response. wp_use Hm; intros ? w' ?; by apply stepped_advances. Qed.

Lemma conversation_moves room agent request w : serving w → moves w (conversation room agent request).
Proof.
  intros Hs. apply settled_moves; [done|]. wp_step. wp_step; [|done]. wp_step. apply wp_gets. wp_step.
  wp_step; [|done]. wp_step. wp_step; [|done]. by apply conversation_view_settled.
Qed.

Lemma task_moves room id request w : serving w → moves w (task room id request).
Proof.
  intros Hs. apply settled_moves; [done|]. wp_step. wp_step; [|done]. wp_step. apply wp_gets. wp_step.
  wp_step; [|done]. wp_step. wp_step; [|done]. by apply task_view_settled.
Qed.

Lemma receipt_moves id request w : serving w → moves w (receipt id request).
Proof.
  intros Hs. apply settled_moves; [done|]. wp_step. wp_step; [|done]. wp_step. apply wp_gets. wp_step.
  wp_step; [|done]. by apply receipt_settled.
Qed.

Lemma leased_stepped id request w :
  serving w →
  wp (leased id request) (λ _, stepped (committed w) (gateway w)) (λ _, stepped (committed w) (gateway w)) w.
Proof.
  intros [[Hok Hc] Hch]. assert (stepped (committed w) (gateway w) w) by (by apply settled_stepped).
  unfold leased. wp_step. wp_step; [|done]. wp_step. apply wp_gets. wp_step. wp_step; [|done]. wp_step.
  wp_step; [|done]. wp_use packet_steps; [done..| |done]. intros v w' ?. by apply settled_stepped.
Qed.

Lemma context_moves id request w : serving w → moves w (context id request).
Proof. intros Hs. apply stepped_moves; [done|]. by apply leased_stepped. Qed.

Lemma authority_moves id request w : serving w → moves w (authority id request).
Proof.
  intros Hs. apply stepped_moves; [done|]. wp_step. wp_use (leased_stepped id request w Hs); [|done].
  intros packet w1 Hw1. by wp_step.
Qed.

Lemma claim_moves request w : serving w → moves w (claim request).
Proof.
  intros Hs. pose proof (advances_refl _ Hs) as Hrefl. destruct Hs as [[Hok Hc] Hch].
  unfold moves, claim. wp_step. wp_step. wp_step. wp_step; [|by wp_step]. wp_step. wp_step; [|by wp_step].
  wp_step. apply wp_gets. wp_use turn_claim_spec; [done|done|done|..].
  - intros r w1 (d & Hd & Hst & _). wp_step. apply stepped_advances; [done|]. by exists d.
  - intros e w1 Hw1. wp_step. by apply stepped_advances.
Qed.

(** Publishing what a handler has just committed. *)
Lemma publish_option_advances (e : option RoomEvent) w w1 :
  advances w w1 → (∀ event, e = Some event → event ∈ room_events (committed w1)) →
  wp (publish_option (E := Empty_set) e) (λ _ w', advances w w') (λ _ _, False) w1.
Proof.
  intros Hadv He. destruct e as [event|]; simpl; [|by wp_step].
  wp_use (publish_advances (E := Empty_set) event w1); [apply Hadv|apply Hadv| | |done].
  - apply room_log_elem. split; [by apply He|done].
  - intros [] w2 [Hw2 _]. by eapply advances_trans.
Qed.

Lemma about_advances w w' d g' :
  channels_ok w → same_but_cursors (gateway w) g' → settled d g' w' → conv_step (committed w) d → advances w w'.
Proof.
  intros Hch Hg [Hc Hgw] Hst. apply advances_quiet; [rewrite Hc; by apply evolves_conv| |done].
  rewrite Hgw. apply Hg.
Qed.

(** The prompt of a reservation is in the database it leaves. *)
Lemma reserve_answer_prompt policy actor request d d' o event :
  reserve_answer policy actor request d d' o → cr_prompt o = Some event → event ∈ room_events d'.
Proof.
  intros (room & rid & _ & _ & Hans) Ho. destruct (room_requests d !! (room, rid)).
  - destruct Hans as (_ & _ & _ & Hn). congruence.
  - destruct (rv_turn _ _ _ _ _ _ _ _ Hans) as (id & at_ & task & cv & gen & base & ctx & st & auth & now & tok &
      _ & _ & _ & _ & _ & _ & Hev & _ & _ & _ & _ & ->). simpl in Ho. injection Ho as <-.
    rewrite Hev. apply elem_of_app. right. by left.
Qed.

Lemma update_answer_event task lease request d d' o event :
  update_answer task lease request d d' o → uo_event o = Some event → event ∈ room_events d'.
Proof.
  intros (view & uid & _ & _ & _ & Hans) Ho. destruct (requests_of d !! (task, uid)).
  - destruct Hans as (_ & _ & ->). done.
  - destruct Hans as (_ & [_ (kind & ordinal & evs & row & c & at_ & _ & _ & _ & _ & Heff & Hat)]).
    destruct Heff; simpl in Ho; simplify_eq.
    rewrite (ta_events _ _ _ _ _ _ _ Hat). apply elem_of_app. right. by left.
Qed.

Lemma turn_moves catalog actor request w :
  catalog_frame catalog → serving w → moves w (turn catalog actor request).
Proof.
  intros Hf Hs. pose proof (advances_refl _ Hs) as Hrefl. destruct Hs as [[Hok Hc] Hch].
  unfold moves, turn. destruct (body request) as [value|e]; [|by wp_step].
  destruct (validate_turn_request value) as [value'|e]; [|by wp_step]. wp_step. apply wp_gets. wp_step.
  eapply wp_mono with (Q := λ _ w1, settled (committed w) (gateway w) w1) (F := λ _ _, False); [|cbv beta|done].
  { destruct (from_timestamp _); [by wp_step|]. apply wp_intro; [|done]. by intros a w1 [= _ <-]. }
  intros expiry w1 Hw1. wp_step. wp_step. unfold reserve_mediated.
  wp_use reserve_inner_spec; [|exact Hw1|done|done|..].
  - intros c [= <-]. unfold configured. destruct (ci_catalog _); [done|apply unavailable_catalog_frame].
  - intros o w2 (d & g' & Hg & Hd & Hst & _ & _ & Hans). wp_step.
    wp_use publish_option_advances; [by eapply about_advances| | |done].
    + intros event He. rewrite (proj1 Hd). by eapply reserve_answer_prompt.
    + intros [] w3 Hw3. by wp_step.
  - intros e w2 (d & g' & Hg & Hd & Hst). wp_step. by eapply about_advances.
Qed.

Lemma update_moves id request w : serving w → moves w (update id request).
Proof.
  intros Hs. pose proof (advances_refl _ Hs) as Hrefl. destruct Hs as [[Hok Hc] Hch].
  unfold moves, update. wp_step. wp_step. wp_step. wp_step; [|by wp_step]. wp_step. wp_step; [|by wp_step].
  wp_step. apply wp_gets. wp_step. wp_step; [|by wp_step].
  wp_use conversation_update_spec; [done|done|done|..].
  - intros o w1 (d & Hd & Hst & Hans). wp_step.
    wp_use publish_option_advances; [apply stepped_advances; [done|by exists d]| | |done].
    + intros event He. rewrite (proj1 Hd). by eapply update_answer_event.
    + intros [] w2 Hw2. by wp_step.
  - intros e w1 Hw1. wp_step. by apply stepped_advances.
Qed.

(** ** Routes *)

Lemma ret_moves (r : Reply) w : serving w → moves w (mret r).
Proof. intros Hs. unfold moves. wp_step. by apply advances_refl. Qed.

Lemma on_get_moves request h w : serving w → moves w h → moves w (on_get request h).
Proof.
  intros Hs Hh. unfold on_get. destruct (hq_method request); [done| |by apply ret_moves..].
  unfold moves. wp_step. wp_use Hh; [|done]. intros r w1 ?. by wp_step.
Qed.

Lemma with_param_moves raw h w : serving w → (∀ s, moves w (h s)) → moves w (with_param raw h).
Proof. intros Hs Hh. unfold with_param. destruct (percent_decode raw); [done|by apply ret_moves]. Qed.

Lemma internal_get_moves request h w : serving w → moves w h → moves w (internal_get request h).
Proof. intros Hs Hh. unfold internal_get. destruct (hq_method request); by auto using ret_moves, on_get_moves. Qed.

Lemma internal_post_moves request h w : serving w → moves w h → moves w (internal_post request h).
Proof. intros Hs Hh. unfold internal_post. destruct (hq_method request); by auto using ret_moves. Qed.

Create HintDb moves.
#[local] Hint Resolve ret_moves on_get_moves with_param_moves internal_get_moves internal_post_moves
  conversation_moves task_moves receipt_moves context_moves authority_moves claim_moves turn_moves
  update_moves : moves.

Ltac solve_moves :=
  repeat match goal with
    | |- moves _ (match ?x with _ => _ end) => destruct x
    end; eauto 8 with moves.

Lemma browser_routes_move catalog segments actor request w :
  catalog_frame catalog → serving w → moves w (browser_routes catalog segments actor request).
Proof.
  intros Hf Hs. pose proof (λ room agent, keeps_moves _ w Hs (model_page_keeps catalog room agent request Hf)).
  pose proof (λ a room agent, keeps_moves _ w Hs (defaults_keeps catalog a room agent request Hf)).
  assert (moves w not_found) by (by apply ret_moves). unfold browser_routes, models, defaults, preflight.
  solve_moves.
Qed.

Lemma internal_routes_move segments request w : serving w → moves w (internal_routes segments request).
Proof.
  intros Hs. assert (moves w not_found) by (by apply ret_moves). unfold internal_routes. solve_moves.
Qed.
End advances.

(** ** Authentication *)

Section gate.
Context `{UuidCrate, !UuidLaws, Chrono, SerdeJson, Sha2, Schemas, Postgres, Unicode, Timer, JsonText,
  UrlDecoding, HashOrder, Jwt, Oracle}.

(** A browser whose token is valid for a human, and which comes from nowhere or an allowed origin. *)
Definition browser_admitted (policy : WebSocketPolicy) (auth : AuthValidator) (request : HttpRequest)
    (w : World) (actor : Actor) : Prop :=
  authenticate_bearer auth (utc_now (tick w) / 1000000000) (text_of (hq_authorization request)) = Some actor ∧
  actor_role actor = Human ∧ hq_method request ≠ Options ∧
  (hq_origin request = NoHeader ∨ ∃ o, hq_origin request = Visible o ∧ allows_origin policy o = true).

(** The agent gateway, which is not a browser. *)
Definition workload_admitted (auth : AuthValidator) (request : HttpRequest) (w : World) : Prop :=
  authenticate_agent_gateway_bearer auth (utc_now (tick w) / 1000000000)
    (text_of (hq_authorization request)) = Ok () ∧
  hq_origin request = NoHeader.

(** A request that was not let through: it changed nothing and learned nothing but a refusal, or
    the answer to a preflight. *)
Definition turned_away (request : HttpRequest) (r : Reply) (w w' : World) : Prop :=
  committed w' = committed w ∧ gateway w' = gateway w ∧
  (re_status r = 401 ∨ re_status r = 403 ∨ re_status r = 204 ∧ hq_method request = Options).

Lemma browser_gate policy auth next request w r w' :
  authenticate_browser policy auth next request w = (Ok r, w') →
  (∃ actor reply, browser_admitted policy auth request w actor ∧
     next actor request (next_tick w) = (Ok reply, w') ∧
     r = allow_origin (text_of (hq_origin request)) (no_store reply)) ∨
  turned_away request r w w'.
Proof.
  unfold authenticate_browser. destruct (present _ && _) eqn:Horigin.
  { intros [= <- <-]. right. split_and!; [done..|]. simpl. auto. }
  assert (hq_origin request = NoHeader ∨ ∃ o, hq_origin request = Visible o ∧ allows_origin policy o = true) as Ho.
  { destruct (hq_origin request) as [| |o]; [by left|done|right]. exists o. split; [done|].
    simpl in Horigin. by apply negb_false_iff in Horigin. }
  intros Hrun. apply bind_Ok_inv in Hrun as (reply & w1 & Hrun & Hr). apply ret_Ok_inv in Hr as [<- <-].
  assert (∀ r0, re_status (allow_origin (text_of (hq_origin request)) (no_store r0)) = re_status r0) as Hstatus.
  { intros r0. by destruct (text_of _). }
  destruct (decide (hq_method request = Options)) as [Hm|Hm].
  - right. rewrite Hm in Hrun. apply ret_Ok_inv in Hrun as [<- <-]. split_and!; [done..|]. rewrite Hstatus.
    unfold preflight_reply. destruct (_ || _); simpl; auto.
  - assert ((t ← now; match authenticate_bearer auth (t / 1000000000) (text_of (hq_authorization request)) with
      | None => mret (profile_error AuthenticationRequired)
      | Some actor => if negb (bool_decide (actor_role actor = Human))
                      then mret (profile_error ConversationProtocol.Forbidden) else next actor request
      end) w = (Ok reply, w1)) as Hgo by (by destruct (hq_method request)).
    clear Hrun. unfold mbind, M_bind, now in Hgo. simpl in Hgo.
    destruct (authenticate_bearer _ _ _) as [actor|] eqn:Hauth.
    + destruct (bool_decide_reflect (actor_role actor = Human)); simpl in Hgo.
      * left. by exists actor, reply.
      * right. injection Hgo as <- <-. split_and!; [done..|]. rewrite Hstatus. auto.
    + right. injection Hgo as <- <-. split_and!; [done..|]. rewrite Hstatus. auto.
Qed.

Lemma workload_gate auth next request w r w' :
  authenticate_workload auth next request w = (Ok r, w') →
  (∃ reply, workload_admitted auth request w ∧ next request (next_tick w) = (Ok reply, w') ∧
     r = no_store reply) ∨
  turned_away request r w w'.
Proof.
  unfold authenticate_workload, workload_admitted. destruct (present _) eqn:Ho.
  { intros [= <- <-]. right. split_and!; [done..|]. simpl. auto. }
  assert (hq_origin request = NoHeader) by (by destruct (hq_origin request)).
  unfold mbind at 1, M_bind at 1, now. simpl. intros Hrun.
  apply bind_Ok_inv in Hrun as (reply & w1 & Hrun & Hr). apply ret_Ok_inv in Hr as [<- <-].
  destruct (authenticate_agent_gateway_bearer _ _ _) as [[]|[]] eqn:Hauth.
  - left. by exists reply.
  - right. injection Hrun as <- <-. split_and!; [done..|]. simpl. auto.
  - right. injection Hrun as <- <-. split_and!; [done..|]. simpl. auto.
Qed.

Lemma serving_next_tick w : serving w → serving (next_tick w).
Proof. done. Qed.

Lemma next_tick_advances w w' : advances (next_tick w) w' → advances w w'.
Proof. by intros [? ? ?]. Qed.

(** Every request to the conversation service is answered, and what it does is within bounds. *)
Lemma routes_advance catalog policy auth request h w :
  catalog_frame catalog → serving w → routes catalog policy auth request = Some h →
  ∃ r w', h w = (Ok r, w') ∧ advances w w'.
Proof.
  intros Hf Hs Hroute. pose proof (serving_next_tick w Hs) as Hs'. unfold routes in Hroute. cbv zeta in Hroute.
  destruct (h w) as [[r|[]] w'] eqn:Hrun. exists r, w'. split; [done|].
  assert (turned_away request r w w' → advances w w') as Haway.
  { intros (Hc & Hg & _). destruct Hs as [[Hok _] Hch]. by apply advances_settled. }
  destruct (under BROWSER_PREFIX request).
  - injection Hroute as <-. apply browser_gate in Hrun as [(actor & reply & _ & Hnext & _)|?]; [|by apply Haway].
    apply next_tick_advances. by eapply (wp_Ok _ _ _ _ _ _ (browser_routes_move catalog _ actor request _ Hf Hs')).
  - destruct (under INTERNAL_PREFIX request); [|done]. injection Hroute as <-.
    apply workload_gate in Hrun as [(reply & _ & Hnext & _)|?]; [|by apply Haway].
    apply next_tick_advances. by eapply (wp_Ok _ _ _ _ _ _ (internal_routes_move _ request _ Hs')).
Qed.
End gate.

(** ** The models a browser is offered *)

(** A model as the policy allows it: one of the policy's, with efforts of its own, and a default
    among them or none. *)
Definition permitted (policy : ConversationPolicy) (model : Value) : Prop :=
  ∃ allowed efforts, allowed ∈ cp_models policy ∧ index model "id" = Str (md_id allowed) ∧
    as_array (index model "supportedReasoningEfforts") = Some efforts ∧ efforts ≠ [] ∧
    Forall (λ effort, ∃ id, id ∈ md_reasoning_efforts allowed ∧ index effort "id" = Str id) efforts ∧
    (index model "defaultReasoningEffort" = Null ∨
     ∃ id, id ∈ md_reasoning_efforts allowed ∧ index model "defaultReasoningEffort" = Str id).

Lemma is_str_iff v s : is_str v s = true ↔ v = Str s.
Proof. destruct v; simpl; try done. rewrite String.eqb_eq. naive_solver. Qed.

Lemma existsb_is_str v l : existsb (is_str v) l = true ↔ ∃ s, s ∈ l ∧ v = Str s.
Proof. rewrite list_find_exists. by setoid_rewrite is_str_iff. Qed.

Lemma index_str_object v k s : index v k = Str s → is_Some (as_object v).
Proof. by destruct v. Qed.

Lemma restrict_model_permitted policy model m :
  restrict_model policy model = Some m → permitted policy m.
Proof.
  unfold restrict_model. rewrite bind_Some. intros (allowed & Hfind & Hr). apply find_some in Hfind as [Hin Hid].
  apply list_elem_of_In in Hin. apply is_str_iff in Hid. pose proof (index_str_object _ _ _ Hid) as Hobj.
  rewrite bind_Some in Hr. destruct Hr as (efforts & Heff & Hr). cbv zeta in Hr.
  set (kept := List.filter _ efforts) in Hr. destruct (bool_decide_reflect (kept = [])) as [|Hne]; [done|].
  set (m1 := set_member model _ _) in Hr. injection Hr as <-.
  assert (is_Some (as_object m1)) as Hobj1 by (by apply set_member_object).
  assert (Forall (λ effort, ∃ id, id ∈ md_reasoning_efforts allowed ∧ index effort "id" = Str id) kept) as Hkept.
  { apply Forall_forall. intros effort He. apply list_elem_of_In, filter_In in He as [_ He].
    by apply existsb_is_str in He. }
  exists allowed, kept. destruct (existsb _ _) eqn:Hdef.
  - apply existsb_is_str in Hdef. unfold m1 in *. rewrite index_set_ne, index_set_eq by done. split_and!; auto.
  - unfold m1 in *. rewrite !(index_set_ne _ "defaultReasoningEffort"), !index_set_eq by done.
    rewrite index_set_ne by done. split_and!; auto.
Qed.

Lemma length_omap_le {A B} (f : A → option B) l : (length (omap f l) ≤ length l)%nat.
Proof. induction l as [|a l IH]; csimpl; [done|]. destruct (f a); csimpl; lia. Qed.

Section offered.
Context `{UuidCrate, !UuidLaws, Chrono, SerdeJson, Sha2, Schemas, Postgres, Unicode, Timer, JsonText,
  UrlDecoding, HashOrder, Oracle}.

Lemma page_query_limit keys q pairs q' :
  page_query keys q pairs = Ok q' → 1 ≤ pq_limit q ≤ 100 → 1 ≤ pq_limit q' ≤ 100.
Proof.
  revert keys q. induction pairs as [|[key value] pairs IH]; intros keys q; simpl; [by intros [= ->]|].
  intros (u & _ & Hq)%rbind_Ok. destruct (String.eqb key "limit").
  - apply rbind_Ok in Hq as (limit & _ & Hq). apply rbind_Ok in Hq as (u' & Hl%reject_if_Ok & Hq).
    intros _. eapply IH; [exact Hq|]. simpl. lia.
  - destruct (String.eqb key "cursor"); [|done]. apply rbind_Ok in Hq as (u' & _ & Hq).
    intros Hl. by eapply IH.
Qed.

(** Our own cursor leads back to the provider's, for this revision of the catalogue. *)
Definition own_cursors (policy : ConversationPolicy) (page : Value) (w : World) : Prop :=
  ∀ cursor, as_str (index page "nextCursor") = Some cursor →
    ∃ provider, ci_cursors (integration (gateway w)) !! cursor = Some (cp_catalog_revision policy, provider).

Lemma own_cursor_Ok policy page data page' w w' :
  as_array (index page "data") = Some data → own_cursor policy page w = (Ok page', w') →
  as_array (index page' "data") = Some data ∧ own_cursors policy page' w'.
Proof.
  intros Hdata. pose proof (index_array_object _ _ _ Hdata) as Hobj. unfold own_cursor, own_cursors.
  destruct (as_str (index page "nextCursor")) as [next|] eqn:Hnext.
  - unfold mbind, M_bind, new_v4, modify. simpl. intros [= <- <-]. rewrite index_set_ne by done.
    split; [done|]. intros cursor. rewrite index_set_eq by done. intros [= <-]. exists next. simpl.
    apply remember_cursor_lookup.
  - intros [= <- <-]. split; [done|]. congruence.
Qed.

(** C35: a browser is offered nothing the policy does not allow. Whatever the catalogue answers, a
    page of models is served only when conversations are enabled; it has at most a hundred models,
    each one of the policy's with efforts of the policy only, and its cursor is the gateway's own,
    bound to the policy's revision of the catalogue. *)
Theorem models_restricted catalog room agent request w page w' :
  model_page catalog room agent request w = (Ok page, w') →
  let policy := ci_policy (integration (gateway w)) in
  cp_enabled policy = true ∧
  ∃ data, as_array (index page "data") = Some data ∧ Z.of_nat (length data) ≤ 100 ∧
    Forall (permitted policy) data ∧ own_cursors policy page w'.
Proof.
  intros Hrun policy. unfold model_page in Hrun.
  apply bind_Ok_inv in Hrun as (? & ? & Hr%lift_Ok_inv & Hrun). destruct Hr as [_ ->].
  apply bind_Ok_inv in Hrun as (? & ? & Hr%lift_Ok_inv & Hrun). destruct Hr as [_ ->].
  destruct (negb _); [done|]. apply bind_Ok_inv in Hrun as (q & ? & Hq%lift_Ok_inv & Hrun). destruct Hq as [Hq ->].
  apply page_query_limit in Hq; [|simpl; lia]. apply bind_Ok_inv in Hrun as (i & ? & [= <- <-] & Hrun).
  fold policy in Hrun. cbv zeta in Hrun. destruct (cp_enabled policy); [|done]. split; [done|]. simpl negb in Hrun.
  apply bind_Ok_inv in Hrun as (? & ? & Hr%lift_Ok_inv & Hrun). destruct Hr as [_ ->].
  apply bind_Ok_inv in Hrun as (cat & ? & Hr%lift_Ok_inv & Hrun). destruct Hr as [_ ->].
  apply bind_Ok_inv in Hrun as (raw & w1 & _ & Hrun).
  apply bind_Ok_inv in Hrun as (? & ? & Hr%lift_Ok_inv & Hrun). destruct Hr as [_ ->].
  apply bind_Ok_inv in Hrun as (data & ? & Hr%lift_Ok_inv & Hrun). destruct Hr as [Hdata ->].
  rewrite ok_or_Ok in Hdata. destruct (Z.ltb_spec (pq_limit q) (Z.of_nat (length data))); [done|].
  apply bind_Ok_inv in Hrun as (page' & w2 & Hown & Hrun).
  apply bind_Ok_inv in Hrun as (? & ? & Hr%lift_Ok_inv & Hrun). destruct Hr as [_ ->].
  apply ret_Ok_inv in Hrun as [<- <-].
  apply (own_cursor_Ok _ _ (omap (restrict_model policy) data)) in Hown as [Hpage Hcur].
  2: { rewrite index_set_eq; [done|]. by eapply index_array_object. }
  exists (omap (restrict_model policy) data). split_and!; [done| | |done].
  - pose proof (length_omap_le (restrict_model policy) data). lia.
  - apply Forall_forall. intros m Hm. apply list_elem_of_omap in Hm as (model & _ & Hm).
    by eapply restrict_model_permitted.
Qed.
End offered.
