(* ===== verification/Config.v ===== *)
(** * Configuration and start-up (src/src/config.rs, src/src/main.rs)

    From the environment to the state the gateway starts with: every variable is checked before
    anything is served, and conversations are never enabled without a catalogue of their own. *)

From S2P Require Import Prelude Json Text Crates Types ConversationProtocol StrictJson ConversationTables Protocol Mentions ActionItems MemoryEngine World Store Catalog Rooms ConversationReserve CatalogBridge Auth WebSocket.
From Stdlib Require Import Ascii.
Local Open Scope string_scope.
Local Open Scope list_scope.
Local Open Scope Z_scope.

(** ** The policy as serde decodes it *)

(** [ConversationModel] and [ConversationPolicy] derive [Deserialize] with [deny_unknown_fields]
    and camel case names: an object names each field at most once and no other; an array gives
    the fields in order. *)
Definition named_fields (names : list string) (d : Document) : option (list (string * Document)) :=
  match d with
  | DMap members =>
      if bool_decide (NoDup members.*1) && forallb (λ m, bool_decide (m.1 ∈ names)) members
      then Some members else None
  | DSeq items => if (length items <=? length names)%nat then Some (zip names items) else None
  | _ => None
  end.

Definition field {A} (decode : Document → option A) (fallback : option A) (name : string)
    (members : list (string * Document)) : option A :=
  match List.find (λ m, String.eqb m.1 name) members with
  | Some (_, d) => decode d
  | None => fallback
  end.

Definition decode_string (d : Document) : option string := match d with DStr s => Some s | _ => None end.
Definition decode_bool (d : Document) : option bool := match d with DBool b => Some b | _ => None end.
Definition decode_usize (d : Document) : option Z := match d with DU64 n => Some n | _ => None end.
Definition decode_i64 (d : Document) : option Z :=
  match d with
  | DU64 n => if n <? 2 ^ 63 then Some n else None
  | DI64 n => Some n
  | _ => None
  end.
Definition decode_vec {A} (decode : Document → option A) (d : Document) : option (list A) :=
  match d with DSeq items => mapM decode items | _ => None end.

Definition decode_model (d : Document) : option ConversationModel :=
  members ← named_fields ["id"; "reasoningEfforts"] d;
  id ← field decode_string None "id" members;
  efforts ← field (decode_vec decode_string) None "reasoningEfforts" members;
  Some {| md_id := id; md_reasoning_efforts := efforts |}.

Definition POLICY_FIELDS : list string :=
  ["enabled"; "policyRevision"; "guidanceRevision"; "catalogRevision"; "model"; "reasoningEffort";
   "models"; "maxContextBytes"; "maxRecords"; "turnDeadlineSeconds"; "interruptGraceSeconds"].

(** A field that is missing has its default. *)
Definition decode_policy (d : Document) : option ConversationPolicy :=
  members ← named_fields POLICY_FIELDS d;
  let with_default {A} decode (f : ConversationPolicy → A) name :=
    field decode (Some (f default_policy)) name members in
  enabled ← with_default decode_bool cp_enabled "enabled";
  policy_revision ← with_default decode_string cp_policy_revision "policyRevision";
  guidance_revision ← with_default decode_string cp_guidance_revision "guidanceRevision";
  catalog_revision ← with_default decode_string cp_catalog_revision "catalogRevision";
  model ← with_default decode_string cp_model "model";
  reasoning_effort ← with_default decode_string cp_reasoning_effort "reasoningEffort";
  models ← with_default (decode_vec decode_model) cp_models "models";
  max_context_bytes ← with_default decode_usize cp_max_context_bytes "maxContextBytes";
  max_records ← with_default decode_usize cp_max_records "maxRecords";
  turn_deadline ← with_default decode_i64 cp_turn_deadline_seconds "turnDeadlineSeconds";
  interrupt_grace ← with_default decode_i64 cp_interrupt_grace_seconds "interruptGraceSeconds";
  Some {| cp_enabled := enabled; cp_policy_revision := policy_revision;
          cp_guidance_revision := guidance_revision; cp_catalog_revision := catalog_revision;
          cp_model := model; cp_reasoning_effort := reasoning_effort; cp_models := models;
          cp_max_context_bytes := max_context_bytes; cp_max_records := max_records;
          cp_turn_deadline_seconds := turn_deadline;
          cp_interrupt_grace_seconds := interrupt_grace |}.

(** ** The environment *)

(** Socket addresses are only parsed and handed to the listener. *)
Class NetAddr := { SocketAddr : Type; socket_addr_parse : string → option SocketAddr }.

Record GatewayConfig `{NetAddr} := {
  gc_database_url : string;
  gc_listen_address : SocketAddr;
  gc_oidc_issuer : string;
  gc_oidc_audience : string;
  gc_oidc_jwks : string;
  gc_websocket_policy : WebSocketPolicy;
  gc_memory_engine : option MemoryEngineClientConfig;
  gc_catalog_bridge_secret : option CatalogBridgeSecret;
  gc_conversation_policy : ConversationPolicy;
}.

(** [ConfigError]: the variable to blame. *)
Inductive ConfigError := InvalidConfig (name : string).

(** The environment: a variable is absent or has a value. *)
Abbreviation Lookup := (string → option string).

Definition required (lookup : Lookup) (name : string) : result ConfigError string :=
  ok_or (InvalidConfig name)
    (value ← lookup name; if is_empty value then None else Some value).

(** A number of the environment, or its default. *)
Definition number_of (lookup : Lookup) (name fallback : string) : result ConfigError Z :=
  ok_or (InvalidConfig name) (parse_u64 (default fallback (lookup name))).

Definition memory_engine_config (lookup : Lookup) :
    result ConfigError (option MemoryEngineClientConfig) :=
  let blame := InvalidConfig
    "THOUGHT_KHORAL_MEMORY_ENGINE_URL and THOUGHT_KHORAL_MEMORY_ENGINE_SHARED_SECRET" in
  match lookup "THOUGHT_KHORAL_MEMORY_ENGINE_URL",
        lookup "THOUGHT_KHORAL_MEMORY_ENGINE_SHARED_SECRET" with
  | None, None => Ok None
  | Some endpoint, Some shared_secret =>
      if negb (is_empty endpoint) && negb (is_empty shared_secret) then
        timeout ← number_of lookup "THOUGHT_KHORAL_MEMORY_ENGINE_TIMEOUT_MS" "100";
        queue_capacity ← number_of lookup "THOUGHT_KHORAL_MEMORY_ENGINE_QUEUE_CAPACITY" "64";
        Ok (Some {| mc_endpoint := endpoint; mc_shared_secret := shared_secret;
                    mc_timeout := milliseconds timeout; mc_queue_capacity := queue_capacity |})
      else Err blame
  | _, _ => Err blame
  end.

(** Credentials the bridge must not share. *)
Definition OTHER_SECRETS : list string :=
  ["THOUGHT_KHORAL_MEMORY_ENGINE_SHARED_SECRET"; "THOUGHT_KHORAL_AGENT_GATEWAY_CLIENT_SECRET";
   "THOUGHT_KHORAL_CLIENT_SECRET"; "THOUGHT_KHORAL_CODEX_INVOCATION_SECRET";
   "THOUGHT_KHORAL_REFERENCE_AGENT_INBOUND_SECRET"; "THOUGHT_KHORAL_REFERENCE_AGENT_SHARED_SECRET";
   "THOUGHT_KHORAL_REFERENCE_AGENT_SECRET"].

Definition bridge_secret (lookup : Lookup) (policy : ConversationPolicy) :
    result ConfigError (option CatalogBridgeSecret) :=
  let name := "THOUGHT_KHORAL_CODEX_CATALOG_BRIDGE_SECRET" in
  if cp_enabled policy then
    secret ← required lookup name;
    _ ← reject_if (existsb (λ other, bool_decide (lookup other = Some secret)) OTHER_SECRETS)
          (InvalidConfig name);
    secret ← rmap_err (λ _, InvalidConfig name) (secret_new secret);
    Ok (Some secret)
  else Ok None.

Section config.
Context `{JsonText, UriCrate, NetAddr}.

Definition policy_of (lookup : Lookup) : result ConfigError ConversationPolicy :=
  let name := "THOUGHT_KHORAL_CODEX_POLICY_JSON" in
  policy ← match lookup name with
           | None => Ok default_policy
           | Some value => ok_or (InvalidConfig name) (read_document value ≫= decode_policy)
           end;
  _ ← rmap_err (λ _, InvalidConfig name) (validate_policy policy);
  Ok policy.

(** [GatewayConfig::from_lookup]. *)
Definition from_lookup (lookup : Lookup) : result ConfigError GatewayConfig :=
  origins ← required lookup "THOUGHT_KHORAL_ALLOWED_ORIGINS";
  let allowed_origins := trim <$> split_on "," origins in
  timeout ← number_of lookup "THOUGHT_KHORAL_SESSION_AUTH_TIMEOUT_MS" "5000";
  websocket_policy ← rmap_err (λ _, InvalidConfig
      "THOUGHT_KHORAL_ALLOWED_ORIGINS or THOUGHT_KHORAL_SESSION_AUTH_TIMEOUT_MS")
    (websocket_policy_new allowed_origins (milliseconds timeout));
  memory_engine ← memory_engine_config lookup;
  conversation_policy ← policy_of lookup;
  catalog_bridge_secret ← bridge_secret lookup conversation_policy;
  database_url ← required lookup "DATABASE_URL";
  listen_address ← ok_or (InvalidConfig "THOUGHT_KHORAL_LISTEN_ADDRESS")
    (socket_addr_parse (default "127.0.0.1:8080" (lookup "THOUGHT_KHORAL_LISTEN_ADDRESS")));
  oidc_issuer ← required lookup "THOUGHT_KHORAL_OIDC_ISSUER";
  oidc_audience ← required lookup "THOUGHT_KHORAL_OIDC_AUDIENCE";
  oidc_jwks ← required lookup "THOUGHT_KHORAL_OIDC_JWKS";
  Ok {| gc_database_url := database_url; gc_listen_address := listen_address;
        gc_oidc_issuer := oidc_issuer; gc_oidc_audience := oidc_audience; gc_oidc_jwks := oidc_jwks;
        gc_websocket_policy := websocket_policy; gc_memory_engine := memory_engine;
        gc_catalog_bridge_secret := catalog_bridge_secret;
        gc_conversation_policy := conversation_policy |}.
End config.

(** ** Start-up *)

(** [ConversationIntegration::new]. *)
Definition integration_new (policy : ConversationPolicy) (catalog : bool) :
    result ConversationError ConversationIntegration :=
  _ ← validate_policy policy;
  Ok {| ci_policy := policy; ci_catalog := catalog; ci_cursors := ∅; ci_bridge_cursors := ∅ |}.

(** [GatewayState::with_websocket_policy] and [with_memory_engine_client]: the memory of a fresh
    gateway. *)
Definition gateway_new (memory_engine : option MemoryEngineClient) : Gateway :=
  {| channels := ∅; presence := ∅; integration := disabled_integration;
     memory_engine := memory_engine |}.

(** [GatewayState::configure_conversations]. *)
Definition configure_conversations (policy : ConversationPolicy) (catalog : bool) (g : Gateway) :
    result ConversationError Gateway :=
  i ← integration_new policy catalog;
  Ok {| channels := channels g; presence := presence g; integration := i;
        memory_engine := memory_engine g |}.

(** The host: connecting to the database and listening, which may fail, and the largest buffer of
    [tokio::sync::mpsc::channel], which panics beyond it. *)
Class Host `{NetAddr} := {
  database_connects : string → bool;
  listens : SocketAddr → bool;
  max_permits : Z;
}.

Inductive StartError :=
| StartConfig (e : ConfigError)
| StartAuth (e : AuthConfigurationError)
| StartDatabase
| StartListener
| StartConversations (e : ConversationError)
| StartPanic.

(** What [main] hands to axum. *)
Record Running `{Jwt} := {
  rn_auth : AuthValidator;
  rn_websocket_policy : WebSocketPolicy;
  rn_gateway : Gateway;
  rn_bridge : option CatalogBridge;
}.

Section main.
Context `{JsonText, UriCrate, NetAddr, !Host, Jwt, HttpClient}.

Definition start_memory_engine (config : option MemoryEngineClientConfig) :
    result StartError (option MemoryEngineClient) :=
  match config with
  | None => Ok None
  | Some config =>
      if max_permits <? Z.max (mc_queue_capacity config) 1 then Err StartPanic
      else Ok (Some (memory_engine_new config))
  end.

Definition start_bridge (secret : option CatalogBridgeSecret) :
    result ConversationError (option CatalogBridge) :=
  match secret with
  | None => Ok None
  | Some secret => bridge ← bridge_new secret; Ok (Some bridge)
  end.

(** [main], up to the loop that serves. *)
Definition main (lookup : Lookup) : result StartError Running :=
  config ← rmap_err StartConfig (from_lookup lookup);
  auth ← rmap_err StartAuth
    (auth_validator_new (gc_oidc_issuer config) (gc_oidc_audience config) (gc_oidc_jwks config));
  _ ← reject_if (negb (database_connects (gc_database_url config))) StartDatabase;
  _ ← reject_if (negb (listens (gc_listen_address config))) StartListener;
  memory_engine ← start_memory_engine (gc_memory_engine config);
  bridge ← rmap_err StartConversations (start_bridge (gc_catalog_bridge_secret config));
  gateway ← rmap_err StartConversations
    (configure_conversations (gc_conversation_policy config) (bool_decide (is_Some bridge))
       (gateway_new memory_engine));
  Ok {| rn_auth := auth; rn_websocket_policy := gc_websocket_policy config;
        rn_gateway := gateway; rn_bridge := bridge |}.
End main.

(** ** What a running gateway has checked *)

Lemma required_Ok lookup name value : required lookup name = Ok value ↔ lookup name = Some value ∧ value ≠ "".
Proof.
  unfold required. rewrite ok_or_Ok, bind_Some. split.
  - intros (v & Hv & Hne). destruct (is_empty v) eqn:He; [done|]. injection Hne as <-.
    by apply is_empty_false in He.
  - intros [Hv Hne]. exists value. split; [done|]. apply is_empty_false in Hne. by rewrite Hne.
Qed.

(** A credential fit for a header, and for nothing else in the environment. *)
Definition distinct_secret (lookup : Lookup) (secret : string) : Prop :=
  32 ≤ Z.of_nat (String.length secret) ≤ 4096 ∧ forall_bytes secret_byte secret = true ∧
  ∀ other, other ∈ OTHER_SECRETS → lookup other ≠ Some secret.

Lemma secret_new_Ok value secret :
  secret_new value = Ok secret → secret_value secret = value ∧
  32 ≤ Z.of_nat (String.length value) ≤ 4096 ∧ forall_bytes secret_byte value = true.
Proof.
  unfold secret_new. cbv zeta. destruct (negb _ || negb _) eqn:Hb; [done|]. intros [= <-].
  apply orb_false_iff in Hb as [Hl Hf]. apply negb_false_iff in Hl, Hf. split_and!; [done|lia|lia|done].
Qed.

Lemma bridge_secret_Ok lookup policy secret :
  bridge_secret lookup policy = Ok secret →
  match secret with
  | Some s => cp_enabled policy = true ∧ distinct_secret lookup (secret_value s) ∧
              lookup "THOUGHT_KHORAL_CODEX_CATALOG_BRIDGE_SECRET" = Some (secret_value s)
  | None => cp_enabled policy = false
  end.
Proof.
  unfold bridge_secret. cbv zeta. destruct (cp_enabled policy); [|by intros [= <-]].
  intros (value & Hreq & Hs)%rbind_Ok. apply required_Ok in Hreq as [Hv _].
  apply rbind_Ok in Hs as ([] & Hother%reject_if_Ok & Hs). apply rbind_Ok in Hs as (s & Hnew & [= <-]).
  destruct (secret_new value) as [s'|] eqn:Hsn; [|done]. injection Hnew as <-.
  apply secret_new_Ok in Hsn as (<- & Hlen & Hb). split_and!; [done| |done]. split_and!; [lia|lia|done|].
  intros other Hin Heq. apply not_true_iff_false in Hother. apply Hother, list_find_exists.
  exists other. split; [done|]. by rewrite bool_decide_true.
Qed.

Lemma secret_visible b : secret_byte b = true → visible_byte b = true.
Proof. by destruct b as [[] [] [] [] [] [] [] []]. Qed.

Lemma forall_bytes_append f s t :
  forall_bytes f (String.append s t) = forall_bytes f s && forall_bytes f t.
Proof. induction s as [|c s IH]; simpl; [done|]. by rewrite IH, andb_assoc. Qed.

Lemma secret_header secret :
  forall_bytes secret_byte secret = true →
  forall_bytes visible_byte (String.append "Bearer " secret) = true.
Proof.
  rewrite forall_bytes_append. intros Hs. apply andb_true_iff. split; [done|].
  induction secret as [|b s IH]; [done|]. cbn -[visible_byte secret_byte] in *.
  apply andb_true_iff in Hs as [Hb Hs]. by rewrite (secret_visible _ Hb), IH.
Qed.

Section running.
Context `{JsonText, UriCrate, NetAddr, !Host, Jwt, HttpClient, !HttpClientLaws}.

(** What [main] may rely on once it serves. *)
Record fit_to_serve (lookup : Lookup) (s : Running) : Prop := {
  fs_policy : validate_policy (ci_policy (integration (rn_gateway s))) = Ok ();
  fs_catalog : conversations_enabled (rn_gateway s) = ci_catalog (integration (rn_gateway s));
  fs_bridge : if conversations_enabled (rn_gateway s)
    then ∃ secret, distinct_secret lookup secret ∧
           rn_bridge s = Some {| br_authorization := String.append "Bearer " secret |}
    else rn_bridge s = None;
  fs_origins : wp_allowed_origins (rn_websocket_policy s) ≠ ∅;
  fs_timeout : milliseconds 1 ≤ wp_authentication_timeout (rn_websocket_policy s) ≤ seconds 30;
  fs_issuer : av_issuer (rn_auth s) ≠ "" ∧ av_audience (rn_auth s) ≠ "" ∧ av_keys (rn_auth s) ≠ ∅;
  fs_empty : channels (rn_gateway s) = ∅ ∧ presence (rn_gateway s) = ∅;
  fs_queue client : memory_engine (rn_gateway s) = Some client →
    me_queue client = [] ∧ (1 ≤ me_capacity client)%nat;
}.

Lemma auth_validator_new_Ok issuer audience jwks auth :
  auth_validator_new issuer audience jwks = Ok auth →
  av_issuer auth ≠ "" ∧ av_audience auth ≠ "" ∧ av_keys auth ≠ ∅.
Proof.
  unfold auth_validator_new. intros ([] & Hne%reject_if_Ok & Ha)%rbind_Ok.
  apply rbind_Ok in Ha as (keys & _ & Ha). apply rbind_Ok in Ha as (ks & _ & Ha).
  apply rbind_Ok in Ha as ([] & Hk%reject_if_Ok & [= <-]). apply orb_false_iff in Hne as [Hi Hau]. simpl.
  apply is_empty_false in Hi, Hau. by apply bool_decide_eq_false in Hk.
Qed.

Lemma websocket_policy_new_Ok origins timeout policy :
  websocket_policy_new origins timeout = Ok policy →
  wp_allowed_origins policy ≠ ∅ ∧ milliseconds 1 ≤ wp_authentication_timeout policy ≤ seconds 30.
Proof.
  unfold websocket_policy_new. intros ([] & Ht%reject_if_Ok & Hp)%rbind_Ok.
  apply rbind_Ok in Hp as (os & _ & Hp). apply rbind_Ok in Hp as ([] & Ho%reject_if_Ok & [= <-]). simpl.
  apply bool_decide_eq_false in Ho. apply orb_false_iff in Ht as [? ?]. split; [done|lia].
Qed.

Lemma rmap_err_Ok {E F A} (f : E → F) (r : result E A) a : rmap_err f r = Ok a ↔ r = Ok a.
Proof. destruct r; simpl; split; congruence. Qed.

(** The parts of a configuration that [main] uses. *)
Lemma from_lookup_Ok lookup config :
  from_lookup lookup = Ok config →
  bridge_secret lookup (gc_conversation_policy config) = Ok (gc_catalog_bridge_secret config) ∧
  validate_policy (gc_conversation_policy config) = Ok () ∧
  ∃ origins timeout, websocket_policy_new origins timeout = Ok (gc_websocket_policy config).
Proof.
  unfold from_lookup. intros (origins & _ & Hc)%rbind_Ok. apply rbind_Ok in Hc as (timeout & _ & Hc).
  apply rbind_Ok in Hc as (wp & Hwp%rmap_err_Ok & Hc). apply rbind_Ok in Hc as (me & _ & Hc).
  apply rbind_Ok in Hc as (policy & Hpol & Hc). apply rbind_Ok in Hc as (secret & Hsec & Hc).
  do 5 (apply rbind_Ok in Hc as (? & _ & Hc)). injection Hc as <-. simpl. split_and!; [done| |by eauto].
  unfold policy_of in Hpol. apply rbind_Ok in Hpol as (p & _ & Hpol). apply rbind_Ok in Hpol as ([] & Hv & [= <-]).
  by apply rmap_err_Ok in Hv.
Qed.

Lemma start_bridge_Ok secret bridge :
  start_bridge secret = Ok bridge →
  (∀ s, secret = Some s → forall_bytes secret_byte (secret_value s) = true) →
  bridge = (λ s, {| br_authorization := String.append "Bearer " (secret_value s) |}) <$> secret.
Proof.
  destruct secret as [s|]; simpl; [|by intros [= <-]]. intros (b & Hb & [= <-])%rbind_Ok Hs.
  unfold bridge_new in Hb. rewrite (header_value_visible _ (secret_header _ (Hs _ eq_refl))) in Hb.
  simpl in Hb. apply rbind_Ok in Hb as ([] & _ & [= <-]). done.
Qed.

Lemma start_memory_engine_Ok config client :
  start_memory_engine config = Ok (Some client) → me_queue client = [] ∧ (1 ≤ me_capacity client)%nat.
Proof.
  destruct config; simpl; [|done]. case_match; [done|]. intros [= <-]. simpl. split; [done|lia].
Qed.

Lemma main_fits lookup s : main lookup = Ok s → fit_to_serve lookup s.
Proof.
  unfold main. intros (config & Hcfg%rmap_err_Ok & Hm)%rbind_Ok.
  apply from_lookup_Ok in Hcfg as (Hsec%bridge_secret_Ok & Hpol & origins & timeout & Hwp%websocket_policy_new_Ok).
  apply rbind_Ok in Hm as (auth & Hauth%rmap_err_Ok%auth_validator_new_Ok & Hm).
  do 2 (apply rbind_Ok in Hm as (? & _ & Hm)). apply rbind_Ok in Hm as (me & Hme & Hm).
  apply rbind_Ok in Hm as (bridge & Hbr%rmap_err_Ok & Hm). apply rbind_Ok in Hm as (g & Hg%rmap_err_Ok & [= <-]).
  unfold configure_conversations in Hg. apply rbind_Ok in Hg as (i & Hi & [= <-]).
  unfold integration_new in Hi. rewrite Hpol in Hi. injection Hi as <-.
  apply start_bridge_Ok in Hbr as ->.
  2: { intros s' Hs. rewrite Hs in Hsec. apply Hsec. }
  split; simpl; try done; try apply Hwp.
  - unfold conversations_enabled. simpl. destruct (gc_catalog_bridge_secret config); simpl; [apply Hsec|by rewrite Hsec].
  - unfold conversations_enabled. simpl. destruct (gc_catalog_bridge_secret config) as [s'|]; simpl; [|by rewrite Hsec].
    destruct Hsec as (-> & Hd & _). by exists (secret_value s').
  - intros client ->. by eapply start_memory_engine_Ok.
Qed.

(** C34: a gateway only serves when its configuration is sound. If [main] starts, the policy of
    conversations is valid; conversations are enabled exactly when a catalogue is configured, and
    the bridge to it then presents a credential of its own, different from every other secret of
    the environment; some origin is allowed, the time to authenticate is bounded, tokens have an
    issuer, an audience and a key to be checked against; and nobody is connected yet. *)
Theorem main_fit_to_serve lookup s : main lookup = Ok s → fit_to_serve lookup s.
Proof. apply main_fits. Qed.
End running.
