(* ===== verification/Http.v ===== *)
(** * The gateway's HTTP interface (src/src/ws.rs [app], src/src/agent_service.rs [routes])

    Every way into the gateway: the status page, the socket, the agent gateway's task routes behind
    their authentication, and the conversation service. What any request at all may do follows from
    what each of these may do. *)

From S2P Require Import Prelude Json Text Crates Types ConversationProtocol StrictJson ConversationTables Protocol Mentions ActionItems MemoryEngine World Store StoreInvariant ConversationContext Catalog Rooms ConversationStore ConversationTurns ConversationUpdates ConversationInvariant ConversationSteps ConversationReserve CatalogBridge RoomsInvariant Tasks System AgentService AgentTheorems Auth WebSocket Delivery ConversationService ServiceTheorems Config.
From Stdlib Require Import Ascii.
Local Open Scope string_scope.
Local Open Scope list_scope.
Local Open Scope Z_scope.

(** ** Bodies of the agent gateway's requests *)

(** Third party: axum's [Json] extractor accepts a request by its content type, reads a body up to
    a limit and answers what it does not accept itself; likewise [WebSocketUpgrade]. *)
Class Extractors := {
  json_content_type : Header → bool;
  json_body_limit : Z;
  json_rejection : HttpRequest → Reply;
  upgradable : HttpRequest → bool;
  upgrade_rejection : HttpRequest → Reply;
}.

Section bodies.
Context `{UuidCrate, Chrono, JsonText, Extractors}.

(** [ClaimRequest]: the worker's name is required and not used. *)
Definition decode_claim (d : Document) : option Uuid :=
  members ← named_fields ["leaseOwner"] d;
  Config.field (decode_uuid ∘ plain_value) None "leaseOwner" members.

Definition decode_normalized (d : Document) : option NormalizedAgentTaskUpdate :=
  members ← named_fields ["eventType"; "payload"; "occurredAt"] d;
  event_type ← Config.field decode_string None "eventType" members;
  payload ← Config.field (Some ∘ plain_value) None "payload" members;
  occurred_at ← Config.field (decode_time ∘ plain_value) None "occurredAt" members;
  Some {| nu_event_type := event_type; nu_payload := payload; nu_occurred_at := occurred_at |}.

Definition decode_update (d : Document) : option TaskUpdateRequest :=
  members ← named_fields ["updateId"; "contextRevision"; "update"] d;
  update_id ← Config.field (decode_uuid ∘ plain_value) None "updateId" members;
  context_revision ← Config.field decode_i64 None "contextRevision" members;
  update ← Config.field decode_normalized None "update" members;
  Some {| tu_update_id := update_id; tu_context_revision := context_revision; tu_update := update |}.

(** [Json<A>]. *)
Definition with_json {A} (decode : Document → option A) (request : HttpRequest)
    (handler : A → Handler Reply) : Handler Reply :=
  match (if json_content_type (hq_content_type request)
         then (to_bytes (hq_body request) json_body_limit ≫= read_document) ≫= decode else None) with
  | Some a => handler a
  | None => mret (json_rejection request)
  end.
End bodies.

(** ** Answers of the agent gateway's routes *)

Section answers.
Context `{UuidCrate, Chrono}.

Definition active_decision_value (d : ActiveDecision) : Value :=
  json_object [("decisionId", json_uuid (ad_decision_id d)); ("title", Str (ad_title d));
               ("summary", Str (ad_summary d)); ("sourceEventIds", json_uuids (ad_source_event_ids d))].

Definition packet_value (p : RoomContextPacket) : Value :=
  json_object
    [("taskId", json_uuid (pk_task_id p)); ("roomId", json_uuid (pk_room_id p));
     ("requesterId", json_uuid (pk_requester_id p)); ("agentId", json_uuid (pk_agent_id p));
     ("skillId", Str (skill_str (pk_skill_id p))); ("contextRevision", json_int (pk_context_revision p));
     ("issuedAt", json_time (pk_issued_at p)); ("expiresAt", json_time (pk_expires_at p));
     ("input", Str (pk_input p)); ("events", Array (pk_events p));
     ("activeDecisions", Array (active_decision_value <$> pk_active_decisions p));
     ("canonicalSha256", Str (pk_canonical_sha256 p))].

Definition reply_of (r : Response) : Reply :=
  match r with
  | Status code => bare code
  | ContextBody packet lease_token =>
      json_reply 200 (json_object [("packet", packet_value packet); ("leaseToken", json_uuid lease_token)])
  | EventsBody events => json_reply 200 (json_object [("events", Array events)])
  end.
End answers.

Section app.
Context `{UuidCrate, Chrono, SerdeJson, Sha2, Schemas, Postgres, Unicode, UrlCrate, Timer, JsonText,
  UrlDecoding, HashOrder, Jwt, Extractors, Oracle}.

(** ** The agent gateway's routes *)

Definition answer (m : Handler Response) : Handler Reply := r ← m; mret (reply_of r).

(** [Path<Uuid>]. *)
Definition with_task (raw : string) (handler : Uuid → Handler Reply) : Handler Reply :=
  with_param raw (λ s, match uuid_parse s with
                       | Some task => handler task
                       | None => mret {| re_status := 400; re_body := TextBody;
                           re_headers := {["content-type" := "text/plain; charset=utf-8"]} |}
                       end).

(** [authenticate_agent_gateway]. *)
Definition authenticate_agent_gateway (auth : AuthValidator) (next : Handler Reply)
    (request : HttpRequest) : Handler Reply :=
  t ← now;
  match authenticate_agent_gateway_bearer auth (t / 1000000000) (text_of (hq_authorization request)) with
  | Ok _ => next
  | Err Unauthenticated => mret (bare 401)
  | Err Auth.Forbidden => mret (bare 403)
  end.

(** The handler of a path, [None] where no route matches: only matched routes are behind the
    authentication. *)
Definition agent_handler (segments : list string) (request : HttpRequest) : option (Handler Reply) :=
  if existsb is_empty segments then None else
  match segments with
  | [last] =>
      if String.eqb last "claim" then
        Some (internal_post request (with_json decode_claim request (λ _, answer AgentService.claim)))
      else None
  | [id; last] =>
      if String.eqb last "context" then
        Some (internal_get request (with_task id (λ task,
          answer (AgentService.context task (text_of (hq_lease_token request))))))
      else if String.eqb last "updates" then
        Some (internal_post request (with_task id (λ task, with_json decode_update request (λ body,
          answer (AgentService.update task (text_of (hq_lease_token request)) body)))))
      else None
  | _ => None
  end.

Definition AGENT_TASKS_PREFIX : list string := [""; "internal"; "v1"; "agent-tasks"].

Definition agent_routes (auth : AuthValidator) (request : HttpRequest) : option (Handler Reply) :=
  if under AGENT_TASKS_PREFIX request then
    handler ← agent_handler (drop 4 (split_on "/" (hq_path request))) request;
    Some (authenticate_agent_gateway auth handler request)
  else None.

(** ** The whole application *)

(** A request is answered, or its connection becomes a WebSocket. *)
Inductive Served :=
| Answered (r : Reply)
| Upgraded (u : Upgrade).

Definition gateway_status : Reply :=
  json_reply 200 (json_object [("product", Str "ThoughtKhoral");
                               ("service", Str "thought-khoral-room-gateway"); ("status", Str "ok")]).

Definition socket (policy : WebSocketPolicy) (auth : AuthValidator) (request : HttpRequest) :
    Handler Served :=
  if upgradable request then
    t ← now;
    match websocket_upgrade policy auth (t / 1000000000) (hq_origin request)
            (hq_authorization request) with
    | Rejected status body => mret (Answered (json_reply status body))
    | u => mret (Upgraded u)
    end
  else mret (Answered (upgrade_rejection request)).

Definition answered (m : Handler Reply) : Handler Served := r ← m; mret (Answered r).

Definition HEALTH : list string := [""; "health"].
Definition WS : list string := [""; "ws"].

Definition app (catalog : CatalogQuery) (policy : WebSocketPolicy) (auth : AuthValidator)
    (request : HttpRequest) : Handler Served :=
  let segments := split_on "/" (hq_path request) in
  if bool_decide (segments = HEALTH) then answered (internal_get request (mret gateway_status))
  else if bool_decide (segments = WS) then
    match hq_method request with
    | Get => socket policy auth request
    | Head =>
        s ← socket policy auth request;
        mret (match s with Answered r => Answered (without_body r) | Upgraded u => Upgraded u end)
    | _ => mret (Answered METHOD_NOT_ALLOWED)
    end
  else match agent_routes auth request, routes catalog policy auth request with
       | Some h, _ | None, Some h => answered h
       | None, None => mret (Answered (bare 404))
       end.
End app.

(** ** What a request may do *)

Section agent_moves.
Context `{UuidCrate, !UuidLaws, Chrono, SerdeJson, Sha2, Schemas, Postgres, Unicode, UrlCrate, Timer,
  JsonText, UrlDecoding, HashOrder, Jwt, Extractors, Oracle}.

Lemma answer_moves (m : Handler Response) w :
  wp m (λ _ w', advances w w') (λ _ _, False) w → moves w (answer m).
Proof. intros Hm. unfold moves, answer. wp_step. wp_use Hm; [|done]. intros r w' ?. by wp_step. Qed.

Lemma wp_clock {E} Q (F : E → World → Prop) w : (∀ t, Q t (next_tick w)) → wp now Q F w.
Proof. intros HQ. apply HQ. Qed.
Lemma wp_fresh {E} Q (F : E → World → Prop) w : (∀ id, Q id (next_tick w)) → wp new_v4 Q F w.
Proof. intros HQ. apply HQ. Qed.

Lemma agent_claim_advances w :
  serving w → wp AgentService.claim (λ _ w', advances w w') (λ _ _, False) w.
Proof.
  intros [[Hok _] Hch]. unfold AgentService.claim. wp_step. apply wp_fresh. intros owner.
  wp_step. apply wp_clock. intros t. wp_step. wp_step.
  assert (∀ d' w1, settled d' (gateway w) w1 → evolves (committed w) d' → advances w w1) as Hgo.
  { intros d' w1 [Hc Hg] He. apply advances_quiet; [by rewrite Hc|by rewrite Hg|done]. }
  wp_use (wp_claim_oldest REFERENCE_AGENT_ID); [done|done|..].
  - intros lease w1 (d' & Hw1 & Hok' & t' & Hone%claim_oldest_one); [|done].
    apply evolves_claim in Hone; [|done]. destruct lease as [lease|]; [|wp_step; by eapply Hgo].
    wp_use wp_context_response; [done|done| |done]. intros r w2 [Hw2 _]. by eapply Hgo.
  - intros e w1 [Hw1|(d' & lease & t' & Hw1 & Hok' & Hone%claim_oldest_one)]; [..|done]; wp_step.
    + eapply Hgo; [done|]. by apply evolves_refl.
    + eapply Hgo; [done|]. by eapply evolves_claim.
Qed.

Lemma agent_context_advances task header w :
  serving w → wp (AgentService.context task header) (λ _ w', advances w w') (λ _ _, False) w.
Proof.
  intros [[Hok _] Hch]. pose proof (λ w', advances_settled w w' Hok Hch) as Hquiet.
  unfold AgentService.context. wp_step. wp_use wp_matching_live_lease; [done| |done].
  intros [lease|] w1 [Hw1 _]; [|wp_step; by apply Hquiet].
  wp_use wp_context_response; [done|done| |done]. intros r w2 [Hw2 _]. by apply Hquiet.
Qed.

Lemma with_json_moves {A} (decode : Document → option A) request handler w :
  serving w → (∀ a, moves w (handler a)) → moves w (with_json decode request handler).
Proof. intros Hs Hh. unfold with_json. destruct (if json_content_type _ then _ else _); [apply Hh|by apply ret_moves]. Qed.

Lemma with_task_moves raw handler w :
  serving w → (∀ task, moves w (handler task)) → moves w (with_task raw handler).
Proof.
  intros Hs Hh. apply with_param_moves; [done|]. intros s. destruct (uuid_parse s); [apply Hh|by apply ret_moves].
Qed.

Create HintDb moves.
#[local] Hint Resolve internal_get_moves internal_post_moves with_json_moves with_task_moves
  answer_moves agent_claim_advances agent_context_advances : moves.

Lemma agent_handler_moves segments request h w :
  serving w → agent_handler segments request = Some h → moves w h.
Proof.
  intros Hs. pose proof (λ task header body, agent_update_advances task header body w (proj1 (proj1 Hs)) (proj2 Hs)).
  unfold agent_handler. intros Hh.
  repeat match type of Hh with (match ?x with _ => _ end) = _ => destruct x; try discriminate Hh end;
    injection Hh as <-; eauto 9 with moves.
Qed.

(** A request to the task routes is let through for the agent gateway's token only. *)
Lemma agent_gate auth next request w r w' :
  authenticate_agent_gateway auth next request w = (Ok r, w') →
  (authenticate_agent_gateway_bearer auth (utc_now (tick w) / 1000000000)
     (text_of (hq_authorization request)) = Ok () ∧ next (next_tick w) = (Ok r, w')) ∨
  turned_away request r w w'.
Proof.
  unfold authenticate_agent_gateway, mbind, M_bind, now. simpl.
  destruct (authenticate_agent_gateway_bearer _ _ _) as [[]|[]] eqn:Hauth; intros Hrun; [by left|..];
    right; injection Hrun as <- <-; (split_and!; [done..|]); simpl; auto.
Qed.
End agent_moves.

Section app_theorems.
Context `{UuidCrate, !UuidLaws, Chrono, SerdeJson, Sha2, Schemas, Postgres, Unicode, UrlCrate, Timer,
  JsonText, UrlDecoding, HashOrder, Jwt, Extractors, Oracle}.

(** ** The gate and the guarantee *)

(** The requests that may change something, and for whom: a human of the conversation service, the
    agent gateway on its conversation routes, the agent gateway on its task routes. *)
Inductive admitted (policy : WebSocketPolicy) (auth : AuthValidator) (request : HttpRequest)
    (w : World) : Prop :=
| AdmittedHuman actor :
    under BROWSER_PREFIX request = true → browser_admitted policy auth request w actor →
    admitted policy auth request w
| AdmittedConversations :
    under INTERNAL_PREFIX request = true → workload_admitted auth request w →
    admitted policy auth request w
| AdmittedTasks :
    under AGENT_TASKS_PREFIX request = true →
    authenticate_agent_gateway_bearer auth (utc_now (tick w) / 1000000000)
      (text_of (hq_authorization request)) = Ok () →
    admitted policy auth request w.

Lemma routes_gate catalog policy auth request h w r w' :
  routes catalog policy auth request = Some h → h w = (Ok r, w') →
  admitted policy auth request w ∨ turned_away request r w w'.
Proof.
  unfold routes. cbv zeta. destruct (under BROWSER_PREFIX request) eqn:Hb.
  - intros [= <-] Hrun. apply browser_gate in Hrun as [(actor & reply & Ha & _)|]; [left|by right].
    by eapply AdmittedHuman.
  - destruct (under INTERNAL_PREFIX request) eqn:Hi; [|done]. intros [= <-] Hrun.
    apply workload_gate in Hrun as [(reply & Ha & _)|]; [left|by right]. by apply AdmittedConversations.
Qed.

Lemma agent_routes_gate policy auth request h w r w' :
  agent_routes auth request = Some h → h w = (Ok r, w') →
  admitted policy auth request w ∨ turned_away request r w w'.
Proof.
  unfold agent_routes. destruct (under AGENT_TASKS_PREFIX request) eqn:Hu; [|done].
  intros (next & _ & [= <-])%bind_Some Hrun. apply agent_gate in Hrun as [[Ha _]|]; [left|by right].
  by apply AdmittedTasks.
Qed.

(** What a request is told that was not admitted. *)
Definition told (policy : WebSocketPolicy) (auth : AuthValidator) (request : HttpRequest) (w : World)
    (s : Served) : Prop :=
  match s with
  | Answered r =>
      split_on "/" (hq_path request) = HEALTH ∨ split_on "/" (hq_path request) = WS ∨
      re_status r ∈ [401; 403; 404] ∨ re_status r = 204 ∧ hq_method request = Options
  | Upgraded AwaitAuthentication =>
      ∃ o, hq_origin request = Visible o ∧ allows_origin policy o = true
  | Upgraded (StartSession actor) =>
      hq_origin request = NoHeader ∧
      authenticate_bearer auth (utc_now (tick w) / 1000000000) (text_of (hq_authorization request)) = Some actor
  | Upgraded (Rejected _ _) => False
  end.

Lemma turned_away_told policy auth request r w w' :
  turned_away request r w w' → settled (committed w) (gateway w) w' ∧ told policy auth request w (Answered r).
Proof.
  intros (Hc & Hg & Hst). split; [done|]. simpl. right. right. destruct Hst as [->|[->|[-> ?]]]; [left..|by right].
  all: repeat constructor.
Qed.

Lemma socket_gate policy auth request w s w' :
  split_on "/" (hq_path request) = WS → socket policy auth request w = (Ok s, w') →
  settled (committed w) (gateway w) w' ∧ told policy auth request w s.
Proof.
  intros Hws. unfold socket. destruct (upgradable request); [|intros [= <- <-]; split; [done|]; simpl; by auto].
  unfold mbind, M_bind, now. simpl. unfold websocket_upgrade, rejected_upgrade.
  destruct (hq_origin request) as [| |o] eqn:Ho.
  - destruct (authenticate_bearer _ _ _) as [actor|] eqn:Hb; intros [= <- <-]; (split; [done|]); simpl; [|by auto].
    by rewrite Ho.
  - intros [= <- <-]. split; [done|]. simpl. by auto.
  - destruct (allows_origin policy o) eqn:Ha; intros [= <- <-]; (split; [done|]); simpl; [|by auto]. by exists o.
Qed.

(** A request either meets no handler that could change anything, or is answered by one. *)
Lemma app_routed catalog policy auth request w s w' :
  app catalog policy auth request w = (Ok s, w') →
  (settled (committed w) (gateway w) w' ∧ told policy auth request w s) ∨
  ∃ h r, (agent_routes auth request = Some h ∨ routes catalog policy auth request = Some h) ∧
    s = Answered r ∧ h w = (Ok r, w').
Proof.
  unfold app. cbv zeta. case_bool_decide as Hh; [|case_bool_decide as Hws].
  - intros Hrun. left. apply bind_Ok_inv in Hrun as (r & w1 & Hr & [<- <-]%ret_Ok_inv).
    split; [|simpl; auto]. unfold internal_get, on_get, preflight in Hr.
    destruct (hq_method request); by apply ret_Ok_inv in Hr as [_ <-].
  - intros Hrun. left. destruct (hq_method request) eqn:Hm.
    + by apply socket_gate.
    + apply bind_Ok_inv in Hrun as (s1 & w1 & Hs%socket_gate & [<- <-]%ret_Ok_inv); [|done].
      by destruct s1; simpl in *; intuition.
    + apply ret_Ok_inv in Hrun as [<- <-]. split; [done|]. simpl. by auto.
    + apply ret_Ok_inv in Hrun as [<- <-]. split; [done|]. simpl. by auto.
    + apply ret_Ok_inv in Hrun as [<- <-]. split; [done|]. simpl. by auto.
  - destruct (agent_routes auth request) as [h|] eqn:Ha; [|destruct (routes _ _ _ _) as [h|] eqn:Hr].
    + intros Hrun. apply bind_Ok_inv in Hrun as (r & w1 & Hrun & [<- <-]%ret_Ok_inv). right. eauto 6.
    + intros Hrun. apply bind_Ok_inv in Hrun as (r & w1 & Hrun & [<- <-]%ret_Ok_inv). right. eauto 6.
    + intros [<- <-]%ret_Ok_inv. left. split; [done|]. simpl. right. right. left. repeat constructor.
Qed.

(** C21: there is no way around authentication. Whatever request reaches the gateway, on whatever
    path, either it was admitted, as a human with a valid token and no foreign origin by the
    conversation service or as the agent gateway on the internal routes; or it left the database
    and the gateway as they were and was told nothing: the status page, a refusal, a preflight's
    answer, or the upgrade of its connection, which from a browser still has to authenticate and
    otherwise is a session of the actor of a verified token. *)
Theorem app_gate catalog policy auth request w s w' :
  app catalog policy auth request w = (Ok s, w') →
  admitted policy auth request w ∨
  settled (committed w) (gateway w) w' ∧ told policy auth request w s.
Proof.
  intros [?|(h & r & Hroute & -> & Hrun)]%app_routed; [by right|].
  assert (admitted policy auth request w ∨ turned_away request r w w') as [?|?]; [|by left|right; by apply turned_away_told].
  destruct Hroute; [by eapply agent_routes_gate|by eapply routes_gate].
Qed.

Lemma agent_routes_advance auth request h w :
  serving w → agent_routes auth request = Some h → ∃ r w', h w = (Ok r, w') ∧ advances w w'.
Proof.
  intros Hs. unfold agent_routes. destruct (under _ request); [|done]. intros (next & Hn & [= <-])%bind_Some.
  destruct (authenticate_agent_gateway auth next request w) as [[r|[]] w'] eqn:Hrun. exists r, w'. split; [done|].
  apply agent_gate in Hrun as [[_ Hrun]|(Hc & Hg & _)].
  - apply next_tick_advances. apply serving_next_tick in Hs.
    by eapply (wp_Ok _ _ _ _ _ _ (agent_handler_moves _ _ _ _ Hs Hn)).
  - destruct Hs as [[Hok _] Hch]. by apply advances_settled.
Qed.

Lemma app_step catalog policy auth request w :
  catalog_frame catalog → serving w →
  ∃ s w', app catalog policy auth request w = (Ok s, w') ∧ advances w w' ∧ serving w'.
Proof.
  intros Hf Hs. destruct (app catalog policy auth request w) as [[s|[]] w'] eqn:Hrun. exists s, w'.
  assert (advances w w') as Hadv.
  { apply app_routed in Hrun as [[Hset _]|(h & r & [Hr|Hr] & _ & Hh)].
    - destruct Hs as [[Hok _] Hch]. by apply advances_settled.
    - destruct (agent_routes_advance _ _ _ _ Hs Hr) as (? & ? & Heq & ?). rewrite Hh in Heq. by simplify_eq.
    - destruct (routes_advance _ _ _ _ _ _ Hf Hs Hr) as (? & ? & Heq & ?). rewrite Hh in Heq. by simplify_eq. }
  split_and!; [done..|]. split; [|apply Hadv]. eapply evolves_store_ok; [apply Hs|apply Hadv].
Qed.

(** C22: the gateway always answers and never strays. From any state within the invariants, every
    request over HTTP, whatever it is and whatever fails while it is handled, is answered (or its
    connection upgraded); the database evolves within its invariants, logs, finished tasks and
    turns keep what they had, channels only get longer and hold committed events only; and the
    state it leaves is one from which the next request is served in the same way. *)
Theorem app_advances catalog policy auth request w :
  catalog_frame catalog → serving w →
  ∃ s w', app catalog policy auth request w = (Ok s, w') ∧ advances w w' ∧ serving w'.
Proof. apply app_step. Qed.
End app_theorems.
