(* ===== verification/HttpFrame.v ===== *)
(** * The memory engine and requests over HTTP

    Only requests of WebSocket sessions feed the memory engine: whatever a request over HTTP does,
    the queue of its client stays as it is. *)

From S2P Require Import Prelude Json Text Crates Types ConversationProtocol StrictJson ConversationTables Protocol Mentions ActionItems MemoryEngine World Store StoreInvariant ConversationContext Catalog Rooms ConversationStore ConversationTurns ConversationUpdates ConversationInvariant ConversationSteps ConversationReserve CatalogBridge RoomsInvariant RoomTheorems Tasks System AgentService AgentTheorems Auth WebSocket Delivery ConversationService ServiceTheorems Config Http.
From Stdlib Require Import Ascii.
Local Open Scope string_scope.
Local Open Scope list_scope.
Local Open Scope Z_scope.

(** ** Requests over HTTP leave the memory engine's queue alone *)

Definition undisturbed (w w' : World) : Prop :=
  memory_engine (gateway w') = memory_engine (gateway w).

Global Instance undisturbed_preorder : PreOrder undisturbed.
Proof. split; [done|]. unfold undisturbed. congruence. Qed.

Section primitives.
Context `{Oracle}.

Lemma begin_undisturbed : Pres undisturbed begin_tx.
Proof. intros w. unfold begin_tx. by destruct (outage (tick w)). Qed.
Lemma query_undisturbed {A} (q : DateTime → Db → result SqlxError (A * Db)) : Pres undisturbed (tx_query q).
Proof. intros w. unfold tx_query. repeat case_match; done. Qed.
Lemma pool_undisturbed {A} (q : DateTime → Db → result SqlxError (A * Db)) : Pres undisturbed (pool_query q).
Proof. intros w. unfold pool_query. repeat case_match; done. Qed.
Lemma commit_undisturbed : Pres undisturbed commit_tx.
Proof. intros w. unfold commit_tx. by destruct (outage (tick w)). Qed.
Lemma rollback_undisturbed : Pres undisturbed rollback_tx.
Proof. by intros w. Qed.
Lemma lock_undisturbed l : Pres undisturbed (advisory_lock l).
Proof. intros w. unfold advisory_lock. by destruct (outage (tick w)). Qed.
Lemma now_undisturbed {E} : Pres (E := E) undisturbed now.
Proof. by intros w. Qed.
Lemma new_v4_undisturbed {E} : Pres (E := E) undisturbed new_v4.
Proof. by intros w. Qed.
Lemma cursors_undisturbed {E} f : Pres (E := E) undisturbed (modify (λ w, set_cursors (f w) w)).
Proof. by intros w. Qed.
Lemma publish_undisturbed {E} e : Pres (E := E) undisturbed (publish e).
Proof. intros w. unfold publish, modify_gateway, modify, undisturbed. simpl. by repeat case_match. Qed.
End primitives.
#[local] Hint Resolve begin_undisturbed query_undisturbed pool_undisturbed commit_undisturbed
  rollback_undisturbed lock_undisturbed now_undisturbed new_v4_undisturbed cursors_undisturbed
  publish_undisturbed : pres.

Section undisturbed.
Context `{UuidCrate, Chrono, SerdeJson, Sha2, Schemas, Postgres, Unicode, UrlCrate, Timer, JsonText,
  UrlDecoding, HashOrder, Jwt, Extractors, Oracle}.

Lemma lock_room_undisturbed room : Pres undisturbed (lock_room room).
Proof. unfold lock_room. solve_pres. Qed.
Lemma append_undisturbed e : Pres undisturbed (append_event_in_transaction e).
Proof. unfold append_event_in_transaction. solve_pres. Qed.
#[local] Hint Resolve lock_room_undisturbed append_undisturbed : pres.

Lemma agent_claim_undisturbed : Pres undisturbed AgentService.claim.
Proof. unfold AgentService.claim, claim_oldest_queued_agent_task, context_response, context_for_lease. solve_pres. Qed.
Lemma agent_context_undisturbed task header : Pres undisturbed (AgentService.context task header).
Proof. unfold AgentService.context, matching_live_lease, agent_task, context_response, context_for_lease. solve_pres. Qed.
Lemma agent_update_undisturbed task header request : Pres undisturbed (AgentService.update task header request).
Proof.
  unfold AgentService.update, matching_live_lease, agent_task, context_for_lease,
    record_agent_task_update_with_outcome, persist_update, validate_agent_handoff, events_by_id. solve_pres.
Qed.

(** The conversation store. *)
Lemma keeps_undisturbed {E A} (m : M World E A) : Pres keeps m → Pres undisturbed m.
Proof. intros Hm w. destruct (Hm w) as (_ & _ & _ & _ & _ & Hmem & _). done. Qed.

Lemma build_context_undisturbed room conversation generation base trigger policy :
  Pres undisturbed (build_context room conversation generation base trigger policy).
Proof. unfold build_context, freeze_context, unavailable. solve_pres. Qed.
Lemma mentions_undisturbed room mentions : Pres undisturbed (validate_conversation_mentions room mentions).
Proof. unfold validate_conversation_mentions, unavailable. solve_pres. Qed.
Lemma turn_conversation_undisturbed policy room request current :
  Pres undisturbed (turn_conversation policy room request current).
Proof. unfold turn_conversation, unavailable. solve_pres. Qed.
Lemma reserve_conversation_undisturbed policy mode current room id generation task settings now :
  Pres undisturbed (reserve_conversation policy mode current room id generation task settings now).
Proof. unfold reserve_conversation, unavailable. solve_pres. Qed.
Lemma prior_request_undisturbed room request : Pres undisturbed (prior_request room request).
Proof. unfold prior_request, events_by_id. solve_pres. Qed.
Lemma record_request_undisturbed room request fp events : Pres undisturbed (record_request room request fp events).
Proof. unfold record_request. solve_pres. Qed.
Lemma selection_undisturbed catalog policy settings :
  catalog_frame catalog → Pres undisturbed (validate_catalog_selection (timed catalog) policy settings).
Proof. intros Hf. apply keeps_undisturbed, scan_pages_keeps. intros ????. by apply timed_frame. Qed.
#[local] Hint Resolve build_context_undisturbed mentions_undisturbed turn_conversation_undisturbed
  reserve_conversation_undisturbed prior_request_undisturbed record_request_undisturbed
  selection_undisturbed : pres.

Lemma reserve_undisturbed policy actor request expiry catalog :
  catalog_frame catalog → Pres undisturbed (reserve_mediated policy actor request expiry catalog).
Proof. intros Hf. unfold reserve_mediated, reserve_inner, reserve_turn, unavailable. cbv zeta. solve_pres. Qed.

Lemma authority_undisturbed policy view lease claim : Pres undisturbed (task_authority policy view lease claim).
Proof. unfold task_authority. solve_pres. Qed.
Lemma task_tx_undisturbed task : Pres undisturbed (task_in_transaction task).
Proof. unfold task_in_transaction, unavailable. solve_pres. Qed.
Lemma fail_state_undisturbed view error : Pres undisturbed (fail_task_state view error).
Proof. unfold fail_task_state, unavailable. solve_pres. Qed.
#[local] Hint Resolve authority_undisturbed task_tx_undisturbed fail_state_undisturbed : pres.
Lemma fail_task_undisturbed view error : Pres undisturbed (fail_task view error).
Proof. unfold fail_task, unavailable. solve_pres. Qed.
Lemma grant_undisturbed policy owner view : Pres undisturbed (grant_turn policy owner view).
Proof. unfold grant_turn, unavailable. solve_pres. Qed.
#[local] Hint Resolve fail_task_undisturbed grant_undisturbed : pres.
Lemma claim_loop_undisturbed n policy owner : Pres undisturbed (claim_loop n policy owner).
Proof. induction n as [|n IH]; simpl; unfold unavailable; solve_pres. Qed.
Lemma turn_claim_undisturbed policy owner : Pres undisturbed (ConversationTurns.claim policy owner).
Proof. pose proof claim_loop_undisturbed. unfold ConversationTurns.claim. solve_pres. Qed.
Lemma packet_undisturbed policy task lease : Pres undisturbed (packet policy task lease).
Proof. unfold packet, unavailable. solve_pres. Qed.

Lemma citations_undisturbed policy view reply : Pres undisturbed (validate_citations policy view reply).
Proof. unfold validate_citations, check_citation, unavailable. solve_pres. Qed.
Lemma disclose_undisturbed policy view source : Pres undisturbed (disclose policy view source).
Proof. unfold disclose, unavailable. solve_pres. Qed.
#[local] Hint Resolve citations_undisturbed disclose_undisturbed : pres.
Lemma complete_undisturbed policy view data at_ : Pres undisturbed (complete_turn policy view data at_).
Proof. unfold complete_turn, unavailable. solve_pres. Qed.
Lemma note_undisturbed view kind data id ordinal at_ : Pres undisturbed (note_update view kind data id ordinal at_).
Proof. unfold note_update, unavailable. solve_pres. Qed.
Lemma coalesced_undisturbed view kind data at_ : Pres undisturbed (coalesced view kind data at_).
Proof. unfold coalesced, unavailable. solve_pres. Qed.
Lemma retain_undisturbed view kind data id ordinal at_ : Pres undisturbed (retain_update view kind data id ordinal at_).
Proof. unfold retain_update, unavailable. solve_pres. Qed.
#[local] Hint Resolve complete_undisturbed note_undisturbed coalesced_undisturbed retain_undisturbed : pres.
Lemma record_update_undisturbed policy task lease request : Pres undisturbed (record_update policy task lease request).
Proof. unfold record_update, replay_update, apply_update, unavailable. solve_pres. Qed.

(** The handlers and the routes. *)
#[local] Hint Resolve reserve_undisturbed turn_claim_undisturbed packet_undisturbed
  record_update_undisturbed agent_claim_undisturbed agent_context_undisturbed
  agent_update_undisturbed : pres.

Lemma response_undisturbed (m : Conv Value) : Pres undisturbed m → Pres undisturbed (response m).
Proof. intros Hm. unfold response. solve_pres. Qed.
Lemma turn_undisturbed catalog actor request :
  catalog_frame catalog → Pres undisturbed (turn catalog actor request).
Proof.
  intros Hf. unfold turn, conversations, publish_option.
  assert (∀ i, catalog_frame (default unavailable_catalog (configured catalog i))).
  { intros i. unfold configured. destruct (ci_catalog i); [done|apply unavailable_catalog_frame]. }
  solve_pres.
Qed.
Lemma update_undisturbed id request : Pres undisturbed (ConversationService.update id request).
Proof. unfold ConversationService.update, conversations, publish_option. solve_pres. Qed.
Lemma claim_undisturbed request : Pres undisturbed (ConversationService.claim request).
Proof. unfold ConversationService.claim, conversations. solve_pres. Qed.
Lemma leased_undisturbed id request : Pres undisturbed (ConversationService.leased id request).
Proof. unfold ConversationService.leased, conversations. solve_pres. Qed.
Lemma receipt_undisturbed id request : Pres undisturbed (ConversationService.receipt id request).
Proof. apply response_undisturbed. unfold conversations, ConversationTurns.receipt, unavailable. solve_pres. Qed.
Lemma conversation_undisturbed room agent request : Pres undisturbed (conversation room agent request).
Proof. apply response_undisturbed. unfold conversations, conversation_view, unavailable. solve_pres. Qed.
Lemma task_undisturbed room id request : Pres undisturbed (ConversationService.task room id request).
Proof. apply response_undisturbed. unfold conversations, task_view, unavailable. solve_pres. Qed.
Lemma models_undisturbed catalog room agent request :
  catalog_frame catalog → Pres undisturbed (models catalog room agent request).
Proof. intros Hf. by apply response_undisturbed, keeps_undisturbed, model_page_keeps. Qed.
Lemma defaults_undisturbed catalog actor room agent request :
  catalog_frame catalog → Pres undisturbed (defaults catalog actor room agent request).
Proof. intros Hf. by apply response_undisturbed, keeps_undisturbed, defaults_keeps. Qed.
#[local] Hint Resolve response_undisturbed turn_undisturbed update_undisturbed claim_undisturbed
  leased_undisturbed receipt_undisturbed conversation_undisturbed task_undisturbed
  models_undisturbed defaults_undisturbed : pres.
Lemma context_undisturbed id request : Pres undisturbed (ConversationService.context id request).
Proof. unfold ConversationService.context. auto with pres. Qed.
Lemma authority_reply_undisturbed id request : Pres undisturbed (authority id request).
Proof. unfold authority. apply response_undisturbed. solve_pres. Qed.
#[local] Hint Resolve context_undisturbed authority_reply_undisturbed : pres.

Lemma on_get_undisturbed request h : Pres undisturbed h → Pres undisturbed (on_get request h).
Proof. intros Hh. unfold on_get, preflight. solve_pres. Qed.
Lemma internal_get_undisturbed request h : Pres undisturbed h → Pres undisturbed (internal_get request h).
Proof. intros Hh. unfold internal_get, on_get. solve_pres. Qed.
Lemma internal_post_undisturbed request h : Pres undisturbed h → Pres undisturbed (internal_post request h).
Proof. intros Hh. unfold internal_post. solve_pres. Qed.
Lemma with_param_undisturbed raw h : (∀ s, Pres undisturbed (h s)) → Pres undisturbed (with_param raw h).
Proof. intros Hh. unfold with_param. solve_pres. Qed.
Lemma ret_undisturbed {A} (a : A) : Pres (E := Empty_set) undisturbed (mret a).
Proof. by intros w. Qed.
#[local] Hint Resolve on_get_undisturbed internal_get_undisturbed internal_post_undisturbed
  with_param_undisturbed ret_undisturbed : pres.

Ltac solve_routes :=
  repeat match goal with |- Pres _ (match ?x with _ => _ end) => destruct x end; eauto 8 with pres.

Lemma browser_routes_undisturbed catalog segments actor request :
  catalog_frame catalog → Pres undisturbed (browser_routes catalog segments actor request).
Proof.
  intros Hf. assert (Pres undisturbed not_found) by apply ret_undisturbed. unfold browser_routes, preflight.
  solve_routes.
Qed.
Lemma internal_routes_undisturbed segments request : Pres undisturbed (internal_routes segments request).
Proof. assert (Pres undisturbed not_found) by apply ret_undisturbed. unfold internal_routes. solve_routes. Qed.

Lemma routes_undisturbed catalog policy auth request h :
  catalog_frame catalog → routes catalog policy auth request = Some h → Pres undisturbed h.
Proof.
  intros Hf. unfold routes. cbv zeta.
  pose proof (browser_routes_undisturbed catalog (drop 4 (split_on "/" (hq_path request)))) as Hb.
  pose proof (internal_routes_undisturbed (drop 4 (split_on "/" (hq_path request)))) as Hi.
  destruct (under BROWSER_PREFIX request); [|destruct (under INTERNAL_PREFIX request); [|done]]; intros [= <-].
  - unfold authenticate_browser. solve_pres.
  - unfold authenticate_workload. solve_pres.
Qed.

Lemma agent_routes_undisturbed auth request h : agent_routes auth request = Some h → Pres undisturbed h.
Proof.
  unfold agent_routes. destruct (under AGENT_TASKS_PREFIX request); [|done].
  intros (next & Hn & [= <-])%bind_Some. assert (Pres undisturbed next) as Hnext; [|unfold authenticate_agent_gateway; solve_pres].
  unfold agent_handler in Hn.
  repeat match type of Hn with (match ?x with _ => _ end) = _ => destruct x; try discriminate Hn end;
    injection Hn as <-; unfold internal_post, internal_get, on_get, with_json, with_task, with_param, preflight, answer; solve_pres.
Qed.

Lemma app_undisturbed catalog policy auth request :
  catalog_frame catalog → Pres undisturbed (app catalog policy auth request).
Proof.
  intros Hf. pose proof (λ h, routes_undisturbed catalog policy auth request h Hf) as Hr.
  pose proof (agent_routes_undisturbed auth request) as Ha.
  unfold app, socket, answered, internal_get, on_get. cbv zeta. solve_pres.
Qed.
End undisturbed.
