(* ===== verification/Deployment.v ===== *)
(** * The deployed gateway

    From start-up on: requests over HTTP, turns of any number of WebSocket sessions and turns of
    the memory-engine dispatcher, in any order. Every invariant of the components holds in every
    state this reaches, and the dispatcher sends only committed events, each at most once. *)

From S2P Require Import Prelude Json Text Crates Types ConversationProtocol StrictJson ConversationTables Protocol Mentions ActionItems MemoryEngine World Store StoreInvariant ConversationContext Catalog Rooms ConversationStore ConversationTurns ConversationUpdates ConversationInvariant ConversationSteps ConversationReserve CatalogBridge RoomsInvariant RoomTheorems Tasks System AgentService AgentTheorems Auth WebSocket Delivery ConversationService ServiceTheorems Config Http HttpFrame.
Local Open Scope string_scope.
Local Open Scope list_scope.
Local Open Scope Z_scope.

(** ** What is offered to the memory engine *)

Definition offer (evs : list RoomEvent) (m : option MemoryEngineClient) : option MemoryEngineClient :=
  (λ client, foldl (λ c e, (enqueue_committed_event e c).2) client evs) <$> m.

Lemma offer_nil m : offer [] m = m.
Proof. by destruct m. Qed.
Lemma offer_app evs evs' m : offer (evs ++ evs') m = offer evs' (offer evs m).
Proof. destruct m; simpl; [|done]. by rewrite foldl_app. Qed.

(** Of the events offered some are accepted, in order, and the queue stays within its capacity. *)
Lemma enqueue_accepts e client :
  ∃ accepted, accepted `sublist_of` [e] ∧
    me_queue (enqueue_committed_event e client).2 = me_queue client ++ accepted.
Proof.
  unfold enqueue_committed_event. destruct (me_closed client).
  { exists []. split; [apply sublist_nil_l|]. by rewrite app_nil_r. }
  destruct (me_capacity client <=? length (me_queue client))%nat; simpl; [|by exists [e]].
  exists []. split; [apply sublist_nil_l|]. by rewrite app_nil_r.
Qed.

Lemma offer_accepts evs client :
  queue_bounded client →
  ∃ client' accepted, offer evs (Some client) = Some client' ∧ queue_bounded client' ∧
    accepted `sublist_of` evs ∧ me_queue client' = me_queue client ++ accepted.
Proof.
  revert client. induction evs as [|e evs IH]; intros client Hb.
  - exists client, []. by rewrite app_nil_r.
  - destruct (IH _ (enqueue_bounded e client Hb)) as (client' & accepted & Ho & Hb' & Hs & Hq).
    destruct (enqueue_accepts e client) as (first & Hf & Hfq).
    exists client', (first ++ accepted). split_and!; [exact Ho|done|by apply (sublist_app _ [e])|].
    by rewrite Hq, Hfq, app_assoc.
Qed.

(** ** What any step of the gateway does *)

(** The database evolves, committed events only are broadcast, and of the events committed some
    are offered to the memory engine. *)
Record proceeds (w w' : World) : Prop := {
  pc_advances : advances w w';
  pc_offered : ∃ new evs, room_events (committed w') = room_events (committed w) ++ new ∧
    evs `sublist_of` new ∧ memory_engine (gateway w') = offer evs (memory_engine (gateway w));
}.
Definition sound (w w' : World) : Prop := serving w → proceeds w w'.

Lemma proceeds_serving w w' : serving w → proceeds w w' → serving w'.
Proof. intros [[_ Hc] _] [Hadv _]. split; [|apply Hadv]. eapply evolves_store_ok; [done|apply Hadv]. Qed.

Lemma undisturbed_proceeds w w' : advances w w' → undisturbed w w' → proceeds w w'.
Proof.
  intros Hadv Hu. destruct (ev_grows _ _ (av_evolves _ _ Hadv)) as [new Hnew]. split; [done|].
  exists new, []. split_and!; [done|apply sublist_nil_l|]. by rewrite offer_nil.
Qed.

Global Instance sound_preorder : PreOrder sound.
Proof.
  split.
  - intros w Hs. by apply undisturbed_proceeds; [apply advances_refl|].
  - intros w1 w2 w3 H12 H23 Hs. pose proof (H12 Hs) as Hp.
    pose proof (H23 (proceeds_serving _ _ Hs Hp)) as Hp'.
    destruct Hp as [Ha (new & evs & Hn & He & Hm)], Hp' as [Ha' (new' & evs' & Hn' & He' & Hm')].
    split; [by eapply advances_trans|]. exists (new ++ new'), (evs ++ evs'). split_and!.
    + by rewrite Hn', Hn, app_assoc.
    + by apply sublist_app.
    + by rewrite Hm', Hm, offer_app.
Qed.

(** A step that commits nothing and broadcasts no event. *)
Record calm (w w' : World) : Prop := {
  ca_committed : committed w' = committed w;
  ca_memory : undisturbed w w';
  ca_channels room : ∃ new, channel_log room (gateway w') = channel_log room (gateway w) ++ new ∧
    ∀ e, BEvent e ∉ new;
}.

Global Instance calm_preorder : PreOrder calm.
Proof.
  split.
  - intros w. split; [done|done|]. intros room. exists []. rewrite app_nil_r. split; [done|]. set_solver.
  - intros w1 w2 w3 [Hc Hm Hl] [Hc' Hm' Hl']. split; [congruence|by etrans|].
    intros room. destruct (Hl room) as (new & Hn & He), (Hl' room) as (new' & Hn' & He').
    exists (new ++ new'). rewrite Hn', Hn, app_assoc. split; [done|]. set_solver.
Qed.

Lemma calm_gateway w w' :
  committed w' = committed w → memory_engine (gateway w') = memory_engine (gateway w) →
  (∀ room, channel_log room (gateway w') = channel_log room (gateway w)) → calm w w'.
Proof.
  intros Hc Hm Hl. split; [done..|]. intros room. exists []. rewrite Hl, app_nil_r. split; [done|]. set_solver.
Qed.

Lemma calm_sound w w' : calm w w' → sound w w'.
Proof.
  intros [Hc Hm Hl] [[Hok Hconv] Hch]. apply undisturbed_proceeds; [|done]. split.
  - rewrite Hc. by apply evolves_refl.
  - intros room. destruct (Hl room) as (new & -> & _). by eexists.
  - intros room e. destruct (Hl room) as (new & -> & He). rewrite Hc. intros [Hin|Hin]%elem_of_app; [by apply Hch|].
    by apply He in Hin.
Qed.

(** ** Sessions *)

Section sessions.
Context `{UuidCrate, Chrono, Schemas, SerdeJson, Sha2, Postgres, Unicode, UrlCrate, Oracle, Socket, BroadcastChannel}.

Lemma now_calm {E} : Pres (E := E) calm now.
Proof. intros w. by apply calm_gateway. Qed.
Lemma replay_calm room n : Pres calm (replay room n).
Proof.
  intros w. apply calm_gateway; unfold replay, events_after, map_err, pool_query, select; simpl;
    by destruct (outage (tick w)).
Qed.
Lemma room_channel_calm {E} room : Pres (E := E) calm (room_channel room).
Proof.
  intros w. apply calm_gateway; [done|done|]. intros r. unfold channel_log. simpl.
  destruct (decide (room = r)) as [->|]; [by rewrite lookup_insert_eq|by rewrite lookup_insert_ne].
Qed.
Lemma register_calm {E} room actor : Pres (E := E) calm (register_participant room actor).
Proof. intros w. by apply calm_gateway. Qed.
Lemma unregister_calm {E} room actor : Pres (E := E) calm (unregister_participant room actor).
Proof. intros w. by apply calm_gateway. Qed.
#[local] Hint Resolve now_calm replay_calm room_channel_calm register_calm unregister_calm : pres.
Lemma snapshot_calm room : Pres calm (participant_snapshot room).
Proof. unfold participant_snapshot. solve_pres. Qed.
#[local] Hint Resolve snapshot_calm : pres.
Lemma publish_snapshot_calm room exclude : Pres calm (publish_participant_snapshot room exclude).
Proof.
  unfold publish_participant_snapshot. solve_pres. intros w. unfold modify_gateway, modify. simpl.
  destruct (channels (gateway w) !! room) eqn:Hr; [|by apply calm_gateway]. split; [done|done|].
  intros r. simpl. rewrite channel_log_send. eexists. split; [done|]. case_bool_decide; set_solver.
Qed.

(** The same for a connection, whose own part does not matter here. *)
Definition calm_conn (c c' : Conn) : Prop := calm (cn_world c) (cn_world c').
Definition sound_conn (c c' : Conn) : Prop := sound (cn_world c) (cn_world c').
#[local] Instance calm_conn_preorder : PreOrder calm_conn.
Proof. split; [intros c|intros c1 c2 c3 ? ?]; unfold calm_conn; [done|by etrans]. Qed.
#[local] Instance sound_conn_preorder : PreOrder sound_conn.
Proof. split; [intros c|intros c1 c2 c3 ? ?]; unfold sound_conn; [done|by etrans]. Qed.

Lemma on_world_calm {E A} (m : M World E A) : Pres calm m → Pres calm_conn (on_world m).
Proof. intros Hm c. specialize (Hm (cn_world c)). unfold on_world. by destruct (m (cn_world c)). Qed.
Lemma send_frame_calm f : Pres calm_conn (send_frame f).
Proof. intros c. unfold send_frame. by destruct (send_ok _); apply calm_gateway. Qed.
Lemma with_session_calm {E} f : Pres (E := E) calm_conn (modify (with_session f)).
Proof. intros c. unfold calm_conn. simpl. done. Qed.
Lemma is_ok_calm {E A} (m : M Conn E A) : Pres calm_conn m → Pres calm_conn (is_ok m).
Proof. intros Hm. unfold is_ok. solve_pres. Qed.
#[local] Hint Resolve publish_snapshot_calm on_world_calm send_frame_calm with_session_calm is_ok_calm : pres.
Lemma send_value_calm v : Pres calm_conn (send_value v).
Proof. apply send_frame_calm. Qed.
Lemma send_error_calm id e : Pres calm_conn (send_error id e).
Proof. apply send_frame_calm. Qed.
#[local] Hint Resolve send_value_calm send_error_calm : pres.
Lemma close_calm id e reason : Pres calm_conn (close_with_error id e reason).
Proof. unfold close_with_error. solve_pres. Qed.
Lemma handle_join_calm actor join : Pres calm_conn (handle_join actor join).
Proof. unfold handle_join. cbv zeta. solve_pres. Qed.
Lemma replay_events_calm actor events : Pres calm_conn (replay_events actor events).
Proof. induction events as [|e events IH]; simpl; solve_pres. Qed.
#[local] Hint Resolve close_calm handle_join_calm replay_events_calm : pres.
Lemma replay_in_order_calm actor room : Pres calm_conn (replay_in_order actor room).
Proof. unfold replay_in_order. solve_pres. Qed.
#[local] Hint Resolve replay_in_order_calm : pres.
Lemma receive_calm actor : Pres calm_conn (receive_broadcast actor).
Proof. unfold receive_broadcast, deliver_event. solve_pres. Qed.
Lemma cleanup_calm actor : Pres calm_conn (cleanup_presence actor).
Proof. unfold cleanup_presence. solve_pres. Qed.

Lemma wp_run_conn (m : M Conn Empty_set bool) (P : Conn → Prop) (Q : Conn → Prop) c :
  wp m (λ _ c', P c' ∧ Q c') (λ _ _, False) c → P (m c).2.
Proof. unfold wp. destruct (m c) as [[]]; naive_solver. Qed.

(** A request of the joined room. *)
Lemma process_proceeds actor request w :
  serving w → wp (process actor request) (λ _ w', proceeds w w') (λ _ w', proceeds w w') w.
Proof.
  intros [[Hok _] Hch].
  wp_use (wp_conj _ _ _ _ _ _ (process_returns_committed actor request w Hok Hch)
            (process_spec _ actor request _ _ w (settled_self w) Hok (ensures_True _ _ _ _))).
  - intros p w' [[Hadv _] (room & rid & fp & _ & _ & _ & Hm)].
    destruct (room_requests (committed w) !! (room, rid)) as [row|].
    + destruct Hm as (_ & _ & _ & [Hc Hg]). apply undisturbed_proceeds; [done|]. unfold undisturbed. by rewrite Hg.
    + destruct Hm as (_ & d' & (body & Heff & _ & _ & _ & -> & _) & [Hc Hg]). split; [done|].
      exists (pr_events p), (pr_events p). rewrite Hc, Hg. split_and!; [apply Heff|done|].
      unfold memory_after. by destruct (memory_engine (gateway w)) eqn:Hme; simpl; rewrite ?Hme.
  - intros e w' [Hadv [[_ Hg]|(_ & room & rid & fp & _ & _ & _ & d' & evs & _ & [_ Hg])]];
      (apply undisturbed_proceeds; [done|]); unfold undisturbed; by rewrite Hg.
Qed.

Definition idle (c c' : Conn) : Prop :=
  committed (cn_world c') = committed (cn_world c) ∧ undisturbed (cn_world c) (cn_world c').
#[local] Instance idle_preorder : PreOrder idle.
Proof.
  split; [done|]. intros c1 c2 c3 [Hc Hu] [Hc' Hu']. split; [congruence|by etrans].
Qed.
Lemma calm_idle {E A} (m : M Conn E A) : Pres calm_conn m → Pres idle m.
Proof. intros Hm c. destruct (Hm c) as [? ? _]. done. Qed.
Lemma publish_idle {E} e : Pres (E := E) idle (on_world (publish e)).
Proof. by intros c. Qed.
Lemma send_events_calm events : Pres calm_conn (send_events events).
Proof. induction events as [|e events IH]; simpl; solve_pres. Qed.

Lemma handle_room_request_sound actor request : Pres sound_conn (handle_room_request actor request).
Proof.
  intros c Hs. pose proof (handle_room_request_spec actor request c (proj1 (proj1 Hs)) (proj2 Hs)) as Hspec.
  apply wp_run_conn in Hspec as Hadv.
  assert (∃ new evs, room_events (committed (cn_world (handle_room_request actor request c).2)) =
      room_events (committed (cn_world c)) ++ new ∧ evs `sublist_of` new ∧
      memory_engine (gateway (cn_world (handle_room_request actor request c).2)) =
      offer evs (memory_engine (gateway (cn_world c)))); [|by split].
  pose proof (process_proceeds actor request (cn_world c) Hs) as Hp.
  unfold wp in Hp. destruct (process actor request (cn_world c)) as [r w1] eqn:Hrun.
  assert (attempt (on_world (process actor request)) c =
    (Ok (E := Empty_set) r, {| cn_world := w1; cn_session := cn_session c |})) as Hm.
  { unfold attempt, on_world. by rewrite Hrun. }
  unfold handle_room_request. rewrite (bind_ok _ _ _ _ _ Hm).
  set (rest := match r with Ok p => _ | Err e => _ end).
  assert (Pres idle rest) as Hrest.
  { subst rest. destruct r as [p|e]; [destruct (pr_duplicate p)|].
    - apply calm_idle, send_events_calm.
    - pose proof (@publish_idle Empty_set). solve_pres.
    - apply calm_idle. auto with pres. }
  destruct (Hrest {| cn_world := w1; cn_session := cn_session c |}) as [Hc Hu]. unfold undisturbed in Hu.
  rewrite Hc, Hu. simpl. by destruct r; apply Hp.
Qed.

Lemma calm_conn_sound {E A} (m : M Conn E A) : Pres calm_conn m → Pres sound_conn m.
Proof. intros Hm c. apply calm_sound, Hm. Qed.

Lemma session_turn_sound actor input : Pres sound_conn (session_turn actor input).
Proof.
  pose proof (handle_room_request_sound actor) as Hr.
  assert (∀ {A} (m : M Conn Empty_set A), Pres calm_conn m → Pres sound_conn m) as Hc by (intros ??; apply calm_conn_sound).
  pose proof (Hc _ _ (receive_calm actor)) as Hb. pose proof (λ join, Hc _ _ (handle_join_calm actor join)) as Hj.
  pose proof (λ id e reason, Hc _ _ (close_calm id e reason)) as Hx.
  pose proof (λ id e, Hc _ _ (is_ok_calm _ (send_error_calm id e))) as He.
  pose proof (Hc _ _ (on_world_calm _ now_calm)) as Hn.
  unfold session_turn, handle_message, now_seconds. cbv zeta. solve_pres.
Qed.
End sessions.

(** ** The deployed gateway *)

Section deployed.
Context `{UuidCrate, !UuidLaws, Chrono, SerdeJson, Sha2, Schemas, Postgres, Unicode, UrlCrate, Timer,
  JsonText, UrlDecoding, HashOrder, HttpClient, !HttpClientLaws, Jwt, UriCrate, NetAddr, !Host, Extractors,
  Socket, BroadcastChannel, Tcp, Oracle}.

(** The catalogue the integration was given. *)
Definition catalog_of (s : Running) : CatalogQuery :=
  match rn_bridge s with Some bridge => bridge_page bridge | None => unavailable_catalog end.

(** One thing happens: a request over HTTP is served, a session takes a turn (whichever, and in
    whatever state it is), a session ends, or the dispatcher takes a job. The second component is
    what the dispatcher has taken so far. *)
Inductive happens (s : Running) : World * list RoomEvent → World * list RoomEvent → Prop :=
| HappensHttp request w taken :
    happens s (w, taken)
      ((app (catalog_of s) (rn_websocket_policy s) (rn_auth s) request w).2, taken)
| HappensTurn actor input session w taken :
    happens s (w, taken)
      (cn_world (session_turn actor input {| cn_world := w; cn_session := session |}).2, taken)
| HappensLeave actor session w taken :
    happens s (w, taken)
      (cn_world (cleanup_presence actor {| cn_world := w; cn_session := session |}).2, taken)
| HappensDispatch n client w taken :
    memory_engine (gateway w) = Some client →
    happens s (w, taken)
      (with_gateway (with_memory_engine (Some (dispatch_next n client).2) (gateway w)) w,
       taken ++ match (dispatch_next n client).1 with Some (event, _) => [event] | None => [] end).

(** The events given to the memory engine or waiting for it are committed, and different. *)
Definition memory_ok (w : World) (taken : list RoomEvent) : Prop :=
  match memory_engine (gateway w) with
  | Some client =>
      queue_bounded client ∧ NoDup (ev_event_id <$> taken ++ me_queue client) ∧
      Forall (λ e, e ∈ room_events (committed w)) (taken ++ me_queue client)
  | None => taken = []
  end.

Lemma memory_ok_proceeds w w' taken :
  serving w → proceeds w w' → memory_ok w taken → memory_ok w' taken.
Proof.
  intros Hs Hp Hm. pose proof (proceeds_serving _ _ Hs Hp) as [[Hok' _] _].
  destruct Hp as [_ (new & evs & Hnew & Hevs & Hoff)]. unfold memory_ok in *. rewrite Hoff.
  destruct (memory_engine (gateway w)) as [client|]; [|done]. destruct Hm as (Hb & Hnd & Hin).
  destruct (offer_accepts evs client Hb) as (client' & accepted & -> & Hb' & Hacc & ->).
  assert (accepted `sublist_of` new) as Hsub by (by etrans). split_and!; [done| |].
  - pose proof (ok_ids _ Hok') as Hids. rewrite Hnew, fmap_app in Hids. apply NoDup_app in Hids as (_ & Hdis & Hn).
    rewrite app_assoc, fmap_app. apply NoDup_app. split_and!; [done| |].
    + intros id (e & -> & He)%list_elem_of_fmap (e' & Heq & He')%list_elem_of_fmap.
      rewrite Forall_forall in Hin. apply (Hdis (ev_event_id e)).
      * apply list_elem_of_fmap. exists e. split; [done|by apply Hin].
      * rewrite Heq. apply list_elem_of_fmap_2. by eapply elem_of_sublist.
    + eapply sublist_NoDup; [exact Hn|]. by apply fmap_sublist.
  - rewrite app_assoc. apply Forall_app. rewrite Hnew. split.
    + eapply Forall_impl; [exact Hin|]. intros e He. apply elem_of_app. by left.
    + apply Forall_forall. intros e He. apply elem_of_app. right. by eapply elem_of_sublist.
Qed.

Lemma catalog_of_frame s : catalog_frame (catalog_of s).
Proof. unfold catalog_of. destruct (rn_bridge s); [apply bridge_frame|apply unavailable_catalog_frame]. Qed.

Lemma app_sound s request : Pres sound (app (catalog_of s) (rn_websocket_policy s) (rn_auth s) request).
Proof.
  intros w Hs. pose proof (catalog_of_frame s) as Hf.
  destruct (app_step _ (rn_websocket_policy s) (rn_auth s) request w Hf Hs) as (r & w' & Hrun & Hadv & _).
  pose proof (app_undisturbed _ (rn_websocket_policy s) (rn_auth s) request Hf w) as Hu. rewrite Hrun in Hu |- *.
  by apply undisturbed_proceeds.
Qed.

Lemma dispatch_ok n client w taken :
  serving w → memory_engine (gateway w) = Some client → memory_ok w taken →
  let w' := with_gateway (with_memory_engine (Some (dispatch_next n client).2) (gateway w)) w in
  serving w' ∧
  memory_ok w' (taken ++ match (dispatch_next n client).1 with Some (event, _) => [event] | None => [] end).
Proof.
  intros Hs Hme Hm w'. split; [done|]. unfold memory_ok in *. rewrite Hme in Hm. simpl.
  unfold dispatch_next. destruct (me_queue client) as [|event rest] eqn:Hq; simpl.
  - by rewrite app_nil_r, Hq.
  - unfold queue_bounded in *. rewrite Hq in Hm. simpl in *. destruct Hm as (Hb & Hnd & Hin).
    rewrite <-app_assoc. split_and!; [lia|done|done].
Qed.

(** One step keeps everything. *)
Lemma happens_ok s p p' :
  happens s p p' → serving p.1 ∧ memory_ok p.1 p.2 → serving p'.1 ∧ memory_ok p'.1 p'.2.
Proof.
  assert (∀ w w' taken, sound w w' → serving w ∧ memory_ok w taken → serving w' ∧ memory_ok w' taken) as Hgo.
  { intros w w' taken Hw [Hs Hm]. split; [by eapply proceeds_serving, Hw|by eapply memory_ok_proceeds, Hm; [|apply Hw]]. }
  intros [request w taken|actor input session w taken|actor session w taken|n client w taken Hme]; cbn [fst snd].
  - apply Hgo, app_sound.
  - apply Hgo. apply (session_turn_sound actor input {| cn_world := w; cn_session := session |}).
  - apply Hgo, calm_sound. apply (cleanup_calm actor {| cn_world := w; cn_session := session |}).
  - intros [Hs Hm]. by apply dispatch_ok.
Qed.

(** C20: once started, the gateway stays within all its invariants for good. Begin with an empty
    database and the state [main] starts with; let requests over HTTP, turns and ends of any
    sessions and jobs of the memory engine follow each other in any order, whatever fails. Then
    the tables satisfy every invariant (gapless logs, recorded requests, task and conversation
    rows that refer to what exists, one turn in flight at most), channels hold committed events
    only, and the memory engine has been sent, or will be sent, committed events only, none of
    them twice, from a queue that never exceeds its capacity. *)
Theorem deployment_safe lookup s w0 w taken :
  main lookup = Ok s → committed w0 = empty_db → gateway w0 = rn_gateway s →
  rtc (happens s) (w0, []) (w, taken) →
  store_ok (committed w) ∧ channels_ok w ∧ memory_ok w taken.
Proof.
  intros Hmain Hempty Hg Hrtc. pose proof (main_fits lookup s Hmain) as Hfit.
  assert (serving w0 ∧ memory_ok w0 []) as Hinit.
  { split; [split|].
    - rewrite Hempty. apply empty_store_ok.
    - intros room e. unfold channel_log. rewrite Hg, (proj1 (fs_empty _ _ Hfit)), lookup_empty. by intros ?%elem_of_nil.
    - unfold memory_ok. rewrite Hg. destruct (memory_engine (rn_gateway s)) as [client|] eqn:Hme; [|done].
      destruct (fs_queue _ _ Hfit client Hme) as [Hq _]. unfold queue_bounded. rewrite Hq. simpl.
      split_and!; [lia|constructor|constructor]. }
  assert (serving (w, taken).1 ∧ memory_ok (w, taken).1 (w, taken).2) as [[? ?] ?]; [|done].
  revert Hinit. change (serving w0 ∧ memory_ok w0 []) with (serving (w0, @nil RoomEvent).1 ∧ memory_ok (w0, @nil RoomEvent).1 (w0, @nil RoomEvent).2).
  generalize (w0, @nil RoomEvent) (w, taken) Hrtc. induction 1 as [|p p1 p2 Hstep _ IH]; [done|].
  intros Hp. apply IH. by eapply happens_ok.
Qed.
End deployed.
