(* ===== verification/Scenario.v ===== *)
(** * A day in a room

    A concrete run of the gateway, with concrete instances of everything the model takes as a
    parameter: a message is sent, a decision proposed and confirmed, a task started, claimed and
    finished, a session joins and listens. Each theorem with hypotheses is applied to a point of
    this run. *)

From S2P Require Import Prelude Json Text Crates Types ConversationProtocol ConversationTables Protocol Mentions ActionItems MemoryEngine World Store StoreInvariant ConversationContext Catalog ConversationInvariant Rooms RoomsInvariant RoomTheorems Chat Presence Decisions Tasks System AgentService AgentTheorems Auth WebSocket Delivery Sessions.
Local Open Scope string_scope.
Local Open Scope list_scope.
Local Open Scope Z_scope.

Module Scenario.
Import Reference.

(** ** The outside world *)

(** 2023-11-14T22:13:20Z. *)
Definition noon : DateTime := 1700000000 * 1000000000.

#[local] Instance oracle : Oracle := {|
  fresh_uuid n := from_u128 (1000 + N.of_nat n);
  utc_now _ := noon;
  db_now _ := noon;
  outage _ := Up;
|}.

#[local] Instance sha2 : Sha2 := {| sha256_hex s := s |}.
#[local] Instance url_crate : UrlCrate := {| url_parse _ := None |}.
(** No call of a catalogue takes five seconds. *)
#[local] Instance timer : Timer := {| elapsed _ := false |}.
#[local] Instance socket : Socket := {| send_ok _ := true |}.

(** The last [capacity] values are retained. *)
#[local] Instance broadcast : BroadcastChannel := {|
  recv capacity log position :=
    if (capacity <? length log - position)%nat then (Lagged, (length log - capacity)%nat)
    else match log !! position with
         | Some b => (Got b, S position)
         | None => (Pending, position)
         end;
|}.

#[local] Instance broadcast_laws : BroadcastLaws.
Proof.
  split. intros capacity log position Hpos. simpl.
  destruct (Nat.ltb_spec capacity (length log - position)); [lia|].
  destruct (log !! position) eqn:Hl; [done|]. apply lookup_ge_None in Hl. lia.
Qed.

Definition login : Value :=
  json_object [("jsonrpc", Str "2.0"); ("id", Str "1"); ("method", Str "session.authenticate");
               ("params", json_object [("accessToken", Str "token")])].

#[local] Instance serde_json : SerdeJson := {|
  json_from_str s := if String.eqb s "login" then Some login else None;
  json_to_string _ := "";
|}.

Definition ada_id : Uuid := from_u128 0xada.
Definition claims_of_ada (issuer : string) : Value :=
  json_object [("iss", Str issuer); ("sub", json_uuid ada_id); ("n2n_role", Str "human");
               ("exp", json_int 1700003600)].

(** One token, which is Ada's and valid for an hour. *)
#[local] Instance jwt : Jwt := {|
  Key := ();
  parse_jwks _ := Some [];
  decode_header _ := Some {| jh_alg := "RS256"; jh_kid := Some "k" |};
  jwt_verify token _ v now :=
    if String.eqb token "token" && (now + va_reject_expiring_in_less_than v - va_leeway v <=? 1700003600)
    then Some (claims_of_ada (va_issuer v)) else None;
|}.

#[local] Instance jwt_laws : JwtLaws.
Proof.
  split.
  - intros token key v now claims exp Hv _ Hexp. simpl in Hv. case_match eqn:Hb; [|done].
    apply andb_true_iff in Hb as [_ Hb%Z.leb_le]. injection Hv as <-. injection Hexp as <-. done.
  - intros token key v now claims Hv _. simpl in Hv. case_match; [|done]. by simplify_eq.
Qed.

(** ** The run *)

Definition room : Uuid := from_u128 1.
Definition ada : Actor :=
  {| actor_id := ada_id; actor_role := Human; actor_display_name := "Ada";
     actor_expires_at := 1700003600 |}.
Definition bot : Actor :=
  {| actor_id := from_u128 0xb07; actor_role := Agent; actor_display_name := "Bot";
     actor_expires_at := 1700003600 |}.

Definition say (request : N) (text : string) : ValidatedRequest := RChatSend
  {| cs_id := "1"; cs_contract_version := "n2n.room.v1"; cs_request_id := from_u128 request;
     cs_room_id := room; cs_occurred_at := noon; cs_text := text; cs_mentions := [];
     cs_delivery := DeliverRoom |}.
Definition propose : ValidatedRequest := RDecisionPropose
  {| dp_id := "2"; dp_contract_version := "n2n.room.v1"; dp_request_id := from_u128 11;
     dp_room_id := room; dp_occurred_at := noon; dp_title := "Ship"; dp_summary := "On Friday";
     dp_source_event_ids := [] |}.
Definition transition (request decision : N) (action : DecisionAction) : DecisionTransition :=
  {| dt_id := "3"; dt_contract_version := "n2n.room.v1"; dt_request_id := from_u128 request;
     dt_room_id := room; dt_occurred_at := noon; dt_decision_id := from_u128 decision;
     dt_action := action; dt_edited_title := None; dt_edited_summary := None |}.
Definition start : ValidatedRequest := RAgentTaskStart
  {| ts_id := "4"; ts_contract_version := "n2n.room.v1"; ts_request_id := from_u128 13;
     ts_room_id := room; ts_occurred_at := noon; ts_agent_id := REFERENCE_AGENT_ID;
     ts_skill_id := SummarizeContext; ts_input := "summarise" |}.

Definition empty_gateway : Gateway :=
  {| channels := ∅; presence := ∅; integration := disabled_integration; memory_engine := None |}.
Definition world0 : World :=
  {| committed := empty_db; working := empty_db; locks := []; tx_now := 0;
     gateway := empty_gateway; tick := 0 |}.

Definition world1 : World := perform (OpProcess ada (say 10 "hello")) world0.
Definition world2 : World := perform (OpProcess ada propose) world1.
(** The decision got the identifier 1011. *)
Definition confirm : DecisionTransition := transition 12 1011 Confirm.
Definition world3 : World := perform (OpProcess ada (RDecisionTransition confirm)) world2.
Definition world4 : World := perform (OpProcess ada start) world3.
(** The task got the identifier 1031. *)
Definition task : Uuid := from_u128 1031.
Definition owner : Uuid := from_u128 0x0e.
Definition world5 : World := perform (OpClaim (ClaimQueue REFERENCE_AGENT_ID owner) noon) world4.
Definition lease : AgentTaskLease := granted task owner noon.
Definition finish : AgentTaskUpdate :=
  {| up_update_id := from_u128 14; up_event_type := "agent.task.succeeded";
     up_payload := json_object [("result", json_object [("summary", Str "all well")])];
     up_occurred_at := noon |}.
Definition world6 : World := perform (OpUpdate lease finish) world5.

Example the_run :
  ev_event_type <$> room_events (committed world6) =
  ["message.created"; "decision.proposed"; "decision.confirmed"; "agent.task.requested";
   "agent.task.succeeded"].
Proof. vm_compute. reflexivity. Qed.

Lemma always_up t : outage t = Up.
Proof. done. Qed.

(** Every world of the run is well formed. *)
Lemma perform_ok op w : store_ok (committed w) → store_ok (committed (perform op w)).
Proof. intros Hok. eapply evolves_store_ok; [apply Hok|by apply perform_evolves]. Qed.

Lemma store_ok0 : store_ok (committed world0).
Proof. apply empty_store_ok. Qed.
Lemma store_ok1 : store_ok (committed world1).
Proof. apply perform_ok, store_ok0. Qed.
Lemma store_ok2 : store_ok (committed world2).
Proof. apply perform_ok, store_ok1. Qed.
Lemma store_ok3 : store_ok (committed world3).
Proof. apply perform_ok, store_ok2. Qed.
Lemma store_ok4 : store_ok (committed world4).
Proof. apply perform_ok, store_ok3. Qed.
Lemma store_ok5 : store_ok (committed world5).
Proof. apply perform_ok, store_ok4. Qed.

Definition ok0 : db_ok (committed world0) := proj1 store_ok0.
Definition ok2 : db_ok (committed world2) := proj1 store_ok2.
Definition ok3 : db_ok (committed world3) := proj1 store_ok3.
Definition ok4 : db_ok (committed world4) := proj1 store_ok4.
Definition ok5 : db_ok (committed world5) := proj1 store_ok5.

(** The answer of a computation, and what it leaves. *)
Lemma run_of {A B} (p : A * B) a : p.1 = a → p = (a, p.2).
Proof. by intros <-; destruct p. Qed.

(** Worlds with logs of different lengths differ. *)
Lemma grown (d d' : Db) : length (room_events d) ≠ length (room_events d') → d' ≠ d.
Proof. by intros Hl ->. Qed.

(** ** Requests *)

Definition answer1 : result RpcError ProcessedRequest := (process ada (say 10 "hello") world0).1.

Lemma run1 : process ada (say 10 "hello") world0 = (answer1, world1).
Proof. apply surjective_pairing. Qed.



Lemma process_conflict_witness :
  ∃ w2, process ada (say 10 "goodbye") world1 = (Err conflicting_duplicate, w2) ∧
        committed w2 = committed world1.
Proof.
  apply (process_conflict ada (say 10 "hello") world0 answer1 world1 ada (say 10 "goodbye")
           always_up ok0 run1); [|done|done|done|done|done].
  apply grown. vm_compute. done.
Defined.

Lemma process_authority_witness :
  process bot (RDecisionTransition confirm) world2 = (Err forbidden, world2).
Proof. apply (proj1 (process_authority bot (RDecisionTransition confirm) world2)); reflexivity. Defined.

Lemma process_isolation_witness :
  room_log (from_u128 2) (committed world1) = room_log (from_u128 2) (committed world0).
Proof.
  apply (process_isolation ada (say 10 "hello") world0 answer1 world1 (from_u128 2) ok0 run1).
  intros Heq. apply (f_equal (option_map u128)) in Heq. vm_compute in Heq. discriminate.
Defined.

(** A message to the built-in agent. *)
Definition ask : ChatSend :=
  {| cs_id := "5"; cs_contract_version := "n2n.room.v1"; cs_request_id := from_u128 15;
     cs_room_id := room; cs_occurred_at := noon;
     cs_text := String.append "@action-items" (String LF "- Ship it | owner: Ada");
     cs_mentions := [MentionParticipant ACTION_ITEMS_AGENT_ID "action-items"];
     cs_delivery := DeliverRoom |}.


(** ** Decisions *)

Lemma process_refines_decision_machine_witness :
  committed world3 = committed world2 ∨
  ∃ evs, room_events (committed world3) = room_events (committed world2) ++ evs ∧
    move (RDecisionTransition confirm) (decisions (committed world2)) (decisions (committed world3))
      (ev_event_type <$> evs).
Proof.
  apply (process_refines_decision_machine ada (RDecisionTransition confirm) world2
           (process ada (RDecisionTransition confirm) world2).1 world3 ok2).
  apply surjective_pairing.
Defined.

Definition ship_it : DecisionRow :=
  {| dc_room_id := room; dc_status := "active"; dc_title := "Ship"; dc_summary := "On Friday";
     dc_derived_from_decision_id := None; dc_source_event_ids := []; dc_created_at := noon;
     dc_updated_at := noon |}.

Lemma settled_decision_immutable_witness :
  decisions (committed (perform (OpProcess ada (say 16 "really?")) world3)) !! from_u128 1011 =
  Some ship_it.
Proof.
  apply (settled_decision_immutable [(ada, say 16 "really?")] world3 _ _ ship_it).
  - econstructor; [apply surjective_pairing|constructor].
  - exact ok3.
  - vm_compute. reflexivity.
  - discriminate.
  - intros actor r [[=]|[]%elem_of_nil]%elem_of_cons.
Defined.

(** A second confirmation comes too late. *)
Lemma transition_refused_witness :
  ∃ w', process ada (RDecisionTransition (transition 17 1011 Confirm)) world3 =
          (Err invalid_transition, w') ∧ committed w' = committed world3.
Proof.
  apply (transition_refused ada (transition 17 1011 Confirm) world3 invalid_transition always_up);
    [reflexivity|vm_compute; reflexivity..].
Defined.

(** ** Tasks *)

Lemma claim_first_come_witness :
  ∃ lease w', claim_oldest_queued_agent_task REFERENCE_AGENT_ID owner noon world4 = (Ok lease, w').
Proof. apply (proj1 (claim_first_come REFERENCE_AGENT_ID owner noon world4 ok4)), always_up. Defined.

Definition claimed : TaskRow :=
  default (queued_task ada_id {| ts_id := ""; ts_contract_version := ""; ts_request_id := room;
             ts_room_id := room; ts_occurred_at := 0; ts_agent_id := room;
             ts_skill_id := SummarizeContext; ts_input := "" |} 0 0)
    (agent_tasks (committed world5) !! task).

(** Another worker asks for the task while the first holds its lease. *)
Lemma lease_exclusive_witness :
  agent_tasks (committed (run_claim (ClaimTask task (from_u128 0x0f)) noon world5).2) !! task =
    Some claimed.
Proof.
  apply (lease_exclusive (ClaimTask task (from_u128 0x0f)) noon world5
           (run_claim (ClaimTask task (from_u128 0x0f)) noon world5).1 _ task claimed
           (noon + AGENT_TASK_LEASE_DURATION) ok5 (surjective_pairing _)).
  - vm_compute. reflexivity.
  - vm_compute. reflexivity.
  - vm_compute. reflexivity.
Defined.

Definition answer6 : result StoreError AgentTaskUpdateResult :=
  (record_agent_task_update_with_outcome lease finish world5).1.

Lemma run6 : record_agent_task_update_with_outcome lease finish world5 = (answer6, world6).
Proof. apply surjective_pairing. Qed.



(** ** The whole system *)

Lemma reaches3 : reaches world0 world3.
Proof. do 3 apply reaches_step. apply reaches_refl. Qed.

Lemma room_logs_gapless_witness :
  ev_sequence <$> room_log room (committed world3) =
    seqZ 1 (Z.of_nat (length (room_log room (committed world3)))) ∧
  NoDup (ev_event_id <$> room_events (committed world3)).
Proof. exact (room_logs_gapless world0 world3 room eq_refl reaches3). Defined.

Lemma room_logs_append_only_witness :
  room_log room (committed world0) `prefix_of` room_log room (committed world3).
Proof. exact (room_logs_append_only world0 world3 room store_ok0 reaches3). Defined.

Definition finished_row : TaskRow := default claimed (agent_tasks (committed world6) !! task).

(** A worker tries to claim the finished task. *)
Definition world7 : World := perform (OpClaim (ClaimTask task owner) (noon + seconds 3600)) world6.

Lemma finished_task_final_witness :
  agent_tasks (committed world7) !! task = Some finished_row.
Proof.
  apply (finished_task_final world6 world7 task finished_row).
  - apply perform_ok, store_ok5.
  - apply reaches_step, reaches_refl.
  - vm_compute. reflexivity.
  - left. vm_compute. reflexivity.
Defined.

Lemma events_after_exact_witness :
  ∃ w', events_after room 1 world3 = (Ok (drop 1 (room_log room (committed world3))), w') ∧
    committed w' = committed world3 ∧
    take 1 (room_log room (committed world3)) ++ drop 1 (room_log room (committed world3)) =
      room_log room (committed world3).
Proof. exact (events_after_exact room 1 world3 ok3 eq_refl). Defined.

(** ** Agents *)

Definition header : option string := Some (uuid_to_string owner).

(** The agent reads its context: the events before its task and the request itself. *)
Lemma context_shows_requester_view_witness :
  ∃ packet w', context task header world5 = (Ok (ContextBody packet owner), w') ∧
    length (pk_events packet) = 4%nat ∧ is_packet (committed world5) task owner packet.
Proof.
  assert (match (context task header world5).1 with
          | Ok (ContextBody p t) => t = owner ∧ length (pk_events p) = 4%nat
          | _ => False
          end) as Hshape by (vm_compute; split; reflexivity).
  destruct (context task header world5) as [[[|p t|]|[]] w'] eqn:Hrun;
    cbn [fst] in Hshape; [contradiction| |contradiction].
  destruct Hshape as [-> Hlen]. exists p, w'. split; [reflexivity|]. split; [exact Hlen|].
  exact (proj1 (proj2 (context_shows_requester_view task header world5 p owner w' ok5 Hrun))).
Defined.

Definition claimed_task : AgentTaskRecord :=
  {| tk_task_id := task; tk_room_id := room; tk_request_id := from_u128 13;
     tk_requester_id := ada_id; tk_agent_id := REFERENCE_AGENT_ID;
     tk_skill_id := SummarizeContext; tk_input := "summarise"; tk_context_revision := 4;
     tk_state := Running; tk_lease_owner := Some owner;
     tk_lease_expires_at := Some (ls_expires_at lease); tk_created_at := noon;
     tk_updated_at := noon |}.
Definition its_context : AgentTaskContext :=
  {| cx_task := claimed_task; cx_events := room_log room (committed world5) |}.

(** A result that cites an event nobody showed the agent. *)
Definition made_up : NormalizedAgentTaskUpdate :=
  {| nu_event_type := "agent.task.succeeded";
     nu_payload := json_object [("result", json_object
       [("citations", Array [json_uuid (from_u128 404)])])];
     nu_occurred_at := noon |}.

Lemma citations_visible_iff_witness :
  terminal_citations_are_visible (context_packet its_context lease) made_up = true ↔
  ∃ l, Array [json_uuid (from_u128 404)] = Array l ∧
    ∀ v, v ∈ l → ∃ id, as_str v ≫= uuid_parse = Some id ∧
      ((∃ e, e ∈ cx_events its_context ∧ event_visible_to e ada_id = true ∧ ev_event_id e = id) ∨
       (∃ d, d ∈ active_decisions
                   (List.filter (λ e, event_visible_to e ada_id) (cx_events its_context)) ∧
             ad_decision_id d = id)).
Proof.
  apply (citations_visible_iff its_context lease made_up (Array [json_uuid (from_u128 404)]));
    [reflexivity|vm_compute; reflexivity].
Defined.

Example made_up_refused :
  terminal_citations_are_visible (context_packet its_context lease) made_up = false.
Proof. vm_compute. reflexivity. Qed.

(** ** Authentication *)

Definition auth : AuthValidator :=
  {| av_issuer := "https://id.example"; av_audience := "room-gateway"; av_keys := {["k" := ()]} |}.

Lemma authenticated_actor_sound_witness :
  ∃ header kid key claims,
    decode_header "token" = Some header ∧ jh_alg header = "RS256" ∧ jh_kid header = Some kid ∧
    av_keys auth !! kid = Some key ∧
    jwt_verify "token" key (token_validation (av_issuer auth) (av_audience auth)
      ["exp"; "iss"; "aud"; "sub"]) 1700000000 = Some claims ∧
    get "iss" claims = Some (Str (av_issuer auth)) ∧
    (get "sub" claims ≫= as_str) ≫= uuid_parse =
      Some (actor_id (default bot (authenticate_access_token auth 1700000000 "token"))) ∧
    get "n2n_role" claims ≫= decode_role =
      Some (actor_role (default bot (authenticate_access_token auth 1700000000 "token"))) ∧
    get "exp" claims = Some (Number (Int
      (actor_expires_at (default bot (authenticate_access_token auth 1700000000 "token"))))) ∧
    1700000000 + 1 ≤
      actor_expires_at (default bot (authenticate_access_token auth 1700000000 "token")).
Proof.
  apply (authenticated_actor_sound auth 1700000000 "token"). vm_compute. reflexivity.
Defined.

(** ** A session *)

Definition join : Join :=
  {| jn_id := "6"; jn_contract_version := "n2n.room.v1"; jn_request_id := from_u128 18;
     jn_room_id := room; jn_occurred_at := noon; jn_after_sequence := Some 1 |}.
Definition conn0 : Conn := {| cn_world := world3; cn_session := fresh_session |}.
Definition conn1 : Conn := (handle_join ada join conn0).2.

Lemma channels_ok3 : channels_ok world3.
Proof.
  intros r e. assert (gateway world3 = empty_gateway) as -> by (vm_compute; reflexivity).
  unfold channel_log. simpl. rewrite lookup_empty. by intros ?%elem_of_nil.
Qed.

Lemma run_join : handle_join ada join conn0 = (Ok true, conn1).
Proof.
  apply run_of. vm_compute. reflexivity.
Qed.

Lemma in_range : 0 ≤ 1 ≤ Z.of_nat (length (room_log room (committed world3))).
Proof. vm_compute. split; discriminate. Qed.

Lemma joined1 : is_Some (se_joined_room (cn_session conn1)).
Proof. vm_compute. eexists. reflexivity. Qed.


(** The session follows the room from its third event. *)
Lemma following1 : following room 3 conn1.
Proof.
  pose proof (wp_Ok _ _ _ _ _ _ (handle_join_spec ada join conn0 ok3 channels_ok3 eq_refl in_range)
    run_join eq_refl joined1) as (_ & Hf & _).
  assert (length (room_log room (committed world3)) = 3%nat) as Hlen by (vm_compute; reflexivity).
  cbn [conn0 cn_world jn_room_id join] in Hf. by rewrite Hlen in Hf.
Qed.

(** Ada says something; her session gets it back through the channel, after the notice of its
    own arrival, which is not sent to her. *)
Definition conn2 : Conn := (handle_room_request ada (say 19 "good night") conn1).2.
Definition conn2' : Conn := (session_turn ada Broadcast conn2).2.
Definition conn3 : Conn := (session_turn ada Broadcast conn2').2.

Lemma asked2 : handle_room_request ada (say 19 "good night") conn1 = (Ok true, conn2).
Proof. refine (run_of (handle_room_request _ _ _) _ _). vm_compute. reflexivity. Qed.

Lemma heard2 : session_turn ada Broadcast conn2 = (Ok true, conn2').
Proof. refine (run_of (session_turn _ _ _) _ _). vm_compute. reflexivity. Qed.

Lemma heard3 : session_turn ada Broadcast conn2' = (Ok true, conn3).
Proof. refine (run_of (session_turn _ _ _) _ _). vm_compute. reflexivity. Qed.

Lemma not_repeated p :
  (process ada (say 19 "good night") (cn_world conn1)).1 = Ok p → pr_duplicate p = false.
Proof.
  assert ((λ r, match r with Ok p => pr_duplicate p | Err _ => false end)
            (process ada (say 19 "good night") (cn_world conn1)).1 = false) as Hd
    by (vm_compute; reflexivity).
  intros Hp. by rewrite Hp in Hd.
Qed.

Lemma live3 : live ada conn1 conn3.
Proof.
  exact (live_turn _ _ _ _ (live_turn _ _ _ _
           (live_request _ _ _ _ _ (live_start _ _) asked2 not_repeated) heard2) heard3).
Qed.

Lemma live_delivery_exact_witness :
  ∃ m, (3 ≤ m ≤ length (room_log room (committed (cn_world conn3))))%nat ∧
    se_last_sequence (cn_session conn3) = Z.of_nat m ∧
    event_frames (se_sent (cn_session conn3)) = event_frames (se_sent (cn_session conn1)) ++
      frames_for ada_id (segment 3 m (room_log room (committed (cn_world conn3)))) ∧
    (se_receiver (cn_session conn3) =
       Some (length (channel_log room (gateway (cn_world conn3)))) →
     ∀ e, BEvent e ∈ channel_log room (gateway (cn_world conn3)) → ev_sequence e ≤ Z.of_nat m).
Proof. exact (live_delivery_exact ada room 3 conn1 conn3 following1 live3). Defined.

Example good_night_delivered : length (event_frames (se_sent (cn_session conn3))) = 1%nat.
Proof. vm_compute. reflexivity. Qed.

Definition report : TaskUpdateRequest :=
  {| tu_update_id := from_u128 20; tu_context_revision := 4; tu_update := made_up |}.

Lemma broadcast_after_commit_witness :
  advances world3 (AgentService.update task header report world3).2.
Proof.
  exact (proj1 (broadcast_after_commit ada (say 19 "good night") task header report conn0 ok3
                  channels_ok3)).
Defined.

Lemma message_gate_witness :
  ∃ continue c', handle_message ada (WebSocket.Text "noise") conn1 = (Ok continue, c') ∧
    committed (cn_world c') = committed (cn_world conn1) ∧
    gateway (cn_world c') = gateway (cn_world conn1) ∧
    ∃ fs, se_sent (cn_session c') = se_sent (cn_session conn1) ++ fs ∧ Forall refusal fs.
Proof.
  apply (message_gate ada "noise" conn1). intros (_ & request & r & Hv & _).
  vm_compute in Hv. discriminate.
Defined.

Definition first_inputs : list FirstInput :=
  [First (Some Ping); First (Some (WebSocket.Text "login"))].

Lemma browser_authentication_sound_witness :
  ∃ pings raw rest request,
    first_inputs = pings ++ First (Some (WebSocket.Text raw)) :: rest ∧ Forall is_ping pings ∧
    validate_request raw = Ok (RSessionAuthenticate request) ∧
    authenticate_access_token auth (clock conn0) (sa_access_token request) =
      Some (default bot (authenticate_access_token auth 1700000000 "token")) ∧
    se_sent (cn_session (browser_authentication auth first_inputs conn0).2) =
      [FValue (authenticated_response (sa_id request)
                 (default bot (authenticate_access_token auth 1700000000 "token")))].
Proof.
  apply (browser_authentication_sound auth first_inputs conn0
           (Some (default bot (authenticate_access_token auth 1700000000 "token")))
           (browser_authentication auth first_inputs conn0).2).
  apply run_of. vm_compute. reflexivity.
Defined.

#[local] Instance uri_crate : UriCrate := {|
  uri_parse s :=
    if String.eqb s "https://app.example"
    then Some {| uri_scheme := Some "https"; uri_authority := Some "app.example" |} else None;
|}.

(** A page of another site asks for a connection. *)
Lemma upgrade_gate_witness :
  ∃ policy, websocket_policy_new ["https://app.example"] (seconds 5) = Ok policy ∧
    match websocket_upgrade policy auth 1700000000 (Visible "https://evil.example") NoHeader with
    | AwaitAuthentication =>
        ∃ o, Visible "https://evil.example" = Visible o ∧ o ∈ ["https://app.example"] ∧ proper_origin o
    | StartSession actor =>
        Visible "https://evil.example" = NoHeader ∧
        ∃ v, NoHeader = Visible v ∧ authenticate_bearer auth 1700000000 (Some v) = Some actor
    | Rejected status _ =>
        status = 401 ∧ Visible "https://evil.example" = NoHeader ∨
        status = 403 ∧ Visible "https://evil.example" ≠ NoHeader ∧
          ∀ o, Visible "https://evil.example" = Visible o → o ∉ ["https://app.example"]
    end.
Proof.
  eexists. split; [reflexivity|].
  apply (upgrade_gate ["https://app.example"] (seconds 5)). reflexivity.
Defined.

Lemma presence_counts_witness :
  ∃ bs w', for_each presence_step [Enter room ada; Enter room bot; Enter room ada; Leave room ada_id]
             world0 = (Ok bs, w') ∧ connections room ada_id (gateway w') = 1%nat.
Proof.
  exact (presence_counts [Enter room ada; Enter room bot; Enter room ada; Leave room ada_id] room
           ada_id world0 eq_refl).
Defined.
End Scenario.
