(* ===== verification/ConversationScenario.v ===== *)
(** * A conversation with the agent

    A concrete run of the conversation service: Ada asks the agent, a worker claims the turn,
    reports its reply, and both requests are repeated; a browser reads models from the catalogue
    behind the bridge; the gateway starts from an environment. The theorems about conversations
    are applied to points of this run. *)

From S2P Require Import Prelude Json Text Crates Types ConversationProtocol StrictJson ConversationTables Protocol Mentions ActionItems MemoryEngine World Store StoreInvariant ConversationContext Catalog Rooms ConversationStore ConversationTurns ConversationUpdates ConversationInvariant ConversationSteps ConversationClaims ConversationReports ConversationReserve CatalogBridge RoomsInvariant RoomTheorems Tasks System ConversationTheorems Auth WebSocket Delivery Noninterference ConversationService ServiceTheorems Config Http HttpFrame Deployment.
From Stdlib Require Import Ascii.
Local Open Scope string_scope.
Local Open Scope list_scope.
Local Open Scope Z_scope.

Module Conversation.
Import Reference.

(** ** The outside world *)

(** 2023-11-14T22:13:20Z, and a token that is good for an hour. *)
Definition noon : DateTime := 1700000000 * 1000000000.
Definition hour_later : Z := 1700003600.

#[local] Instance oracle : Oracle := {|
  fresh_uuid n := from_u128 (1000 + N.of_nat n);
  utc_now _ := noon;
  db_now _ := noon;
  outage _ := Up;
|}.
#[local] Instance sha2 : Sha2 := {| sha256_hex s := s |}.
#[local] Instance url_crate : UrlCrate := {| url_parse _ := None |}.
#[local] Instance timer : Timer := {| elapsed _ := false |}.
#[local] Instance socket : Socket := {| send_ok _ := true |}.
#[local] Instance broadcast : BroadcastChannel := {|
  recv _ log position :=
    match log !! position with Some b => (Got b, S position) | None => (Pending, position) end;
|}.

(** What a browser writes to its socket, by the name of the text: to join the room, and a message. *)
Definition frame_of (text : string) : option Value :=
  if String.eqb text "join" then
    Some (encode_request (RJoin
      {| jn_id := "1"; jn_contract_version := "n2n.room.v1"; jn_request_id := from_u128 29;
         jn_room_id := from_u128 1; jn_occurred_at := noon; jn_after_sequence := None |}))
  else if String.eqb text "hello" then
    Some (encode_request (RChatSend
      {| cs_id := "2"; cs_contract_version := "n2n.room.v1"; cs_request_id := from_u128 30;
         cs_room_id := from_u128 1; cs_occurred_at := noon; cs_text := "hello"; cs_mentions := [];
         cs_delivery := DeliverRoom |}))
  else None.
#[local] Instance serde_json : SerdeJson := {| json_from_str := frame_of; json_to_string _ := "" |}.
#[local] Instance hash_order : HashOrder := {| first_key _ := 0%nat |}.
#[local] Instance url_decoding : UrlDecoding := {| percent_decode s := Some s; form_parse _ := [] |}.

Definition policy : ConversationPolicy :=
  {| cp_enabled := true; cp_policy_revision := "p1"; cp_guidance_revision := "g1";
     cp_catalog_revision := "c1"; cp_model := "m1"; cp_reasoning_effort := "low";
     cp_models := [{| md_id := "m1"; md_reasoning_efforts := ["low"; "high"] |}];
     cp_max_context_bytes := 1048576; cp_max_records := 2000; cp_turn_deadline_seconds := 180;
     cp_interrupt_grace_seconds := 5 |}.

Definition gateway0 : Gateway :=
  {| channels := ∅; presence := ∅; memory_engine := None;
     integration := {| ci_policy := policy; ci_catalog := true; ci_cursors := ∅; ci_bridge_cursors := ∅ |} |}.
Definition world0 : World :=
  {| committed := empty_db; working := empty_db; locks := []; tx_now := 0; gateway := gateway0; tick := 0 |}.

(** ** The run *)

Definition room : Uuid := from_u128 1.
Definition ada_id : Uuid := from_u128 0xada.
Definition ada : Actor :=
  {| actor_id := ada_id; actor_role := Human; actor_display_name := "Ada"; actor_expires_at := hour_later |}.
Definition expiry : DateTime := hour_later * 1000000000.

Definition ask : Value :=
  json_object
    [("roomId", json_uuid room); ("requestId", json_uuid (from_u128 10)); ("agentId", json_uuid CODEX_AGENT_ID);
     ("mentions", Array [json_object [("type", Str "participant"); ("id", json_uuid CODEX_AGENT_ID);
                                      ("token", Str "codex-agent")]]);
     ("text", Str "@codex-agent what is left?"); ("occurredAt", Str "0x0")].

Definition reserve_ask : World → result ConversationError ConversationReservation * World :=
  reserve_inner policy ada ask expiry None true.
Definition world1 : World := (reserve_ask world0).2.
Definition answer1 := (reserve_ask world0).1.
Definition world2 : World := (ConversationTurns.claim policy "worker" world1).2.
Definition answer2 := (ConversationTurns.claim policy "worker" world1).1.

(** The task got the identifier 1008 and its lease the token 1028. *)
Definition task : Uuid := from_u128 1008.
Definition token : Uuid := from_u128 1028.
Definition reply : Value :=
  json_object
    [("taskId", json_uuid task); ("generation", json_int 1); ("contextDigest", Str "");
     ("updateId", json_uuid (from_u128 20)); ("ordinal", json_int 1); ("kind", Str "completed");
     ("data", json_object
        [("conversationId", json_uuid (from_u128 1007)); ("generation", json_int 1);
         ("consumedRevision", json_int 1); ("contextDigest", Str ""); ("assistantText", Str "nothing");
         ("citations", Array []); ("effectiveSettings", Null); ("usage", Null)])].
Definition world3 : World := (record_update policy task token reply world2).2.
Definition answer3 := (record_update policy task token reply world2).1.

(** Both requests again, at the end. *)
Definition answer4 := (record_update policy task token reply world3).1.
Definition answer5 := (reserve_ask world3).1.

Example the_conversation :
  ev_actor_role <$> room_events (committed world3) = ["human"; "agent"] ∧
  (tn_state <$> turns_of (committed world3) !! task) = Some TnCompleted.
Proof. split; vm_compute; reflexivity. Qed.

(** ** The run is one of the system's *)

Lemma no_catalog : ∀ c : CatalogQuery, None = Some c → catalog_frame c.
Proof. done. Qed.

Lemma world1_performed : world1 = perform (OpReserve policy ada ask expiry None no_catalog true) world0.
Proof. reflexivity. Qed.
Lemma world2_performed : world2 = perform (OpTurnClaim policy "worker") world1.
Proof. reflexivity. Qed.
Lemma world3_performed : world3 = perform (OpTurnUpdate policy task token reply) world2.
Proof. reflexivity. Qed.

Lemma reaches13 : reaches world1 world3.
Proof. rewrite world3_performed, world2_performed. repeat constructor. Qed.
Lemma reaches03 : reaches world0 world3.
Proof. rewrite world3_performed, world2_performed, world1_performed. repeat constructor. Qed.

Lemma reaches02 : reaches world0 world2.
Proof. rewrite world2_performed, world1_performed. repeat constructor. Qed.
Lemma running2 :
  ∃ row, turns_of (committed world2) !! task = Some row ∧ tn_room_id (tn_turn row) = room ∧
    in_flight (tn_state row) = true.
Proof.
  assert ((λ r, (tn_room_id (tn_turn r), in_flight (tn_state r))) <$> turns_of (committed world2) !! task =
          Some (room, true)) as (row & Hrow & Hr)%fmap_Some by (vm_compute; reflexivity).
  exists row. exact (conj Hrow (conj (eq_sym (f_equal fst Hr)) (eq_sym (f_equal snd Hr)))).
Qed.

Lemma store_ok_perform op w : store_ok (committed w) → store_ok (committed (perform op w)).
Proof. intros Hok. eapply evolves_store_ok; [apply Hok|by apply perform_evolves]. Qed.
Lemma tables_ok0 : store_ok (committed world0).
Proof. apply empty_store_ok. Qed.
Lemma tables_ok1 : store_ok (committed world1).
Proof. rewrite world1_performed. apply store_ok_perform, tables_ok0. Qed.
Lemma tables_ok2 : store_ok (committed world2).
Proof. rewrite world2_performed. apply store_ok_perform, tables_ok1. Qed.
Lemma tables_ok3 : store_ok (committed world3).
Proof. rewrite world3_performed. apply store_ok_perform, tables_ok2. Qed.

(** ** Conversations *)

Lemma one_turn_in_flight_witness :
  reaches world0 world2 ∧
  ∃ row c, turns_of (committed world2) !! task = Some row ∧ in_flight (tn_state row) = true ∧
    lease_ok row ∧ conversations_of (committed world2) !! tn_conversation_id (tn_turn row) = Some c ∧
    cv_active_task_id c = Some task ∧ cv_state c ≠ CvSuperseded.
Proof.
  split; [exact reaches02|]. destruct running2 as (row & Hrow & Hroom & Hfly).
  destruct (proj2 (one_turn_in_flight world0 world2 room eq_refl reaches02) task row Hrow Hroom) as (Hl & _ & Hc).
  destruct (Hc Hfly) as (c & Hconv & Hact & Hst). exists row, c. exact (conj Hrow (conj Hfly (conj Hl (conj Hconv (conj Hact Hst))))).
Defined.

Lemma turn_history_kept_witness : turns_evolve (committed world1) (committed world3).
Proof. exact (turn_history_kept world1 world3 tables_ok1 reaches13). Defined.

Definition outcome_of (r : result ConversationError ConversationUpdateOutcome) : ConversationUpdateOutcome :=
  match r with Ok o => o | Err _ => {| uo_response := Null; uo_event := None |} end.
Definition reservation_of (r : result ConversationError ConversationReservation) : ConversationReservation :=
  match r with Ok o => o | Err _ => {| cr_accepted := Null; cr_prompt := None |} end.

Definition claimed_of (r : result ConversationError (option Value)) : option Value :=
  match r with Ok o => o | Err _ => None end.

Lemma run2 : ConversationTurns.claim policy "worker" world1 = (Ok (claimed_of answer2), world2).
Proof.
  rewrite (surjective_pairing (ConversationTurns.claim policy "worker" world1)).
  apply f_equal2; [vm_compute; reflexivity|reflexivity].
Qed.
Example claim_granted : claimed_of answer2 ≠ None.
Proof. vm_compute. discriminate. Qed.
Lemma enacted1 : reserve_ask world0 = (Ok (reservation_of answer1), world1).
Proof. rewrite (surjective_pairing (reserve_ask world0)). apply f_equal2; [vm_compute; reflexivity|reflexivity]. Qed.
Lemma run3 : record_update policy task token reply world2 = (Ok (outcome_of answer3), world3).
Proof.
  rewrite (surjective_pairing (record_update policy task token reply world2)).
  apply f_equal2; [vm_compute; reflexivity|reflexivity].
Qed.
Lemma run4 :
  record_update policy task token reply world3 =
  (Ok (outcome_of answer4), (record_update policy task token reply world3).2).
Proof. rewrite (surjective_pairing (record_update policy task token reply world3)) at 1. apply f_equal2; [vm_compute; reflexivity|reflexivity]. Qed.
Lemma run5 : reserve_ask world3 = (Ok (reservation_of answer5), (reserve_ask world3).2).
Proof. rewrite (surjective_pairing (reserve_ask world3)) at 1. apply f_equal2; [vm_compute; reflexivity|reflexivity]. Qed.

Lemma turn_update_retry_witness :
  uo_event (outcome_of answer4) = None ∧
  (uo_response (outcome_of answer4) = uo_response (outcome_of answer3) ∨
   uo_response (outcome_of answer4) = pg_json (uo_response (outcome_of answer3))).
Proof.
  exact (proj2 (turn_update_retry policy policy task token reply world2 (outcome_of answer3) world3 world3
    (outcome_of answer4) (record_update policy task token reply world3).2 tables_ok2 run3 (reaches_refl world3) run4)).
Defined.




Lemma reserve_retry_witness :
  cr_prompt (reservation_of answer5) = None ∧
  (cr_accepted (reservation_of answer5) = cr_accepted (reservation_of answer1) ∨
   cr_accepted (reservation_of answer5) = pg_json (cr_accepted (reservation_of answer1))).
Proof.
  exact (proj2 (reserve_retry policy policy ada ask expiry expiry None None true true world0
    (reservation_of answer1) world1 world3 (reservation_of answer5) (reserve_ask world3).2
    no_catalog no_catalog tables_ok0 enacted1 reaches13 run5)).
Defined.

(** ** The frozen context *)

Definition world1_tx : World := (begin_tx world1).2.
Definition context1 : Value :=
  match (build_context room (from_u128 1007) 1 0 (from_u128 1009) policy world1_tx).1 with
  | Ok v => v
  | Err _ => Null
  end.
Definition world1_context : World :=
  (build_context room (from_u128 1007) 1 0 (from_u128 1009) policy world1_tx).2.

Lemma context1_run :
  build_context room (from_u128 1007) 1 0 (from_u128 1009) policy world1_tx = (Ok context1, world1_context).
Proof.
  rewrite (surjective_pairing (build_context room (from_u128 1007) 1 0 (from_u128 1009) policy world1_tx)).
  apply f_equal2; [vm_compute; reflexivity|reflexivity].
Qed.

Lemma world1_tx_state : tx_state (committed world1) (gateway world1) noon (committed world1) world1_tx.
Proof. by split. Qed.

Lemma context_discloses_public_witness :
  ∃ revision, discloses_public room (from_u128 1009) 0 policy (committed world1) revision context1.
Proof.
  exact (proj2 (proj2 (context_discloses_public room (from_u128 1007) 1 0 (from_u128 1009) policy
    (committed world1) (gateway world1) noon (committed world1) world1_tx context1 world1_context
    world1_tx_state context1_run))).
Defined.

(** ** The catalogue behind the bridge *)

Definition model_document (id : string) (efforts : list string) : Document :=
  DMap [("id", DStr id); ("displayName", DStr id); ("defaultReasoningEffort", DUnit);
        ("supportedReasoningEfforts", DSeq ((λ e, DMap [("id", DStr e)]) <$> efforts))].
Definition catalog_document : Document :=
  DMap [("profileVersion", DStr PROFILE_VERSION); ("catalogRevision", DStr "c1");
        ("data", DSeq [model_document "m1" ["low"; "max"]; model_document "m2" ["low"]; model_document "m3" []]);
        ("nextCursor", DUnit)].
Definition policy_document : Document :=
  DMap [("enabled", DBool true); ("policyRevision", DStr "p1"); ("guidanceRevision", DStr "g1");
        ("catalogRevision", DStr "c1"); ("model", DStr "m1"); ("reasoningEffort", DStr "low");
        ("models", DSeq [DMap [("id", DStr "m1"); ("reasoningEfforts", DSeq [DStr "low"; DStr "high"])]])].

#[local] Instance json_text : JsonText := {|
  read_document s :=
    if String.eqb s "catalog" then Some catalog_document
    else if String.eqb s "policy" then Some policy_document else None;
|}.
#[local] Instance http_client : HttpClient := {|
  header_value s := Some s;
  client_builds := true;
  http_get _ _ _ := Some {| hr_status := 200; hr_content_length := Some 7;
                            hr_chunks := [Some "cat"; Some "alog"] |};
|}.
#[local] Instance http_client_laws : HttpClientLaws.
Proof. by split. Qed.

Definition bridge : CatalogBridge := {| br_authorization := "Bearer secret" |}.
Definition catalog_value : Value := plain_value catalog_document.
Definition catalog_models : list Value := default [] (as_array (index catalog_value "data")).

Lemma bridge_serves : serves bridge catalog_value.
Proof. intros t. eexists. split; [reflexivity|]. vm_compute. reflexivity. Qed.

(** Two pages of two models and one. *)
Lemma bridge_walk_complete_witness :
  ∃ w', walk 4 (bridge_page bridge) 2 None world0 = (Ok catalog_models, w').
Proof.
  apply (bridge_walk_complete bridge catalog_value catalog_models 2 world0 bridge_serves); [|lia].
  vm_compute. reflexivity.
Defined.

Definition first_page : Value :=
  match (bridge_page bridge CODEX_AGENT_ID None 2 world0).1 with Ok v => v | Err _ => Null end.
Lemma first_page_run :
  bridge_page bridge CODEX_AGENT_ID None 2 world0 =
  (Ok first_page, (bridge_page bridge CODEX_AGENT_ID None 2 world0).2).
Proof.
  rewrite (surjective_pairing (bridge_page bridge CODEX_AGENT_ID None 2 world0)) at 1.
  apply f_equal2; [vm_compute; reflexivity|reflexivity].
Qed.

Lemma bridge_page_sound_witness :
  ∃ reply doc data offset,
    http_get (tick world0) ENDPOINT (br_authorization bridge) = Some reply ∧ document_of reply = Ok doc ∧
    as_array (index doc "data") = Some data ∧ stands_for world0 doc None offset ∧
    offset ≤ Z.of_nat (length data) ∧
    page_at doc data offset 2 first_page (bridge_page bridge CODEX_AGENT_ID None 2 world0).2 ∧
    (known_cursors world0 ≤ CURSOR_LIMIT →
     known_cursors (bridge_page bridge CODEX_AGENT_ID None 2%Z world0).2 ≤ CURSOR_LIMIT)%nat.
Proof. exact (proj2 (proj2 (bridge_page_sound bridge CODEX_AGENT_ID None 2 world0 first_page _ first_page_run))). Defined.

(** ** The service *)

Definition claims_of_ada (issuer : string) : Value :=
  json_object [("iss", Str issuer); ("sub", json_uuid ada_id); ("n2n_role", Str "human"); ("exp", json_int hour_later)].
#[local] Instance jwt : Jwt := {|
  Key := ();
  parse_jwks _ := Some [{| jwk_use := Some "sig"; jwk_alg := Some "RS256"; jwk_kid := Some "k"; jwk_key := Some () |}];
  decode_header _ := Some {| jh_alg := "RS256"; jh_kid := Some "k" |};
  jwt_verify t _ v _ := if String.eqb t "token" then Some (claims_of_ada (va_issuer v)) else None;
|}.
Definition auth : AuthValidator := {| av_issuer := "issuer"; av_audience := "audience"; av_keys := {["k" := ()]} |}.
Definition origins : WebSocketPolicy :=
  {| wp_allowed_origins := {["https://workspace.test"]}; wp_authentication_timeout := seconds 5 |}.

(** GET of the models of the agent, as the room's page does. *)
Definition get_models : HttpRequest :=
  {| hq_method := Get;
     hq_path := String.concat "/" ["/api/agent-conversations/v1/rooms"; uuid_to_string room; "agents";
                                   uuid_to_string CODEX_AGENT_ID; "models"];
     hq_query := None; hq_origin := Visible "https://workspace.test";
     hq_authorization := Visible "Bearer token"; hq_content_type := NoHeader; hq_lease_token := NoHeader;
     hq_request_method := NoHeader; hq_request_headers := NoHeader; hq_body := Some "" |}.
#[local] Instance extractors : Extractors := {|
  json_content_type h := match h with Visible s => String.eqb s "application/json" | _ => false end;
  json_body_limit := 2097152;
  json_rejection _ := bare 422;
  upgradable _ := true;
  upgrade_rejection _ := bare 426;
|}.
Definition serve_models : Handler Served := app (bridge_page bridge) origins auth get_models.

Example models_answered :
  match (serve_models world0).1 with Ok (Answered r) => re_status r | _ => 0 end = 200.
Proof. vm_compute. reflexivity. Qed.

Lemma serving0 : serving world0.
Proof. split; [apply tables_ok0|]. intros r e Hin. by apply elem_of_nil in Hin. Qed.

Lemma app_advances_witness :
  ∃ s w', serve_models world0 = (Ok s, w') ∧ advances world0 w' ∧ serving w'.
Proof.
  exact (app_advances (bridge_page bridge) origins auth get_models world0 (bridge_frame bridge) serving0).
Defined.

(** From another site. *)
Definition foreign : HttpRequest :=
  {| hq_method := Get; hq_path := hq_path get_models; hq_query := None;
     hq_origin := Visible "https://elsewhere.test"; hq_authorization := Visible "Bearer token";
     hq_content_type := NoHeader; hq_lease_token := NoHeader; hq_request_method := NoHeader;
     hq_request_headers := NoHeader; hq_body := Some "" |}.
Definition refusal : Reply := no_store (profile_error ConversationProtocol.Forbidden).

Lemma app_gate_witness :
  admitted origins auth foreign world0 ∨
  settled (committed world0) (gateway world0) world0 ∧ told origins auth foreign world0 (Answered refusal).
Proof. exact (app_gate (bridge_page bridge) origins auth foreign world0 (Answered refusal) world0 eq_refl). Defined.

Definition models_page : Value :=
  match (model_page (bridge_page bridge) (uuid_to_string room) (uuid_to_string CODEX_AGENT_ID) get_models world0).1 with
  | Ok v => v
  | Err _ => Null
  end.
Definition models_world : World :=
  (model_page (bridge_page bridge) (uuid_to_string room) (uuid_to_string CODEX_AGENT_ID) get_models world0).2.
Lemma models_run :
  model_page (bridge_page bridge) (uuid_to_string room) (uuid_to_string CODEX_AGENT_ID) get_models world0 =
  (Ok models_page, models_world).
Proof.
  rewrite (surjective_pairing (model_page (bridge_page bridge) (uuid_to_string room) _ get_models world0)).
  apply f_equal2; [vm_compute; reflexivity|reflexivity].
Qed.

(** Of the three models one is left, with one effort. *)
Lemma models_restricted_witness :
  cp_enabled policy = true ∧
  ∃ data, as_array (index models_page "data") = Some data ∧ Z.of_nat (length data) ≤ 100 ∧
    Forall (permitted policy) data ∧ own_cursors policy models_page models_world.
Proof.
  exact (models_restricted (bridge_page bridge) (uuid_to_string room) (uuid_to_string CODEX_AGENT_ID) get_models
           world0 models_page models_world models_run).
Defined.

(** ** Start-up *)

#[local] Instance uri_crate : UriCrate := {|
  uri_parse _ := Some {| uri_scheme := Some "https"; uri_authority := Some "workspace.test" |};
|}.
#[local] Instance net_addr : NetAddr := {| SocketAddr := string; socket_addr_parse s := Some s |}.
#[local] Instance host : Host := {|
  database_connects _ := true;
  listens _ := true;
  max_permits := 2 ^ 61 - 1;
|}.

Definition environment : Lookup := λ name,
  if String.eqb name "THOUGHT_KHORAL_ALLOWED_ORIGINS" then Some "https://workspace.test"
  else if String.eqb name "THOUGHT_KHORAL_CODEX_POLICY_JSON" then Some "policy"
  else if String.eqb name "THOUGHT_KHORAL_CODEX_CATALOG_BRIDGE_SECRET"
  then Some "0123456789abcdef0123456789abcdef"
  else if String.eqb name "DATABASE_URL" then Some "postgres://database.test/test"
  else if String.eqb name "THOUGHT_KHORAL_OIDC_ISSUER" then Some "issuer"
  else if String.eqb name "THOUGHT_KHORAL_OIDC_AUDIENCE" then Some "audience"
  else if String.eqb name "THOUGHT_KHORAL_OIDC_JWKS" then Some "keys"
  else None.

Definition running : Running :=
  match main environment with
  | Ok s => s
  | Err _ => {| rn_auth := auth; rn_websocket_policy := deny_all; rn_gateway := gateway_new None; rn_bridge := None |}
  end.

Lemma main_fit_to_serve_witness : fit_to_serve environment running.
Proof. apply (main_fit_to_serve environment running). vm_compute. reflexivity. Defined.

(** A queue larger than a channel can be passes the configuration and stops the process. *)
Definition oversized : Lookup := λ name,
  if String.eqb name "THOUGHT_KHORAL_MEMORY_ENGINE_URL" then Some "http://memory.test/ingest"
  else if String.eqb name "THOUGHT_KHORAL_MEMORY_ENGINE_SHARED_SECRET" then Some "shared"
  else if String.eqb name "THOUGHT_KHORAL_MEMORY_ENGINE_QUEUE_CAPACITY" then Some "18446744073709551615"
  else environment name.
Example oversized_queue_panics :
  (∃ config, from_lookup oversized = Ok config) ∧ main oversized = Err StartPanic.
Proof. split; [eexists|]; vm_compute; reflexivity. Qed.

(** ** A deployment *)

(** The same environment with a memory engine, whose host answers every job. *)
Definition wired : Lookup := λ name,
  if String.eqb name "THOUGHT_KHORAL_MEMORY_ENGINE_URL" then Some "http://memory.test/ingest"
  else if String.eqb name "THOUGHT_KHORAL_MEMORY_ENGINE_SHARED_SECRET" then Some "shared"
  else environment name.
#[local] Instance tcp : Tcp := {|
  tcp_connect _ _ := Ok ();
  tcp_write _ _ := Ok ();
  tcp_read_to_end _ := Ok "HTTP/1.1 204 No Content";
  tcp_too_slow _ _ := false;
|}.
Definition deployed : Running :=
  match main wired with Ok s => s | Err _ => running end.
Definition start : World :=
  {| committed := empty_db; working := empty_db; locks := []; tx_now := 0; gateway := rn_gateway deployed; tick := 0 |}.

(** Ada joins over a socket, says hello, reads the models, and the dispatcher takes the event. *)
Definition says (text : string) (w : World) (session : Session) : Conn :=
  (session_turn ada (Incoming (Some (Text text))) {| cn_world := w; cn_session := session |}).2.
Definition there : Conn := says "join" start fresh_session.
Definition said : Conn := says "hello" (cn_world there) (cn_session there).
Definition browsed : World :=
  (app (catalog_of deployed) (rn_websocket_policy deployed) (rn_auth deployed) get_models (cn_world said)).2.
Definition client1 : MemoryEngineClient :=
  default (memory_engine_new {| mc_endpoint := ""; mc_shared_secret := ""; mc_timeout := 0; mc_queue_capacity := 0 |})
    (memory_engine (gateway browsed)).
Definition dispatched : World :=
  with_gateway (with_memory_engine (Some (dispatch_next 0 client1).2) (gateway browsed)) browsed.

Example hello_delivered :
  (dispatch_next 0 client1).1 = (λ e, (e, Finished (Ok ()))) <$> head (room_events (committed browsed)) ∧
  length (room_events (committed browsed)) = 1%nat.
Proof. vm_compute. done. Qed.

Lemma says_happens text w session taken : happens deployed (w, taken) (cn_world (says text w session), taken).
Proof. apply HappensTurn. Qed.
Lemma browse_happens taken : happens deployed (cn_world said, taken) (browsed, taken).
Proof. apply HappensHttp. Qed.
Lemma dispatch_happens : happens deployed (browsed, []) (dispatched, room_events (committed browsed)).
Proof.
  assert (room_events (committed browsed) =
    [] ++ match (dispatch_next 0 client1).1 with Some (event, _) => [event] | None => [] end) as Hev
    by (vm_compute; reflexivity).
  rewrite Hev. apply HappensDispatch. vm_compute. reflexivity.
Qed.
Lemma deployment_run : rtc (happens deployed) (start, []) (dispatched, room_events (committed browsed)).
Proof.
  apply rtc_l with (cn_world there, []); [apply says_happens|].
  apply rtc_l with (cn_world said, []); [apply says_happens|].
  apply rtc_l with (browsed, []); [apply browse_happens|]. apply rtc_once, dispatch_happens.
Qed.

Lemma deployment_safe_witness :
  rtc (happens deployed) (start, []) (dispatched, room_events (committed browsed)) ∧
  store_ok (committed dispatched) ∧ channels_ok dispatched ∧
  memory_ok dispatched (room_events (committed browsed)).
Proof.
  split; [exact deployment_run|].
  apply (deployment_safe wired deployed start);
    [vm_compute; reflexivity|reflexivity|reflexivity|exact deployment_run].
Defined.
End Conversation.

(** Two gateways that agree on a room and differ in another one. *)
Module TwoGateways.
Import Reference.
Import Conversation.
#[local] Existing Instances serde_json socket broadcast sha2 url_crate.

(** Identifiers from 1000 on, of which there are 2^32. *)
#[local] Instance random : Oracle := {|
  fresh_uuid n := from_u128 (1000 + N.of_nat n mod 4294967296);
  utc_now _ := noon;
  db_now _ := noon;
  outage _ := Up;
|}.

Definition secret : RoomEvent :=
  {| ev_event_id := from_u128 5; ev_room_id := from_u128 2; ev_sequence := 1; ev_request_id := from_u128 6;
     ev_event_type := "message.created"; ev_actor_id := from_u128 7; ev_actor_role := "human";
     ev_actor_display_name := Some "Eve"; ev_payload := json_object [("text", Str "secret")];
     ev_occurred_at := noon |}.
Definition other_db : Db := with_events (λ es, es ++ [secret]) empty_db.
Definition other_world : World := with_committed other_db world0.

Lemma other_db_ok : db_ok other_db.
Proof. apply append_row_ok; [exact empty_db_ok|apply not_elem_of_nil|reflexivity]. Qed.

Lemma never_drawn n : from_u128 5 ≠ fresh_uuid n.
Proof.
  intros Heq. apply (f_equal u128) in Heq. unfold fresh_uuid, random, from_u128 in Heq. simpl u128 in Heq.
  pose proof (N.mod_lt (N.of_nat n) 4294967296 ltac:(done)) as Hlt.
  generalize dependent (N.of_nat n mod 4294967296)%N. intros k Heq Hlt.
  rewrite !N.mod_small in Heq; [lia|..]; apply N.lt_trans with 8589934592%N; try done; lia.
Qed.

Lemma worlds_agree : agree room world0 other_world.
Proof.
  split; [|exact empty_db_ok|exact other_db_ok]. split; [done|]. split.
  - by split.
  - split; intros n x Hx; [by apply elem_of_nil in Hx|done..].
  - split; [|done..]. intros n e ->%list_elem_of_singleton Hid. by apply never_drawn in Hid.
Qed.

Definition in_the_room : Session :=
  {| se_joined_room := Some room; se_receiver := Some 0%nat; se_last_sequence := 0; se_sent := [] |}.
Definition hears (w : World) : Conn :=
  (websocket_session ada [Incoming (Some (Text "hello")); Broadcast] {| cn_world := w; cn_session := in_the_room |}).2.

Lemma room_noninterference_witness :
  length (se_sent (cn_session (hears world0))) = 1%nat ∧
  se_sent (cn_session (hears world0)) = se_sent (cn_session (hears other_world)) ∧
  agree room (cn_world (hears world0)) (cn_world (hears other_world)).
Proof.
  split; [vm_compute; reflexivity|].
  apply (room_noninterference ada room [Incoming (Some (Text "hello")); Broadcast] in_the_room world0 other_world);
    [reflexivity|exact worlds_agree].
Defined.
End TwoGateways.
